(* ===== verification/_CoqProject ===== *)
-Q . S2P
Prelude.v
GoStrings.v
Ring.v
RingConc.v
Json.v
Codec.v
Types.v
Durable.v
WritePath.v
Registry.v
Recovery.v
Worker.v
MapReduce.v
Master.v
Jobs.v
Coordinator.v
Upload.v
System.v
Uploader.v
Ingest.v
Plugins.v
PluginLaws.v
Utils.v
Listener.v
Lifecycle.v
Service.v
TaskFaults.v
Network.v
Frames.v
Chunks.v
Results.v
NetworkInv.v
NetworkSafety.v
UploadRetry.v
NetworkData.v
NetworkRecovery.v
NetworkProgress.v
NetworkAtomic.v
NetworkExample.v
Entry.v
Simulation.v
Dashboard.v
DashboardLaws.v
