(* ===== verification/Prelude.v ===== *)
(** * A verification of the map-reduce service

    The program takes files from clients, keeps them in a write-ahead log, hands
    them to a distributed file system (DFS), and has a master split them over
    workers that run a map and a reduce function on each piece. Its parts, under
    [src/mrp/] where nothing else is said, and how they interact:

    - a client - the _uploader_ ([src/cmd/uploader/main.go]) or the dashboard - gets
      a handle and sends records of data for it to the _coordinator_
      ([coordinator.go]), which appends them to the _durable buffer_
      ([durable_buffer.go]): a bounded _ring_ ([ringbuffer.go]) in memory, flushed to
      one log file per handle, and three registries of handles (received and
      completed, uploaded, leased for processing);
    - on a timer, and on request, the coordinator flushes the buffer, decodes the
      log of every completed handle, writes it to the DFS, registers the handle as
      uploaded, and asks the master to start every uploaded handle that nobody
      holds;
    - the _master_ ([master.go]) finds the file in the DFS, splits it at the DFS
      chunk size, sends one request per chunk to the workers, collects their
      results, and when the last one has arrived writes the collated result and
      notifies the coordinator, which releases the handle;
    - a _worker_ ([worker.go]) reads its chunk, maps it, partitions the pairs into
      intermediate files, groups and reduces them, and submits the output. Its two
      functions come from a _plugin_ ([src/plugins/]);
    - the _dashboard_ ([src/dashboard/api/main.go]) simulates jobs, or uploads files
      itself, triggers a job and polls the master for the results;
    - the three services are started by [src/main.go], each behind a _listener_
      ([rpc_listener.go]).

    ** The files

    - [Prelude] (this file): machine integers ([u32], [u64], [i64]), the outcome
      of Go code that may panic or loop ([outcome]), errors as values ([go_error],
      [res], [join_errors]), the interfaces [MapOrder] (a map is enumerated in an
      arbitrary order) and [SortSlice] ([sort.Slice] is some sorting algorithm),
      the tactics and the lemmas on lists, maps and integers shared by the rest.
    - [GoStrings]: the part of [strings], [strconv] and [fmt] the program calls,
      on byte strings, with injectivity and scanning facts for printed numbers.
    - [Json]: the encoder and decoder of [encoding/json] with their round trip,
      compact and indented.
    - [Ring]: [ringbuffer.go] as one thread runs it; the abstract specification is
      the bounded queue [bq_run], the representation invariant [ring_inv].
    - [RingConc]: the same operations interleaved, one atomic access per step,
      by any number of threads.
    - [Codec]: log records, registry entries and log file names, written and read.
    - [Types]: the messages of [rpc_definitions.go] and [types.go].
    - [Durable]: the state [DurableBuffer] and one definition per method of
      [durable_buffer.go], with the names of the source. [WritePath], [Registry]
      and [Recovery] hold the theorems about it.
    - [Worker] and [MapReduce]: [worker.go], and its theorems; the functions
      [Ihash] and [envOrDefault] of [utils.go] are in [Worker].
    - [Master] and [Jobs]: [master.go], and its theorems.
    - [Coordinator] and [Upload]: [coordinator.go], and its theorems. What the DFS
      client promises is the class [DFSClient]; the theorems are proved against it.
    - [System]: one job over the parts composed; [DFSReader] is what the master's and
      workers' DFS clients promise about files the coordinator's client wrote.
    - [Network]: the whole system as a transition system. A [World] has the
      coordinator and what its goroutines hold, the DFS, the master, the disks of the
      workers, the tasks, submissions, collations and notices under way and what each
      client has done. An [event] is what a handler or goroutine does between two
      points where others can come between, or the arrival of a message, its loss,
      the run of a task, a restart of the master; [handle_event] runs the definitions
      of the parts with the failures the event carries; [allowed] is what the
      environment keeps to. A flush is two events (the ring is drained under a lock,
      the files are written after it), an upload is its flush, its list of completed
      handles, one event per handle and the marking, a dispatch is the claim of the
      leases and per handle the start of the job and its end, a submission is what
      happens under the result lock and, when all chunks are there, the writing of the
      result. [Frames] (what each operation leaves alone, whatever fails), [Chunks]
      (what master and workers see of an uploaded file) and [Results] (the invariant
      of the master) are its lemmas on single parts; [TaskFaults] is about one
      failing task. [NetworkAtomic] relates these steps to the operations of
      [Durable], [Coordinator] and [Master] as whole functions.
    - [NetworkInv]: the invariant [world_ok] and its preservation. [NetworkSafety],
      [NetworkData], [NetworkRecovery] and [NetworkProgress] have the theorems; [UploadRetry] adds what a
      DFS promises about a failing write, as the class [PartialWrites];
      [NetworkExample] runs the system on a DFS in memory, has their witnesses and
      shows the two races that lose or reorder data.
    - [Uploader]: [cmd/uploader/main.go], against a client that is a record of
      calls ([Client]) and files that are sequences of reads ([reads_to] is the
      contract of [io.Reader]). [Ingest] puts the coordinator in the place of that
      client and composes the uploader with [System].
    - [Plugins] and [PluginLaws]: the plugins and their loading; what lies beyond
      ASCII in package [unicode] is the class [UnicodeTables].
    - [Utils]: the slice and map helpers of [utils.go].
    - [Listener]: [rpc_listener.go] with the state of the network it uses, as a step
      relation.
    - [Lifecycle]: the monitor goroutine of the buffer, what the shutdown of the
      coordinator does to its log, restarts.
    - [Service]: [Start] and [Close] of the three services ([role]) on top of
      [Listener], as a step relation: [Close] is a script of actions
      ([close_script], one per role) that takes its turns between the steps of the
      loops, the connections and the background tasks of a worker, and waits on the
      wait groups. [Entry]: [src/main.go].
    - [Simulation]: the simulation engine of the dashboard over the class [Float64],
      whose operations have no laws, so what is proved holds for any arithmetic.
    - [Dashboard] and [DashboardLaws]: the rest of the dashboard and its theorems.

    ** How the state corresponds

    A Go struct is a record with the struct's fields, less locks, loggers, channels
    and connections. A [sync.Map] or map is a [gmap]; an enumeration of it goes
    through [map_entries], which is ordered by an instance of [MapOrder], so a
    theorem with that class in its context holds for every order. Directories are
    maps from file names to contents with a modification time; paths are relative
    to the directory they belong to. A failing file operation is a field of
    [Faults], [IoFaults] or [ResultFaults]: which call fails and, for a write, how
    much of it reached the file. Clock readings, environment variables, formatted
    times, random numbers, cancelled contexts and the answers of other processes are
    arguments. Goroutines whose results are collected over a channel (partition
    writers, chunk dispatches) are a list of results and a schedule, the order in
    which they arrive; theorems quantify over the schedule. RPC handlers are
    otherwise atomic steps, as the locks make them ([logMu], [resultMux],
    [uploadMu]). Goroutines that live as long as their service (accept loops,
    connections, the loops that log errors, the monitor) are steps of a relation or
    a sequence of events. Requests of the dashboard arrive decoded, and a response is
    a status with a body.

    Integers are unbounded where the source cannot overflow and wrap explicitly
    where it can: the counters of the ring, durations and clock differences, the
    hash, offsets of chunks, sums of counts, slice bounds of [Chunk].

    ** Loops and fuel

    [Ring.Push] and [Ring.Pop] take the number of turns of their compare-and-swap
    loops; [Ring.Push_spec] and [Ring.Pop_spec] show one turn is enough without
    interference, and the theorems about [DurableBuffer] hold for every positive
    number. [Dashboard.pollForResults] takes the number of its turns; C22 says how
    many are enough. [Utils.Chunk] takes the length of its slice and one more. The
    loops over the reads of a file and [Lifecycle.monitor_loop] run on what they are
    given and are [OutOfFuel] when it does not end them ([uploadFile_terminates]
    shows that a file's reads do). The other loops are structural or run on the
    length of their input, which is enough ([Codec.decode_total],
    [Json.decode_encode_stream]): a loop that a call waits for has a theorem that it
    ends, or ends structurally. [OutOfFuel] and [Panic] are outcomes, and the theorems that say a
    result is [Ret] exclude them.

    ** What is shown

    - The whole system, over every order of its steps (see below for what is one
      step), failure, loss and restart of the master: C2 results are right and stored
      files stay; C8 no handler panics and the invariant holds; C3 every uploaded
      handle can still be completed, by a list of events that is given, without a
      restart; C9 the operations as whole functions are runs of it. When no data is given up (the ring
      never overflows, no handle expires before its flush, the log can be written, no
      flush overtakes another and no upload overtakes the records of its handles): C7
      every record is in exactly one place, C1 the result is that of exactly the bytes
      the client sent, if it sent any, C4 what has been sent can always be brought into the DFS. Further: [upload_overtakes_records] and
      [flushes_reorder_records], runs that do lose or reorder data that way.
    - One run: C5 a job from its start to the collated result; C6 from a file the
      uploader reads to that result; C36 a file too large for the buffer.
    - Ring: C10 refinement of the bounded queue over every sequence of calls, across
      wrap-around of the counters; C14 safety of every interleaving. Further:
      rounding of the capacity, the failure of a ring of one slot.
    - Log format and write path: C29 round trip; C30 [Write] against its abstract
      queue on every branch; C31 [Flush]. Further: torn tails, file names, the two
      ways in which accepted data is lost.
    - Handles: C17, C18 hand-over and leases; C32 deletion of logs, whatever removals
      fail. Further:
      [registry_outlives_log], uniqueness within a run, the invariant of the configured times.
    - Restart and shutdown: C16 recovery; C33 confirmed uploads survive; C19 ids are
      given out again; C20 the order of closing; C21 the life of a service and the order of its shutdown. Further:
      [recovery_duplicates_logs], the listener, and what a second [Listen] does.
    - Worker and plugins: C12 the pipeline against the reference reduction; C27 the
      task as a whole; C28 a failing task, on a DFS that keeps to the reader's
      convention ([reads_fit]); C34 a worker that is named a counting plugin; C35
      what chunk boundaries do to counts. Further: partitioning, reading a chunk, the
      default plugin, the reducers.
    - Master: C13 collation; C25 chunks cover the file; C26 a file the DFS does not
      answer for. Further: dispatch, stale results, the combined output.
    - Coordinator: C15 uploads, whatever log files and DFS do; C11 from a client to the
      DFS. Further: dispatch of uploaded handles, a lost log.
    - Uploader: C24 what is sent. Further: which files, its termination.
    - Dashboard: C22 polling ends; C23 results are never read; C38 the consistency of
      a simulation; C39 uploads; C40 file names. Further: modes, comparisons.
    - Helpers: C37 [Chunk]. Further: grouping, maps. [Entry.roles_agree]: services
      started with the same addresses find each other.

    ** What is not modelled

    Logging, timeouts and connection handling of the RPC packages, signals, the
    parsing of flags, the encoding of the dashboard's responses and its routing, its
    web client. The lock-free reads between the locks of one handler are atomic with
    it, and so is the replay of the logs with respect to other calls. In [Network]
    one task, the start of one job, the upload of one handle and the writing of one
    result are single steps: two copies of a task on one worker do not share their
    files while they run, and two collations of one job do not share their temporary
    file (both can happen in the program and spoil a result, which the findings say:
    C1 and C2 are about runs where they do not; different tasks share no file, C28); the clients are like the uploader, they stop after an error; the monitor is
    not stopped; the DFS answers the master for files or
    not at all while it serves a request (C26 is about the rest); and the coordinator
    is not restarted, since it would give out ids again (C19). The [closed]
    flag of the buffer is an argument of its [Close], since nothing else reads it.
    [strings.ToLower] folds ASCII only outside the plugins, [%q] is modelled for
    printable names, and of a JSON document the decoder keeps numbers as text. *)

From Stdlib Require Export ZArith Lia.
From Stdlib Require Import Ascii DecimalString DecimalN DecimalFacts.
From stdpp Require Export base list gmap strings sorting fin_maps.
From stdpp Require Import options.

#[global] Open Scope Z_scope.

(** A byte is an 8-bit [ascii]: Go strings are byte strings, so [string] models
    a Go string and [list byte] a byte slice. *)
Abbreviation byte := Ascii.ascii.

(** ** Shared automation *)

Create HintDb mrp discriminated.

(** Splits the conjunctions and existentials of the context, then simplifies
    equations. *)
Ltac simpl_hyps :=
  repeat match goal with
  | H : _ ∧ _ |- _ => destruct H
  | H : ∃ _, _ |- _ => destruct H
  | H : Some _ = Some _ |- _ => injection H; clear H; intros; subst
  | H : (_, _) = (_, _) |- _ => injection H; clear H; intros; subst
  end.

(** Case analysis on the scrutinee of the first match or conditional of the
    goal, remembering the equation. *)
Ltac case_goal :=
  match goal with
  | |- context [ match ?x with _ => _ end ] =>
      lazymatch x with
      | context [ match _ with _ => _ end ] => fail
      | _ => let E := fresh "E" in destruct x eqn:E
      end
  end.

(** ** Machine integers

    Go's [uint64] and [int64] values are integers of [Z]; arithmetic wraps
    modulo [2 ^ 64] by going through [u64] or [i64]. *)

Definition u32 (z : Z) : Z := z mod 2 ^ 32.
Definition u64 (z : Z) : Z := z mod 2 ^ 64.
Definition i64 (z : Z) : Z := (z + 2 ^ 63) mod 2 ^ 64 - 2 ^ 63.

Definition max_i64 : Z := 2 ^ 63 - 1.
Definition min_i64 : Z := - 2 ^ 63.

Lemma u64_range z : 0 <= u64 z < 2 ^ 64.
Proof. apply Z.mod_pos_bound. lia. Qed.
Lemma u64_small z : 0 <= z < 2 ^ 64 → u64 z = z.
Proof. apply Z.mod_small. Qed.
Lemma i64_range z : - 2 ^ 63 <= i64 z < 2 ^ 63.
Proof. unfold i64. pose proof (Z.mod_pos_bound (z + 2 ^ 63) (2 ^ 64)). lia. Qed.
Lemma i64_small z : - 2 ^ 63 <= z < 2 ^ 63 → i64 z = z.
Proof. intros. unfold i64. rewrite Z.mod_small; lia. Qed.

(** [i64] only depends on its argument modulo [2 ^ 64]. *)
Lemma i64_proper a b : a mod 2 ^ 64 = b mod 2 ^ 64 → i64 a = i64 b.
Proof.
  intros E. unfold i64. f_equal.
  rewrite (Z.add_mod a), (Z.add_mod b), E by lia. done.
Qed.
Lemma i64_mod a : i64 a mod 2 ^ 64 = a mod 2 ^ 64.
Proof.
  unfold i64. rewrite Zminus_mod, Z.mod_mod, <- Zminus_mod by lia.
  f_equal. lia.
Qed.
Lemma i64_add_l a b : i64 (i64 a + b) = i64 (a + b).
Proof. apply i64_proper. by rewrite Z.add_mod, i64_mod, <- Z.add_mod. Qed.
Lemma i64_u64 a : i64 (u64 a) = i64 a.
Proof. apply i64_proper. unfold u64. by rewrite Z.mod_mod by lia. Qed.

(** The signed difference the ring buffer computes from two unsigned words is
    the true difference of the counters they represent, whenever that
    difference fits in 63 bits. *)
Lemma i64_sub_u64 a b : i64 (i64 (u64 a) - i64 (u64 b)) = i64 (a - b).
Proof.
  apply i64_proper. rewrite !i64_u64.
  rewrite Zminus_mod, !i64_mod, <- Zminus_mod. done.
Qed.
Lemma u64_add_l a b : u64 (u64 a + b) = u64 (a + b).
Proof. unfold u64. by rewrite Z.add_mod_idemp_l by lia. Qed.
Lemma u64_idemp a : u64 (u64 a) = u64 a.
Proof. unfold u64. by rewrite Z.mod_mod by lia. Qed.

#[export] Hint Resolve u64_range i64_range : mrp.

(** ** Control flow of Go functions

    A function body either returns, panics (an index out of range, a nil
    dereference) or, for the loops modelled with fuel, has not returned when
    the fuel is used up. *)

Inductive outcome (A : Type) : Type :=
| Ret (a : A)
| Panic
| OutOfFuel.
Arguments Ret {_} _.
Arguments Panic {_}.
Arguments OutOfFuel {_}.

#[export] Instance outcome_ret : MRet outcome := @Ret.
#[export] Instance outcome_bind : MBind outcome := λ A B f m,
  match m with
  | Ret a => f a
  | Panic => Panic
  | OutOfFuel => OutOfFuel
  end.
#[export] Instance outcome_fmap : FMap outcome := λ A B f m,
  match m with
  | Ret a => Ret (f a)
  | Panic => Panic
  | OutOfFuel => OutOfFuel
  end.

Lemma Ret_inj {A} (a b : A) : Ret a = Ret b → a = b.
Proof. by intros [= ->]. Qed.

(** An indexing expression [l[i]] panics out of range. *)
Definition index {A} (l : list A) (i : Z) : outcome A :=
  if bool_decide (0 <= i) then
    match l !! Z.to_nat i with Some a => Ret a | None => Panic end
  else Panic.

(** The errors the program distinguishes or builds. *)
Inductive go_error : Type :=
| ErrInvalidHandle
| ErrBufferFull
| ErrMsg (msg : string)
| ErrWrap (msg : string) (inner : go_error)
| ErrJoin (errs : list go_error).

(** [(T, error)] results. *)
Inductive res (A : Type) : Type :=
| Ok (a : A)
| Err (e : go_error).
Arguments Ok {_} _.
Arguments Err {_} _.

Lemma Ok_inj {A} (a b : A) : Ok a = Ok b → a = b.
Proof. by intros [= ->]. Qed.

#[export] Instance res_ret : MRet res := @Ok.
#[export] Instance res_bind : MBind res := λ A B f m,
  match m with Ok a => f a | Err e => Err e end.
#[export] Instance res_fmap : FMap res := λ A B f m,
  match m with Ok a => Ok (f a) | Err e => Err e end.

(** [errors.Join], with [None] for a nil error. *)
Definition join_errors (acc : option go_error) (e : go_error) : option go_error :=
  match acc with
  | None => Some (ErrJoin [e])
  | Some (ErrJoin es) => Some (ErrJoin [ErrJoin es; e])
  | Some e0 => Some (ErrJoin [e0; e])
  end.

(** ** Lists *)

Lemma filter_ext_in {A} (P Q : A → Prop) `{∀ x, Decision (P x)} `{∀ x, Decision (Q x)} (l : list A) :
  (∀ x, x ∈ l → P x ↔ Q x) → filter P l = filter Q l.
Proof.
  induction l as [|x l IH]; intros HPQ; [done|]. rewrite !filter_cons, IH by set_solver.
  repeat case_decide; set_solver.
Qed.

Lemma filter_all {A} (P : A → Prop) `{∀ x, Decision (P x)} (l : list A) :
  Forall P l → filter P l = l.
Proof. induction 1; [done|]. by rewrite filter_cons_True; f_equal. Qed.
Lemma filter_none {A} (P : A → Prop) `{∀ x, Decision (P x)} (l : list A) :
  Forall (λ x, ¬ P x) l → filter P l = [].
Proof. induction 1; [done|]. by rewrite filter_cons_False. Qed.

Lemma filter_bind {A B} (P : B → Prop) `{∀ x, Decision (P x)} (f : A → list B) (l : list A) :
  filter P (l ≫= f) = l ≫= λ x, filter P (f x).
Proof. induction l as [|x l IH]; [done|]. by rewrite !bind_cons, filter_app, IH. Qed.

Lemma bind_fmap_l {A B C} (f : A → B) (g : B → list C) (l : list A) :
  (f <$> l) ≫= g = l ≫= λ x, g (f x).
Proof. induction l as [|x l IH]; [done|]. by rewrite fmap_cons, !bind_cons, IH. Qed.

Lemma omap_lookup_seq {A} (l : list A) : omap (λ i, l !! i) (seq 0 (length l)) = l.
Proof.
  induction l as [|x l IH]; [done|]. cbn [length seq]. cbn [omap list_omap lookup list_lookup].
  f_equal. rewrite <- fmap_S_seq. etransitivity; [|exact IH]. clear.
  induction (seq 0 (length l)) as [|i ns IHi]; [done|]. cbn.
  destruct (l !! i); [f_equal|]; exact IHi.
Qed.

(** A bind to which only one element contributes. *)
Lemma bind_single {A B} `{EqDecision A} (f : A → list B) (l : list A) (a : A) :
  NoDup l → (∀ x, x ∈ l → x ≠ a → f x = []) →
  l ≫= f = if decide (a ∈ l) then f a else [].
Proof.
  induction 1 as [|x l Hx Hl IH]; intros Hf; [done|].
  rewrite bind_cons, IH by (intros; apply Hf; set_solver).
  destruct (decide (x = a)) as [->|Hne].
  - rewrite (decide_True (P := a ∈ a :: l)), decide_False by set_solver.
    apply (right_id_L [] (++)).
  - rewrite (Hf x) by set_solver. apply decide_ext. set_solver.
Qed.

Lemma Forall_bind {A B} (P : B → Prop) (f : A → list B) l :
  Forall (λ x, Forall P (f x)) l → Forall P (l ≫= f).
Proof. induction 1; cbn; [done|]. by apply Forall_app. Qed.

(** ** Map iteration order

    Go leaves the iteration order of a map (and of [sync.Map.Range])
    unspecified. Operations that range over a map take the enumeration from
    this class: any enumeration of the entries, without repetition. *)

Class MapOrder := {
  map_entries : ∀ {K : Type} `{Countable K} {V : Type}, gmap K V → list (K * V);
  map_entries_perm : ∀ {K : Type} `{Countable K} {V : Type} (m : gmap K V),
    map_entries m ≡ₚ map_to_list m
}.

#[refine] Definition canonical_order : MapOrder := {|
  map_entries := λ K _ _ V m, map_to_list m
|}.
Proof. done. Defined.

Section map_entries.
Context `{MapOrder} `{Countable K} {V : Type}.
Implicit Types m : gmap K V.

Lemma elem_of_map_entries m k v : (k, v) ∈ map_entries m ↔ m !! k = Some v.
Proof. by rewrite map_entries_perm, elem_of_map_to_list. Qed.
Lemma NoDup_fst_map_entries m : NoDup (map_entries m).*1.
Proof. rewrite map_entries_perm. apply NoDup_fst_map_to_list. Qed.
Lemma NoDup_map_entries m : NoDup (map_entries m).
Proof. rewrite map_entries_perm. apply NoDup_map_to_list. Qed.
Lemma list_to_map_map_entries m : list_to_map (map_entries m) = m.
Proof.
  rewrite (list_to_map_proper _ (map_to_list m)).
  - apply list_to_map_to_list.
  - apply NoDup_fst_map_entries.
  - apply map_entries_perm.
Qed.

(** Deleting, while ranging over the entries, the keys whose entry satisfies
    [P] is filtering. *)
Lemma lookup_foldl_delete (P : K * V → bool) {W} (l : list (K * V)) (acc : gmap K W) k :
  foldl (λ acc e, if P e then delete e.1 acc else acc) acc l !! k =
    if bool_decide (Exists (λ e, P e = true ∧ e.1 = k) l) then None else acc !! k.
Proof.
  revert acc. induction l as [|e l IH]; intros acc; cbn [foldl].
  { reflexivity. }
  rewrite IH. pose proof (Exists_cons (λ e, P e = true ∧ e.1 = k) e l).
  destruct (P e) eqn:HP, (decide (e.1 = k)) as [<-|Hk];
    rewrite ?lookup_delete_eq, ?lookup_delete_ne by done;
    repeat case_bool_decide; try done; exfalso; intuition congruence.
Qed.

Lemma lookup_range_delete (P : K * V → bool) m k :
  foldl (λ acc e, if P e then delete e.1 acc else acc) m (map_entries m) !! k =
    v ← m !! k; if P (k, v) then None else Some v.
Proof.
  rewrite lookup_foldl_delete. case_bool_decide as Hex.
  - apply Exists_exists in Hex as ([k' v] & Hin & HP & [= ->]).
    apply elem_of_map_entries in Hin. rewrite Hin. cbn. by rewrite HP.
  - destruct (m !! k) as [v|] eqn:Hk; cbn; [|done].
    destruct (P (k, v)) eqn:HP; [|done]. destruct Hex.
    apply Exists_exists. exists (k, v). by rewrite elem_of_map_entries.
Qed.

End map_entries.

(** ** Sorting

    [sort.Slice] is not stable: all it promises is a permutation of the input
    in which no later element is less than an earlier one. *)

Class SortSlice := {
  sort_slice : ∀ {A : Type} (le : relation A) `{∀ x y, Decision (le x y)},
    list A → list A;
  sort_slice_perm : ∀ {A : Type} (le : relation A) `{∀ x y, Decision (le x y)} l,
    sort_slice le l ≡ₚ l;
  sort_slice_sorted : ∀ {A : Type} (le : relation A) `{∀ x y, Decision (le x y)} l,
    Total le → Transitive le → StronglySorted le (sort_slice le l)
}.

#[refine] Definition merge_sort_slice : SortSlice := {|
  sort_slice := λ A le _ l, merge_sort le l
|}.
Proof.
  - intros. apply merge_sort_Permutation.
  - intros. by apply StronglySorted_merge_sort.
Defined.
