(* ===== verification/GoStrings.v ===== *)
(** The parts of Go's [strings], [strconv] and [fmt] the program calls, on byte
    strings: affix tests, trimming, splitting, white space, and the decimal
    verbs with the facts about them (injectivity, unambiguous separators,
    printing and scanning back) that the file names and map keys rely on. *)

From S2P Require Import Prelude.
From Stdlib Require Import Ascii DecimalString DecimalN DecimalFacts.
From stdpp Require Import options.

#[local] Arguments String.append !_ _ / : simpl nomatch.

Module GoStrings.

(** ** Affixes *)

Definition HasPrefix (s p : string) : bool := String.prefix p s.

Fixpoint string_rev_app (s acc : string) : string :=
  match s with
  | EmptyString => acc
  | String c s => string_rev_app s (String c acc)
  end.
Definition string_rev (s : string) : string := string_rev_app s EmptyString.

Definition HasSuffix (s p : string) : bool := HasPrefix (string_rev s) (string_rev p).

Fixpoint string_drop (n : nat) (s : string) : string :=
  match n, s with
  | S n, String _ s => string_drop n s
  | _, _ => s
  end.

Fixpoint string_take (n : nat) (s : string) : string :=
  match n, s with
  | S n, String c s => String c (string_take n s)
  | _, _ => EmptyString
  end.

Definition TrimPrefix (s p : string) : string :=
  if HasPrefix s p then string_drop (String.length p) s else s.

Definition TrimSuffix (s p : string) : string :=
  if HasSuffix s p then string_take (String.length s - String.length p) s else s.

(** [strings.Contains]. *)
Fixpoint Contains (s sub : string) : bool :=
  HasPrefix s sub ||
  match s with
  | EmptyString => false
  | String _ s => Contains s sub
  end.

(** [strings.TrimLeft] and [strings.TrimRight] with a cutset of ASCII bytes. *)
Fixpoint TrimLeft (s : string) (cut : list ascii) : string :=
  match s with
  | EmptyString => EmptyString
  | String c s' => if bool_decide (c ∈ cut) then TrimLeft s' cut else s
  end.
Definition TrimRight (s : string) (cut : list ascii) : string :=
  string_rev (TrimLeft (string_rev s) cut).
Definition Trim (s : string) (cut : list ascii) : string :=
  TrimRight (TrimLeft s cut) cut.

(** [strings.Split] on a one-byte separator. *)
Fixpoint Split (s : string) (sep : ascii) : list string :=
  match s with
  | EmptyString => [EmptyString]
  | String c s =>
      if bool_decide (c = sep) then EmptyString :: Split s sep
      else match Split s sep with
           | [] => [String c EmptyString]
           | w :: ws => String c w :: ws
           end
  end.

Fixpoint Join (ws : list string) (sep : string) : string :=
  match ws with
  | [] => EmptyString
  | [w] => w
  | w :: ws => w +:+ sep +:+ Join ws sep
  end.

(** [strings.ToLower] on ASCII letters. *)
Definition lower_byte (c : ascii) : ascii :=
  let n := nat_of_ascii c in
  if bool_decide (65 <= n <= 90)%nat then ascii_of_nat (n + 32) else c.
Fixpoint ToLower (s : string) : string :=
  match s with
  | EmptyString => EmptyString
  | String c s => String (lower_byte c) (ToLower s)
  end.

(** ** White space

    The UTF-8 encodings of the runes [unicode.IsSpace] accepts. Their lead
    bytes never occur inside another rune, so looking for them byte by byte
    finds the same spaces as Go's rune-by-rune scan. *)

Definition bytes_string (l : list nat) : string :=
  foldr (λ n s, String (ascii_of_nat n) s) EmptyString l.

Definition space_encodings : list string :=
  Eval vm_compute in bytes_string <$>
    ([[9]; [10]; [11]; [12]; [13]; [32]; [194; 133]; [194; 160]; [225; 154; 128]]%nat ++
     ((λ i, [226; 128; 128 + i]%nat) <$> seq 0 11) ++
     [[226; 128; 168]; [226; 128; 169]; [226; 128; 175]; [226; 129; 159];
      [227; 128; 128]]%nat).

(** Removes one space from the front, given the encodings. *)
Definition strip_one (encs : list string) (s : string) : option string :=
  (λ e, string_drop (String.length e) s) <$>
    head (filter (λ e, Is_true (HasPrefix s e)) encs).

Fixpoint strip_all (encs : list string) (fuel : nat) (s : string) : string :=
  match fuel with
  | O => s
  | S fuel =>
      match strip_one encs s with
      | None => s
      | Some s' => strip_all encs fuel s'
      end
  end.

Definition TrimSpace (s : string) : string :=
  let s := strip_all space_encodings (String.length s) s in
  string_rev (strip_all (string_rev <$> space_encodings) (String.length s) (string_rev s)).

(** [strings.Fields]: the maximal runs without white space. [cur] is the
    reversed field being read. *)
Fixpoint fields_from (fuel : nat) (s cur : string) : list string :=
  let emit := if bool_decide (cur = EmptyString) then [] else [string_rev cur] in
  match fuel with
  | O => emit
  | S fuel =>
      match strip_one space_encodings s with
      | Some s' => emit ++ fields_from fuel s' EmptyString
      | None =>
          match s with
          | EmptyString => emit
          | String c s' => fields_from fuel s' (String c cur)
          end
      end
  end.
Definition Fields (s : string) : list string :=
  fields_from (S (String.length s)) s EmptyString.

(** ** Decimal verbs *)

Definition fmt_N (n : N) : string := NilZero.string_of_uint (N.to_uint n).

(** [%d] *)
Definition fmt_d (z : Z) : string :=
  if z <? 0 then String "-" (fmt_N (Z.to_N (- z))) else fmt_N (Z.to_N z).

Definition is_digit (c : ascii) : bool :=
  bool_decide (48 <= nat_of_ascii c <= 57)%nat.

Fixpoint span_digits (s : string) : string * string :=
  match s with
  | EmptyString => (EmptyString, EmptyString)
  | String c s' =>
      if is_digit c then let r := span_digits s' in (String c r.1, r.2)
      else (EmptyString, s)
  end.

(** The value of a non-empty run of digits. *)
Definition digits_value (s : string) : option Z :=
  (λ u, Z.of_N (N.of_uint u)) <$> NilZero.uint_of_string s.

(** [strconv.Itoa] and [strconv.Atoi] (64-bit [int]). *)
Definition Itoa : Z → string := fmt_d.

(** An optional sign: whether it is a minus, and what follows. *)
Definition take_sign (s : string) : bool * string :=
  match s with
  | EmptyString => (false, s)
  | String c s' =>
      if bool_decide (c = "-"%char) then (true, s')
      else if bool_decide (c = "+"%char) then (false, s')
      else (false, s)
  end.

Definition signed (neg : bool) (v : Z) : option Z :=
  let v := if neg then - v else v in
  if bool_decide (min_i64 <= v <= max_i64) then Some v else None.

Definition Atoi (s : string) : option Z :=
  let r := take_sign s in
  match span_digits r.2 with
  | (d, EmptyString) => v ← digits_value d; signed r.1 v
  | _ => None
  end.

(** ** Facts about affixes *)

Lemma append_nil_r s : s +:+ EmptyString = s.
Proof. induction s as [|c s IH]; simpl; [done|by rewrite IH]. Qed.
Lemma append_assoc (s1 s2 s3 : string) : s1 +:+ (s2 +:+ s3) = (s1 +:+ s2) +:+ s3.
Proof. induction s1 as [|c s IH]; simpl; [done|by rewrite IH]. Qed.
Lemma length_append (s1 s2 : string) :
  String.length (s1 +:+ s2) = (String.length s1 + String.length s2)%nat.
Proof. induction s1 as [|c s IH]; simpl; [done|by rewrite IH]. Qed.

Lemma string_rev_app_spec s acc : string_rev_app s acc = string_rev s +:+ acc.
Proof.
  unfold string_rev. revert acc. induction s as [|c s IH]; intros acc; simpl; [done|].
  by rewrite IH, (IH (String c EmptyString)), <- append_assoc.
Qed.
Lemma string_rev_cons c s : string_rev (String c s) = string_rev s +:+ String c EmptyString.
Proof. unfold string_rev at 1. simpl. apply string_rev_app_spec. Qed.
Lemma string_rev_append s1 s2 : string_rev (s1 +:+ s2) = string_rev s2 +:+ string_rev s1.
Proof.
  induction s1 as [|c s1 IH]; simpl.
  - by rewrite append_nil_r.
  - by rewrite !string_rev_cons, IH, append_assoc.
Qed.
Lemma string_rev_involutive s : string_rev (string_rev s) = s.
Proof.
  induction s as [|c s IH]; [done|]. by rewrite string_rev_cons, string_rev_append, IH.
Qed.
Lemma length_string_rev s : String.length (string_rev s) = String.length s.
Proof.
  induction s as [|c s IH]; [done|]. rewrite string_rev_cons, length_append, IH. simpl. lia.
Qed.

(** [TrimSpace] leaves a string alone that neither begins nor ends with white
    space. *)
Lemma strip_all_none encs fuel s : strip_one encs s = None → strip_all encs fuel s = s.
Proof. destruct fuel; cbn; [done|]. by intros ->. Qed.
Lemma TrimSpace_fixed s :
  strip_one space_encodings s = None →
  strip_one (string_rev <$> space_encodings) (string_rev s) = None → TrimSpace s = s.
Proof.
  intros H1 H2. unfold TrimSpace. rewrite (strip_all_none _ _ s H1), strip_all_none by done.
  apply string_rev_involutive.
Qed.

Lemma HasPrefix_spec s p : HasPrefix s p = true ↔ ∃ t, s = p +:+ t.
Proof.
  unfold HasPrefix. revert s. induction p as [|c p IH]; intros s; simpl.
  - split; [|by destruct s]. intros _. by exists s.
  - destruct s as [|c' s]; simpl.
    + split; [done|]. by intros (t & ?).
    + destruct (ascii_dec c c') as [<-|Hne]; [rewrite IH|]; split.
      * intros (t & ->). by exists t.
      * intros (t & Heq). simplify_eq. by exists t.
      * done.
      * intros (t & Heq). by simplify_eq.
Qed.

Lemma HasSuffix_spec s p : HasSuffix s p = true ↔ ∃ t, s = t +:+ p.
Proof.
  unfold HasSuffix. rewrite HasPrefix_spec. split.
  - intros (t & E). exists (string_rev t).
    by rewrite <- (string_rev_involutive s), E, string_rev_append, string_rev_involutive.
  - intros (t & ->). exists (string_rev t). apply string_rev_append.
Qed.

Lemma string_drop_append p t : string_drop (String.length p) (p +:+ t) = t.
Proof. induction p as [|c p IH]; simpl; [by destruct t|done]. Qed.
Lemma string_take_append p t : string_take (String.length p) (p +:+ t) = p.
Proof. induction p as [|c p IH]; simpl; [by destruct t|by rewrite IH]. Qed.

Lemma TrimPrefix_append p t : TrimPrefix (p +:+ t) p = t.
Proof.
  unfold TrimPrefix. replace (HasPrefix (p +:+ t) p) with true; [apply string_drop_append|].
  symmetry. apply HasPrefix_spec. by exists t.
Qed.
Lemma TrimSuffix_append p t : TrimSuffix (t +:+ p) p = t.
Proof.
  unfold TrimSuffix. replace (HasSuffix (t +:+ p) p) with true.
  - rewrite length_append, Nat.add_sub. apply string_take_append.
  - symmetry. apply HasSuffix_spec. by exists t.
Qed.

(** ** Facts about decimals *)

Fixpoint string_forall (P : ascii → bool) (s : string) : bool :=
  match s with
  | EmptyString => true
  | String c s => P c && string_forall P s
  end.

Lemma string_of_uint_digits u : string_forall is_digit (NilEmpty.string_of_uint u) = true.
Proof. by induction u. Qed.

Lemma to_uint_nonnil n : N.to_uint n ≠ Decimal.Nil.
Proof.
  intros E. pose proof (Unsigned.of_to n) as Ho. rewrite E in Ho. simpl in Ho.
  subst n. discriminate E.
Qed.

Lemma fmt_N_empty n : fmt_N n = NilEmpty.string_of_uint (N.to_uint n).
Proof.
  unfold fmt_N, NilZero.string_of_uint.
  pose proof (to_uint_nonnil n). by destruct (N.to_uint n).
Qed.

Lemma fmt_N_digits n : string_forall is_digit (fmt_N n) = true.
Proof. rewrite fmt_N_empty. apply string_of_uint_digits. Qed.

Lemma fmt_N_nonempty n : fmt_N n ≠ EmptyString.
Proof.
  rewrite fmt_N_empty. pose proof (to_uint_nonnil n).
  by destruct (N.to_uint n).
Qed.

Lemma digits_value_fmt_N n : digits_value (fmt_N n) = Some (Z.of_N n).
Proof.
  unfold digits_value, fmt_N.
  rewrite NilZero.usu by apply to_uint_nonnil. simpl. by rewrite Unsigned.of_to.
Qed.

#[export] Instance fmt_N_inj : Inj (=) (=) fmt_N.
Proof.
  intros a b E. apply (f_equal digits_value) in E. rewrite !digits_value_fmt_N in E.
  simplify_eq. lia.
Qed.

Definition not_digit_head (s : string) : Prop :=
  match s with EmptyString => True | String c _ => is_digit c = false end.

Lemma span_digits_append d s :
  string_forall is_digit d = true → not_digit_head s →
  span_digits (d +:+ s) = (d, s).
Proof.
  intros Hd Hs. induction d as [|c d IH]; simpl in *.
  - destruct s as [|c s]; [done|]. simpl in *. by rewrite Hs.
  - apply andb_true_iff in Hd as [-> Hd]. by rewrite IH.
Qed.

Lemma span_digits_fmt_N n s :
  not_digit_head s → span_digits (fmt_N n +:+ s) = (fmt_N n, s).
Proof. apply span_digits_append, fmt_N_digits. Qed.

Lemma fmt_d_nonneg z : 0 <= z → fmt_d z = fmt_N (Z.to_N z).
Proof. intros. unfold fmt_d. by destruct (Z.ltb_spec z 0); [lia|]. Qed.

Lemma fmt_N_head_digit n c s : fmt_N n = String c s → is_digit c = true.
Proof.
  intros E. pose proof (fmt_N_digits n) as Hd. rewrite E in Hd. simpl in Hd.
  by apply andb_true_iff in Hd as [-> _].
Qed.

#[export] Instance fmt_d_inj : Inj (=) (=) fmt_d.
Proof.
  intros a b. unfold fmt_d.
  destruct (Z.ltb_spec a 0), (Z.ltb_spec b 0); intros E.
  - simplify_eq. lia.
  - symmetry in E. apply fmt_N_head_digit in E. done.
  - apply fmt_N_head_digit in E. done.
  - simplify_eq. lia.
Qed.

Lemma take_sign_digit c s : is_digit c = true → take_sign (String c s) = (false, String c s).
Proof.
  intros Hc. unfold take_sign.
  by rewrite !bool_decide_eq_false_2 by (intros ->; discriminate Hc).
Qed.

Lemma take_sign_fmt_N n s : take_sign (fmt_N n +:+ s) = (false, fmt_N n +:+ s).
Proof.
  destruct (fmt_N n) as [|c d] eqn:E; [by apply fmt_N_nonempty in E|].
  by apply take_sign_digit, (fmt_N_head_digit n c d).
Qed.

Lemma take_sign_minus s : take_sign (String "-" s) = (true, s).
Proof. done. Qed.

Lemma signed_ok (neg : bool) (z : Z) :
  min_i64 <= (if neg then - z else z) <= max_i64 →
  signed neg z = Some (if neg then - z else z).
Proof. intros Hz. unfold signed. by rewrite bool_decide_eq_true_2. Qed.

Definition numeral_char (c : ascii) : bool := is_digit c || bool_decide (c = "-"%char).

Lemma string_forall_impl (P Q : ascii → bool) s :
  (∀ c, P c = true → Q c = true) → string_forall P s = true → string_forall Q s = true.
Proof.
  intros HPQ. induction s as [|c s IH]; simpl; [done|].
  intros [Hc Hs]%andb_true_iff. by rewrite (HPQ c Hc), IH.
Qed.

Lemma fmt_d_chars z : string_forall numeral_char (fmt_d z) = true.
Proof.
  assert (∀ n, string_forall numeral_char (fmt_N n) = true) as Hn.
  { intros n. eapply string_forall_impl, fmt_N_digits.
    intros c Hc. unfold numeral_char. by rewrite Hc. }
  unfold fmt_d. destruct (z <? 0); simpl; [|done]. by rewrite Hn.
Qed.

(** A separator outside the alphabet of two words determines where they end. *)
Lemma append_sep_inj (P : ascii → bool) c d1 d2 x y :
  string_forall P d1 = true → string_forall P d2 = true → P c = false →
  d1 +:+ String c x = d2 +:+ String c y → d1 = d2 ∧ x = y.
Proof.
  intros H1 H2 Hc. revert d2 H2. induction d1 as [|a d1 IH]; intros [|b d2] H2 E;
    simpl in *; simplify_eq; try done.
  - apply andb_true_iff in H2 as [? _]. congruence.
  - apply andb_true_iff in H1 as [? _]. congruence.
  - apply andb_true_iff in H1 as [_ H1]. apply andb_true_iff in H2 as [_ H2].
    by destruct (IH H1 d2 H2) as [-> ->].
Qed.

Lemma fmt_d_sep_inj c a b x y :
  numeral_char c = false →
  fmt_d a +:+ String c x = fmt_d b +:+ String c y → a = b ∧ x = y.
Proof.
  intros Hc E. destruct (append_sep_inj numeral_char c (fmt_d a) (fmt_d b) x y)
    as [Ed ?]; auto using fmt_d_chars. by apply (inj fmt_d) in Ed.
Qed.

Lemma fmt_d_dash_inj a b x y :
  0 <= a → 0 <= b →
  fmt_d a +:+ String "-" x = fmt_d b +:+ String "-" y → a = b ∧ x = y.
Proof.
  intros Ha Hb E. rewrite !fmt_d_nonneg in E by done.
  destruct (append_sep_inj is_digit "-" (fmt_N (Z.to_N a)) (fmt_N (Z.to_N b)) x y)
    as [Ed ?]; auto using fmt_N_digits. apply (inj fmt_N) in Ed. split; [lia|done].
Qed.

Lemma Atoi_Itoa z : min_i64 <= z <= max_i64 → Atoi (Itoa z) = Some z.
Proof.
  intros Hz. unfold Itoa, fmt_d, Atoi.
  assert (∀ n, span_digits (fmt_N n) = (fmt_N n, EmptyString)) as Hspan.
  { intros n. rewrite <- (append_nil_r (fmt_N n)) at 1. by apply span_digits_fmt_N. }
  destruct (Z.ltb_spec z 0) as [Hneg|Hpos].
  - rewrite take_sign_minus. cbn [fst snd].
    rewrite Hspan, digits_value_fmt_N, Z2N.id by lia. cbn [mbind option_bind].
    rewrite signed_ok by lia. f_equal. lia.
  - rewrite <- (append_nil_r (fmt_N _)), take_sign_fmt_N, append_nil_r. cbn [fst snd].
    rewrite Hspan, digits_value_fmt_N, Z2N.id by lia. cbn [mbind option_bind].
    by rewrite signed_ok.
Qed.

End GoStrings.
