(* ===== verification/Ring.v ===== *)
(** The bounded ring buffer of [mrp/ringbuffer.go], as one thread executes it.

    [DurableBuffer] calls [Push], [Pop] and [Drain] with [logMu] held, so this
    is the model its theorems use; [RingConc] models the lock-free interleavings.
    The state is the Go struct: the slots with their sequence numbers, the two
    monotonic 64-bit counters and the capacity. [ring_inv] ties it to the queue
    it represents and to the unbounded number of values popped so far, of which
    the counters are the residues modulo [2 ^ 64]. *)

From S2P Require Import Prelude.
From stdpp Require Import options.

Module Ring.

(** ** State *)

Record slot (T : Type) := Slot { sequence : Z; val : T }.
Arguments Slot {_} _ _.
Arguments sequence {_} _.
Arguments val {_} _.

Record RingBuffer (T : Type) := MkRing {
  slots : list (slot T);
  head : Z;
  tail : Z;
  capacity : Z
}.
Arguments MkRing {_} _ _ _ _.
Arguments slots {_} _.
Arguments head {_} _.
Arguments tail {_} _.
Arguments capacity {_} _.

(** ** Operations *)

Definition nextPowerOfTwo (n : Z) : Z :=
  if n =? 0 then 1 else
  let n := u64 (n - 1) in
  let n := Z.lor n (Z.shiftr n 1) in
  let n := Z.lor n (Z.shiftr n 2) in
  let n := Z.lor n (Z.shiftr n 4) in
  let n := Z.lor n (Z.shiftr n 8) in
  let n := Z.lor n (Z.shiftr n 16) in
  let n := Z.lor n (Z.shiftr n 32) in
  u64 (n + 1).

Definition NewRingBuffer {T} (zero : T) (capacity : Z) : RingBuffer T :=
  let capacity := nextPowerOfTwo capacity in
  MkRing ((λ i, Slot (Z.of_nat i) zero) <$> seq 0 (Z.to_nat capacity))
    0 0 capacity.

Definition Cap {T} (rb : RingBuffer T) : Z := capacity rb.

(** [tail - head] when the tail is ahead, zero otherwise. *)
Definition Len {T} (rb : RingBuffer T) : Z :=
  if head rb <? tail rb then u64 (tail rb - head rb) else 0.

Definition IsFull {T} (rb : RingBuffer T) : bool := Len rb =? capacity rb.
Definition IsEmpty {T} (rb : RingBuffer T) : bool := Len rb =? 0.

Definition mask {T} (rb : RingBuffer T) : Z := u64 (capacity rb - 1).

Definition set_slot {T} (rb : RingBuffer T) (i : Z) (s : slot T) : list (slot T) :=
  <[Z.to_nat i := s]> (slots rb).

(** One turn of the loop of [Push]. [None] is a turn that ends in
    [runtime.Gosched] and goes round again; run by one thread, the
    compare-and-swap always succeeds. *)
Definition push_turn {T} (rb : RingBuffer T) (v : T) :
    outcome (option (bool * RingBuffer T)) :=
  let t := tail rb in
  let i := Z.land t (mask rb) in
  s ← index (slots rb) i;
  let difference := i64 (i64 (sequence s) - i64 t) in
  if difference =? 0 then
    Ret (Some (true,
      MkRing (set_slot rb i (Slot (u64 (t + 1)) v)) (head rb) (u64 (t + 1))
        (capacity rb)))
  else if difference <? 0 then Ret (Some (false, rb))
  else Ret None.

Fixpoint Push {T} (fuel : nat) (rb : RingBuffer T) (v : T) :
    outcome (bool * RingBuffer T) :=
  match fuel with
  | O => OutOfFuel
  | S fuel =>
      r ← push_turn rb v;
      match r with
      | Some x => Ret x
      | None => Push fuel rb v
      end
  end.

Definition pop_turn {T} (rb : RingBuffer T) :
    outcome (option (option T * RingBuffer T)) :=
  let h := head rb in
  let i := Z.land h (mask rb) in
  s ← index (slots rb) i;
  let difference := i64 (i64 (sequence s) - i64 (u64 (h + 1))) in
  if difference =? 0 then
    Ret (Some (Some (val s),
      MkRing (set_slot rb i (Slot (u64 (h + capacity rb)) (val s)))
        (u64 (h + 1)) (tail rb) (capacity rb)))
  else if difference <? 0 then Ret (Some (None, rb))
  else Ret None.

Fixpoint Pop {T} (fuel : nat) (rb : RingBuffer T) :
    outcome (option T * RingBuffer T) :=
  match fuel with
  | O => OutOfFuel
  | S fuel =>
      r ← pop_turn rb;
      match r with
      | Some x => Ret x
      | None => Pop fuel rb
      end
  end.

(** [Drain] into a destination of length [n]: the values written to it, in
    order (their number is what the Go function returns), and the ring. *)
Fixpoint Drain {T} (fuel : nat) (rb : RingBuffer T) (n : nat) :
    outcome (list T * RingBuffer T) :=
  match n with
  | O => Ret ([], rb)
  | S n =>
      r ← Pop fuel rb;
      match r with
      | (None, rb') => Ret ([], rb')
      | (Some v, rb') =>
          r' ← Drain fuel rb' n;
          Ret (v :: r'.1, r'.2)
      end
  end.

(** ** The abstract bounded queue *)

Definition bq_push {T} (cap : Z) (q : list T) (v : T) : bool * list T :=
  if Z.of_nat (length q) <? cap then (true, q ++ [v]) else (false, q).

Definition bq_pop {T} (q : list T) : option T * list T :=
  match q with
  | [] => (None, [])
  | x :: q' => (Some x, q')
  end.

(** ** Representation *)

Definition pos {T} (rb : RingBuffer T) (p : Z) : nat :=
  Z.to_nat (p mod capacity rb).

(** [rb] holds the queue [q], after [H] values have left it. Every position of
    the window [H, H + capacity) has its slot: the occupied ones carry their
    value and the sequence number of a written slot, the others the sequence
    number of a slot a producer may claim. *)
Record ring_inv {T} (rb : RingBuffer T) (H : Z) (q : list T) : Prop := {
  inv_cap : ∃ k, 1 <= k <= 63 ∧ capacity rb = 2 ^ k;
  inv_slots : Z.of_nat (length (slots rb)) = capacity rb;
  inv_pos : 0 <= H;
  inv_head : head rb = u64 H;
  inv_tail : tail rb = u64 (H + Z.of_nat (length q));
  inv_fit : Z.of_nat (length q) <= capacity rb;
  inv_full : ∀ j x, q !! j = Some x →
    slots rb !! pos rb (H + Z.of_nat j) = Some (Slot (u64 (H + Z.of_nat j + 1)) x);
  inv_free : ∀ p, H + Z.of_nat (length q) <= p < H + capacity rb →
    ∃ y, slots rb !! pos rb p = Some (Slot (u64 p) y)
}.

Definition ring_repr {T} (rb : RingBuffer T) (q : list T) : Prop :=
  ∃ H, ring_inv rb H q.

Section facts.
Context {T : Type}.
Implicit Types (rb : RingBuffer T) (q : list T) (v : T).

Lemma cap_bounds rb H q : ring_inv rb H q → 2 <= capacity rb <= 2 ^ 63.
Proof.
  intros [(k & Hk & ->) _ _ _ _ _ _ _]. split.
  - change 2 with (2 ^ 1) at 1. apply Z.pow_le_mono_r; lia.
  - apply Z.pow_le_mono_r; lia.
Qed.

(** The mask picks the slot of a position. *)
Lemma land_mask rb H q p :
  ring_inv rb H q → Z.land (u64 p) (mask rb) = p mod capacity rb.
Proof.
  intros Hinv. pose proof (cap_bounds _ _ _ Hinv) as Hb.
  destruct Hinv as [(k & Hk & E) _ _ _ _ _ _ _].
  unfold mask. rewrite (u64_small (capacity rb - 1)) by lia. rewrite E.
  change (2 ^ k - 1) with (Z.pred (2 ^ k)). rewrite <- Z.ones_equiv.
  rewrite Z.land_ones by lia. unfold u64.
  apply Z.mod_mod_divide.
  exists (2 ^ (64 - k)). rewrite <- Z.pow_add_r by lia. f_equal. lia.
Qed.

Lemma pos_bound rb H q p : ring_inv rb H q → (pos rb p < length (slots rb))%nat.
Proof.
  intros Hinv. pose proof (cap_bounds _ _ _ Hinv).
  pose proof (inv_slots _ _ _ Hinv). unfold pos.
  pose proof (Z.mod_pos_bound p (capacity rb)). lia.
Qed.

(** Distinct positions of one window have distinct slots. *)
Lemma pos_ne rb H q p p' :
  ring_inv rb H q → p ≠ p' → Z.abs (p - p') < capacity rb → pos rb p ≠ pos rb p'.
Proof.
  intros Hinv Hne Habs E. pose proof (cap_bounds _ _ _ Hinv) as Hb.
  unfold pos in E. set (c := capacity rb) in *.
  pose proof (Z.mod_pos_bound p c ltac:(lia)).
  pose proof (Z.mod_pos_bound p' c ltac:(lia)).
  assert (p mod c = p' mod c) as E' by lia.
  pose proof (Z.div_mod p c ltac:(lia)). pose proof (Z.div_mod p' c ltac:(lia)).
  assert (p - p' = c * (p / c - p' / c)) by lia.
  assert (p / c - p' / c = 0 ∨ 1 <= Z.abs (p / c - p' / c)) as [|] by lia; nia.
Qed.

Lemma pos_shift rb H q p : ring_inv rb H q → pos rb (p + capacity rb) = pos rb p.
Proof.
  intros Hinv. pose proof (cap_bounds _ _ _ Hinv). unfold pos.
  rewrite <- (Z.mul_1_l (capacity rb)) at 1. by rewrite Z.mod_add by lia.
Qed.

Lemma index_pos rb H q p s :
  ring_inv rb H q → slots rb !! pos rb p = Some s →
  index (slots rb) (Z.land (u64 p) (mask rb)) = Ret s.
Proof.
  intros Hinv Hs. erewrite land_mask by done. unfold index.
  pose proof (cap_bounds _ _ _ Hinv).
  rewrite bool_decide_eq_true_2 by (apply Z.mod_pos_bound; lia).
  unfold pos in Hs. by rewrite Hs.
Qed.

(** *** One turn of the loops *)

Lemma full_slot rb H q :
  ring_inv rb H q → Z.of_nat (length q) = capacity rb →
  ∃ x, slots rb !! pos rb (H + Z.of_nat (length q)) = Some (Slot (u64 (H + 1)) x).
Proof.
  intros Hinv Hfull. pose proof (cap_bounds _ _ _ Hinv) as Hb.
  rewrite Hfull, (pos_shift rb H q) by done.
  destruct q as [|x q]; simpl in Hfull; [lia|].
  exists x. pose proof (inv_full _ _ _ Hinv 0%nat x eq_refl) as Hs.
  by rewrite Z.add_0_r in Hs.
Qed.

Lemma push_turn_full rb H q v :
  ring_inv rb H q → Z.of_nat (length q) = capacity rb →
  push_turn rb v = Ret (Some (false, rb)).
Proof.
  intros Hinv Hfull. pose proof (cap_bounds _ _ _ Hinv) as Hb.
  destruct (full_slot _ _ _ Hinv Hfull) as [x Hs].
  unfold push_turn. rewrite (inv_tail _ _ _ Hinv).
  rewrite (index_pos _ _ _ _ _ Hinv Hs); simpl.
  rewrite i64_sub_u64, i64_small by lia.
  destruct (Z.eqb_spec (H + 1 - (H + Z.of_nat (length q))) 0); [lia|].
  by destruct (Z.ltb_spec (H + 1 - (H + Z.of_nat (length q))) 0); [|lia].
Qed.

Lemma push_turn_free rb H q v :
  ring_inv rb H q → Z.of_nat (length q) < capacity rb →
  push_turn rb v = Ret (Some (true,
    MkRing (<[pos rb (H + Z.of_nat (length q)) :=
                Slot (u64 (H + Z.of_nat (length q) + 1)) v]> (slots rb))
      (head rb) (u64 (H + Z.of_nat (length q) + 1)) (capacity rb))).
Proof.
  intros Hinv Hlt. destruct (inv_free _ _ _ Hinv (H + Z.of_nat (length q))) as [y Hs]; [lia|].
  unfold push_turn. rewrite (inv_tail _ _ _ Hinv).
  rewrite (index_pos _ _ _ _ _ Hinv Hs); simpl.
  rewrite i64_sub_u64, i64_small by lia. rewrite Z.sub_diag; simpl.
  unfold set_slot. rewrite (land_mask _ _ _ _ Hinv), u64_add_l. done.
Qed.

Lemma push_inv rb H q v :
  ring_inv rb H q → Z.of_nat (length q) < capacity rb →
  ring_inv
    (MkRing (<[pos rb (H + Z.of_nat (length q)) :=
                Slot (u64 (H + Z.of_nat (length q) + 1)) v]> (slots rb))
      (head rb) (u64 (H + Z.of_nat (length q) + 1)) (capacity rb))
    H (q ++ [v]).
Proof.
  intros Hinv Hlt. pose proof (cap_bounds _ _ _ Hinv) as Hb.
  pose proof (pos_bound rb H q (H + Z.of_nat (length q)) Hinv) as Hp.
  pose proof Hinv as [Hc Hsl HH Hh Ht Hfit Hfull Hfree].
  constructor; unfold pos; simpl; rewrite ?length_insert, ?length_app; simpl;
    try done; try lia.
  - f_equal. lia.
  - intros j x Hj. fold (pos rb (H + Z.of_nat j)).
    destruct (decide (j = length q)) as [->|Hne].
    + rewrite list_lookup_insert_eq by done.
      rewrite lookup_app_r, Nat.sub_diag in Hj by lia. simpl in Hj. by simplify_eq.
    + assert (j < length q)%nat.
      { apply lookup_lt_Some in Hj. rewrite length_app in Hj. simpl in Hj. lia. }
      rewrite lookup_app_l in Hj by lia.
      rewrite list_lookup_insert_ne by (eapply pos_ne; [done|lia|lia]).
      by apply Hfull.
  - intros p Hp'. fold (pos rb p).
    rewrite list_lookup_insert_ne by (eapply pos_ne; [done|lia|lia]).
    apply Hfree. lia.
Qed.

Lemma pop_turn_empty rb H :
  ring_inv rb H [] → pop_turn rb = Ret (Some (None, rb)).
Proof.
  intros Hinv. pose proof (cap_bounds _ _ _ Hinv) as Hb.
  destruct (inv_free _ _ _ Hinv H) as [y Hs]; [simpl; lia|].
  unfold pop_turn. rewrite (inv_head _ _ _ Hinv).
  rewrite (index_pos _ _ _ _ _ Hinv Hs); simpl.
  rewrite u64_add_l, i64_sub_u64, i64_small by lia.
  destruct (Z.eqb_spec (H - (H + 1)) 0); [lia|].
  by destruct (Z.ltb_spec (H - (H + 1)) 0); [|lia].
Qed.

Lemma pop_turn_cons rb H q x :
  ring_inv rb H (x :: q) →
  pop_turn rb = Ret (Some (Some x,
    MkRing (<[pos rb H := Slot (u64 (H + capacity rb)) x]> (slots rb))
      (u64 (H + 1)) (tail rb) (capacity rb))).
Proof.
  intros Hinv. pose proof (inv_full _ _ _ Hinv 0%nat x eq_refl) as Hs.
  rewrite Z.add_0_r in Hs.
  unfold pop_turn. rewrite (inv_head _ _ _ Hinv).
  rewrite (index_pos _ _ _ _ _ Hinv Hs); simpl.
  rewrite u64_add_l, i64_sub_u64, i64_small by lia. rewrite Z.sub_diag; simpl.
  unfold set_slot. rewrite (land_mask _ _ _ _ Hinv), !u64_add_l. done.
Qed.

Lemma pop_inv rb H q x :
  ring_inv rb H (x :: q) →
  ring_inv
    (MkRing (<[pos rb H := Slot (u64 (H + capacity rb)) x]> (slots rb))
      (u64 (H + 1)) (tail rb) (capacity rb))
    (H + 1) q.
Proof.
  intros Hinv. pose proof (cap_bounds _ _ _ Hinv) as Hb.
  pose proof (pos_bound rb H _ H Hinv) as Hp.
  pose proof Hinv as [Hc Hsl HH Hh Ht Hfit Hfull Hfree].
  simpl length in *.
  constructor; unfold pos; simpl; rewrite ?length_insert; try done; try lia.
  - rewrite Ht. f_equal. lia.
  - intros j y Hj. fold (pos rb (H + 1 + Z.of_nat j)).
    pose proof (lookup_lt_Some _ _ _ Hj).
    rewrite list_lookup_insert_ne by (eapply pos_ne; [done|lia|lia]).
    specialize (Hfull (S j) y Hj).
    by replace (H + 1 + Z.of_nat j) with (H + Z.of_nat (S j)) by lia.
  - intros p Hp'. fold (pos rb p).
    destruct (decide (p = H + capacity rb)) as [->|Hne].
    + exists x. rewrite (pos_shift _ _ _ _ Hinv). by apply list_lookup_insert_eq.
    + rewrite list_lookup_insert_ne by (eapply pos_ne; [done|lia|lia]).
      apply Hfree. lia.
Qed.

(** *** The operations against the abstract queue *)

Lemma Push_spec fuel rb q v :
  ring_repr rb q →
  ∃ rb', Push (S fuel) rb v = Ret ((bq_push (Cap rb) q v).1, rb') ∧
         ring_repr rb' (bq_push (Cap rb) q v).2 ∧ Cap rb' = Cap rb.
Proof.
  intros [H Hinv]. unfold bq_push, Cap; simpl.
  destruct (Z.ltb_spec (Z.of_nat (length q)) (capacity rb)) as [Hlt|Hge].
  - rewrite (push_turn_free _ _ _ _ Hinv Hlt); simpl.
    eexists; split_and!; [done| |done]. exists H. by apply push_inv.
  - pose proof (inv_fit _ _ _ Hinv).
    rewrite (push_turn_full rb H q) by (done || lia); simpl.
    eexists; split_and!; [done| |done]. by exists H.
Qed.

Lemma Pop_spec fuel rb q :
  ring_repr rb q →
  ∃ rb', Pop (S fuel) rb = Ret ((bq_pop q).1, rb') ∧
         ring_repr rb' (bq_pop q).2 ∧ Cap rb' = Cap rb.
Proof.
  intros [H Hinv]. destruct q as [|x q]; simpl.
  - rewrite (pop_turn_empty _ _ Hinv); simpl.
    eexists; split_and!; [done| |done]. by exists H.
  - rewrite (pop_turn_cons _ _ _ _ Hinv); simpl.
    eexists; split_and!; [done| |done]. exists (H + 1). by apply pop_inv.
Qed.

Lemma Drain_spec fuel rb q n :
  ring_repr rb q →
  ∃ rb', Drain (S fuel) rb n = Ret (take n q, rb') ∧
         ring_repr rb' (drop n q) ∧ Cap rb' = Cap rb.
Proof.
  revert rb q. induction n as [|n IH]; intros rb q Hr.
  { simpl. by exists rb. }
  cbn [Drain]. destruct (Pop_spec fuel rb q Hr) as (rb1 & -> & Hr1 & Hc1).
  destruct q as [|x q]; cbn.
  { by exists rb1. }
  destruct (IH rb1 q Hr1) as (rb2 & E & Hr2 & Hc2).
  rewrite E; cbn. exists rb2. by rewrite Hc2.
Qed.

Lemma ring_repr_fit rb q : ring_repr rb q → Z.of_nat (length q) <= Cap rb.
Proof. intros [H Hinv]. apply (inv_fit _ _ _ Hinv). Qed.
End facts.

#[export] Hint Resolve cap_bounds pos_bound : mrp.
#[global] Arguments Push : simpl never.
#[global] Arguments Pop : simpl never.
#[global] Arguments Drain : simpl never.

(** ** Capacity rounding *)

(** [x] has its highest bit at [L], and the [w] bits from there down are set. *)
Definition smeared (L w x : Z) : Prop :=
  0 <= x ∧ (∀ i, L - w < i <= L → 0 <= i → Z.testbit x i = true) ∧
  (∀ i, L < i → Z.testbit x i = false).

Lemma smear_step L w x :
  0 <= w → smeared L w x → smeared L (w + w) (Z.lor x (Z.shiftr x w)).
Proof.
  intros Hw (Hx & Hset & Hclear). split_and!.
  - apply Z.lor_nonneg. split; [done|]. by apply Z.shiftr_nonneg.
  - intros i Hi Hi0. rewrite Z.lor_spec, Z.shiftr_spec by done.
    destruct (decide (L - w < i)).
    + by rewrite Hset by lia.
    + rewrite (Hset (i + w)) by lia. apply orb_true_r.
  - intros i Hi. rewrite Z.lor_spec.
    destruct (decide (0 <= i)); [|by rewrite !Z.testbit_neg_r by lia].
    by rewrite Z.shiftr_spec, !Hclear by lia.
Qed.

Lemma smeared_ones L w x : 0 <= L < w → smeared L w x → x = 2 ^ (L + 1) - 1.
Proof.
  intros HL (Hx & Hset & Hclear).
  rewrite <- (Z.ones_equiv (L + 1)) || rewrite Z.sub_1_r, <- (Z.ones_equiv (L + 1)).
  apply Z.bits_inj'. intros i Hi.
  destruct (decide (i <= L)).
  - rewrite Hset, Z.ones_spec_low by lia. done.
  - rewrite Hclear, Z.ones_spec_high by lia. done.
Qed.

Lemma smear_all m :
  0 < m < 2 ^ 64 →
  (let n := Z.lor m (Z.shiftr m 1) in
   let n := Z.lor n (Z.shiftr n 2) in
   let n := Z.lor n (Z.shiftr n 4) in
   let n := Z.lor n (Z.shiftr n 8) in
   let n := Z.lor n (Z.shiftr n 16) in
   Z.lor n (Z.shiftr n 32)) = 2 ^ (Z.log2 m + 1) - 1.
Proof.
  intros Hm. cbv zeta.
  assert (smeared (Z.log2 m) 1 m) as H1.
  { split_and!; [lia| |].
    - intros i Hi _. replace i with (Z.log2 m) by lia. apply Z.bit_log2. lia.
    - intros i Hi. apply Z.bits_above_log2; lia. }
  do 6 apply smear_step in H1; try lia. simpl in H1.
  apply (smeared_ones _ 64); [|exact H1].
  split; [apply Z.log2_nonneg|]. apply Z.log2_lt_pow2; lia.
Qed.

Lemma nextPowerOfTwo_pow n :
  1 <= n <= 2 ^ 63 → nextPowerOfTwo n = 2 ^ Z.log2_up n.
Proof.
  intros Hn. unfold nextPowerOfTwo.
  destruct (Z.eqb_spec n 0); [lia|].
  rewrite (u64_small (n - 1)) by lia.
  destruct (decide (n = 1)) as [->|Hne]; [done|].
  pose proof (smear_all (n - 1) ltac:(lia)) as E; cbv zeta in E |- *; rewrite E.
  replace (2 ^ (Z.log2 (n - 1) + 1) - 1 + 1) with (2 ^ (Z.log2 (n - 1) + 1)) by lia.
  unfold Z.log2_up. destruct (Z.compare_spec 1 n); try lia.
  rewrite Z.sub_1_r, Z.add_1_r. apply u64_small.
  split; [apply Z.pow_nonneg; lia|].
  assert (Z.log2 (Z.pred n) < 63) by (apply Z.log2_lt_pow2; lia).
  apply Z.pow_lt_mono_r; lia.
Qed.

Lemma nextPowerOfTwo_bounds n :
  2 <= n <= 2 ^ 63 → ∃ k, 1 <= k <= 63 ∧ nextPowerOfTwo n = 2 ^ k.
Proof.
  intros Hn. exists (Z.log2_up n). split; [|by apply nextPowerOfTwo_pow; lia].
  split.
  - change 1 with (Z.log2_up 2). apply Z.log2_up_le_mono. lia.
  - change 63 with (Z.log2_up (2 ^ 63)). apply Z.log2_up_le_mono. lia.
Qed.

Lemma NewRingBuffer_inv {T} (zero : T) n :
  2 <= n <= 2 ^ 63 → ring_inv (NewRingBuffer zero n) 0 [].
Proof.
  intros Hn.
  destruct (nextPowerOfTwo_bounds n Hn) as (k & Hk & E).
  assert (2 ^ k <= 2 ^ 63) by (apply Z.pow_le_mono_r; lia).
  assert (0 < 2 ^ k) by (apply Z.pow_pos_nonneg; lia).
  unfold NewRingBuffer.
  constructor; unfold pos; simpl; rewrite ?E; try done; try lia.
  - by exists k.
  - rewrite length_fmap, length_seq. lia.
  - intros p Hp. exists zero. rewrite Z.mod_small by lia.
    rewrite list_lookup_fmap, lookup_seq_lt by lia. simpl. do 2 f_equal.
    rewrite u64_small; lia.
Qed.

Lemma NewRingBuffer_repr {T} (zero : T) n :
  2 <= n <= 2 ^ 63 →
  ring_repr (NewRingBuffer zero n) [] ∧
  Cap (NewRingBuffer zero n) = nextPowerOfTwo n.
Proof. intros Hn. split; [|done]. exists 0. by apply NewRingBuffer_inv. Qed.

(** ** Runs of operations *)

Inductive op (T : Type) := OpPush (v : T) | OpPop | OpDrain (n : nat).
Arguments OpPush {_} _.
Arguments OpPop {_}.
Arguments OpDrain {_} _.

Inductive resp (T : Type) := RPush (ok : bool) | RPop (v : option T) | RDrain (vs : list T).
Arguments RPush {_} _.
Arguments RPop {_} _.
Arguments RDrain {_} _.

Definition run_op {T} (fuel : nat) (rb : RingBuffer T) (o : op T) :
    outcome (resp T * RingBuffer T) :=
  match o with
  | OpPush v => r ← Push fuel rb v; Ret (RPush r.1, r.2)
  | OpPop => r ← Pop fuel rb; Ret (RPop r.1, r.2)
  | OpDrain n => r ← Drain fuel rb n; Ret (RDrain r.1, r.2)
  end.

Fixpoint run {T} (fuel : nat) (rb : RingBuffer T) (os : list (op T)) :
    outcome (list (resp T) * RingBuffer T) :=
  match os with
  | [] => Ret ([], rb)
  | o :: os =>
      r ← run_op fuel rb o;
      r' ← run fuel r.2 os;
      Ret (r.1 :: r'.1, r'.2)
  end.

Definition bq_op {T} (cap : Z) (q : list T) (o : op T) : resp T * list T :=
  match o with
  | OpPush v => let r := bq_push cap q v in (RPush r.1, r.2)
  | OpPop => let r := bq_pop q in (RPop r.1, r.2)
  | OpDrain n => (RDrain (take n q), drop n q)
  end.

Fixpoint bq_run {T} (cap : Z) (q : list T) (os : list (op T)) :
    list (resp T) * list T :=
  match os with
  | [] => ([], q)
  | o :: os =>
      let r := bq_op cap q o in
      let r' := bq_run cap r.2 os in
      (r.1 :: r'.1, r'.2)
  end.

Lemma run_op_spec {T} fuel (rb : RingBuffer T) q o :
  ring_repr rb q →
  ∃ rb', run_op (S fuel) rb o = Ret ((bq_op (Cap rb) q o).1, rb') ∧
         ring_repr rb' (bq_op (Cap rb) q o).2 ∧ Cap rb' = Cap rb.
Proof.
  intros Hr. unfold run_op, bq_op. destruct o as [v| |n].
  - destruct (Push_spec fuel rb q v Hr) as (rb' & -> & ? & ?). by exists rb'.
  - destruct (Pop_spec fuel rb q Hr) as (rb' & -> & ? & ?). by exists rb'.
  - destruct (Drain_spec fuel rb q n Hr) as (rb' & -> & ? & ?). by exists rb'.
Qed.

Lemma run_spec {T} fuel (rb : RingBuffer T) q os :
  ring_repr rb q →
  ∃ rb', run (S fuel) rb os = Ret ((bq_run (Cap rb) q os).1, rb') ∧
         ring_repr rb' (bq_run (Cap rb) q os).2.
Proof.
  revert rb q. induction os as [|o os IH]; intros rb q Hr; cbn [run bq_run].
  { by exists rb. }
  destruct (run_op_spec fuel rb q o Hr) as (rb1 & E1 & Hr1 & Hc1).
  rewrite E1; cbn.
  destruct (IH rb1 _ Hr1) as (rb2 & E2 & Hr2). rewrite Hc1 in E2, Hr2.
  rewrite E2. cbn. by exists rb2.
Qed.

(** ** Properties *)

(** C10: a ring buffer made with a capacity of 2 to 2^63 behaves, over every
    sequence of Push, Pop and Drain calls and however often its 64-bit counters
    wrap around, exactly as a FIFO queue bounded by the rounded-up capacity:
    every call returns (no panic, one turn of its loop is enough) with the
    answer of the queue, and the ring still represents the queue afterwards. *)
Theorem ring_refines_bounded_queue {T} (zero : T) (n : Z) (fuel : nat) (os : list (op T)) :
  2 <= n <= 2 ^ 63 →
  ∃ rb', run (S fuel) (NewRingBuffer zero n) os =
           Ret ((bq_run (nextPowerOfTwo n) [] os).1, rb') ∧
         ring_repr rb' (bq_run (nextPowerOfTwo n) [] os).2.
Proof.
  intros Hn. destruct (NewRingBuffer_repr zero n Hn) as [Hr Hc].
  rewrite <- Hc. by apply run_spec.
Qed.

Lemma ring_refines_bounded_queue_witness :
  let os := [OpPush 1; OpPush 2; OpPush 3; OpPop; OpPush 4; OpDrain 5]%Z in
  (bq_run (nextPowerOfTwo 2) [] os).1 =
    [RPush true; RPush true; RPush false; RPop (Some 1); RPush true; RDrain [2; 4]] ∧
  ∃ rb', run 1 (NewRingBuffer 0 2) os = Ret ((bq_run (nextPowerOfTwo 2) [] os).1, rb') ∧
         ring_repr rb' (bq_run (nextPowerOfTwo 2) [] os).2.
Proof. split; [vm_compute; reflexivity|]. apply (ring_refines_bounded_queue 0 2 0). lia. Defined.

(** [nextPowerOfTwo] is the least power of two not below its argument, for
    every argument up to 2^63; above that no 64-bit power of two exists and the
    final increment wraps to zero. *)
Theorem nextPowerOfTwo_least (n : Z) :
  0 <= n < 2 ^ 64 →
  (n <= 2 ^ 63 →
    (∃ k, 0 <= k ∧ nextPowerOfTwo n = 2 ^ k) ∧ n <= nextPowerOfTwo n ∧
    ∀ j, 0 <= j → n <= 2 ^ j → nextPowerOfTwo n <= 2 ^ j) ∧
  (2 ^ 63 < n → nextPowerOfTwo n = 0).
Proof.
  intros Hn. split.
  - intros Hle. destruct (decide (n = 0)) as [->|Hne].
    { change (nextPowerOfTwo 0) with 1. split_and!; [by exists 0|lia|].
      intros j Hj _. pose proof (Z.pow_pos_nonneg 2 j). lia. }
    rewrite nextPowerOfTwo_pow by lia. split_and!.
    + exists (Z.log2_up n). split; [apply Z.log2_up_nonneg|done].
    + apply Z.log2_up_le_pow2; lia.
    + intros j Hj Hnj. apply Z.pow_le_mono_r; [lia|]. by apply Z.log2_up_le_pow2; lia.
  - intros Hgt. unfold nextPowerOfTwo. destruct (Z.eqb_spec n 0); [lia|].
    rewrite (u64_small (n - 1)) by lia.
    pose proof (smear_all (n - 1) ltac:(lia)) as E; cbv zeta in E |- *; rewrite E.
    assert (Z.log2 (n - 1) = 63) as ->; [|done].
    apply Z.log2_unique; lia.
Qed.

Lemma nextPowerOfTwo_least_witness :
  nextPowerOfTwo 5 = 8 ∧
  (5 <= 2 ^ 63 →
    (∃ k, 0 <= k ∧ nextPowerOfTwo 5 = 2 ^ k) ∧ 5 <= nextPowerOfTwo 5 ∧
    ∀ j, 0 <= j → 5 <= 2 ^ j → nextPowerOfTwo 5 <= 2 ^ j) ∧
  (2 ^ 63 < 5 → nextPowerOfTwo 5 = 0).
Proof. split; [reflexivity|]. apply (nextPowerOfTwo_least 5). lia. Defined.

(** [Len] reports the number of queued values unless the tail counter has
    wrapped past the head counter, in which case it reports an empty buffer;
    [IsFull] and [IsEmpty] inherit that. *)
Theorem Len_exact {T} (rb : RingBuffer T) (H : Z) (q : list T) :
  ring_inv rb H q →
  Len rb = (if u64 H + Z.of_nat (length q) <? 2 ^ 64 then Z.of_nat (length q) else 0) ∧
  (u64 H + Z.of_nat (length q) < 2 ^ 64 →
    (IsEmpty rb = true ↔ q = []) ∧
    (IsFull rb = true ↔ Z.of_nat (length q) = Cap rb)).
Proof.
  intros Hinv. pose proof (cap_bounds _ _ _ Hinv) as Hb.
  pose proof (inv_fit _ _ _ Hinv) as Hfit.
  assert (Len rb = if u64 H + Z.of_nat (length q) <? 2 ^ 64
                   then Z.of_nat (length q) else 0) as HL.
  { unfold Len. rewrite (inv_head _ _ _ Hinv), (inv_tail _ _ _ Hinv).
    rewrite <- u64_add_l. pose proof (u64_range H).
    set (h := u64 H) in *. set (n := Z.of_nat (length q)) in *.
    destruct (Z.ltb_spec (h + n) (2 ^ 64)).
    - rewrite (u64_small (h + n)) by lia.
      destruct (Z.ltb_spec h (h + n)); [|lia]. rewrite u64_small by lia. lia.
    - replace (u64 (h + n)) with (h + n - 2 ^ 64).
      + destruct (Z.ltb_spec h (h + n - 2 ^ 64)); [lia|done].
      + unfold u64. rewrite <- (Z.mod_add _ (-1)) by lia.
        rewrite Z.mod_small; lia. }
  split; [done|]. intros Hlt. unfold IsEmpty, IsFull, Cap. rewrite HL.
  destruct (Z.ltb_spec (u64 H + Z.of_nat (length q)) (2 ^ 64)); [|lia].
  rewrite !Z.eqb_eq. split; [|done]. destruct q; simpl; split; (done || lia).
Qed.

Lemma Len_exact_witness :
  let rb := NewRingBuffer 0 2 in
  Len rb = (if u64 0 + 0 <? 2 ^ 64 then 0 else 0) ∧
  (u64 0 + 0 < 2 ^ 64 →
    (IsEmpty rb = true ↔ @nil Z = []) ∧ (IsFull rb = true ↔ 0 = Cap rb)).
Proof.
  apply (Len_exact (NewRingBuffer 0 2) 0 []), NewRingBuffer_inv. lia.
Defined.

(** With one slot the sequence protocol cannot tell a written slot from a
    free one: a ring made with capacity 0 or 1 accepts a second Push over the
    unread first value, and from then on Pop never returns, whatever the number
    of turns of its loop. *)
Theorem one_slot_ring_overwrites_and_spins {T} (zero : T) (n : Z) (a b : T) :
  0 <= n <= 1 →
  ∃ rb1 rb2,
    Push 1 (NewRingBuffer zero n) a = Ret (true, rb1) ∧
    Push 1 rb1 b = Ret (true, rb2) ∧
    ∀ fuel, Pop fuel rb2 = OutOfFuel.
Proof.
  intros Hn.
  assert (NewRingBuffer zero n = MkRing [Slot 0 zero] 0 0 1) as ->.
  { by assert (n = 0 ∨ n = 1) as [->| ->] by lia. }
  exists (MkRing [Slot 1 a] 0 1 1), (MkRing [Slot 2 b] 0 2 1).
  split_and!; [reflexivity..|].
  induction fuel as [|fuel IH]; [done|]. exact IH.
Qed.

Lemma one_slot_ring_overwrites_and_spins_witness :
  ∃ rb1 rb2,
    Push 1 (NewRingBuffer 0 1) 7 = Ret (true, rb1) ∧
    Push 1 rb1 8 = Ret (true, rb2) ∧
    ∀ fuel, Pop fuel rb2 = OutOfFuel.
Proof. apply (one_slot_ring_overwrites_and_spins 0 1 7 8). lia. Defined.

End Ring.
