(* ===== verification/RingConc.v ===== *)
(** The ring buffer of [mrp/ringbuffer.go] under concurrent use.

    Any number of threads call [Push] and [Pop]. Every load, store and
    compare-and-swap on shared memory is one step; a schedule says which thread
    moves next, and which operation an idle thread begins. Memory is sequentially
    consistent, as Go's [sync/atomic] operations are; that the plain accesses to
    the value of a slot do not race is one of the things shown. *)

From S2P Require Import Prelude Ring.
From stdpp Require Import functions list.
From stdpp Require Import options.

#[local] Open Scope Z_scope.

Module RingConc.
Import Ring.

(** ** Threads *)

(** Where a thread is: the name says the access it makes next; [t] and [h] are
    its local copies of the counters. *)
Inductive pc (T : Type) :=
| Idle
| PushLoadTail (v : T)
| PushLoadSeq (v : T) (t : Z)
| PushCas (v : T) (t : Z)
| PushWrite (v : T) (t : Z)
| PushPublish (v : T) (t : Z)
| PopLoadHead
| PopLoadSeq (h : Z)
| PopCas (h : Z)
| PopRead (h : Z)
| PopRelease (h : Z) (v : T).
Arguments Idle {_}.
Arguments PushLoadTail {_} _.
Arguments PushLoadSeq {_} _ _.
Arguments PushCas {_} _ _.
Arguments PushWrite {_} _ _.
Arguments PushPublish {_} _ _.
Arguments PopLoadHead {_}.
Arguments PopLoadSeq {_} _.
Arguments PopCas {_} _.
Arguments PopRead {_} _.
Arguments PopRelease {_} _ _.

(** What a step shows: a producer or consumer that won its compare-and-swap, a
    [Pop] that returned the value of position [h], and the calls that returned
    false. *)
Inductive event (T : Type) :=
| Claimed (v : T)
| Taken
| Popped (h : Z) (v : T)
| Rejected (v : T)
| WasEmpty.
Arguments Claimed {_} _.
Arguments Taken {_}.
Arguments Popped {_} _ _.
Arguments Rejected {_} _.
Arguments WasEmpty {_}.

Definition set_tail {T} (t : Z) (rb : RingBuffer T) : RingBuffer T :=
  MkRing (slots rb) (head rb) t (capacity rb).
Definition set_head {T} (h : Z) (rb : RingBuffer T) : RingBuffer T :=
  MkRing (slots rb) h (tail rb) (capacity rb).
Definition set_slots {T} (l : list (slot T)) (rb : RingBuffer T) : RingBuffer T :=
  MkRing l (head rb) (tail rb) (capacity rb).

(** One access of a thread of [Push]. *)
Definition push_step {T} (rb : RingBuffer T) (p : pc T) :
    outcome (RingBuffer T * pc T * list (event T)) :=
  match p with
  | PushLoadTail v => Ret (rb, PushLoadSeq v (tail rb), [])
  | PushLoadSeq v t =>
      s ← index (slots rb) (Z.land t (mask rb));
      let difference := i64 (i64 (sequence s) - i64 t) in
      if difference =? 0 then Ret (rb, PushCas v t, [])
      else if difference <? 0 then Ret (rb, Idle, [Rejected v])
      else Ret (rb, PushLoadTail v, [])
  | PushCas v t =>
      if tail rb =? t then Ret (set_tail (u64 (t + 1)) rb, PushWrite v t, [Claimed v])
      else Ret (rb, PushLoadTail v, [])
  | PushWrite v t =>
      let i := Z.land t (mask rb) in
      s ← index (slots rb) i;
      Ret (set_slots (set_slot rb i (Slot (sequence s) v)) rb, PushPublish v t, [])
  | PushPublish v t =>
      let i := Z.land t (mask rb) in
      s ← index (slots rb) i;
      Ret (set_slots (set_slot rb i (Slot (u64 (t + 1)) (val s))) rb, Idle, [])
  | _ => Ret (rb, p, [])
  end.

(** One access of a thread of [Pop]. *)
Definition pop_step {T} (rb : RingBuffer T) (p : pc T) :
    outcome (RingBuffer T * pc T * list (event T)) :=
  match p with
  | PopLoadHead => Ret (rb, PopLoadSeq (head rb), [])
  | PopLoadSeq h =>
      s ← index (slots rb) (Z.land h (mask rb));
      let difference := i64 (i64 (sequence s) - i64 (u64 (h + 1))) in
      if difference =? 0 then Ret (rb, PopCas h, [])
      else if difference <? 0 then Ret (rb, Idle, [WasEmpty])
      else Ret (rb, PopLoadHead, [])
  | PopCas h =>
      if head rb =? h then Ret (set_head (u64 (h + 1)) rb, PopRead h, [Taken])
      else Ret (rb, PopLoadHead, [])
  | PopRead h =>
      s ← index (slots rb) (Z.land h (mask rb));
      Ret (rb, PopRelease h (val s), [])
  | PopRelease h v =>
      let i := Z.land h (mask rb) in
      s ← index (slots rb) i;
      Ret (set_slots (set_slot rb i (Slot (u64 (h + capacity rb)) (val s))) rb, Idle, [Popped h v])
  | _ => Ret (rb, p, [])
  end.

Definition thread_step {T} (rb : RingBuffer T) (p : pc T) :
    outcome (RingBuffer T * pc T * list (event T)) :=
  match p with
  | PushLoadTail _ | PushLoadSeq _ _ | PushCas _ _ | PushWrite _ _ | PushPublish _ _ =>
      push_step rb p
  | _ => pop_step rb p
  end.

(** ** Schedules *)

(** Thread [i] begins a call if it is idle, or makes its next access. *)
Inductive action (T : Type) :=
| StartPush (i : nat) (v : T)
| StartPop (i : nat)
| Go (i : nat).
Arguments StartPush {_} _ _.
Arguments StartPop {_} _.
Arguments Go {_} _.

Record sys (T : Type) := MkSys { ring : RingBuffer T; threads : nat → pc T }.
Arguments MkSys {_} _ _.
Arguments ring {_} _.
Arguments threads {_} _ _.

Definition begin {T} (s : sys T) (i : nat) (p : pc T) : sys T :=
  match threads s i with
  | Idle => MkSys (ring s) (<[i := p]> (threads s))
  | _ => s
  end.

Definition act {T} (a : action T) (s : sys T) : outcome (sys T * list (event T)) :=
  match a with
  | StartPush i v => Ret (begin s i (PushLoadTail v), [])
  | StartPop i => Ret (begin s i PopLoadHead, [])
  | Go i =>
      r ← thread_step (ring s) (threads s i);
      Ret (MkSys r.1.1 (<[i := r.1.2]> (threads s)), r.2)
  end.

(** The state a schedule leads to and the events on the way. *)
Fixpoint run_from {T} (sched : list (action T)) (s : sys T) (tr : list (event T)) :
    outcome (sys T * list (event T)) :=
  match sched with
  | [] => Ret (s, tr)
  | a :: sched =>
      r ← act a s;
      run_from sched r.1 (tr ++ r.2)
  end.

Definition run {T} (zero : T) (cap : Z) (sched : list (action T)) :
    outcome (sys T * list (event T)) :=
  run_from sched (MkSys (NewRingBuffer zero cap) (λ _, Idle)) [].

(** The values in the order in which producers won their position, the number
    of positions consumers have won, and what [Pop] has returned. *)
Definition claims {T} (tr : list (event T)) : list T :=
  omap (λ e, match e with Claimed v => Some v | _ => None end) tr.
Definition takes {T} (tr : list (event T)) : nat :=
  length (omap (λ e, match e with Taken => Some () | _ => None end) tr).
Definition popped {T} (tr : list (event T)) : list (Z * T) :=
  omap (λ e, match e with Popped h v => Some (h, v) | _ => None end) tr.

(** The position a thread owns: the one it is filling or emptying. *)
Definition writing {T} (p : pc T) : option Z :=
  match p with PushWrite _ t | PushPublish _ t => Some t | _ => None end.
Definition reading {T} (p : pc T) : option Z :=
  match p with PopRead h | PopRelease h _ => Some h | _ => None end.

(** ** Slots *)

Definition slot_at {T} (rb : RingBuffer T) (p : Z) : option (slot T) := slots rb !! pos rb p.

(** The shape of the ring that no step changes. *)
Record shape {T} (rb : RingBuffer T) : Prop := {
  sh_cap : ∃ k, 1 <= k <= 61 ∧ capacity rb = 2 ^ k;
  sh_len : Z.of_nat (length (slots rb)) = capacity rb
}.

Section slots.
Context {T : Type}.
Implicit Types (rb : RingBuffer T) (s : slot T).

Lemma shape_cap rb : shape rb → 2 <= capacity rb <= 2 ^ 61.
Proof.
  intros [(k & Hk & ->) _]. split; [change 2 with (2 ^ 1) at 1|]; apply Z.pow_le_mono_r; lia.
Qed.

Lemma land_pos rb t : shape rb → Z.land t (mask rb) = t mod capacity rb.
Proof.
  intros Hsh. pose proof (shape_cap rb Hsh) as Hc. destruct Hsh as [(k & Hk & E) _].
  unfold mask. rewrite u64_small by lia. rewrite E.
  change (2 ^ k - 1) with (Z.pred (2 ^ k)). rewrite <- Z.ones_equiv. apply Z.land_ones. lia.
Qed.

Lemma slot_exists rb t : shape rb → ∃ s, slot_at rb t = Some s.
Proof.
  intros Hsh. pose proof (shape_cap rb Hsh). apply lookup_lt_is_Some_2. unfold pos.
  pose proof (Z.mod_pos_bound t (capacity rb)). pose proof (sh_len rb Hsh). lia.
Qed.

Lemma index_slot rb t s :
  shape rb → slot_at rb t = Some s → index (slots rb) (Z.land t (mask rb)) = Ret s.
Proof.
  intros Hsh Hs. pose proof (shape_cap rb Hsh). rewrite land_pos by done. unfold index.
  rewrite bool_decide_eq_true_2 by (apply Z.mod_pos_bound; lia).
  unfold slot_at, pos in Hs. by rewrite Hs.
Qed.

Lemma pos_eq rb p q : shape rb → pos rb p = pos rb q → p mod capacity rb = q mod capacity rb.
Proof.
  intros Hsh E. pose proof (shape_cap rb Hsh). unfold pos in E.
  pose proof (Z.mod_pos_bound p (capacity rb)). pose proof (Z.mod_pos_bound q (capacity rb)). lia.
Qed.

(** Positions of one slot less than a lap apart are equal. *)
Lemma lap rb p q :
  shape rb → pos rb p = pos rb q → Z.abs (p - q) < capacity rb → p = q.
Proof.
  intros Hsh E Hd. apply pos_eq in E; [|done]. pose proof (shape_cap rb Hsh) as Hc.
  set (c := capacity rb) in *.
  pose proof (Z.div_mod p c ltac:(lia)). pose proof (Z.div_mod q c ltac:(lia)).
  assert (p - q = c * (p / c - q / c)) by lia.
  assert (p / c - q / c = 0 ∨ 1 <= Z.abs (p / c - q / c)) as [|] by lia; nia.
Qed.

Lemma pos_lap rb p : shape rb → pos rb (p + capacity rb) = pos rb p.
Proof.
  intros Hsh. pose proof (shape_cap rb Hsh). unfold pos.
  rewrite <- (Z.mul_1_l (capacity rb)) at 1. by rewrite Z.mod_add by lia.
Qed.

(** A store to the slot of [t]. *)
Definition store_slot (t : Z) s rb : RingBuffer T :=
  set_slots (set_slot rb (Z.land t (mask rb)) s) rb.

Lemma slot_at_store rb t s p :
  shape rb →
  slot_at (store_slot t s rb) p = if decide (pos rb p = pos rb t) then Some s else slot_at rb p.
Proof.
  intros Hsh. unfold slot_at, store_slot, set_slot. rewrite land_pos by done.
  change (Z.to_nat (t mod capacity rb)) with (pos rb t).
  change (pos (set_slots _ rb) p) with (pos rb p). cbn [slots set_slots].
  case_decide as E.
  - rewrite E, list_lookup_insert_eq; [done|]. apply lookup_lt_is_Some_1. by apply slot_exists.
  - by rewrite list_lookup_insert_ne.
Qed.

Lemma shape_store rb t s : shape rb → shape (store_slot t s rb).
Proof.
  intros [Hc Hl]. split; [done|]. cbn. unfold set_slot. by rewrite length_insert.
Qed.

End slots.

(** ** The invariant *)

Section invariant.
Context {T : Type}.
Implicit Types (rb : RingBuffer T) (th : nat → pc T) (cl : list T) (hd p : Z).

Abbreviation len cl := (Z.of_nat (length cl)).

Definition seq_at rb p (n : Z) : Prop := ∃ s, slot_at rb p = Some s ∧ sequence s = n.

(** [p] is the current position of its slot: either free, and if already claimed
    then some producer is filling it, or filled with the value claimed for it,
    and if already taken then some consumer is emptying it. *)
Definition current rb th cl hd p : Prop :=
  0 <= p < hd + capacity rb ∧ len cl <= p + capacity rb ∧
  ∃ s, slot_at rb p = Some s ∧
    ((sequence s = p ∧ (len cl <= p ∨ ∃ i, writing (th i) = Some p)) ∨
     (sequence s = p + 1 ∧ p < len cl ∧ cl !! Z.to_nat p = Some (val s) ∧
      (hd <= p ∨ ∃ i, reading (th i) = Some p))).

(** What a thread knows. A producer or consumer about to compare-and-swap knows
    the phase of the slot only as long as the counter has not moved. *)
Definition pc_ok rb cl hd (p : pc T) : Prop :=
  match p with
  | Idle | PushLoadTail _ | PopLoadHead => True
  | PushLoadSeq _ t => 0 <= t <= len cl
  | PushCas _ t => 0 <= t <= len cl ∧ (t = len cl → seq_at rb t t)
  | PushWrite v t => hd <= t < len cl ∧ cl !! Z.to_nat t = Some v ∧ seq_at rb t t
  | PushPublish v t => hd <= t < len cl ∧ cl !! Z.to_nat t = Some v ∧ slot_at rb t = Some (Slot t v)
  | PopLoadSeq h => 0 <= h <= hd
  | PopCas h => 0 <= h <= hd ∧ (h = hd → seq_at rb h (h + 1))
  | PopRead h => 0 <= h < hd ∧ seq_at rb h (h + 1)
  | PopRelease h v => 0 <= h < hd ∧ seq_at rb h (h + 1) ∧ cl !! Z.to_nat h = Some v
  end.

Record inv rb th cl hd : Prop := {
  i_shape : shape rb;
  i_tail : tail rb = len cl;
  i_head : head rb = hd;
  i_order : 0 <= hd <= len cl ∧ len cl <= hd + capacity rb;
  i_slot : ∀ q, ∃ p, pos rb p = pos rb q ∧ current rb th cl hd p;
  i_pc : ∀ i, pc_ok rb cl hd (th i);
  i_write : ∀ i j t, writing (th i) = Some t → writing (th j) = Some t → i = j;
  i_read : ∀ i j h, reading (th i) = Some h → reading (th j) = Some h → i = j
}.

(** The sequence number of a slot says which position is current. *)
Lemma seq_free rb th cl hd t :
  inv rb th cl hd → seq_at rb t t →
  0 <= t < hd + capacity rb ∧ len cl <= t + capacity rb ∧
  (len cl <= t ∨ ∃ i, writing (th i) = Some t).
Proof.
  intros Hinv (s & Hs & Hseq). pose proof (i_shape _ _ _ _ Hinv) as Hsh.
  pose proof (shape_cap rb Hsh).
  destruct (i_slot _ _ _ _ Hinv t) as (p & Hp & H1 & H2 & s' & Hs' & Hcase).
  assert (s' = s) as -> by (unfold slot_at in *; congruence).
  destruct Hcase as [[E Hw]|(E & _)].
  - assert (t = p) as -> by congruence. done.
  - assert (p = t) by (apply (lap rb); [done|done|lia]). lia.
Qed.

Lemma seq_full rb th cl hd h s :
  inv rb th cl hd → slot_at rb h = Some s → sequence s = h + 1 →
  0 <= h < hd + capacity rb ∧ len cl <= h + capacity rb ∧ h < len cl ∧
  cl !! Z.to_nat h = Some (val s) ∧ (hd <= h ∨ ∃ i, reading (th i) = Some h).
Proof.
  intros Hinv Hs Hseq. pose proof (i_shape _ _ _ _ Hinv) as Hsh.
  pose proof (shape_cap rb Hsh).
  destruct (i_slot _ _ _ _ Hinv h) as (p & Hp & H1 & H2 & s' & Hs' & Hcase).
  assert (s' = s) as -> by (unfold slot_at in *; congruence).
  destruct Hcase as [[E Hw]|(E & Hrest)].
  - assert (p = h) by (apply (lap rb); [done|done|lia]). lia.
  - assert (h = p) as -> by lia. done.
Qed.

(** Two sequence numbers of one slot agree. *)
Lemma seq_same rb p q n m : seq_at rb p n → seq_at rb q m → pos rb p = pos rb q → n = m.
Proof. intros (s & Hs & <-) (s' & Hs' & <-) E. unfold slot_at in *. congruence. Qed.

(** A free slot and a filled slot are different slots. *)
Lemma free_full rb p q :
  shape rb → seq_at rb p p → seq_at rb q (q + 1) → pos rb p ≠ pos rb q.
Proof.
  intros Hsh Hp Hq E. pose proof (shape_cap rb Hsh).
  pose proof (seq_same rb p q _ _ Hp Hq E). assert (p = q) by (apply (lap rb); [done|done|lia]). lia.
Qed.

Lemma writing_seq rb cl hd (p : pc T) t :
  pc_ok rb cl hd p → writing p = Some t →
  seq_at rb t t ∧ hd <= t < len cl ∧ reading p = None.
Proof.
  destruct p; cbn; intros Hok [= ->]; destruct Hok as (? & ? & ?); [done|].
  split; [by eexists|done].
Qed.

Lemma reading_seq rb cl hd (p : pc T) h :
  pc_ok rb cl hd p → reading p = Some h →
  seq_at rb h (h + 1) ∧ 0 <= h < hd ∧ writing p = None.
Proof. destruct p; cbn; intros Hok [= ->]; naive_solver. Qed.

(** *** Moves of one thread *)

(** A step that touches no shared memory and keeps what the thread owns. *)
Lemma inv_move rb th cl hd i (p : pc T) :
  inv rb th cl hd → pc_ok rb cl hd p →
  writing p = writing (th i) → reading p = reading (th i) →
  inv rb (<[i := p]> th) cl hd.
Proof.
  intros [Hsh Ht Hh Ho Hs Hpc Hw Hr] Hok Ew Er.
  assert (∀ j, writing (<[i := p]> th j) = writing (th j)) as Fw.
  { intros j. destruct (decide (i = j)) as [<-|]; [by rewrite fn_lookup_insert|].
    by rewrite fn_lookup_insert_ne. }
  assert (∀ j, reading (<[i := p]> th j) = reading (th j)) as Fr.
  { intros j. destruct (decide (i = j)) as [<-|]; [by rewrite fn_lookup_insert|].
    by rewrite fn_lookup_insert_ne. }
  split; try done.
  - intros q. destruct (Hs q) as (p' & E & H1 & H2 & s & Hsl & Hcase). exists p'.
    split; [done|]. split_and!; [lia..|]. exists s. split; [done|].
    destruct Hcase as [(? & [?|[j ?]])|(? & ? & ? & [?|[j ?]])];
      [left; split; [done|by left]|left; split; [done|right; exists j; by rewrite Fw]
      |right; split_and!; try done; by left|right; split_and!; try done; right; exists j; by rewrite Fr].
  - intros j. destruct (decide (i = j)) as [<-|]; [by rewrite fn_lookup_insert|].
    by rewrite fn_lookup_insert_ne.
  - intros j k t. rewrite !Fw. apply Hw.
  - intros j k t. rewrite !Fr. apply Hr.
Qed.

(** A producer wins position [length cl]. *)
Lemma inv_claim rb th cl hd i v :
  inv rb th cl hd → th i = PushCas v (len cl) →
  inv (set_tail (len cl + 1) rb) (<[i := PushWrite v (len cl)]> th) (cl ++ [v]) hd.
Proof.
  intros Hinv Hi. pose proof (i_pc _ _ _ _ Hinv i) as Hok. rewrite Hi in Hok.
  destruct Hok as [_ Hseq]. specialize (Hseq eq_refl).
  destruct (seq_free _ _ _ _ _ Hinv Hseq) as (Hb & _ & _).
  pose proof Hinv as [Hsh Ht Hh Ho Hs Hpc Hw Hr]. pose proof (shape_cap rb Hsh) as Hc.
  assert (len (cl ++ [v]) = len cl + 1) as El by (rewrite length_app; cbn; lia).
  assert (∀ j w, cl !! Z.to_nat j = Some w → (cl ++ [v]) !! Z.to_nat j = Some w) as Hl
    by (intros; by apply lookup_app_l_Some).
  assert (∀ j t, writing (th j) = Some t → j ≠ i ∧ hd <= t < len cl) as Hwr.
  { intros j t Hj. split; [|by apply (writing_seq rb cl hd _ t (Hpc j) Hj)].
    intros ->. by rewrite Hi in Hj. }
  split; rewrite ?El; cbn; try done; try lia; [by destruct Hsh| | | |].
  - intros q. destruct (Hs q) as (p & E & H1 & H2 & s & Hsl & Hcase). exists p.
    split; [done|].
    assert (len cl ≠ p + capacity rb) as Hne.
    { intros Ep. assert (pos rb (len cl) = pos rb p) as Epos.
      { rewrite Ep. by apply pos_lap. }
      assert (sequence s = len cl).
      { apply (seq_same rb p (len cl)); [by eexists|done|done]. }
      destruct Hcase as [[? _]|[? _]]; lia. }
    unfold current. rewrite El. cbn. split_and!; [lia..|]. exists s. split; [done|].
    destruct Hcase as [[Es Hw']|(Es & Hlt & Hcl & Hr')].
    + left. split; [done|]. destruct (decide (p = len cl)) as [->|].
      * right. exists i. by rewrite fn_lookup_insert.
      * destruct Hw' as [|[j Hj]]; [left; lia|right; exists j].
        rewrite fn_lookup_insert_ne; [done|]. apply Hwr in Hj. naive_solver.
    + right. split_and!; [done|lia|by apply Hl|]. destruct Hr' as [|[j Hj]]; [by left|right].
      exists j. rewrite fn_lookup_insert_ne; [done|]. intros <-. by rewrite Hi in Hj.
  - intros j. destruct (decide (i = j)) as [<-|].
    + rewrite fn_lookup_insert. cbn. rewrite El. split_and!; [lia|lia| |done].
      rewrite Nat2Z.id. by apply list_lookup_middle.
    + rewrite fn_lookup_insert_ne by done. specialize (Hpc j).
      destruct (th j); cbn in *; rewrite ?El; try done; try lia.
      * destruct Hpc as (? & ? & ?). split_and!; [lia|lia|by apply Hl|done].
      * destruct Hpc as (? & ? & ?). split_and!; [lia|lia|by apply Hl|done].
      * destruct Hpc as (? & ? & ?). split_and!; [lia|lia|done|by apply Hl].
  - intros j k t. destruct (decide (i = j)) as [<-|], (decide (i = k)) as [<-|];
      rewrite ?fn_lookup_insert, ?fn_lookup_insert_ne by done; try done.
    + cbn. intros [= <-] Hk. apply Hwr in Hk. lia.
    + cbn. intros Hj [= <-]. apply Hwr in Hj. lia.
    + apply Hw.
  - intros j k t. destruct (decide (i = j)) as [<-|], (decide (i = k)) as [<-|];
      rewrite ?fn_lookup_insert, ?fn_lookup_insert_ne by done; try done. apply Hr.
Qed.

(** A consumer wins position [hd]. *)
Lemma inv_take rb th cl hd i :
  inv rb th cl hd → th i = PopCas hd →
  inv (set_head (hd + 1) rb) (<[i := PopRead hd]> th) cl (hd + 1).
Proof.
  intros Hinv Hi. pose proof (i_pc _ _ _ _ Hinv i) as Hok. rewrite Hi in Hok.
  destruct Hok as [_ Hseq]. specialize (Hseq eq_refl). pose proof Hseq as (s0 & Hs0 & Hs0').
  destruct (seq_full _ _ _ _ _ _ Hinv Hs0 Hs0') as (Hb & Hb2 & Hlt & Hcl & _).
  pose proof Hinv as [Hsh Ht Hh Ho Hs Hpc Hw Hr]. pose proof (shape_cap rb Hsh) as Hc.
  assert (∀ j h, reading (th j) = Some h → j ≠ i ∧ h < hd) as Hrd.
  { intros j h Hj. split; [|by apply (reading_seq rb cl hd _ h (Hpc j) Hj)].
    intros ->. by rewrite Hi in Hj. }
  assert (∀ t, seq_at rb t t → t ≠ hd) as Hfree.
  { intros t Hj ->. by apply (free_full rb hd hd Hsh Hj Hseq). }
  split; cbn; try done; try lia; [by destruct Hsh| | | |].
  - intros q. destruct (Hs q) as (p & E & H1 & H2 & s & Hsl & Hcase). exists p.
    split; [done|]. split_and!; cbn; [lia..|]. exists s. split; [done|].
    destruct Hcase as [[Es Hw']|(Es & Hlt' & Hcl' & Hr')].
    + left. split; [done|]. destruct Hw' as [|[j Hj]]; [by left|right; exists j].
      rewrite fn_lookup_insert_ne; [done|]. intros <-. by rewrite Hi in Hj.
    + right. split_and!; [done..|]. destruct (decide (p = hd)) as [->|].
      * right. exists i. by rewrite fn_lookup_insert.
      * destruct Hr' as [|[j Hj]]; [left; lia|right; exists j].
        rewrite fn_lookup_insert_ne; [done|]. apply Hrd in Hj. naive_solver.
  - intros j. destruct (decide (i = j)) as [<-|].
    + rewrite fn_lookup_insert. cbn. split; [lia|done].
    + rewrite fn_lookup_insert_ne by done. specialize (Hpc j).
      destruct (th j) as [| | | |v t|v t| | | | |]; cbn in *; try done; try lia.
      * destruct Hpc as (? & ? & Hf). pose proof (Hfree t Hf). split_and!; [lia|lia|done|done].
      * destruct Hpc as (? & ? & Hf). assert (t ≠ hd) by (apply Hfree; by eexists).
        split_and!; [lia|lia|done|done].
      * destruct Hpc. split; [lia|done].
      * destruct Hpc as (? & ? & ?). split_and!; [lia|lia|done|done].
  - intros j k t. destruct (decide (i = j)) as [<-|], (decide (i = k)) as [<-|];
      rewrite ?fn_lookup_insert, ?fn_lookup_insert_ne by done; try done. apply Hw.
  - intros j k t. destruct (decide (i = j)) as [<-|], (decide (i = k)) as [<-|];
      rewrite ?fn_lookup_insert, ?fn_lookup_insert_ne by done; try done.
    + cbn. intros [= <-] Hk. apply Hrd in Hk. lia.
    + cbn. intros Hj [= <-]. apply Hrd in Hj. lia.
    + apply Hr.
Qed.

(** *** Stores to a slot *)

Lemma seq_at_store rb t s q n :
  shape rb → pos rb q ≠ pos rb t → seq_at rb q n → seq_at (store_slot t s rb) q n.
Proof. intros Hsh Hne (s' & Hs & <-). exists s'. by rewrite slot_at_store, decide_False. Qed.

(** A store to another slot does not change what a thread knows. *)
Lemma pc_ok_store rb cl hd t s (p : pc T) :
  shape rb → pc_ok rb cl hd p →
  (∀ q, seq_at rb q q → q = len cl ∨ writing p = Some q → pos rb q ≠ pos rb t) →
  (∀ q, seq_at rb q (q + 1) → q = hd ∨ reading p = Some q → pos rb q ≠ pos rb t) →
  pc_ok (store_slot t s rb) cl hd p.
Proof.
  intros Hsh Hok Hfree Hfull. destruct p as [| | |v q|v q|v q| | |h|h|h v]; cbn in *; try done.
  - destruct Hok as [? Hq]. split; [done|]. intros Eq. apply seq_at_store; [done| |auto]. auto.
  - destruct Hok as (? & ? & Hq). split_and!; [lia|lia|done|]. apply seq_at_store; auto.
  - destruct Hok as (? & ? & Hq). split_and!; [lia|lia|done|].
    rewrite slot_at_store, decide_False; [done| |done]. apply Hfree; [by eexists|by right].
  - destruct Hok as [? Hq]. split; [done|]. intros Eq. apply seq_at_store; [done| |auto]. auto.
  - destruct Hok as (? & Hq). split_and!; [lia|lia|]. apply seq_at_store; auto.
  - destruct Hok as (? & Hq & ?). split_and!; [lia|lia| |done]. apply seq_at_store; auto.
Qed.

(** The slot a thread owns is nobody else's: no other thread knows its phase. *)
Lemma owned_slot rb th cl hd i t j :
  inv rb th cl hd → writing (th i) = Some t ∨ reading (th i) = Some t → j ≠ i →
  (∀ q, seq_at rb q q → q = len cl ∨ writing (th j) = Some q → pos rb q ≠ pos rb t) ∧
  (∀ q, seq_at rb q (q + 1) → q = hd ∨ reading (th j) = Some q → pos rb q ≠ pos rb t).
Proof.
  intros [Hsh _ _ _ _ Hpc Hw Hr] [Hi|Hi] Hne.
  - destruct (writing_seq _ _ _ _ _ (Hpc i) Hi) as (Hs & Hb & _). split.
    + intros q Hq Hcase E. pose proof (seq_same _ _ _ _ _ Hq Hs E) as ->.
      destruct Hcase as [|Hj]; [lia|]. by apply Hne, (Hw j i t).
    + intros q Hq _ E. by apply (free_full rb t q Hsh Hs Hq).
  - destruct (reading_seq _ _ _ _ _ (Hpc i) Hi) as (Hs & Hb & _). split.
    + intros q Hq _. by apply (free_full rb q t Hsh Hq Hs).
    + intros q Hq Hcase E. pose proof (seq_same _ _ _ _ _ Hq Hs E) as Eq.
      assert (q = t) as -> by lia. destruct Hcase as [|Hj]; [lia|]. by apply Hne, (Hr j i t).
Qed.

Lemma inv_store rb th cl hd i (p' : pc T) t s :
  inv rb th cl hd → writing (th i) = Some t ∨ reading (th i) = Some t →
  pc_ok (store_slot t s rb) cl hd p' →
  writing p' = None ∨ writing p' = writing (th i) → reading p' = None →
  (∃ p, pos rb p = pos rb t ∧ current (store_slot t s rb) (<[i := p']> th) cl hd p) →
  inv (store_slot t s rb) (<[i := p']> th) cl hd.
Proof.
  intros Hinv Hi Hok Ew Er Hcur. pose proof (λ j, owned_slot _ _ _ _ _ _ j Hinv Hi) as Hown.
  pose proof Hinv as [Hsh Ht Hh Ho Hs Hpc Hw Hr].
  assert (∀ j q, writing (<[i := p']> th j) = Some q → writing (th j) = Some q) as Fw.
  { intros j q. destruct (decide (i = j)) as [<-|]; [|by rewrite fn_lookup_insert_ne].
    rewrite fn_lookup_insert. by destruct Ew as [->| ->]. }
  assert (∀ j q, reading (<[i := p']> th j) = Some q → reading (th j) = Some q) as Fr.
  { intros j q. destruct (decide (i = j)) as [<-|]; [|by rewrite fn_lookup_insert_ne].
    rewrite fn_lookup_insert. by rewrite Er. }
  split; cbn; try done.
  - by apply shape_store.
  - intros q. destruct (decide (pos rb q = pos rb t)) as [E|E].
    { destruct Hcur as (p & Ep & Hcur). exists p. split; [|done].
      change (pos rb p = pos rb q). congruence. }
    destruct (Hs q) as (p & Ep & H1 & H2 & s' & Hs' & Hcase). exists p. split; [done|].
    split_and!; cbn; [lia..|]. exists s'.
    assert (∀ j, writing (th j) = Some p ∨ reading (th j) = Some p → i ≠ j) as Hij.
    { intros j Hj <-. apply E. rewrite <- Ep. f_equal.
      destruct (writing (th i)) eqn:Ei.
      - destruct (writing_seq _ _ _ _ _ (Hpc i) Ei) as (_ & _ & Hn). naive_solver.
      - naive_solver. }
    rewrite slot_at_store, decide_False by (done || congruence). split; [done|].
    destruct Hcase as [(? & [?|[j Hj]])|(? & ? & ? & [?|[j Hj]])].
    + left. split; [done|by left].
    + left. split; [done|]. right. exists j. rewrite fn_lookup_insert_ne; auto.
    + right. split_and!; try done. by left.
    + right. split_and!; try done. right. exists j. rewrite fn_lookup_insert_ne; auto.
  - intros j. destruct (decide (i = j)) as [<-|Hne]; [by rewrite fn_lookup_insert|].
    rewrite fn_lookup_insert_ne by done. destruct (Hown j) as [Hf Hg]; [done|].
    by apply pc_ok_store.
  - intros j k q Hj Hk. apply (Hw j k q); auto.
  - intros j k q Hj Hk. apply (Hr j k q); auto.
Qed.

Lemma inv_write rb th cl hd i v t s :
  inv rb th cl hd → th i = PushWrite v t → slot_at rb t = Some s →
  inv (store_slot t (Slot (sequence s) v) rb) (<[i := PushPublish v t]> th) cl hd.
Proof.
  intros Hinv Hi Hs. pose proof (i_pc _ _ _ _ Hinv i) as Hok. rewrite Hi in Hok.
  destruct Hok as (Hb & Hcl & Hseq). pose proof (i_shape _ _ _ _ Hinv) as Hsh.
  destruct (seq_free _ _ _ _ _ Hinv Hseq) as (H1 & H2 & _).
  destruct Hseq as (s' & Hs' & Es). rewrite Hs in Hs'. injection Hs' as [= <-].
  apply inv_store; rewrite ?Hi; try done; [by left| |by right|].
  - split_and!; [lia|lia|done|]. rewrite slot_at_store, decide_True by done. by rewrite Es.
  - exists t. split; [done|]. split_and!; cbn; [lia..|]. eexists.
    rewrite slot_at_store, decide_True by done. split; [done|]. left. split; [done|].
    right. exists i. by rewrite fn_lookup_insert.
Qed.

Lemma inv_publish rb th cl hd i v t s :
  inv rb th cl hd → th i = PushPublish v t → slot_at rb t = Some s →
  inv (store_slot t (Slot (t + 1) (val s)) rb) (<[i := Idle]> th) cl hd.
Proof.
  intros Hinv Hi Hs. pose proof (i_pc _ _ _ _ Hinv i) as Hok. rewrite Hi in Hok.
  destruct Hok as (Hb & Hcl & Hslot). pose proof (i_shape _ _ _ _ Hinv) as Hsh.
  rewrite Hs in Hslot. injection Hslot as [= ->].
  destruct (seq_free rb th cl hd t Hinv) as (H1 & H2 & _); [by eexists|].
  apply inv_store; rewrite ?Hi; try done; [by left|by left|].
  exists t. split; [done|]. split_and!; cbn; [lia..|]. eexists.
  rewrite slot_at_store, decide_True by done. split; [done|]. right.
  split_and!; [done|lia|done|left; lia].
Qed.

Lemma inv_release rb th cl hd i h v s :
  inv rb th cl hd → th i = PopRelease h v → slot_at rb h = Some s →
  inv (store_slot h (Slot (h + capacity rb) (val s)) rb) (<[i := Idle]> th) cl hd.
Proof.
  intros Hinv Hi Hs. pose proof (i_pc _ _ _ _ Hinv i) as Hok. rewrite Hi in Hok.
  destruct Hok as (Hb & Hseq & Hcl). pose proof (i_shape _ _ _ _ Hinv) as Hsh.
  pose proof (shape_cap rb Hsh). destruct Hseq as (s' & Hs' & Es).
  destruct (seq_full _ _ _ _ _ _ Hinv Hs' Es) as (H1 & H2 & _).
  apply inv_store; rewrite ?Hi; try done; [by right|by left|].
  exists (h + capacity rb). rewrite pos_lap by done. split; [done|]. split_and!; cbn; [lia..|].
  eexists. rewrite slot_at_store, pos_lap, decide_True by done. split; [done|]. left.
  split; [done|by left].
Qed.

(** *** The history *)

(** The trace against the state: values are claimed in the order of positions,
    and every taken position was returned, once and with its value, or is in the
    hands of a consumer. *)
Record hist tr th cl hd : Prop := {
  h_claims : claims tr = cl;
  h_takes : Z.of_nat (takes tr) = hd;
  h_nodup : NoDup (popped tr).*1;
  h_popped : ∀ h v, (h, v) ∈ popped tr →
    0 <= h < hd ∧ cl !! Z.to_nat h = Some v ∧ ∀ i, reading (th i) ≠ Some h;
  h_all : ∀ h, 0 <= h < hd → h ∈ (popped tr).*1 ∨ ∃ i, reading (th i) = Some h
}.

Lemma reading_insert th i (p : pc T) j :
  reading p = reading (th i) → reading (<[i := p]> th j) = reading (th j).
Proof.
  intros E. destruct (decide (i = j)) as [<-|]; [by rewrite fn_lookup_insert|].
  by rewrite fn_lookup_insert_ne.
Qed.

Lemma hist_move tr ev th cl hd i (p : pc T) :
  hist tr th cl hd → reading p = reading (th i) →
  claims ev = [] → takes ev = 0%nat → popped ev = [] →
  hist (tr ++ ev) (<[i := p]> th) cl hd.
Proof.
  intros [Hc Ht Hn Hp Ha] E E1 E2 E3.
  assert (claims (tr ++ ev) = cl) as Hc'.
  { unfold claims in *. by rewrite omap_app, E1, (right_id_L [] (++)). }
  assert (popped (tr ++ ev) = popped tr) as Hp'.
  { unfold popped in *. by rewrite omap_app, E3, (right_id_L [] (++)). }
  assert (takes (tr ++ ev) = takes tr) as Ht'.
  { unfold takes in *. rewrite omap_app, length_app, E2. lia. }
  split; rewrite ?Hp', ?Ht'; try done.
  - intros h v Hin. destruct (Hp h v Hin) as (? & ? & Hno). split_and!; [lia|lia|done|].
    intros j. rewrite reading_insert by done. apply Hno.
  - intros h Hh. destruct (Ha h Hh) as [|[j Hj]]; [by left|]. right. exists j.
    by rewrite reading_insert.
Qed.

Lemma hist_claim tr th cl hd i v t :
  hist tr th cl hd → reading (th i) = None →
  hist (tr ++ [Claimed v]) (<[i := PushWrite v t]> th) (cl ++ [v]) hd.
Proof.
  intros Hh E. destruct (hist_move tr [] th cl hd i (PushWrite v t)) as [Hc Ht Hn Hp Ha];
    [done|by rewrite E|done..|]. rewrite (right_id_L [] (++)) in *.
  split; unfold claims, takes, popped in *; rewrite ?omap_app; cbn;
    rewrite ?(right_id_L [] (++)); try done; [by rewrite Hc|].
  intros h w Hin. destruct (Hp h w Hin) as (? & ? & ?). split_and!; [lia|lia| |done].
  by apply lookup_app_l_Some.
Qed.

Lemma hist_take tr th cl hd i :
  hist tr th cl hd → 0 <= hd → reading (th i) = None →
  hist (tr ++ [Taken]) (<[i := PopRead hd]> th) cl (hd + 1).
Proof.
  intros [Hc Ht Hn Hp Ha] Hpos E.
  split; unfold claims, takes, popped in *; rewrite ?omap_app, ?length_app; cbn;
    rewrite ?(right_id_L [] (++)); try done; try lia.
  - intros h v Hin. destruct (Hp h v Hin) as (? & ? & Hno). split_and!; [lia|lia|done|].
    intros j. destruct (decide (i = j)) as [<-|].
    + rewrite fn_lookup_insert. cbn. intros [= ->]. lia.
    + by rewrite fn_lookup_insert_ne.
  - intros h Hh. destruct (decide (h = hd)) as [->|].
    { right. exists i. by rewrite fn_lookup_insert. }
    destruct (Ha h) as [|[j Hj]]; [lia|by left|]. right. exists j.
    rewrite fn_lookup_insert_ne; [done|]. intros <-. by rewrite E in Hj.
Qed.

Lemma hist_popped rb tr th cl hd i h v :
  inv rb th cl hd → hist tr th cl hd → th i = PopRelease h v →
  hist (tr ++ [Popped h v]) (<[i := Idle]> th) cl hd.
Proof.
  intros Hinv [Hc Ht Hn Hp Ha] Hi. pose proof (i_pc _ _ _ _ Hinv i) as Hok. rewrite Hi in Hok.
  destruct Hok as (Hb & _ & Hcl).
  assert (reading (th i) = Some h) as Hri by (by rewrite Hi).
  assert (∀ j, reading (<[i := Idle]> th j) ≠ Some h) as Hnone.
  { intros j. destruct (decide (i = j)) as [<-|Hne]; [by rewrite fn_lookup_insert|].
    rewrite fn_lookup_insert_ne by done. intros Hj. by apply Hne, (i_read _ _ _ _ Hinv i j h). }
  split; unfold claims, takes, popped in *; rewrite ?omap_app, ?length_app; cbn;
    rewrite ?(right_id_L [] (++)); try done; try lia.
  - rewrite fmap_app. apply NoDup_app. split_and!; [done| |apply NoDup_singleton].
    intros h' Hin [= ->]%list_elem_of_singleton. apply list_elem_of_fmap in Hin as ([h' v'] & -> & Hin).
    cbn in *. by apply (proj2 (proj2 (Hp _ _ Hin)) i).
  - intros h' v' [Hin|[= -> ->]%list_elem_of_singleton]%elem_of_app.
    + destruct (Hp _ _ Hin) as (? & ? & Hno). split_and!; [lia|lia|done|]. intros j.
      destruct (decide (i = j)) as [<-|]; [by rewrite fn_lookup_insert|].
      by rewrite fn_lookup_insert_ne.
    + split_and!; [lia|lia|done|done].
  - intros h' Hh'. rewrite fmap_app, elem_of_app. destruct (decide (h' = h)) as [->|Hne].
    { left. right. by apply list_elem_of_singleton. }
    destruct (Ha h' Hh') as [|[j Hj]]; [by left; left|]. right. exists j.
    rewrite fn_lookup_insert_ne; [done|]. intros <-. congruence.
Qed.

(** *** Every step *)

Definition good (rb : RingBuffer T) th tr : Prop :=
  ∃ cl hd, inv rb th cl hd ∧ hist tr th cl hd.

Lemma seq_range rb th cl hd q s :
  inv rb th cl hd → slot_at rb q = Some s → 0 <= sequence s <= hd + capacity rb.
Proof.
  intros Hinv Hs. destruct (i_slot _ _ _ _ Hinv q) as (p & Hp & H1 & H2 & s' & Hs' & Hcase).
  assert (s' = s) as -> by (unfold slot_at in *; congruence).
  destruct Hcase as [[-> _]|(-> & _)]; lia.
Qed.

(** The signed difference of the loops, while the counters are small. *)
Lemma difference_exact a b :
  0 <= a < 2 ^ 63 → 0 <= b < 2 ^ 63 → i64 (i64 a - i64 b) = a - b.
Proof. intros Ha Hb. rewrite !(i64_small a), !(i64_small b), i64_small; lia. Qed.

Lemma push_step_good rb th tr i :
  good rb th tr → len (claims tr) < 2 ^ 62 → reading (th i) = None →
  ∃ rb' (p : pc T) ev, push_step rb (th i) = Ret (rb', p, ev) ∧
    good rb' (<[i := p]> th) (tr ++ ev) ∧ (length (claims ev) <= 1)%nat.
Proof.
  intros (cl & hd & Hinv & Hh) Hsmall Hnr. pose proof (i_pc _ _ _ _ Hinv i) as Hok.
  pose proof (i_shape _ _ _ _ Hinv) as Hsh. pose proof (shape_cap rb Hsh) as Hc.
  rewrite (h_claims _ _ _ _ Hh) in Hsmall. pose proof (i_order _ _ _ _ Hinv) as Ho.
  assert (∀ (p : pc T) ev, pc_ok rb cl hd p → writing p = writing (th i) → reading p = None →
    claims ev = [] → takes ev = 0%nat → popped ev = [] → good rb (<[i := p]> th) (tr ++ ev)) as Hmove.
  { intros p ev H1 H2 H3 H4 H5 H6. exists cl, hd. split.
    - apply inv_move; [done..|by rewrite H3].
    - apply hist_move; [done|by rewrite H3|done..]. }
  destruct (th i) as [|v|v t|v t|v t|v t| |h|h|h|h v] eqn:Hi; cbn [push_step];
    try (by eexists rb, _, []; split_and!; [done|apply Hmove; done|cbn; lia]).
  - eexists rb, _, []. split_and!; [done| |cbn; lia].
    apply Hmove; try done. cbn. rewrite (i_tail _ _ _ _ Hinv). lia.
  - destruct (slot_exists rb t Hsh) as [s Hs]. rewrite (index_slot rb t s Hsh Hs).
    cbn [mbind outcome_bind]. cbn in Hok. pose proof (seq_range _ _ _ _ _ _ Hinv Hs).
    rewrite difference_exact by lia.
    destruct (Z.eqb_spec (sequence s - t) 0); [|destruct (Z.ltb_spec (sequence s - t) 0)];
      eexists rb, _, _; (split_and!; [done|apply Hmove; try done|cbn; lia]).
    split; [lia|]. intros _. exists s. split; [done|lia].
  - destruct (Z.eqb_spec (tail rb) t) as [E|]; eexists _, _, _;
      (split_and!; [done| |cbn; lia]); [|apply Hmove; done].
    rewrite (i_tail _ _ _ _ Hinv) in E. subst t. rewrite u64_small by lia.
    exists (cl ++ [v]), hd. split; [by apply inv_claim|].
    apply hist_claim; [done|by rewrite Hi].
  - cbn in Hok. destruct Hok as (? & ? & s & Hs & Es).
    rewrite (index_slot rb t s Hsh Hs). cbn [mbind outcome_bind].
    eexists _, _, []. split_and!; [done| |cbn; lia]. exists cl, hd. split.
    + by apply inv_write.
    + apply hist_move; [done|by rewrite Hi|done..].
  - cbn in Hok. destruct Hok as (? & ? & Hs).
    rewrite (index_slot rb t _ Hsh Hs). cbn [mbind outcome_bind].
    eexists _, _, []. split_and!; [done| |cbn; lia]. rewrite u64_small by lia.
    exists cl, hd. split.
    + apply (inv_publish rb th cl hd i v t _ Hinv Hi Hs).
    + apply hist_move; [done|by rewrite Hi|done..].
Qed.

Lemma pop_step_good rb th tr i :
  good rb th tr → len (claims tr) < 2 ^ 62 → writing (th i) = None →
  ∃ rb' (p : pc T) ev, pop_step rb (th i) = Ret (rb', p, ev) ∧
    good rb' (<[i := p]> th) (tr ++ ev) ∧ claims ev = [].
Proof.
  intros (cl & hd & Hinv & Hh) Hsmall Hnw. pose proof (i_pc _ _ _ _ Hinv i) as Hok.
  pose proof (i_shape _ _ _ _ Hinv) as Hsh. pose proof (shape_cap rb Hsh) as Hc.
  rewrite (h_claims _ _ _ _ Hh) in Hsmall. pose proof (i_order _ _ _ _ Hinv) as Ho.
  assert (∀ (p : pc T) ev, pc_ok rb cl hd p → reading p = reading (th i) → writing p = None →
    claims ev = [] → takes ev = 0%nat → popped ev = [] → good rb (<[i := p]> th) (tr ++ ev)) as Hmove.
  { intros p ev H1 H2 H3 H4 H5 H6. exists cl, hd. split.
    - apply inv_move; [done..|by rewrite H3|done].
    - by apply hist_move. }
  destruct (th i) as [|v|v t|v t|v t|v t| |h|h|h|h v] eqn:Hi; cbn [pop_step];
    try (by eexists rb, _, []; split_and!; [done|apply Hmove; done|done]).
  - eexists rb, _, []. split_and!; [done| |done].
    apply Hmove; try done. cbn. rewrite (i_head _ _ _ _ Hinv). lia.
  - destruct (slot_exists rb h Hsh) as [s Hs]. rewrite (index_slot rb h s Hsh Hs).
    cbn [mbind outcome_bind]. cbn in Hok. pose proof (seq_range _ _ _ _ _ _ Hinv Hs).
    rewrite (u64_small (h + 1)), difference_exact by lia.
    destruct (Z.eqb_spec (sequence s - (h + 1)) 0);
      [|destruct (Z.ltb_spec (sequence s - (h + 1)) 0)];
      eexists rb, _, _; (split_and!; [done|apply Hmove; try done|done]).
    split; [lia|]. intros _. exists s. split; [done|lia].
  - destruct (Z.eqb_spec (head rb) h) as [E|]; eexists _, _, _;
      (split_and!; [done| |done]); [|apply Hmove; done].
    rewrite (i_head _ _ _ _ Hinv) in E. subst h. rewrite u64_small by lia.
    exists cl, (hd + 1). split; [by apply inv_take|].
    apply hist_take; [done|lia|by rewrite Hi].
  - cbn in Hok. pose proof Hok as (? & s & Hs & Es).
    rewrite (index_slot rb h s Hsh Hs). cbn [mbind outcome_bind].
    eexists rb, _, []. split_and!; [done| |done]. apply Hmove; try done.
    split_and!; [lia|lia|by eexists|]. by apply (seq_full rb th cl hd h s Hinv Hs).
  - cbn in Hok. pose proof Hok as (? & (s & Hs & Es) & ?).
    rewrite (index_slot rb h s Hsh Hs). cbn [mbind outcome_bind].
    eexists _, _, _. split_and!; [done| |done]. rewrite u64_small by lia.
    exists cl, hd. split; [by apply (inv_release rb th cl hd i h v)|].
    by apply (hist_popped rb).
Qed.

Lemma thread_step_good rb th tr i :
  good rb th tr → len (claims tr) < 2 ^ 62 →
  ∃ rb' (p : pc T) ev, thread_step rb (th i) = Ret (rb', p, ev) ∧
    good rb' (<[i := p]> th) (tr ++ ev) ∧ (length (claims ev) <= 1)%nat.
Proof.
  intros Hg Hsmall.
  assert (writing (th i) = None →
    ∃ rb' (p : pc T) ev, pop_step rb (th i) = Ret (rb', p, ev) ∧
      good rb' (<[i := p]> th) (tr ++ ev) ∧ (length (claims ev) <= 1)%nat) as Hpop.
  { intros Hw. destruct (pop_step_good rb th tr i Hg Hsmall Hw) as (rb' & p & ev & ? & ? & E).
    exists rb', p, ev. rewrite E. split_and!; [done|done|cbn; lia]. }
  pose proof (push_step_good rb th tr i Hg Hsmall) as Hpush.
  destruct (th i); cbn [thread_step writing reading] in *; auto.
Qed.

Lemma begin_good s tr i (p : pc T) :
  good (ring s) (threads s) tr → (∀ cl hd, pc_ok (ring s) cl hd p) →
  writing p = None → reading p = None →
  good (ring (begin s i p)) (threads (begin s i p)) (tr ++ []).
Proof.
  intros (cl & hd & Hinv & Hh) Hok Hw Hr. unfold begin.
  destruct (threads s i) eqn:Hi; try (by rewrite (right_id_L [] (++)); exists cl, hd).
  exists cl, hd. cbn [ring threads]. split.
  - apply inv_move; [done|done|by rewrite Hi|by rewrite Hi].
  - apply hist_move; [done|by rewrite Hi|done..].
Qed.

Lemma act_good (a : action T) s tr :
  good (ring s) (threads s) tr → len (claims tr) < 2 ^ 62 →
  ∃ s' ev, act a s = Ret (s', ev) ∧ good (ring s') (threads s') (tr ++ ev) ∧
    (length (claims ev) <= 1)%nat.
Proof.
  intros Hg Hsmall. destruct a as [i v|i|i]; cbn [act].
  - eexists _, []. split_and!; [done|by apply begin_good|cbn; lia].
  - eexists _, []. split_and!; [done|by apply begin_good|cbn; lia].
  - destruct (thread_step_good (ring s) (threads s) tr i Hg Hsmall)
      as (rb & p & ev & -> & Hg' & Hc). by eexists _, _.
Qed.

Lemma run_good sched s tr :
  good (ring s) (threads s) tr → len (claims tr) + Z.of_nat (length sched) <= 2 ^ 62 →
  ∃ s' tr', run_from sched s tr = Ret (s', tr') ∧ good (ring s') (threads s') tr' ∧
    len (claims tr') <= 2 ^ 62.
Proof.
  revert s tr. induction sched as [|a sched IH]; intros s tr Hg Hsmall; cbn [run_from length].
  { eexists _, _. split_and!; [done|done|]. cbn [length] in Hsmall. lia. }
  cbn [length] in Hsmall.
  destruct (act_good a s tr Hg) as (s' & ev & -> & Hg' & Hc); [lia|].
  cbn [mbind outcome_bind fst snd]. apply IH; [done|].
  unfold claims in *. rewrite omap_app, length_app. lia.
Qed.

Lemma init_good (zero : T) cap :
  2 <= cap <= 2 ^ 61 → good (NewRingBuffer zero cap) (λ _, Idle) [].
Proof.
  intros Hcap. assert (2 <= cap <= 2 ^ 63) as Hcap' by lia.
  destruct (NewRingBuffer_inv zero cap Hcap') as [_ Hlen _ _ _ _ _ Hfree].
  assert (capacity (NewRingBuffer zero cap) = 2 ^ Z.log2_up cap) as Ec.
  { cbn. apply nextPowerOfTwo_pow. lia. }
  set (rb := NewRingBuffer zero cap) in *.
  assert (shape rb) as Hsh.
  { split; [|done]. exists (Z.log2_up cap). split; [|done]. split.
    - change 1 with (Z.log2_up 2). apply Z.log2_up_le_mono. lia.
    - change 61 with (Z.log2_up (2 ^ 61)). apply Z.log2_up_le_mono. lia. }
  pose proof (shape_cap rb Hsh) as Hc. exists [], 0. split; [split|split]; try done.
  - cbn [length]. lia.
  - intros q. exists (q mod capacity rb).
    pose proof (Z.mod_pos_bound q (capacity rb) ltac:(lia)). split.
    { unfold pos. by rewrite Z.mod_mod by lia. }
    split_and!; cbn [length]; [lia..|].
    destruct (Hfree (q mod capacity rb)) as [y Hy]; [cbn [length]; lia|].
    eexists. split; [exact Hy|]. left. cbn [sequence length]. rewrite u64_small by lia.
    split; [done|left; lia].
  - constructor.
  - intros h v Hin. inversion Hin.
  - intros h Hh. lia.
Qed.

(** *** Consequences *)

Lemma disjoint_owners rb th cl hd i j a b :
  inv rb th cl hd → i ≠ j →
  writing (th i) = Some a ∨ reading (th i) = Some a →
  writing (th j) = Some b ∨ reading (th j) = Some b → pos rb a ≠ pos rb b.
Proof.
  intros Hinv Hne Ha Hb. destruct (owned_slot _ _ _ _ j b i Hinv Hb Hne) as [Hf Hg].
  pose proof (i_pc _ _ _ _ Hinv i) as Hok. destruct Ha as [Ha|Ha].
  - apply Hf; [by apply (writing_seq _ _ _ _ _ Hok Ha)|by right].
  - apply Hg; [by apply (reading_seq _ _ _ _ _ Hok Ha)|by right].
Qed.

(** With no call in progress the ring is a ring of the sequential model. *)
Lemma quiescent_repr rb th cl hd :
  inv rb th cl hd → len cl < 2 ^ 63 → (∀ i, th i = Idle) →
  ring_repr rb (drop (Z.to_nat hd) cl).
Proof.
  intros Hinv Hsmall Hidle. pose proof Hinv as [Hsh Ht Hh Ho Hs _ _ _].
  pose proof (shape_cap rb Hsh) as Hc.
  assert (∀ q, hd <= q < hd + capacity rb → ∃ s, slot_at rb q = Some s ∧
    (sequence s = q ∧ len cl <= q ∨ sequence s = q + 1 ∧ q < len cl ∧ cl !! Z.to_nat q = Some (val s)))
    as Hq.
  { intros q Hq. destruct (Hs q) as (p & E & H1 & H2 & s & Hsl & Hcase).
    assert (hd <= p) as Hp.
    { destruct Hcase as [(_ & [?|[i Hi]])|(_ & _ & _ & [?|[i Hi]])];
        [lia|by rewrite Hidle in Hi|lia|by rewrite Hidle in Hi]. }
    assert (p = q) as -> by (apply (lap rb); [done|done|lia]).
    exists s. split; [done|]. destruct Hcase as [(? & [?|[i Hi]])|(? & ? & ? & _)];
      [by left|by rewrite Hidle in Hi|by right]. }
  exists hd. destruct Hsh as [(k & Hk & Ek) Hlen].
  assert (len (drop (Z.to_nat hd) cl) = len cl - hd) as El by (rewrite length_drop; lia).
  split; rewrite ?El; try done; try lia.
  - exists k. split; [lia|done].
  - rewrite u64_small by lia. done.
  - rewrite u64_small by lia. rewrite Ht. f_equal. lia.
  - intros j x Hj. pose proof (lookup_lt_Some _ _ _ Hj) as Hlt.
    rewrite lookup_drop in Hj. rewrite u64_small by lia.
    destruct (Hq (hd + Z.of_nat j)) as ([n w] & Hsl & [[_ ?]|(Es & _ & Hv)]); [lia|lia|].
    replace (Z.to_nat (hd + Z.of_nat j)) with (Z.to_nat hd + j)%nat in Hv by lia.
    cbn in Es, Hv. unfold slot_at in Hsl. rewrite Hsl. congruence.
  - intros p Hp. rewrite u64_small by lia.
    destruct (Hq p) as ([n w] & Hsl & [[Es _]|(_ & ? & _)]); [lia| |lia].
    exists w. cbn in Es. subst n. exact Hsl.
Qed.

(** With no call in progress every value taken has been returned. *)
Lemma quiescent_popped rb tr th cl hd :
  inv rb th cl hd → hist tr th cl hd → (∀ i, th i = Idle) →
  (popped tr).*2 ≡ₚ take (Z.to_nat hd) cl.
Proof.
  intros Hinv [_ _ Hn Hp Ha] Hidle. pose proof (i_order _ _ _ _ Hinv) as Ho.
  assert ((popped tr).*2 = omap (λ n, cl !! n) (Z.to_nat <$> (popped tr).*1)) as ->.
  { clear Hn Ha. induction (popped tr) as [|[h v] l IH]; [done|]. rewrite !fmap_cons. cbn.
    destruct (Hp h v) as (_ & -> & _); [by left|]. f_equal. apply IH.
    intros h' v' Hin. apply Hp. by right. }
  assert (Z.to_nat <$> (popped tr).*1 ≡ₚ seq 0 (Z.to_nat hd)) as ->.
  { apply NoDup_Permutation.
    - apply NoDup_fmap_2_strong; [|done]. intros x y Hx Hy E.
      apply list_elem_of_fmap in Hx as ([x' v] & -> & Hx), Hy as ([y' w] & -> & Hy).
      apply Hp in Hx as (? & _), Hy as (? & _). cbn in *. lia.
    - apply NoDup_seq.
    - intros n. rewrite elem_of_seq, list_elem_of_fmap. split.
      + intros (h & -> & Hh). apply list_elem_of_fmap in Hh as ([h' v] & -> & Hh).
        apply Hp in Hh as (? & _). cbn. lia.
      + intros Hlt. exists (Z.of_nat n). split; [lia|].
        destruct (Ha (Z.of_nat n)) as [?|[i Hi]]; [lia|done|by rewrite Hidle in Hi]. }
  rewrite <- (omap_lookup_seq (take (Z.to_nat hd) cl)), length_take_le by lia.
  apply reflexive_eq, list_omap_ext, Forall2_same_length_lookup_2; [done|].
  intros i x y Hx Hy. rewrite Hx in Hy. injection Hy as [= <-].
  apply lookup_seq in Hx as [-> Hi]. by rewrite lookup_take_lt by lia.
Qed.

End invariant.

(** ** Properties *)

(** The slot whose contents a thread may access. *)
Definition owned {T} (p : pc T) : option Z :=
  match writing p with Some t => Some t | None => reading p end.

(** C14: the ring is safe under every interleaving. However the accesses of any
    number of threads calling [Push] and [Pop] interleave (schedules of up to
    2^62 steps, so that the 64-bit counters do not wrap), no access panics;
    [Pop] returns only values that were accepted, the value of the position it
    won, so first in first out in the order of the winning compare-and-swaps, and
    no position twice; at most a capacity of values is in the ring; no two threads
    may access the same slot at the same time, so the unsynchronised accesses to
    its value do not race; and whenever no call is in progress, the ring
    represents exactly the accepted values that have not been returned, and the
    values returned are exactly the others. *)
Theorem concurrent_ring_safe {T} (zero : T) (cap : Z) (sched : list (action T)) :
  2 <= cap <= 2 ^ 61 → Z.of_nat (length sched) <= 2 ^ 62 →
  ∃ s tr, run zero cap sched = Ret (s, tr) ∧
    NoDup (popped tr).*1 ∧
    (∀ h v, (h, v) ∈ popped tr → 0 <= h ∧ claims tr !! Z.to_nat h = Some v) ∧
    (takes tr <= length (claims tr))%nat ∧
    Z.of_nat (length (claims tr)) <= Z.of_nat (takes tr) + Cap (ring s) ∧
    (∀ i j a b, i ≠ j → owned (threads s i) = Some a → owned (threads s j) = Some b →
       pos (ring s) a ≠ pos (ring s) b) ∧
    ((∀ i, threads s i = Idle) →
       ring_repr (ring s) (drop (takes tr) (claims tr)) ∧
       (popped tr).*2 ≡ₚ take (takes tr) (claims tr)).
Proof.
  intros Hcap Hlen.
  destruct (run_good sched (MkSys (NewRingBuffer zero cap) (λ _, Idle)) [])
    as (s & tr & E & (cl & hd & Hinv & Hh) & Hsmall); [by apply init_good|cbn; lia|].
  exists s, tr. split; [exact E|]. pose proof (i_order _ _ _ _ Hinv) as Ho.
  pose proof (h_takes _ _ _ _ Hh) as Ht. pose proof (h_claims _ _ _ _ Hh) as Hc.
  assert (takes tr = Z.to_nat hd) as Et by lia. rewrite Hc, Et. split_and!.
  - apply (h_nodup _ _ _ _ Hh).
  - intros h v Hin. destruct (h_popped _ _ _ _ Hh h v Hin) as (? & ? & _). split; [lia|done].
  - lia.
  - unfold Cap. lia.
  - intros i j a b Hne Ha Hb. apply (disjoint_owners _ _ _ _ i j a b Hinv Hne).
    + unfold owned in Ha. destruct (writing (threads s i)); [left; congruence|by right].
    + unfold owned in Hb. destruct (writing (threads s j)); [left; congruence|by right].
  - intros Hidle. split; [|by apply (quiescent_popped (ring s) tr (threads s))].
    apply (quiescent_repr _ _ _ _ Hinv); [|done]. rewrite <- Hc. lia.
Qed.

(** ** Examples *)

(** [n] accesses of thread [i]. *)
Definition gos (i n : nat) : list (action Z) := replicate n (Go i).

(** Two values go in; one consumer stops after winning the first position, and
    another takes the second value. *)
Definition stalled_consumer : list (action Z) :=
  StartPush 0 10 :: gos 0 5 ++ StartPush 0 20 :: gos 0 5 ++
  StartPop 1 :: gos 1 3 ++ StartPop 2 :: gos 2 5.

Lemma concurrent_ring_safe_witness :
  ∃ s tr, run 0 2 stalled_consumer = Ret (s, tr) ∧
    NoDup (popped tr).*1 ∧
    (∀ h v, (h, v) ∈ popped tr → 0 <= h ∧ claims tr !! Z.to_nat h = Some v) ∧
    (takes tr <= length (claims tr))%nat ∧
    Z.of_nat (length (claims tr)) <= Z.of_nat (takes tr) + Cap (ring s) ∧
    (∀ i j a b, i ≠ j → owned (threads s i) = Some a → owned (threads s j) = Some b →
       pos (ring s) a ≠ pos (ring s) b) ∧
    ((∀ i, threads s i = Idle) →
       ring_repr (ring s) (drop (takes tr) (claims tr)) ∧
       (popped tr).*2 ≡ₚ take (takes tr) (claims tr)).
Proof. apply (concurrent_ring_safe 0 2 stalled_consumer); cbn; lia. Defined.

(** While the first consumer is stalled the ring holds no value, yet [Push]
    reports it full: the slot it needs has not been released. *)
Lemma push_rejected_on_empty_ring :
  match run 0 2 (stalled_consumer ++ StartPush 0 30 :: gos 0 2) with
  | Ret (_, tr) =>
      claims tr = [10; 20] ∧ takes tr = 2%nat ∧ popped tr = [(1, 20)] ∧ tr !! (length tr - 1)%nat = Some (Rejected 30)
  | _ => False
  end.
Proof. vm_compute. done. Qed.

End RingConc.
