(* ===== verification/Json.v ===== *)
(** [encoding/json] as the program uses it: the encoder's string escaping and
    compact and indented layouts, and the decoder. Text is decoded from UTF-8
    first; bytes that are not UTF-8 become U+FFFD, as the package documents. *)

From S2P Require Import Prelude GoStrings.
From Stdlib Require Import Ascii DecimalN DecimalFacts.
From stdpp Require Import options.

#[local] Arguments String.append !_ _ / : simpl nomatch.

Module Json.
Import GoStrings.

(** ** UTF-8 *)

Definition within (lo hi : N) (c : ascii) : bool :=
  (lo <=? N_of_ascii c)%N && (N_of_ascii c <=? hi)%N.
Definition is_ascii (c : ascii) : bool := (N_of_ascii c <? 128)%N.
Definition cont (c : ascii) : bool := within 0x80 0xBF c.

(** Well-formed sequences of two, three and four bytes. *)
Definition two (a b : ascii) : bool := within 0xC2 0xDF a && cont b.
Definition three (a b c : ascii) : bool :=
  (within 0xE0 0xE0 a && within 0xA0 0xBF b ||
   within 0xE1 0xEC a && cont b || within 0xED 0xED a && within 0x80 0x9F b ||
   within 0xEE 0xEF a && cont b) && cont c.
Definition four (a b c d : ascii) : bool :=
  (within 0xF0 0xF0 a && within 0x90 0xBF b ||
   within 0xF1 0xF3 a && cont b || within 0xF4 0xF4 a && within 0x80 0x8F b) &&
  cont c && cont d.

(** A decoded character: an ASCII byte, a longer rune with its bytes, or a byte
    that starts no rune. *)
Inductive ch := A (c : ascii) | R (bytes : string) | Bad.

#[export] Instance ch_eq_dec : EqDecision ch.
Proof. solve_decision. Defined.

Fixpoint runes (s : string) : list ch :=
  match s with
  | EmptyString => []
  | String a s1 =>
      if is_ascii a then A a :: runes s1 else
      match s1 with
      | String b s2 =>
          if two a b then R (String a (String b "")) :: runes s2 else
          match s2 with
          | String c s3 =>
              if three a b c then R (String a (String b (String c ""))) :: runes s3 else
              match s3 with
              | String d s4 =>
                  if four a b c d then
                    R (String a (String b (String c (String d "")))) :: runes s4
                  else Bad :: runes s1
              | EmptyString => Bad :: runes s1
              end
          | EmptyString => Bad :: runes s1
          end
      | EmptyString => Bad :: runes s1
      end
  end.

Definition replacement : string := bytes_string [239; 191; 189]%nat.

Definition ch_text (c : ch) : string :=
  match c with
  | A c => String c ""
  | R bytes => bytes
  | Bad => replacement
  end.

Fixpoint concat_strings (l : list string) : string :=
  match l with [] => "" | s :: l => s +:+ concat_strings l end.

(** A string as the decoder gives it back: every byte that is not part of a
    rune replaced by U+FFFD. *)
Definition to_valid (s : string) : string := concat_strings (ch_text <$> runes s).

Definition valid_utf8 (s : string) : bool := bool_decide (Bad ∉ runes s).

(** ** Encoding strings *)

Definition dq : ascii := ascii_of_nat 34.
Definition backslash : ascii := ascii_of_nat 92.

Definition hex_digit (n : N) : ascii :=
  if (n <? 10)%N then ascii_of_N (48 + n) else ascii_of_N (87 + n).

Definition u_escape (hi lo : N) : string :=
  String backslash (String "u" (String "0" (String "0"
    (String (hex_digit hi) (String (hex_digit lo) ""))))).

(** [appendString] with HTML escaping. *)
Definition escape_ascii (c : ascii) : string :=
  let n := N_of_ascii c in
  if bool_decide (c = dq) || bool_decide (c = backslash) then String backslash (String c "")
  else if (n =? 8)%N then String backslash "b"
  else if (n =? 12)%N then String backslash "f"
  else if (n =? 10)%N then String backslash "n"
  else if (n =? 13)%N then String backslash "r"
  else if (n =? 9)%N then String backslash "t"
  else if (n <? 32)%N || (n =? 60)%N || (n =? 62)%N || (n =? 38)%N then
    u_escape (n / 16) (n mod 16)
  else String c "".

Definition line_sep : string := bytes_string [226; 128; 168]%nat.
Definition para_sep : string := bytes_string [226; 128; 169]%nat.

Definition escape (c : ch) : string :=
  match c with
  | A c => escape_ascii c
  | R bytes =>
      if bool_decide (bytes = line_sep) then String backslash "u2028"
      else if bool_decide (bytes = para_sep) then String backslash "u2029"
      else bytes
  | Bad => String backslash "ufffd"
  end.

Definition quote (s : string) : string :=
  String dq (concat_strings (escape <$> runes s) +:+ String dq "").

(** ** Values and the encoder *)

Inductive json :=
| JNull
| JBool (b : bool)
| JNum (lit : string)
| JStr (s : string)
| JArr (l : list json)
| JObj (fields : list (string * json)).

Definition JInt (z : Z) : json := JNum (fmt_d z).

(** [json.Marshal] and the encoder without indentation. *)
Fixpoint print (j : json) : string :=
  match j with
  | JNull => "null"
  | JBool b => if b then "true" else "false"
  | JNum lit => lit
  | JStr s => quote s
  | JArr l => "[" +:+ Join (print <$> l) "," +:+ "]"
  | JObj fields => "{" +:+ Join ((λ f, quote f.1 +:+ ":" +:+ print f.2) <$> fields) "," +:+ "}"
  end.

Fixpoint spaces (n : nat) : string :=
  match n with O => "" | S n => "  " +:+ spaces n end.

Definition nl : string := String (ascii_of_nat 10) "".

(** The encoder after [SetIndent("", "  ")]. *)
Fixpoint print_indent (depth : nat) (j : json) : string :=
  match j with
  | JArr [] => "[]"
  | JObj [] => "{}"
  | JArr l =>
      "[" +:+ nl +:+ spaces (S depth) +:+
      Join (print_indent (S depth) <$> l) ("," +:+ nl +:+ spaces (S depth)) +:+
      nl +:+ spaces depth +:+ "]"
  | JObj fields =>
      "{" +:+ nl +:+ spaces (S depth) +:+
      Join ((λ f, quote f.1 +:+ ": " +:+ print_indent (S depth) f.2) <$> fields)
        ("," +:+ nl +:+ spaces (S depth)) +:+
      nl +:+ spaces depth +:+ "}"
  | _ => print j
  end.

(** ** Decoding strings *)

Definition hex_value (c : ascii) : option N :=
  let n := N_of_ascii c in
  if within 48 57 c then Some (n - 48)%N
  else if within 97 102 c then Some (n - 87)%N
  else if within 65 70 c then Some (n - 55)%N
  else None.

(** [getu4]: four hexadecimal digits. *)
Definition hex4 (a b c d : ch) : option N :=
  match a, b, c, d with
  | A a, A b, A c, A d =>
      a ← hex_value a; b ← hex_value b; c ← hex_value c; d ← hex_value d;
      Some (((a * 16 + b) * 16 + c) * 16 + d)%N
  | _, _, _, _ => None
  end.

Definition is_surrogate (r : N) : bool := (0xD800 <=? r)%N && (r <? 0xE000)%N.

(** [utf16.DecodeRune] of a surrogate pair. *)
Definition surrogate_pair (r1 r2 : N) : option N :=
  if (0xD800 <=? r1)%N && (r1 <? 0xDC00)%N && (0xDC00 <=? r2)%N && (r2 <? 0xE000)%N then
    Some ((r1 - 0xD800) * 1024 + (r2 - 0xDC00) + 0x10000)%N
  else None.

(** [utf8.EncodeRune]. *)
Definition encode_rune (r : N) : string :=
  if (r <? 0x80)%N then String (ascii_of_N r) ""
  else if (r <? 0x800)%N then
    String (ascii_of_N (0xC0 + r / 64)) (String (ascii_of_N (0x80 + r mod 64)) "")
  else if (r <? 0x10000)%N then
    if is_surrogate r then replacement else
    String (ascii_of_N (0xE0 + r / 4096)) (String (ascii_of_N (0x80 + r / 64 mod 64))
      (String (ascii_of_N (0x80 + r mod 64)) ""))
  else
    String (ascii_of_N (0xF0 + r / 262144)) (String (ascii_of_N (0x80 + r / 4096 mod 64))
      (String (ascii_of_N (0x80 + r / 64 mod 64)) (String (ascii_of_N (0x80 + r mod 64)) ""))).

Definition simple_escape (c : ascii) : option ascii :=
  if bool_decide (c = dq) || bool_decide (c = backslash) || bool_decide (c = "/"%char) then Some c
  else if bool_decide (c = "b"%char) then Some (ascii_of_nat 8)
  else if bool_decide (c = "f"%char) then Some (ascii_of_nat 12)
  else if bool_decide (c = "n"%char) then Some (ascii_of_nat 10)
  else if bool_decide (c = "r"%char) then Some (ascii_of_nat 13)
  else if bool_decide (c = "t"%char) then Some (ascii_of_nat 9)
  else None.

Definition prepend {X} (s : string) (r : option (string * X)) : option (string * X) :=
  match r with Some (t, x) => Some (s +:+ t, x) | None => None end.

(** The inside of a string literal, up to its closing quote. *)
Fixpoint parse_body (l : list ch) : option (string * list ch) :=
  match l with
  | [] => None
  | Bad :: l1 => prepend replacement (parse_body l1)
  | R bytes :: l1 => prepend bytes (parse_body l1)
  | A c :: l1 =>
      if bool_decide (c = dq) then Some ("", l1)
      else if (N_of_ascii c <? 32)%N then None
      else if negb (bool_decide (c = backslash)) then prepend (String c "") (parse_body l1)
      else
        match l1 with
        | A e :: l2 =>
            if bool_decide (e = "u"%char) then
              match l2 with
              | h1 :: h2 :: h3 :: h4 :: l3 =>
                  match hex4 h1 h2 h3 h4 with
                  | None => None
                  | Some r =>
                      if is_surrogate r then
                        match l3 with
                        | A b :: A u :: g1 :: g2 :: g3 :: g4 :: l4 =>
                            match (if bool_decide (b = backslash) && bool_decide (u = "u"%char)
                                   then r2 ← hex4 g1 g2 g3 g4; surrogate_pair r r2
                                   else None) with
                            | Some r' => prepend (encode_rune r') (parse_body l4)
                            | None => prepend replacement (parse_body l3)
                            end
                        | _ => prepend replacement (parse_body l3)
                        end
                      else prepend (encode_rune r) (parse_body l3)
                  end
              | _ => None
              end
            else
              match simple_escape e with
              | Some c => prepend (String c "") (parse_body l2)
              | None => None
              end
        | _ => None
        end
  end.

(** ** Decoding values *)

Definition is_space (c : ch) : bool :=
  match c with
  | A c => let n := N_of_ascii c in
           (n =? 32)%N || (n =? 9)%N || (n =? 10)%N || (n =? 13)%N
  | _ => false
  end.

Fixpoint skip_space (l : list ch) : list ch :=
  match l with
  | c :: l' => if is_space c then skip_space l' else l
  | [] => []
  end.

Fixpoint expect (word : string) (l : list ch) : option (list ch) :=
  match word with
  | EmptyString => Some l
  | String c word =>
      match l with
      | A c' :: l => if bool_decide (c = c') then expect word l else None
      | _ => None
      end
  end.

Definition number_char (c : ascii) : bool :=
  is_digit c || bool_decide (c = "-"%char) || bool_decide (c = "+"%char) ||
  bool_decide (c = "."%char) || bool_decide (c = "e"%char) || bool_decide (c = "E"%char).

Fixpoint span_number (l : list ch) : string * list ch :=
  match l with
  | A c :: l' =>
      if number_char c then let r := span_number l' in (String c r.1, r.2) else ("", l)
  | _ => ("", l)
  end.

(** Digits, at least one. *)
Definition digits1 (s : string) : option string :=
  let r := span_digits s in
  match r.1 with EmptyString => None | _ => Some r.2 end.

Definition valid_exponent (s : string) : bool :=
  match s with
  | EmptyString => true
  | String c s =>
      (bool_decide (c = "e"%char) || bool_decide (c = "E"%char)) &&
      let s := match s with
               | String "+" s' => s'
               | String "-" s' => s'
               | _ => s
               end in
      bool_decide (digits1 s = Some EmptyString)
  end.

Definition valid_fraction (s : string) : bool :=
  match s with
  | String "." s => match digits1 s with Some s => valid_exponent s | None => false end
  | _ => valid_exponent s
  end.

Definition valid_number (s : string) : bool :=
  let s := match s with String "-" s' => s' | _ => s end in
  match s with
  | String "0" s => valid_fraction s
  | _ => match digits1 s with Some s => valid_fraction s | None => false end
  end.

(** One value, with the elements or members of an aggregate collected by
    [parse_items] and [parse_members]. *)
Fixpoint parse_value (fuel : nat) (l : list ch) {struct fuel} : option (json * list ch) :=
  match fuel with
  | O => None
  | S fuel =>
      match skip_space l with
      | [] => None
      | A c :: l1 =>
          if bool_decide (c = dq) then
            r ← parse_body l1; Some (JStr r.1, r.2)
          else if bool_decide (c = "{"%char) then
            match skip_space l1 with
            | A "}" :: l2 => Some (JObj [], l2)
            | _ => r ← parse_members fuel l1; Some (JObj r.1, r.2)
            end
          else if bool_decide (c = "["%char) then
            match skip_space l1 with
            | A "]" :: l2 => Some (JArr [], l2)
            | _ => r ← parse_items fuel l1; Some (JArr r.1, r.2)
            end
          else if bool_decide (c = "t"%char) then l2 ← expect "rue" l1; Some (JBool true, l2)
          else if bool_decide (c = "f"%char) then l2 ← expect "alse" l1; Some (JBool false, l2)
          else if bool_decide (c = "n"%char) then l2 ← expect "ull" l1; Some (JNull, l2)
          else
            let r := span_number (A c :: l1) in
            if valid_number r.1 then Some (JNum r.1, r.2) else None
      | _ => None
      end
  end
with parse_items (fuel : nat) (l : list ch) {struct fuel} : option (list json * list ch) :=
  match fuel with
  | O => None
  | S fuel =>
      r ← parse_value fuel l;
      match skip_space r.2 with
      | A "," :: l2 => r' ← parse_items fuel l2; Some (r.1 :: r'.1, r'.2)
      | A "]" :: l2 => Some ([r.1], l2)
      | _ => None
      end
  end
with parse_members (fuel : nat) (l : list ch) {struct fuel} :
    option (list (string * json) * list ch) :=
  match fuel with
  | O => None
  | S fuel =>
      match skip_space l with
      | A c :: l1 =>
          if bool_decide (c = dq) then
            k ← parse_body l1;
            match skip_space k.2 with
            | A ":" :: l2 =>
                r ← parse_value fuel l2;
                match skip_space r.2 with
                | A "," :: l3 => r' ← parse_members fuel l3; Some ((k.1, r.1) :: r'.1, r'.2)
                | A "}" :: l3 => Some ([(k.1, r.1)], l3)
                | _ => None
                end
            | _ => None
            end
          else None
      | _ => None
      end
  end.

(** [Decoder.Decode] in a loop until the end of the input: the values, or an
    error for text that is not JSON. *)
Fixpoint decode_values (fuel : nat) (l : list ch) : option (list json) :=
  match fuel with
  | O => None
  | S fuel =>
      match skip_space l with
      | [] => Some []
      | l => r ← parse_value (length l) l; rs ← decode_values fuel r.2; Some (r.1 :: rs)
      end
  end.

Definition decode_stream (s : string) : option (list json) :=
  let l := runes s in decode_values (S (length l)) l.

(** ** Strings round trip *)

(** What [runes] produces. *)
Definition ch_ok (c : ch) : Prop :=
  match c with
  | A c => is_ascii c = true
  | R bytes => runes bytes = [R bytes]
  | Bad => True
  end.

Lemma runes_two a b s :
  is_ascii a = false → two a b = true →
  runes (String a (String b s)) = R (String a (String b "")) :: runes s.
Proof. intros Ha Hb. cbn. by rewrite Ha, Hb. Qed.

(** The leading bytes of the three kinds of sequences differ. *)
Lemma three_not_two a b c : three a b c = true → is_ascii a = false ∧ two a b = false.
Proof.
  unfold three, two, is_ascii, within. intros H.
  apply andb_prop in H as [H _]. repeat (apply orb_prop in H as [H|H]);
    apply andb_prop in H as [H _]; apply andb_prop in H as [H1%N.leb_le H2%N.leb_le];
    (split; [apply N.ltb_ge; lia|]); apply andb_false_intro1, andb_false_intro2, N.leb_gt; lia.
Qed.
Lemma four_not_three a b c d :
  four a b c d = true → is_ascii a = false ∧ two a b = false ∧ three a b c = false.
Proof.
  unfold four, three, two, is_ascii, within. intros H.
  apply andb_prop in H as [H _]. apply andb_prop in H as [H _].
  assert (0xF0 <= N_of_ascii a)%N as Ha.
  { repeat (apply orb_prop in H as [H|H]);
    apply andb_prop in H as [H _]; apply andb_prop in H as [H1%N.leb_le _]; lia. }
  split; [apply N.ltb_ge; lia|]. split; [apply andb_false_intro1, andb_false_intro2, N.leb_gt; lia|].
  apply andb_false_intro1. repeat (apply orb_false_intro);
    apply andb_false_intro1, andb_false_intro2, N.leb_gt; lia.
Qed.

Lemma runes_three a b c s :
  three a b c = true →
  runes (String a (String b (String c s))) = R (String a (String b (String c ""))) :: runes s.
Proof. intros Hc. destruct (three_not_two a b c Hc) as [Ha Hb]. cbn. by rewrite Ha, Hb, Hc. Qed.
Lemma runes_four a b c d s :
  four a b c d = true →
  runes (String a (String b (String c (String d s)))) =
    R (String a (String b (String c (String d "")))) :: runes s.
Proof.
  intros Hd. destruct (four_not_three a b c d Hd) as (Ha & Hb & Hc). cbn.
  by rewrite Ha, Hb, Hc, Hd.
Qed.

(** The cases of [runes] on a non-empty string. *)
Lemma runes_cases a s :
  (is_ascii a = true ∧ runes (String a s) = A a :: runes s) ∨
  (∃ b s', s = String b s' ∧ is_ascii a = false ∧ two a b = true) ∨
  (∃ b c s', s = String b (String c s') ∧ three a b c = true) ∨
  (∃ b c d s', s = String b (String c (String d s')) ∧ four a b c d = true) ∨
  runes (String a s) = Bad :: runes s.
Proof.
  cbn. destruct (is_ascii a) eqn:Ha; [by left|]. right.
  destruct s as [|b s]; [by auto|].
  destruct (two a b) eqn:Hb; [left; by exists b, s|right].
  destruct s as [|c s]; [by auto|].
  destruct (three a b c) eqn:Hc; [left; by exists b, c, s|right].
  destruct s as [|d s]; [by auto|].
  destruct (four a b c d) eqn:Hd; [left; by exists b, c, d, s|by right].
Qed.

Lemma string_length_ind (P : string → Prop) :
  (∀ s, (∀ s', (String.length s' < String.length s)%nat → P s') → P s) → ∀ s, P s.
Proof.
  intros IH s. remember (String.length s) as n eqn:Hn. revert s Hn.
  induction (lt_wf n) as [n _ IHn]. intros s ->. apply IH. intros s' Hs'. by eapply IHn.
Qed.

Lemma runes_ok s : Forall ch_ok (runes s).
Proof.
  induction s as [s IH] using string_length_ind. destruct s as [|a s]; [constructor|].
  destruct (runes_cases a s) as [[Ha ->]|[(b & s' & -> & Ha & Hb)|[(b & c & s' & -> & Hc)|
    [(b & c & d & s' & -> & Hd)| ->]]]].
  - constructor; [done|]. apply IH. cbn. lia.
  - rewrite runes_two by done. constructor; [by apply (runes_two a b "")|]. apply IH. cbn. lia.
  - rewrite runes_three by done. constructor; [by apply (runes_three a b c "")|]. apply IH. cbn. lia.
  - rewrite runes_four by done. constructor; [by apply (runes_four a b c d "")|]. apply IH. cbn. lia.
  - constructor; [done|]. apply IH. cbn. lia.
Qed.

(** Decoding stops at the end of valid text. *)
Lemma runes_app s1 s2 : Bad ∉ runes s1 → runes (s1 +:+ s2) = runes s1 ++ runes s2.
Proof.
  induction s1 as [s1 IH] using string_length_ind. destruct s1 as [|a s1]; [done|].
  destruct (runes_cases a s1) as [[Ha E]|[(b & s' & -> & Ha & Hb)|[(b & c & s' & -> & Hc)|
    [(b & c & d & s' & -> & Hd)| ->]]]].
  - rewrite E. cbn. rewrite Ha. intros Hbad. cbn. f_equal. apply IH; [cbn; lia|set_solver].
  - rewrite (runes_two a b s') by done. cbn [String.append]. rewrite runes_two by done.
    intros Hbad. cbn. f_equal. apply IH; [cbn; lia|set_solver].
  - rewrite (runes_three a b c s') by done. cbn [String.append]. rewrite runes_three by done.
    intros Hbad. cbn. f_equal. apply IH; [cbn; lia|set_solver].
  - rewrite (runes_four a b c d s') by done. cbn [String.append]. rewrite runes_four by done.
    intros Hbad. cbn. f_equal. apply IH; [cbn; lia|set_solver].
  - set_solver.
Qed.

(** An ASCII byte never continues a rune, so it separates any text before it from
    the text behind. *)
Lemma cont_ascii c : is_ascii c = true → cont c = false.
Proof.
  unfold is_ascii, cont, within. intros Hc%N.ltb_lt. apply andb_false_intro1, N.leb_gt. lia.
Qed.
Lemma two_ascii a c : is_ascii c = true → two a c = false.
Proof. intros Hc. unfold two. rewrite cont_ascii by done. apply andb_false_r. Qed.
Lemma three_ascii a b c : is_ascii b = true ∨ is_ascii c = true → three a b c = false.
Proof.
  intros Hc. destruct (three a b c) eqn:E; [|done]. exfalso. unfold three in E.
  apply andb_prop in E as [E Ec]. destruct Hc as [Hb|Hc]; [|by rewrite cont_ascii in Ec].
  unfold is_ascii in Hb. apply N.ltb_lt in Hb. unfold cont, within in E.
  repeat (apply orb_prop in E as [E|E]); apply andb_prop in E as [_ E];
    apply andb_prop in E as [E%N.leb_le _]; lia.
Qed.
Lemma four_ascii a b c d :
  is_ascii b = true ∨ is_ascii c = true ∨ is_ascii d = true → four a b c d = false.
Proof.
  intros Hc. destruct (four a b c d) eqn:E; [|done]. exfalso. unfold four in E.
  apply andb_prop in E as [E Ed]. apply andb_prop in E as [E Ec].
  destruct Hc as [Hb|[Hc|Hd]]; [|by rewrite cont_ascii in Ec|by rewrite cont_ascii in Ed].
  unfold is_ascii in Hb. apply N.ltb_lt in Hb. unfold cont, within in E.
  repeat (apply orb_prop in E as [E|E]); apply andb_prop in E as [_ E];
    apply andb_prop in E as [E%N.leb_le _]; lia.
Qed.

Lemma runes_sep s1 c s2 :
  is_ascii c = true → runes (s1 +:+ String c s2) = runes s1 ++ A c :: runes s2.
Proof.
  intros Hc. assert (runes (String c s2) = A c :: runes s2) as Ec by (cbn; by rewrite Hc).
  induction s1 as [s1 IH] using string_length_ind. destruct s1 as [|a s1]; [exact Ec|].
  destruct (runes_cases a s1) as [[Ha E]|[(b & s' & -> & Ha & Hb)|[(b & c' & s' & -> & Hc')|
    [(b & c' & d & s' & -> & Hd)|E]]]].
  - rewrite E. cbn. rewrite Ha. f_equal. apply IH. cbn. lia.
  - rewrite (runes_two a b s') by done. cbn [String.append]. rewrite runes_two by done.
    cbn. f_equal. apply IH. cbn. lia.
  - rewrite (runes_three a b c' s') by done. cbn [String.append]. rewrite runes_three by done.
    cbn. f_equal. apply IH. cbn. lia.
  - rewrite (runes_four a b c' d s') by done. cbn [String.append]. rewrite runes_four by done.
    cbn. f_equal. apply IH. cbn. lia.
  - rewrite E. cbn [app]. rewrite <- IH by (cbn; lia). clear IH Ec. cbn [String.append].
    assert (is_ascii a = false ∧ (∀ b s', s1 = String b s' → two a b = false) ∧
      (∀ b d s', s1 = String b (String d s') → three a b d = false) ∧
      (∀ b d e s', s1 = String b (String d (String e s')) → four a b d e = false))
      as (Ha & H2 & H3 & H4).
    { cbn in E. destruct (is_ascii a); [done|]. split_and!; [done| | |];
        intros; subst s1; repeat case_match; try done; congruence. }
    cbn [runes]. rewrite Ha. destruct s1 as [|b s1]; cbn [String.append].
    { rewrite two_ascii by done. destruct s2 as [|d s2]; [done|]. rewrite three_ascii by auto.
      destruct s2 as [|e s2]; [done|]. by rewrite four_ascii by auto. }
    rewrite (H2 b s1 eq_refl). destruct s1 as [|d s1]; cbn [String.append].
    { rewrite three_ascii by auto. destruct s2 as [|e s2]; [done|]. by rewrite four_ascii by auto. }
    rewrite (H3 b d s1 eq_refl). destruct s1 as [|e s1]; cbn [String.append].
    { by rewrite four_ascii by auto. }
    by rewrite (H4 b d e s1 eq_refl).
Qed.

Lemma escape_ascii_parse c l :
  is_ascii c = true →
  Bad ∉ runes (escape_ascii c) ∧
  parse_body (runes (escape_ascii c) ++ l) = prepend (String c "") (parse_body l).
Proof.
  intros Hc.
  assert (bool_decide (Bad ∉ runes (escape_ascii c)) = true) as Hb.
  { destruct c as [[] [] [] [] [] [] [] []]; first [done|by vm_compute]. }
  split; [by apply bool_decide_eq_true in Hb|].
  destruct c as [[] [] [] [] [] [] [] []]; first [done|reflexivity].
Qed.

Lemma escape_parse c l :
  ch_ok c → Bad ∉ runes (escape c) ∧
  parse_body (runes (escape c) ++ l) = prepend (ch_text c) (parse_body l).
Proof.
  intros Hc. destruct c as [c|bytes|].
  - by apply escape_ascii_parse.
  - cbn [escape]. case_bool_decide as E1; [|case_bool_decide as E2].
    + subst bytes. split; [apply (bool_decide_eq_true_1 _); by vm_compute|].
      reflexivity.
    + subst bytes. split; [apply (bool_decide_eq_true_1 _); by vm_compute|].
      reflexivity.
    + rewrite Hc. split; [set_solver|done].
  - split; [apply (bool_decide_eq_true_1 _); by vm_compute|].
    reflexivity.
Qed.

Lemma escapes_parse cs l :
  Forall ch_ok cs →
  Bad ∉ runes (concat_strings (escape <$> cs)) ∧
  parse_body (runes (concat_strings (escape <$> cs)) ++ A dq :: l) =
    Some (concat_strings (ch_text <$> cs), l).
Proof.
  induction 1 as [|c cs Hc Hcs [IHb IHp]]; [split; [apply not_elem_of_nil|done]|].
  cbn [fmap list_fmap concat_strings].
  destruct (escape_parse c (runes (concat_strings (escape <$> cs)) ++ A dq :: l) Hc) as [Hb Hp].
  rewrite runes_app by done. split; [set_solver|].
  rewrite <- (assoc_L (++)), Hp, IHp. done.
Qed.

(** [quote] is valid text and decodes to its argument. *)
Lemma quote_parse s :
  Bad ∉ runes (quote s) ∧
  ∃ l, runes (quote s) = A dq :: l ∧ ∀ rest, parse_body (l ++ rest) = Some (to_valid s, rest).
Proof.
  unfold quote. destruct (escapes_parse (runes s) [] (runes_ok s)) as [Hb _].
  assert (runes (String dq (concat_strings (escape <$> runes s) +:+ String dq "")) =
    A dq :: runes (concat_strings (escape <$> runes s)) ++ [A dq]) as E.
  { cbn. by rewrite runes_app. }
  rewrite E. split; [set_solver|]. eexists. split; [done|]. intros rest.
  rewrite <- (assoc_L (++)). apply escapes_parse, runes_ok.
Qed.

Lemma concat_text s : valid_utf8 s = true → to_valid s = s.
Proof.
  unfold valid_utf8. rewrite bool_decide_eq_true.
  induction s as [s IH] using string_length_ind. destruct s as [|a s]; [done|].
  assert (∀ c s', Bad ∉ c :: runes s' → (String.length s' < S (String.length s))%nat →
    concat_strings (ch_text <$> c :: runes s') = ch_text c +:+ s') as Hstep.
  { intros c s' Hbad Hlen. rewrite <- (IH s') at 2; [done|cbn; lia|set_solver]. }
  unfold to_valid.
  destruct (runes_cases a s) as [[Ha E]|[(b & s' & -> & Ha & Hb)|[(b & c & s' & -> & Hc)|
    [(b & c & d & s' & -> & Hd)|E]]]].
  - rewrite E. intros Hbad. by rewrite Hstep by (done || lia).
  - rewrite runes_two by done. intros Hbad. by rewrite Hstep by (done || cbn; lia).
  - rewrite runes_three by done. intros Hbad. by rewrite Hstep by (done || cbn; lia).
  - rewrite runes_four by done. intros Hbad. by rewrite Hstep by (done || cbn; lia).
  - rewrite E. intros []. by left.
Qed.

(** ** Values round trip *)

Section json_rec.
Variable P : json → Prop.
Hypothesis HNull : P JNull.
Hypothesis HBool : ∀ b, P (JBool b).
Hypothesis HNum : ∀ lit, P (JNum lit).
Hypothesis HStr : ∀ s, P (JStr s).
Hypothesis HArr : ∀ l, Forall P l → P (JArr l).
Hypothesis HObj : ∀ fs, Forall (λ f, P f.2) fs → P (JObj fs).

Fixpoint json_nested_ind (j : json) : P j :=
  match j with
  | JNull => HNull
  | JBool b => HBool b
  | JNum lit => HNum lit
  | JStr s => HStr s
  | JArr l => HArr l ((fix go l : Forall P l :=
      match l with
      | [] => Forall_nil_2 _
      | j :: l => Forall_cons_2 _ _ _ (json_nested_ind j) (go l)
      end) l)
  | JObj fs => HObj fs ((fix go fs : Forall (λ f, P f.2) fs :=
      match fs with
      | [] => Forall_nil_2 _
      | f :: fs => Forall_cons_2 _ _ _ (json_nested_ind f.2) (go fs)
      end) fs)
  end.
End json_rec.

(** Values whose number literals are literals. *)
Fixpoint json_ok (j : json) : bool :=
  match j with
  | JNum lit => valid_number lit && string_forall number_char lit
  | JArr l => forallb json_ok l
  | JObj fs => forallb (λ f, json_ok f.2) fs
  | _ => true
  end.

(** The value the decoder returns: strings made valid. *)
Fixpoint norm (j : json) : json :=
  match j with
  | JStr s => JStr (to_valid s)
  | JArr l => JArr (norm <$> l)
  | JObj fs => JObj ((λ f, (to_valid f.1, norm f.2)) <$> fs)
  | _ => j
  end.

(** Text that ends a number. *)
Definition stops (l : list ch) : Prop :=
  match l with A c :: _ => number_char c = false | _ => True end.

Lemma number_char_ascii c : number_char c = true → is_ascii c = true.
Proof. by destruct c as [[] [] [] [] [] [] [] []]. Qed.

Lemma span_number_lit lit rest :
  string_forall number_char lit = true → stops rest →
  Bad ∉ runes lit ∧ span_number (runes lit ++ rest) = (lit, rest).
Proof.
  intros Hlit Hrest. induction lit as [|c lit IH].
  - split; [apply not_elem_of_nil|]. destruct rest as [|[c| |] rest]; [done| |done..].
    cbn in *. by rewrite Hrest.
  - cbn in Hlit. apply andb_prop in Hlit as [Hc Hlit]. destruct (IH Hlit) as [Hb E].
    cbn. rewrite (number_char_ascii c) by done. split; [set_solver|].
    cbn. by rewrite Hc, E.
Qed.

(** The first character of a value tells what it is. *)
Definition starts (l : list ch) : Prop :=
  match l with
  | A c :: _ => is_space (A c) = false ∧ c ≠ "]"%char ∧ c ≠ "}"%char
  | _ => False
  end.

Lemma skip_starts l : starts l → skip_space l = l.
Proof. destruct l as [|[c| |] l]; try done. intros [Hs _]. cbn [skip_space]. by rewrite Hs. Qed.

Lemma skip_char c l : is_space (A c) = false → skip_space (A c :: l) = A c :: l.
Proof. intros Hc. cbn [skip_space]. by rewrite Hc. Qed.

Lemma starts_app l1 l2 : starts l1 → starts (l1 ++ l2).
Proof. by destruct l1 as [|[c| |] l1]. Qed.

Lemma valid_number_nonempty lit :
  valid_number lit && string_forall number_char lit = true →
  ∃ c lit', lit = String c lit' ∧ number_char c = true.
Proof.
  destruct lit as [|c lit]; [done|]. intros [_ H]%andb_prop. cbn in H.
  apply andb_prop in H as [Hc _]. by exists c, lit.
Qed.

(** White space, between the tokens of a value. *)
Definition white (ws : string) : Prop :=
  string_forall (λ c, is_space (A c)) ws = true.

Lemma white_runes ws :
  white ws → Bad ∉ runes ws ∧ ∀ l, skip_space (runes ws ++ l) = skip_space l.
Proof.
  unfold white. induction ws as [|c ws IH]; [split; [apply not_elem_of_nil|done]|].
  cbn [string_forall]. intros [Hc Hws]%andb_prop. destruct (IH Hws) as [Hb Hs].
  assert (runes (String c ws) = A c :: runes ws) as ->.
  { cbn. assert (is_ascii c = true) as ->; [|done].
    clear - Hc. by destruct c as [[] [] [] [] [] [] [] []]. }
  split; [set_solver|]. intros l. cbn [app skip_space]. rewrite Hc. apply Hs.
Qed.

Lemma white_app ws ws' : white ws → white ws' → white (ws +:+ ws').
Proof.
  unfold white. induction ws as [|c ws IH]; [done|]. cbn [String.append string_forall].
  rewrite !andb_true_iff. intros [Hc Hws] Hws'. split; [done|]. by apply IH.
Qed.
Lemma white_nl : white nl.
Proof. done. Qed.
Lemma white_spaces n : white (spaces n).
Proof. induction n as [|n IH]; [done|]. exact IH. Qed.
#[local] Hint Resolve white_app white_nl white_spaces : mrp.

Lemma skip_space_eq fuel l l' :
  skip_space l = skip_space l' →
  parse_value fuel l = parse_value fuel l' ∧ parse_items fuel l = parse_items fuel l' ∧
  parse_members fuel l = parse_members fuel l'.
Proof.
  intros E. assert (∀ fuel, parse_value fuel l = parse_value fuel l') as Hv.
  { intros [|f]; [done|]. cbn [parse_value]. by rewrite E. }
  split_and!; [apply Hv| |]; destruct fuel as [|fuel]; [done| |done|]; cbn [parse_items parse_members].
  - by rewrite Hv.
  - by rewrite E.
Qed.

(** The text [s] is read as the value [j], wherever it stands. *)
Definition text_ok (j : json) (s : string) : Prop :=
  Bad ∉ runes s ∧ starts (runes s) ∧
  ∀ fuel rest, (length (runes s) ≤ fuel)%nat → stops rest →
    parse_value fuel (runes s ++ rest) = Some (norm j, rest).

Definition printed_ok (j : json) : Prop := text_ok j (print j).

Lemma stops_white ws l : white ws → stops l → stops (runes ws ++ l).
Proof.
  destruct ws as [|c ws]; [done|]. unfold white. cbn [string_forall].
  intros [Hc _]%andb_prop _. clear - Hc. by destruct c as [[] [] [] [] [] [] [] []].
Qed.

(** Elements and members separated by a comma and white space. *)
Lemma items_parse ws l ts :
  white ws → l ≠ [] → Forall2 text_ok l ts →
  let text := runes (Join ts ("," +:+ ws)) in
  Bad ∉ text ∧ starts text ∧
  ∀ fuel ws' rest, white ws' → (length text < fuel)%nat →
    parse_items fuel (text ++ runes ws' ++ A "]"%char :: rest) = Some (norm <$> l, rest).
Proof.
  intros Hws Hne Hl. induction Hl as [|j t l ts (Hb & Hs & Hp) Hl IH]; [done|]. clear Hne.
  destruct (white_runes ws Hws) as [Hwb Hwsk].
  destruct Hl as [|j' t' l ts Hj' Hl]; cbn zeta in *.
  - cbn [fmap list_fmap Join]. split_and!; [done|done|]. intros [|fuel] ws' rest Hws' Hf; [lia|].
    destruct (white_runes ws' Hws') as [_ Hsk].
    cbn [parse_items]. rewrite Hp by (lia || by apply stops_white). cbn [mbind option_bind fst snd].
    by rewrite Hsk, skip_char.
  - destruct IH as (IHb & IHs & IHp); [done|].
    change (Join (t :: t' :: ts) ("," +:+ ws)) with (t +:+ "," +:+ ws +:+ Join (t' :: ts) ("," +:+ ws)).
    set (J := Join (t' :: ts) ("," +:+ ws)) in *.
    rewrite (runes_app t) by done.
    change (runes ("," +:+ ws +:+ J)) with (A ","%char :: runes (ws +:+ J)).
    rewrite (runes_app ws) by done.
    split_and!; [set_solver|by apply starts_app|]. intros [|fuel] ws' rest Hws' Hf; [lia|].
    rewrite length_app, length_cons, length_app in Hf. cbn [parse_items].
    rewrite <- (assoc_L (++)), Hp by (done || lia). cbn [mbind option_bind fst snd app].
    rewrite skip_char by done. rewrite <- (assoc_L (++)).
    destruct (skip_space_eq fuel _ _ (Hwsk (runes J ++ runes ws' ++ A "]"%char :: rest)))
      as (_ & -> & _).
    by rewrite IHp by (done || lia).
Qed.

Definition member (ws : string) (k t : string) : string := quote k +:+ ":" +:+ ws +:+ t.

Lemma member_runes ws k t :
  white ws → Bad ∉ runes t →
  Bad ∉ runes (member ws k t) ∧ starts (runes (member ws k t)) ∧
  ∃ l, runes (member ws k t) = A dq :: l ++ A ":"%char :: runes ws ++ runes t ∧
    ∀ rest, parse_body (l ++ rest) = Some (to_valid k, rest).
Proof.
  intros Hws Ht. unfold member. destruct (quote_parse k) as (Hb & l & E & Hl).
  destruct (white_runes ws Hws) as [Hwb _].
  rewrite runes_app by done.
  change (runes (":" +:+ ws +:+ t)) with (A ":"%char :: runes (ws +:+ t)).
  rewrite (runes_app ws) by done. rewrite E in *. split_and!; [set_solver|done|]. by exists l.
Qed.

(** One member, up to what follows its value. *)
Lemma member_parse ws k t j fuel rest :
  white ws → text_ok j t → (length (runes (member ws k t)) < S fuel)%nat → stops rest →
  parse_members (S fuel) (runes (member ws k t) ++ rest) =
    match skip_space rest with
    | A "," :: l3 => r' ← parse_members fuel l3; Some ((to_valid k, norm j) :: r'.1, r'.2)
    | A "}" :: l3 => Some ([(to_valid k, norm j)], l3)
    | _ => None
    end.
Proof.
  intros Hws (Hb & Hs & Hp) Hf Hst. destruct (white_runes ws Hws) as [_ Hsk].
  destruct (member_runes ws k t Hws Hb) as (_ & _ & l & E & Hk). rewrite E in *.
  rewrite length_cons, length_app, length_cons, length_app in Hf.
  cbn [app parse_members]. rewrite skip_char, bool_decide_true by done.
  rewrite <- (assoc_L (++)), Hk. cbn [mbind option_bind fst snd app].
  rewrite skip_char by done. rewrite <- (assoc_L (++)).
  destruct (skip_space_eq fuel _ _ (Hsk (runes t ++ rest))) as (-> & _).
  by rewrite Hp by (done || lia).
Qed.

Lemma members_parse ws ws2 (fs : list (string * json)) ts :
  white ws → white ws2 → fs ≠ [] → Forall2 (λ f t, text_ok f.2 t) fs ts →
  let text := runes (Join (zip_with (λ f t, member ws2 f.1 t) fs ts) ("," +:+ ws)) in
  Bad ∉ text ∧ starts text ∧
  ∀ fuel ws' rest, white ws' → (length text < fuel)%nat →
    parse_members fuel (text ++ runes ws' ++ A "}"%char :: rest) =
      Some ((λ f, (to_valid f.1, norm f.2)) <$> fs, rest).
Proof.
  intros Hws Hws2 Hne Hl. induction Hl as [|[k j] t fs ts Hj Hl IH]; [done|]. clear Hne.
  cbn [snd] in *. destruct (white_runes ws Hws) as [Hwb Hwsk].
  destruct (member_runes ws2 k t Hws2 (proj1 Hj)) as (Mb & Ms & _).
  destruct Hl as [|f t' fs ts Hf' Hl]; cbn zeta in *.
  - cbn [zip_with fst fmap list_fmap Join]. split_and!; [done|done|].
    intros [|fuel] ws' rest Hws' Hf; [lia|]. destruct (white_runes ws' Hws') as [_ Hsk].
    rewrite (member_parse _ _ _ j) by (done || by apply stops_white).
    by rewrite Hsk, skip_char.
  - destruct IH as (IHb & IHs & IHp); [done|].
    change (Join (zip_with (λ f t, member ws2 f.1 t) ((k, j) :: f :: fs) (t :: t' :: ts)) ("," +:+ ws))
      with (member ws2 k t +:+ "," +:+ ws +:+
            Join (zip_with (λ f t, member ws2 f.1 t) (f :: fs) (t' :: ts)) ("," +:+ ws)).
    set (J := Join (zip_with _ (f :: fs) (t' :: ts)) ("," +:+ ws)) in *.
    rewrite (runes_app (member ws2 k t)) by done.
    change (runes ("," +:+ ws +:+ J)) with (A ","%char :: runes (ws +:+ J)).
    rewrite (runes_app ws) by done.
    split_and!; [set_solver|by apply starts_app|]. intros [|fuel] ws' rest Hws' Hf; [lia|].
    rewrite length_app, length_cons, length_app in Hf. rewrite <- (assoc_L (++)).
    rewrite (member_parse _ _ _ j) by (done || lia). cbn [app].
    rewrite skip_char by done. rewrite <- (assoc_L (++)).
    destruct (skip_space_eq fuel _ _ (Hwsk (runes J ++ runes ws' ++ A "}"%char :: rest)))
      as (_ & _ & ->).
    by rewrite IHp by (done || lia).
Qed.

Lemma skip_starts_app l l' : starts l → skip_space (l ++ l') = l ++ l'.
Proof. intros Hl. apply skip_starts. by apply starts_app. Qed.

(** Aggregates: an opening bracket, white space, elements, white space, a closing
    bracket. *)
Lemma bracket_runes (o c : ascii) w1 (J w2 : string) :
  is_ascii o = true → is_ascii c = true → white w1 → white w2 → Bad ∉ runes J →
  let s := String o (w1 +:+ J +:+ w2 +:+ String c "") in
  runes s = A o :: runes w1 ++ runes J ++ runes w2 ++ [A c] ∧ Bad ∉ runes s.
Proof.
  intros Ho Hc Hw1 Hw2 HJ s. destruct (white_runes w1 Hw1) as [Hb1 _].
  destruct (white_runes w2 Hw2) as [Hb2 _].
  assert (runes s = A o :: runes w1 ++ runes J ++ runes w2 ++ [A c]) as E.
  { unfold s. cbn [runes]. rewrite Ho. rewrite !runes_app by done. cbn [runes]. by rewrite Hc. }
  split; [done|]. rewrite E. set_solver.
Qed.

Lemma text_arr l ts ws w1 w2 :
  white ws → white w1 → white w2 → l ≠ [] → Forall2 text_ok l ts →
  text_ok (JArr l) ("[" +:+ w1 +:+ Join ts ("," +:+ ws) +:+ w2 +:+ "]").
Proof.
  intros Hws Hw1 Hw2 Hne Hl. destruct (items_parse ws l ts Hws Hne Hl) as (Hb & Hs & Hp).
  set (J := Join ts _) in *. destruct (white_runes w1 Hw1) as [_ Hsk1].
  destruct (bracket_runes "[" "]" w1 J w2) as [E EB]; [done..|].
  unfold text_ok. change ("[" +:+ w1 +:+ J +:+ w2 +:+ "]")
    with (String "[" (w1 +:+ J +:+ w2 +:+ String "]" "")). rewrite E in *.
  split_and!; [done|done|]. intros [|fuel] rest Hf _; [cbn in Hf; lia|].
  rewrite length_cons, !length_app in Hf. cbn [length] in Hf.
  cbn [app parse_value]. rewrite skip_char, bool_decide_false, bool_decide_false by done.
  rewrite bool_decide_true by done. rewrite <- !(assoc_L (++)).
  rewrite Hsk1, skip_starts_app by done.
  destruct (skip_space_eq fuel _ _ (Hsk1 (runes J ++ runes w2 ++ [A "]"%char] ++ rest)))
    as (_ & -> & _).
  specialize (Hp fuel w2 rest Hw2 ltac:(lia)). cbn [app] in *. rewrite Hp.
  destruct (runes J) as [|[c| |] lj]; try done. destruct Hs as (_ & Hc & _).
  cbn [app mbind option_bind fst snd]. destruct c as [[] [] [] [] [] [] [] []]; done.
Qed.

Lemma text_obj (fs : list (string * json)) ts ws ws2 w1 w2 :
  white ws → white ws2 → white w1 → white w2 → fs ≠ [] → Forall2 (λ f t, text_ok f.2 t) fs ts →
  text_ok (JObj fs)
    ("{" +:+ w1 +:+ Join (zip_with (λ f t, member ws2 f.1 t) fs ts) ("," +:+ ws) +:+ w2 +:+ "}").
Proof.
  intros Hws Hws2 Hw1 Hw2 Hne Hl.
  destruct (members_parse ws ws2 fs ts Hws Hws2 Hne Hl) as (Hb & Hs & Hp).
  set (J := Join _ _) in *. destruct (white_runes w1 Hw1) as [_ Hsk1].
  destruct (bracket_runes "{" "}" w1 J w2) as [E EB]; [done..|].
  unfold text_ok. change ("{" +:+ w1 +:+ J +:+ w2 +:+ "}")
    with (String "{" (w1 +:+ J +:+ w2 +:+ String "}" "")). rewrite E in *.
  split_and!; [done|done|]. intros [|fuel] rest Hf _; [cbn in Hf; lia|].
  rewrite length_cons, !length_app in Hf. cbn [length] in Hf.
  cbn [app parse_value]. rewrite skip_char, bool_decide_false by done.
  rewrite bool_decide_true by done. rewrite <- !(assoc_L (++)).
  rewrite Hsk1, skip_starts_app by done.
  destruct (skip_space_eq fuel _ _ (Hsk1 (runes J ++ runes w2 ++ [A "}"%char] ++ rest)))
    as (_ & _ & ->).
  specialize (Hp fuel w2 rest Hw2 ltac:(lia)). cbn [app] in *. rewrite Hp.
  destruct (runes J) as [|[c| |] lj]; try done. destruct Hs as (_ & _ & Hc).
  cbn [app mbind option_bind fst snd]. destruct c as [[] [] [] [] [] [] [] []]; done.
Qed.

Lemma printed_str s : printed_ok (JStr s).
Proof.
  destruct (quote_parse s) as (Hb & l & E & Hl). unfold printed_ok, text_ok. cbn [print].
  rewrite E in *.
  split_and!; [done|done|]. intros [|fuel] rest Hf _; [cbn in Hf; lia|].
  cbn [app parse_value]. rewrite skip_char, bool_decide_true by done. by rewrite Hl.
Qed.

Lemma printed_num lit :
  valid_number lit && string_forall number_char lit = true → printed_ok (JNum lit).
Proof.
  intros Hlit. destruct (valid_number_nonempty lit Hlit) as (c & lit' & E & Hc).
  apply andb_prop in Hlit as [Hv Hall]. unfold printed_ok, text_ok. cbn [print].
  destruct (span_number_lit lit [] Hall I) as [Hb _].
  assert (runes lit = A c :: runes lit') as Er.
  { rewrite E. cbn. by rewrite (number_char_ascii c). }
  assert (is_space (A c) = false ∧ c ≠ "]"%char ∧ c ≠ "}"%char ∧ c ≠ dq ∧ c ≠ "{"%char ∧
    c ≠ "["%char ∧ c ≠ "t"%char ∧ c ≠ "f"%char ∧ c ≠ "n"%char)
    as (? & ? & ? & ? & ? & ? & ? & ? & ?).
  { split; [by destruct c as [[] [] [] [] [] [] [] []]|].
    split_and!; intros ->; done. }
  split_and!; [done|by rewrite Er|]. intros [|fuel] rest Hf Hst; [rewrite Er in Hf; cbn in Hf; lia|].
  destruct (span_number_lit lit rest Hall Hst) as [_ Es].
  rewrite Er in *. cbn [app parse_value] in *. rewrite skip_char by done.
  rewrite !bool_decide_false by done. rewrite Es. cbn [fst snd]. by rewrite Hv.
Qed.

(** A text without elements. *)
Lemma text_fixed j s :
  bool_decide (Bad ∉ runes s) = true → starts (runes s) →
  (∀ fuel rest, stops rest → parse_value (S fuel) (runes s ++ rest) = Some (norm j, rest)) →
  text_ok j s.
Proof.
  intros Hb Hs Hp. split_and!; [by apply bool_decide_eq_true in Hb|done|].
  intros [|fuel] rest Hf Hst; [|by apply Hp].
  destruct (runes s); [done|cbn in Hf; lia].
Qed.

Lemma Forall2_map {X Y} (P : X → Y → Prop) (f : X → Y) (l : list X) :
  Forall (λ x, P x (f x)) l → Forall2 P l (f <$> l).
Proof. induction 1; by constructor. Qed.
Lemma zip_with_map {X Y Z'} (g : X → Y → Z') (f : X → Y) (l : list X) :
  zip_with g l (f <$> l) = (λ x, g x (f x)) <$> l.
Proof. induction l as [|x l IH]; [done|]. cbn. by rewrite IH. Qed.

Lemma print_parse j : json_ok j = true → printed_ok j.
Proof.
  unfold printed_ok.
  induction j as [|b|lit|s|l IH|fs IH] using json_nested_ind; intros Hok.
  - by apply text_fixed.
  - by destruct b; apply text_fixed.
  - by apply printed_num.
  - apply printed_str.
  - cbn in Hok. rewrite forallb_forall in Hok. destruct l as [|j l]; [by apply text_fixed|].
    apply (text_arr (j :: l) (print <$> j :: l) "" "" ""); [done..|]. apply Forall2_map.
    rewrite Forall_forall in *. intros j' Hj. apply IH, Hok; [done|]. by apply list_elem_of_In.
  - cbn in Hok. rewrite forallb_forall in Hok. destruct fs as [|f fs]; [by apply text_fixed|].
    pose proof (text_obj (f :: fs) ((λ f, print f.2) <$> f :: fs) "" "" "" "") as Ht.
    rewrite (zip_with_map (λ f t, member "" f.1 t) (λ f, print f.2)) in Ht.
    apply Ht; [done..|]. apply Forall2_map.
    rewrite Forall_forall in *. intros f' Hf. apply IH, Hok; [done|]. by apply list_elem_of_In.
Qed.

(** The indented layout is read as the same value. *)
Lemma print_indent_parse j : json_ok j = true → ∀ depth, text_ok j (print_indent depth j).
Proof.
  induction j as [|b|lit|s|l IH|fs IH] using json_nested_ind; intros Hok depth;
    try (by apply (print_parse _ Hok)).
  - cbn in Hok. rewrite forallb_forall in Hok. destruct l as [|j l]; [by apply text_fixed|].
    pose proof (text_arr (j :: l) (print_indent (S depth) <$> j :: l) (nl +:+ spaces (S depth))
      (nl +:+ spaces (S depth)) (nl +:+ spaces depth)) as Ht. rewrite <- !append_assoc in Ht.
    apply Ht; [auto with mrp..| |]; [done|]. apply Forall2_map.
    rewrite Forall_forall in *. intros j' Hj. apply IH, Hok; [done|]. by apply list_elem_of_In.
  - cbn in Hok. rewrite forallb_forall in Hok. destruct fs as [|f fs]; [by apply text_fixed|].
    pose proof (text_obj (f :: fs) ((λ f, print_indent (S depth) f.2) <$> f :: fs)
      (nl +:+ spaces (S depth)) " " (nl +:+ spaces (S depth)) (nl +:+ spaces depth)) as Ht.
    rewrite (zip_with_map (λ f t, member " " f.1 t) (λ f, print_indent (S depth) f.2)) in Ht.
    rewrite <- !append_assoc in Ht. apply Ht; [auto with mrp..| |]; [done|]. apply Forall2_map.
    rewrite Forall_forall in *. intros f' Hf. apply IH, Hok; [done|]. by apply list_elem_of_In.
Qed.

(** ** Streams: the encoder writes one value per line *)

Definition encode_stream (js : list json) : string :=
  concat_strings ((λ j, print j +:+ nl) <$> js).

Lemma encode_line j :
  json_ok j = true →
  Bad ∉ runes (print j +:+ nl) ∧
  runes (print j +:+ nl) = runes (print j) ++ [A (ascii_of_nat 10)].
Proof.
  intros Hj. destruct (print_parse j Hj) as (Hb & _ & _). rewrite runes_app by done.
  change (runes nl) with [A (ascii_of_nat 10)]. set_solver.
Qed.

Lemma encode_stream_cons j js :
  json_ok j = true →
  runes (encode_stream (j :: js)) =
    runes (print j) ++ A (ascii_of_nat 10) :: runes (encode_stream js).
Proof.
  intros Hj. destruct (encode_line j Hj) as [Hb E].
  change (encode_stream (j :: js)) with ((print j +:+ nl) +:+ encode_stream js).
  by rewrite runes_app, E, <- (assoc_L (++)).
Qed.

Lemma skip_nl l : skip_space (A (ascii_of_nat 10) :: l) = skip_space l.
Proof. reflexivity. Qed.

Lemma decode_values_skip fuel l : decode_values fuel (skip_space l) = decode_values fuel l.
Proof.
  destruct fuel as [|fuel]; [done|]. cbn [decode_values].
  assert (skip_space (skip_space l) = skip_space l) as ->; [|done].
  induction l as [|c l IH]; [done|]. cbn [skip_space]. destruct (is_space c) eqn:E; [done|].
  cbn [skip_space]. by rewrite E.
Qed.

Lemma decode_values_stream js fuel :
  Forall (λ j, json_ok j = true) js → (length (runes (encode_stream js)) < fuel)%nat →
  decode_values fuel (runes (encode_stream js)) = Some (norm <$> js).
Proof.
  intros Hjs. revert fuel. induction Hjs as [|j js Hj Hjs IH]; intros [|fuel] Hf; [lia|done|lia|].
  rewrite encode_stream_cons in * by done. destruct (print_parse j Hj) as (_ & Hs & Hp).
  rewrite length_app, length_cons in Hf.
  cbn [decode_values]. rewrite skip_starts_app by done.
  set (l := runes (print j) ++ _).
  assert (l ≠ []) by (unfold l; by destruct (runes (print j))).
  destruct l as [|c l'] eqn:El; [done|]. rewrite <- El in *. subst l.
  rewrite Hp; [|rewrite length_app; lia|done]. cbn [mbind option_bind fst snd].
  rewrite <- decode_values_skip, skip_nl, decode_values_skip, IH by lia. done.
Qed.

Lemma decode_encode_stream js :
  Forall (λ j, json_ok j = true) js → decode_stream (encode_stream js) = Some (norm <$> js).
Proof. intros Hjs. unfold decode_stream. apply decode_values_stream; [done|lia]. Qed.

(** ** One document: what [json.Unmarshal] accepts *)

Definition parse_json (s : string) : option json :=
  let l := runes s in
  r ← parse_value (S (length l)) l;
  match skip_space r.2 with [] => Some r.1 | _ => None end.

Lemma parse_text j s ws : text_ok j s → white ws → parse_json (s +:+ ws) = Some (norm j).
Proof.
  intros (Hb & _ & Hp) Hws. unfold parse_json. rewrite runes_app by done.
  destruct (white_runes ws Hws) as [_ Hsk]. specialize (Hsk []).
  rewrite (right_id_L [] (++)) in Hsk. rewrite Hp.
  - cbn [mbind option_bind fst snd]. by rewrite Hsk.
  - rewrite length_app. lia.
  - rewrite <- (right_id_L [] (++) (runes ws)). by apply stops_white.
Qed.

Lemma parse_print_indent j :
  json_ok j = true → parse_json (print_indent 0 j +:+ nl) = Some (norm j).
Proof. intros Hj. apply parse_text; [by apply print_indent_parse|apply white_nl]. Qed.

(** Printed integers are literals. *)
Lemma digits1_fmt_N n : digits1 (fmt_N n) = Some "".
Proof.
  unfold digits1. rewrite <- (append_nil_r (fmt_N n)), span_digits_fmt_N by done. cbn [fst snd].
  destruct (fmt_N n) eqn:E; [by apply fmt_N_nonempty in E|done].
Qed.
Lemma to_uint_leading n : N.to_uint n = Decimal.D0 Decimal.Nil ∨ Decimal.nzhead (N.to_uint n) = N.to_uint n.
Proof.
  pose proof (Unsigned.to_of (N.to_uint n)) as E. rewrite Unsigned.of_to in E.
  unfold Decimal.unorm in E. destruct (Decimal.nzhead (N.to_uint n)) eqn:Eh; auto.
Qed.
Lemma fmt_N_number n : valid_number (fmt_N n) = true.
Proof.
  pose proof (digits1_fmt_N n) as Hd. pose proof (fmt_N_digits n) as Hall.
  destruct (to_uint_leading n) as [E|E].
  - unfold fmt_N. by rewrite E.
  - assert (∀ s, fmt_N n ≠ String "0" s) as H0.
    { intros s Es. rewrite fmt_N_empty in Es. destruct (N.to_uint n) as [|u|u|u|u|u|u|u|u|u|u]; try done.
      cbn [Decimal.nzhead] in E. by apply nzhead_nonzero in E. }
    unfold valid_number. destruct (fmt_N n) as [|c s]; [done|].
    cbn [string_forall] in Hall. apply andb_prop in Hall as [Hc _].
    assert (c ≠ "0"%char) as Hc0 by (intros ->; by apply (H0 s)).
    clear H0 E. destruct c as [[] [] [] [] [] [] [] []]; try done; by rewrite Hd.
Qed.
Lemma JInt_ok z : json_ok (JInt z) = true.
Proof.
  unfold JInt, fmt_d. cbn [json_ok]. apply andb_true_iff.
  assert (∀ n, string_forall number_char (fmt_N n) = true) as Hn.
  { intros n. eapply string_forall_impl, fmt_N_digits. intros c Hc. unfold number_char. by rewrite Hc. }
  destruct (z <? 0).
  - split; [|cbn; by rewrite Hn]. pose proof (fmt_N_number (Z.to_N (- z))) as Hv.
    pose proof (fmt_N_digits (Z.to_N (- z))) as Hd. unfold valid_number in *.
    destruct (fmt_N (Z.to_N (- z))) as [|c s]; [done|]. cbn [string_forall] in Hd.
    apply andb_prop in Hd as [Hc _]. clear Hn.
    destruct c as [[] [] [] [] [] [] [] []]; done.
  - split; [apply fmt_N_number|apply Hn].
Qed.

End Json.
