(* ===== verification/Codec.v ===== *)
(** The on-disk formats of [mrp/durable_buffer.go] and the readers of them in
    [mrp/durable_buffer.go] and [mrp/coordinator.go]: the little-endian log
    record, the entry of the uploaded-handles registry, the name of a log file
    and its parser. *)

From S2P Require Import Prelude GoStrings.
From Stdlib Require Import Ascii.
From stdpp Require Import options.

#[local] Arguments String.append !_ _ / : simpl nomatch.

Module Codec.
Import GoStrings.

(** ** Data *)

Record Handle := MkHandle { Id : Z; TimeStamp : Z }.

#[export] Instance Handle_eq_dec : EqDecision Handle.
Proof. solve_decision. Defined.
#[export, refine] Instance Handle_countable : Countable Handle :=
  inj_countable' (λ h, (Id h, TimeStamp h)) (λ p, MkHandle p.1 p.2) _.
Proof. by intros []. Defined.

(** The values the Go types [uint64] and [int64] allow. *)
Definition handle_ok (h : Handle) : Prop :=
  0 <= Id h < 2 ^ 64 ∧ min_i64 <= TimeStamp h <= max_i64.

Record Content := MkContent { CId : Handle; Eof : bool; Data : list byte }.

#[export] Instance Content_eq_dec : EqDecision Content.
Proof. solve_decision. Defined.

(** ** [encoding/binary], little endian *)

Fixpoint le_bytes (n : nat) (z : Z) : list byte :=
  match n with
  | O => []
  | S n => ascii_of_N (Z.to_N (z mod 256)) :: le_bytes n (z / 256)
  end.

Fixpoint le_value (bs : list byte) : Z :=
  match bs with
  | [] => 0
  | b :: bs => Z.of_N (N_of_ascii b) + 256 * le_value bs
  end.

(** [binary.Write] of a [bool]. *)
Definition bool_byte (b : bool) : list byte :=
  [if b then ascii_of_N 1 else ascii_of_N 0].

(** [binary.Read] of [n] bytes ([io.ReadFull]): the value's bytes and the rest
    of the file, [EOF] when nothing was left to read, [UnexpectedEOF] when some
    bytes were, but too few. *)
Inductive read_error := EOF | UnexpectedEOF.
Inductive read_result :=
| ReadOk (data rest : list byte)
| ReadErr (e : read_error).

Definition read_full (n : Z) (bs : list byte) : read_result :=
  if n <=? Z.of_nat (length bs) then
    ReadOk (take (Z.to_nat n) bs) (drop (Z.to_nat n) bs)
  else match bs with
       | [] => ReadErr EOF
       | _ => ReadErr UnexpectedEOF
       end.

Definition read_error_msg (e : read_error) : go_error :=
  match e with
  | EOF => ErrMsg "EOF"
  | UnexpectedEOF => ErrMsg "unexpected EOF"
  end.

(** ** Log records *)

(** [buildLogContent]: id, timestamp, 32-bit length, data, end-of-file flag. *)
Definition buildLogContent (entry : Content) : list byte :=
  le_bytes 8 (Id (CId entry)) ++
  le_bytes 8 (TimeStamp (CId entry)) ++
  le_bytes 4 (u32 (Z.of_nat (length (Data entry)))) ++
  Data entry ++
  bool_byte (Eof entry).

(** The reading loop of [Replay] over one file: the records up to the first
    read that fails. *)
Fixpoint replay_records (fuel : nat) (f : list byte) : list Content :=
  match fuel with
  | O => []
  | S fuel =>
      match read_full 8 f with
      | ReadErr _ => []
      | ReadOk id f =>
          match read_full 8 f with
          | ReadErr _ => []
          | ReadOk ts f =>
              match read_full 4 f with
              | ReadErr _ => []
              | ReadOk len f =>
                  match read_full (le_value len) f with
                  | ReadErr _ => []
                  | ReadOk data f =>
                      match read_full 1 f with
                      | ReadErr _ => []
                      | ReadOk eof f =>
                          MkContent (MkHandle (le_value id) (i64 (le_value ts)))
                            (bool_decide (le_value eof ≠ 0)) data
                          :: replay_records fuel f
                      end
                  end
              end
          end
      end
  end.

(** A record takes at least 21 bytes, so the length of the file is enough fuel. *)
Definition file_records (f : list byte) : list Content :=
  replay_records (S (length f)) f.

(** [decodeDlogFileContent]: the concatenated data of all records; only an end
    of file in front of a record ends the loop without an error. *)
Fixpoint decode_loop (fuel : nat) (f result : list byte) : outcome (res (list byte)) :=
  match fuel with
  | O => OutOfFuel
  | S fuel =>
      match read_full 8 f with
      | ReadErr EOF => Ret (Ok result)
      | ReadErr e => Ret (Err (ErrWrap "reading handle id" (read_error_msg e)))
      | ReadOk _ f =>
          match read_full 8 f with
          | ReadErr e => Ret (Err (ErrWrap "reading timestamp" (read_error_msg e)))
          | ReadOk _ f =>
              match read_full 4 f with
              | ReadErr e => Ret (Err (ErrWrap "reading data length" (read_error_msg e)))
              | ReadOk len f =>
                  match read_full (le_value len) f with
                  | ReadErr e => Ret (Err (ErrWrap "reading data" (read_error_msg e)))
                  | ReadOk data f =>
                      match read_full 1 f with
                      | ReadErr e => Ret (Err (ErrWrap "reading eof flag" (read_error_msg e)))
                      | ReadOk _ f => decode_loop fuel f (result ++ data)
                      end
                  end
              end
          end
      end
  end.

Definition decodeDlogFileContent (f : list byte) : outcome (res (list byte)) :=
  decode_loop (S (length f)) f [].

(** ** The uploaded-handles registry file *)

Definition registry_entry (h : Handle) (uploadedAt : Z) : list byte :=
  le_bytes 8 (Id h) ++ le_bytes 8 (TimeStamp h) ++ le_bytes 8 uploadedAt.

(** The entries [loadUploadedHandles] reads, up to the first failing read. *)
Fixpoint registry_entries (fuel : nat) (f : list byte) : list (Handle * Z) :=
  match fuel with
  | O => []
  | S fuel =>
      match read_full 8 f with
      | ReadErr _ => []
      | ReadOk id f =>
          match read_full 8 f with
          | ReadErr _ => []
          | ReadOk ts f =>
              match read_full 8 f with
              | ReadErr _ => []
              | ReadOk at_ f =>
                  (MkHandle (le_value id) (i64 (le_value ts)), i64 (le_value at_))
                  :: registry_entries fuel f
              end
          end
      end
  end.

(** ** Log file names *)

Definition logFileName (h : Handle) : string :=
  "download_log_" +:+ fmt_d (Id h) +:+ "-" +:+ fmt_d (TimeStamp h) +:+ ".dlog".

(** [filepath.Ext]: from the last dot of the last path element, scanning the
    reversed name. *)
Fixpoint ext_scan (rev acc : string) : string :=
  match rev with
  | EmptyString => EmptyString
  | String c rev =>
      if bool_decide (c = "/"%char) then EmptyString
      else if bool_decide (c = "."%char) then String c acc
      else ext_scan rev (String c acc)
  end.
Definition Ext (name : string) : string := ext_scan (string_rev name) EmptyString.

Definition isDownloadLogFile (name : string) : bool := bool_decide (Ext name = ".dlog").

(** [SkipSpace] in [fmt.Sscanf]: spaces are skipped, a newline is an error. *)
Definition scan_space (s : string) : option string :=
  let s := strip_all (filter (λ e, e ≠ bytes_string [10%nat]) space_encodings)
             (String.length s) s in
  match s with
  | String c _ => if bool_decide (c = ascii_of_nat 10) then None else Some s
  | EmptyString => Some s
  end.

(** [%d] into a [uint64] and into an [int64]. *)
Definition scan_uint (s : string) : option (Z * string) :=
  s ← scan_space s;
  let r := span_digits s in
  v ← digits_value r.1;
  if bool_decide (v < 2 ^ 64) then Some (v, r.2) else None.

Definition scan_int (s : string) : option (Z * string) :=
  s ← scan_space s;
  let sg := take_sign s in
  let r := span_digits sg.2 in
  v ← digits_value r.1;
  v ← signed sg.1 v;
  Some (v, r.2).

(** [fmt.Sscanf(s, "%d-%d", ...)]; input after the second number is ignored. *)
Definition sscanf_handle (s : string) : option Handle :=
  r ← scan_uint s;
  match r.2 with
  | String "-" rest =>
      r' ← scan_int rest;
      Some (MkHandle r.1 r'.1)
  | _ => None
  end.

Definition parseHandleFromDownloadLogFile (fileName : string) : res Handle :=
  if negb (isDownloadLogFile fileName) then
    Err (ErrMsg ("invalid download log extension: " +:+ fileName)) else
  let base := TrimSuffix fileName (Ext fileName) in
  if negb (HasPrefix base "download_log_") then
    Err (ErrMsg ("invalid download log prefix: " +:+ fileName)) else
  match sscanf_handle (TrimPrefix base "download_log_") with
  | None => Err (ErrMsg ("invalid download log handle format: " +:+ fileName))
  | Some h => Ok h
  end.

(** ** Facts about the byte encodings *)

Lemma length_le_bytes n z : length (le_bytes n z) = n.
Proof. revert z. induction n as [|n IH]; intros z; simpl; [done|by rewrite IH]. Qed.

Lemma le_value_le_bytes n z : le_value (le_bytes n z) = z mod 2 ^ (8 * Z.of_nat n).
Proof.
  revert z. induction n as [|n IH]; intros z; simpl le_value; simpl le_bytes.
  { by rewrite Z.mod_1_r. }
  simpl le_value. rewrite IH.
  pose proof (Z.mod_pos_bound z 256).
  rewrite N_ascii_embedding, Z2N.id by lia.
  replace (2 ^ (8 * Z.of_nat (S n))) with (256 * 2 ^ (8 * Z.of_nat n)).
  - rewrite Z.rem_mul_r; [done|lia|]. apply Z.pow_pos_nonneg; lia.
  - change 256 with (2 ^ 8). rewrite <- Z.pow_add_r by lia. f_equal. lia.
Qed.

Lemma le_value_u64 z : le_value (le_bytes 8 z) = u64 z.
Proof. apply le_value_le_bytes. Qed.
Lemma le_value_u32 z : le_value (le_bytes 4 z) = u32 z.
Proof. apply le_value_le_bytes. Qed.
Lemma le_value_i64 z : min_i64 <= z <= max_i64 → i64 (le_value (le_bytes 8 z)) = z.
Proof.
  intros Hz. rewrite le_value_u64, i64_u64. apply i64_small.
  unfold min_i64, max_i64 in Hz. lia.
Qed.

Lemma read_full_take a b n :
  read_full (Z.of_nat (length a)) (take n (a ++ b)) =
    if decide (length a ≤ n)%nat then ReadOk a (take (n - length a) b)
    else match n with O => ReadErr EOF | S _ => ReadErr UnexpectedEOF end.
Proof.
  unfold read_full. rewrite length_take, length_app. case_decide as Hn.
  - destruct (Z.leb_spec (Z.of_nat (length a)) (Z.of_nat (n `min` (length a + length b)))); [|lia].
    rewrite Nat2Z.id, take_app, (take_ge a n) by lia.
    by rewrite take_app_length, drop_app_length.
  - destruct (Z.leb_spec (Z.of_nat (length a)) (Z.of_nat (n `min` (length a + length b)))); [lia|].
    destruct n as [|n]; [done|]. destruct a; simpl in *; [lia|done].
Qed.

Lemma read_full_app a b : read_full (Z.of_nat (length a)) (a ++ b) = ReadOk a b.
Proof.
  unfold read_full. rewrite length_app.
  destruct (Z.leb_spec (Z.of_nat (length a)) (Z.of_nat (length a + length b))); [|lia].
  by rewrite Nat2Z.id, take_app_length, drop_app_length.
Qed.

Lemma read_full_shrinks n f d f' :
  0 <= n → read_full n f = ReadOk d f' → Z.of_nat (length f') = Z.of_nat (length f) - n.
Proof.
  unfold read_full. intros Hn. destruct (Z.leb_spec n (Z.of_nat (length f))); [|by destruct f].
  intros [= <- <-]. rewrite length_drop. lia.
Qed.

Lemma le_value_nonneg bs : 0 <= le_value bs.
Proof. induction bs; simpl; lia. Qed.

Lemma bool_byte_value b : bool_decide (le_value (bool_byte b) ≠ 0) = b.
Proof. by destruct b. Qed.

(** ** Records *)

(** Records [Write] and [syncContentsToFile] can produce faithfully: the handle
    fits its Go types and the length fits the 32-bit length field. *)
Definition record_ok (c : Content) : Prop :=
  handle_ok (CId c) ∧ Z.of_nat (length (Data c)) < 2 ^ 32.

Definition log_bytes (cs : list Content) : list byte := cs ≫= buildLogContent.

Lemma length_buildLogContent c : length (buildLogContent c) = (21 + length (Data c))%nat.
Proof.
  unfold buildLogContent. rewrite !length_app, !length_le_bytes. simpl. lia.
Qed.

Lemma log_bytes_cons c cs : log_bytes (c :: cs) = buildLogContent c ++ log_bytes cs.
Proof. done. Qed.
Lemma log_bytes_app cs1 cs2 : log_bytes (cs1 ++ cs2) = log_bytes cs1 ++ log_bytes cs2.
Proof. apply bind_app. Qed.

Lemma log_bytes_length cs : (length cs ≤ length (log_bytes cs))%nat.
Proof.
  induction cs as [|c cs IH]; [done|].
  rewrite log_bytes_cons, length_app, length_buildLogContent. simpl. lia.
Qed.

Lemma read_len_field c :
  record_ok c → le_value (le_bytes 4 (u32 (Z.of_nat (length (Data c))))) =
    Z.of_nat (length (Data c)).
Proof.
  intros [_ Hlen]. rewrite le_value_u32. unfold u32. rewrite Z.mod_mod, Z.mod_small; lia.
Qed.

Lemma read_handle c :
  record_ok c →
  MkHandle (le_value (le_bytes 8 (Id (CId c))))
    (i64 (le_value (le_bytes 8 (TimeStamp (CId c))))) = CId c.
Proof.
  intros [[Hid Hts] _]. rewrite le_value_u64, u64_small, le_value_i64 by done.
  by destruct (CId c).
Qed.

(** Five reads consume exactly one record. *)
Lemma replay_records_cons fuel c f :
  record_ok c →
  replay_records (S fuel) (buildLogContent c ++ f) = c :: replay_records fuel f.
Proof.
  intros Hc. unfold buildLogContent. rewrite <- !(assoc_L (++)). cbn [replay_records].
  rewrite (read_full_app (le_bytes 8 (Id (CId c)))).
  rewrite (read_full_app (le_bytes 8 (TimeStamp (CId c)))).
  rewrite (read_full_app (le_bytes 4 _)), read_len_field by done.
  rewrite (read_full_app (Data c)), (read_full_app (bool_byte _)).
  rewrite read_handle, bool_byte_value by done. by destruct c.
Qed.

Lemma decode_loop_cons fuel c f r :
  record_ok c →
  decode_loop (S fuel) (buildLogContent c ++ f) r = decode_loop fuel f (r ++ Data c).
Proof.
  intros Hc. unfold buildLogContent. rewrite <- !(assoc_L (++)). cbn [decode_loop].
  rewrite (read_full_app (le_bytes 8 (Id (CId c)))).
  rewrite (read_full_app (le_bytes 8 (TimeStamp (CId c)))).
  rewrite (read_full_app (le_bytes 4 _)), read_len_field by done.
  by rewrite (read_full_app (Data c)), (read_full_app (bool_byte _)).
Qed.

Lemma replay_records_app fuel cs f :
  Forall record_ok cs → (length cs ≤ fuel)%nat →
  replay_records fuel (log_bytes cs ++ f) = cs ++ replay_records (fuel - length cs) f.
Proof.
  intros Hcs. revert fuel. induction Hcs as [|c cs Hc Hcs IH]; intros fuel Hf.
  { by rewrite Nat.sub_0_r. }
  destruct fuel as [|fuel]; simpl in Hf; [lia|].
  rewrite log_bytes_cons, <- (assoc_L (++)), replay_records_cons by done.
  by rewrite (IH fuel) by lia.
Qed.

Lemma decode_loop_app fuel cs f r :
  Forall record_ok cs → (length cs ≤ fuel)%nat →
  decode_loop fuel (log_bytes cs ++ f) r =
    decode_loop (fuel - length cs) f (r ++ (cs ≫= Data)).
Proof.
  intros Hcs. revert fuel r. induction Hcs as [|c cs Hc Hcs IH]; intros fuel r Hf.
  { cbn. by rewrite Nat.sub_0_r, (right_id_L [] (++)). }
  destruct fuel as [|fuel]; simpl in Hf; [lia|].
  rewrite log_bytes_cons, bind_cons, <- (assoc_L (++)), decode_loop_cons by done.
  by rewrite (IH fuel), (assoc_L (++)) by lia.
Qed.

(** A record cut anywhere makes one of the five reads fail. *)
Lemma replay_records_torn fuel c n :
  record_ok c → (n < length (buildLogContent c))%nat →
  replay_records fuel (take n (buildLogContent c)) = [].
Proof.
  intros Hc Hn. rewrite length_buildLogContent in Hn.
  destruct fuel as [|fuel]; [done|]. unfold buildLogContent. cbn [replay_records].
  rewrite (read_full_take (le_bytes 8 (Id (CId c)))), length_le_bytes.
  case_decide; [|by destruct n].
  rewrite (read_full_take (le_bytes 8 (TimeStamp (CId c)))), length_le_bytes.
  case_decide; [|by destruct (n - 8)%nat].
  rewrite (read_full_take (le_bytes 4 _)), length_le_bytes.
  case_decide; [|by destruct (n - 8 - 8)%nat].
  rewrite read_len_field, (read_full_take (Data c)) by done.
  case_decide; [|by destruct (n - 8 - 8 - 4)%nat].
  replace (n - 8 - 8 - 4 - length (Data c))%nat with 0%nat by lia. done.
Qed.

Lemma decode_loop_torn fuel c n r :
  record_ok c → (0 < n < length (buildLogContent c))%nat →
  ∃ e, decode_loop (S fuel) (take n (buildLogContent c)) r = Ret (Err e).
Proof.
  intros Hc Hn. rewrite length_buildLogContent in Hn.
  unfold buildLogContent. cbn [decode_loop].
  rewrite (read_full_take (le_bytes 8 (Id (CId c)))), length_le_bytes.
  case_decide; [|destruct n; [lia|eauto]].
  rewrite (read_full_take (le_bytes 8 (TimeStamp (CId c)))), length_le_bytes.
  case_decide; [|destruct (n - 8)%nat; eauto].
  rewrite (read_full_take (le_bytes 4 _)), length_le_bytes.
  case_decide; [|destruct (n - 8 - 8)%nat; eauto].
  rewrite read_len_field, (read_full_take (Data c)) by done.
  case_decide; [|destruct (n - 8 - 8 - 4)%nat; eauto].
  replace (n - 8 - 8 - 4 - length (Data c))%nat with 0%nat by lia. simpl. eauto.
Qed.

Lemma file_records_torn cs c n :
  Forall record_ok cs → record_ok c → (n < length (buildLogContent c))%nat →
  file_records (log_bytes cs ++ take n (buildLogContent c)) = cs.
Proof.
  intros Hcs Hc Hn. unfold file_records.
  pose proof (log_bytes_length cs).
  rewrite replay_records_app, replay_records_torn, (right_id_L [] (++)); try done.
  rewrite length_app. lia.
Qed.

Lemma file_records_log_bytes cs : Forall record_ok cs → file_records (log_bytes cs) = cs.
Proof.
  intros Hcs. unfold file_records. pose proof (log_bytes_length cs).
  rewrite <- (right_id_L [] (++) (log_bytes cs)) at 2.
  rewrite replay_records_app by (done || lia).
  destruct (S _ - _)%nat; simpl; by rewrite (right_id_L [] (++)).
Qed.

Lemma decode_log_bytes cs :
  Forall record_ok cs → decodeDlogFileContent (log_bytes cs) = Ret (Ok (cs ≫= Data)).
Proof.
  intros Hcs. unfold decodeDlogFileContent. pose proof (log_bytes_length cs).
  rewrite <- (right_id_L [] (++) (log_bytes cs)) at 2.
  rewrite decode_loop_app by (done || lia).
  by replace (S (length (log_bytes cs)) - length cs)%nat
    with (S (length (log_bytes cs) - length cs)) by lia.
Qed.

Lemma decode_loop_returns fuel f r :
  (length f < fuel)%nat → decode_loop fuel f r ≠ OutOfFuel.
Proof.
  revert f r. induction fuel as [|fuel IH]; intros f r Hf; [lia|]. cbn [decode_loop].
  destruct (read_full 8 f) as [b1 f1|[]] eqn:E1; [|done..].
  destruct (read_full 8 f1) as [b2 f2|] eqn:E2; [|done].
  destruct (read_full 4 f2) as [b3 f3|] eqn:E3; [|done].
  destruct (read_full (le_value b3) f3) as [b4 f4|] eqn:E4; [|done].
  destruct (read_full 1 f4) as [b5 f5|] eqn:E5; [|done].
  pose proof (le_value_nonneg b3).
  apply read_full_shrinks in E1, E2, E3, E4, E5; try lia. apply IH. lia.
Qed.

(** ** Names *)

Lemma Ext_append s e :
  string_forall (λ c, bool_decide (c ≠ "/"%char) && bool_decide (c ≠ "."%char)) e = true →
  Ext (s +:+ String "." e) = String "." e.
Proof.
  intros He. unfold Ext. rewrite string_rev_append, string_rev_cons, <- append_assoc.
  assert (∀ r acc, string_forall (λ c, bool_decide (c ≠ "/"%char) && bool_decide (c ≠ "."%char)) r = true →
    ext_scan (r +:+ String "." (string_rev s)) acc = String "." (string_rev r +:+ acc)) as Hscan.
  { induction r as [|c r IH]; intros acc Hr; [done|].
    rewrite string_rev_cons, <- append_assoc. cbn in Hr |- *.
    apply andb_true_iff in Hr as [Hc Hr]. apply andb_true_iff in Hc as [Hc1 Hc2].
    apply bool_decide_eq_true in Hc1, Hc2.
    rewrite !bool_decide_eq_false_2 by done. by apply IH. }
  change (String "." "" +:+ string_rev s) with (String "." (string_rev s)).
  rewrite Hscan, string_rev_involutive, append_nil_r; [done|].
  clear -He. induction e as [|c e IH]; [done|]. cbn in He.
  apply andb_true_iff in He as [Hc He]. rewrite string_rev_cons.
  assert (∀ P a b, string_forall P (a +:+ b) = string_forall P a && string_forall P b) as Happ.
  { intros P a b. induction a as [|x a IHa]; [done|]. cbn. by rewrite IHa, andb_assoc. }
  rewrite Happ, (IH He). cbn. by rewrite Hc.
Qed.

Lemma logFileName_Ext h : Ext (logFileName h) = ".dlog".
Proof.
  unfold logFileName. rewrite !append_assoc. by apply Ext_append.
Qed.

Lemma isDownloadLogFile_logFileName h : isDownloadLogFile (logFileName h) = true.
Proof. unfold isDownloadLogFile. by rewrite logFileName_Ext. Qed.


Definition numeral_free (e : string) : bool :=
  match e with EmptyString => false | String c _ => negb (numeral_char c) end.

Lemma strip_one_numeral encs c s :
  Forall (λ e, numeral_free e = true) encs → numeral_char c = true →
  strip_one encs (String c s) = None.
Proof.
  intros He Hc. unfold strip_one.
  replace (filter _ encs) with (@nil string); [done|].
  induction He as [|e encs He _ IH]; [done|].
  rewrite filter_cons_False; [exact IH|].
  destruct e as [|c' e]; [discriminate He|]. cbn in He |- *.
  destruct (ascii_dec c' c) as [->|]; [|tauto]. by rewrite Hc in He.
Qed.

Lemma scan_space_numeral c s :
  numeral_char c = true → scan_space (String c s) = Some (String c s).
Proof.
  intros Hc. unfold scan_space. cbn [String.length strip_all].
  rewrite strip_one_numeral; [|repeat constructor|done].
  rewrite bool_decide_eq_false_2; [done|]. intros ->. discriminate Hc.
Qed.

Lemma scan_space_append d s :
  d ≠ EmptyString → string_forall numeral_char d = true →
  scan_space (d +:+ s) = Some (d +:+ s).
Proof.
  destruct d as [|c d]; [done|]. intros _ Hd. cbn in Hd.
  apply andb_true_iff in Hd as [Hc _]. by apply scan_space_numeral.
Qed.

Lemma fmt_N_numeral n : string_forall numeral_char (fmt_N n) = true.
Proof. rewrite <- (N2Z.id n), <- fmt_d_nonneg by lia. apply fmt_d_chars. Qed.

Lemma scan_uint_fmt_d z s :
  0 <= z < 2 ^ 64 → not_digit_head s → scan_uint (fmt_d z +:+ s) = Some (z, s).
Proof.
  intros Hz Hs. rewrite fmt_d_nonneg by lia. unfold scan_uint.
  rewrite scan_space_append by auto using fmt_N_nonempty, fmt_N_numeral.
  cbn [mbind option_bind]. rewrite span_digits_fmt_N by done. cbn.
  rewrite digits_value_fmt_N, Z2N.id by lia. cbn. by rewrite bool_decide_eq_true_2 by lia.
Qed.

Lemma scan_int_fmt_d z s :
  min_i64 <= z <= max_i64 → not_digit_head s → scan_int (fmt_d z +:+ s) = Some (z, s).
Proof.
  intros Hz Hs. unfold scan_int.
  rewrite scan_space_append.
  2: { unfold fmt_d. destruct (z <? 0); [done|apply fmt_N_nonempty]. }
  2: { apply fmt_d_chars. }
  cbn [mbind option_bind]. unfold fmt_d.
  destruct (Z.ltb_spec z 0) as [Hneg|Hpos].
  - cbn [String.append]. rewrite take_sign_minus. cbn [fst snd].
    rewrite span_digits_fmt_N by done. cbn [fst snd].
    rewrite digits_value_fmt_N, Z2N.id by lia. cbn [mbind option_bind].
    rewrite signed_ok by lia. cbn [mbind option_bind]. do 2 f_equal. lia.
  - rewrite take_sign_fmt_N. cbn [fst snd]. rewrite span_digits_fmt_N by done. cbn [fst snd].
    rewrite digits_value_fmt_N, Z2N.id by lia. cbn [mbind option_bind].
    by rewrite signed_ok.
Qed.

Lemma parse_logFileName h :
  handle_ok h → parseHandleFromDownloadLogFile (logFileName h) = Ok h.
Proof.
  intros [Hid Hts]. unfold parseHandleFromDownloadLogFile.
  rewrite isDownloadLogFile_logFileName, logFileName_Ext. cbn [negb].
  unfold logFileName. rewrite !append_assoc, TrimSuffix_append.
  rewrite <- !append_assoc.
  replace (HasPrefix _ "download_log_") with true.
  2: { symmetry. apply HasPrefix_spec. eauto. }
  cbn [negb]. rewrite TrimPrefix_append. unfold sscanf_handle.
  rewrite scan_uint_fmt_d by done. cbn.
  rewrite <- (append_nil_r (fmt_d (TimeStamp h))), scan_int_fmt_d by done. cbn.
  by destruct h.
Qed.

Lemma logFileName_inj h h' :
  handle_ok h → handle_ok h' → logFileName h = logFileName h' → h = h'.
Proof.
  intros Hh Hh' E. apply parse_logFileName in Hh, Hh'. rewrite E in Hh. congruence.
Qed.

(** ** The registry file *)

Lemma registry_entries_app fuel es f :
  Forall (λ e, handle_ok e.1 ∧ min_i64 <= e.2 <= max_i64) es →
  (length es ≤ fuel)%nat →
  registry_entries fuel ((es ≫= λ e, registry_entry e.1 e.2) ++ f) =
    es ++ registry_entries (fuel - length es) f.
Proof.
  intros Hes. revert fuel. induction Hes as [|[h t] es [[Hid Hts] Ht] Hes IH]; intros fuel Hf.
  { by rewrite Nat.sub_0_r. }
  destruct fuel as [|fuel]; simpl in Hf; [lia|]. rewrite bind_cons. unfold registry_entry.
  rewrite <- !(assoc_L (++)). cbn [registry_entries fst snd].
  rewrite (read_full_app (le_bytes 8 (Id h))).
  rewrite (read_full_app (le_bytes 8 (TimeStamp h))).
  rewrite (read_full_app (le_bytes 8 t)).
  rewrite le_value_u64, u64_small, !le_value_i64, IH by (done || lia).
  by destruct h.
Qed.

Definition registry_bytes (es : list (Handle * Z)) : list byte :=
  es ≫= λ e, registry_entry e.1 e.2.

(** Every entry is 24 bytes, so the length of the file is enough fuel. *)
Definition read_registry (f : list byte) : list (Handle * Z) :=
  registry_entries (S (length f)) f.

Lemma read_registry_bytes es :
  Forall (λ e, handle_ok e.1 ∧ min_i64 <= e.2 <= max_i64) es →
  read_registry (registry_bytes es) = es.
Proof.
  intros Hes. unfold read_registry.
  assert (length es ≤ length (registry_bytes es))%nat.
  { unfold registry_bytes. clear Hes. induction es as [|e es IH]; [done|].
    rewrite bind_cons, length_app. unfold registry_entry at 1.
    rewrite !length_app, !length_le_bytes. simpl. lia. }
  rewrite <- (right_id_L [] (++) (registry_bytes es)) at 2.
  unfold registry_bytes at 2. rewrite registry_entries_app by (done || lia).
  destruct (S (length (registry_bytes es)) - length es)%nat;
    cbn [registry_entries]; apply (right_id_L [] (++)).
Qed.

(** ** Properties *)

(** C29: the .dlog format round-trips: reading back the records appended to a
    log file, [Replay] sees exactly those records and the coordinator's decoder
    returns exactly the concatenation of their data. *)
Theorem dlog_roundtrip (cs : list Content) :
  Forall record_ok cs →
  file_records (cs ≫= buildLogContent) = cs ∧
  decodeDlogFileContent (cs ≫= buildLogContent) = Ret (Ok (cs ≫= Data)).
Proof. split; [by apply file_records_log_bytes|by apply decode_log_bytes]. Qed.

Definition example_records : list Content :=
  [MkContent (MkHandle 3 (-5)) false ["a"; "b"]%char; MkContent (MkHandle 3 (-5)) true []].

Lemma example_records_ok : Forall record_ok example_records.
Proof.
  repeat constructor; simpl; unfold min_i64, max_i64; lia.
Qed.

Lemma dlog_roundtrip_witness :
  file_records (example_records ≫= buildLogContent) = example_records ∧
  decodeDlogFileContent (example_records ≫= buildLogContent) =
    Ret (Ok ["a"; "b"]%char).
Proof. apply (dlog_roundtrip example_records), example_records_ok. Defined.

(** A crash in the middle of an append leaves a usable log: when the last
    record of a file is cut at any byte, [Replay] still sees every complete
    record and nothing else, whereas the coordinator's decoder refuses the
    file. *)
Theorem torn_tail (cs : list Content) (c : Content) (n : nat) :
  Forall record_ok cs → record_ok c → (n < length (buildLogContent c))%nat →
  file_records ((cs ≫= buildLogContent) ++ take n (buildLogContent c)) = cs ∧
  ((0 < n)%nat →
   ∃ e, decodeDlogFileContent ((cs ≫= buildLogContent) ++ take n (buildLogContent c)) =
          Ret (Err e)).
Proof.
  intros Hcs Hc Hn. split; [by apply file_records_torn|]. intros Hn0.
  unfold decodeDlogFileContent. fold (log_bytes cs). pose proof (log_bytes_length cs).
  rewrite length_app, decode_loop_app by (done || lia).
  replace (S (length (log_bytes cs) + length (take n (buildLogContent c))) - length cs)%nat
    with (S (length (log_bytes cs) + length (take n (buildLogContent c)) - length cs)) by lia.
  by apply decode_loop_torn.
Qed.

Lemma torn_tail_witness :
  file_records ((example_records ≫= buildLogContent) ++
    take 22 (buildLogContent (MkContent (MkHandle 3 9) true ["z"; "y"]%char))) =
    example_records ∧
  ((0 < 22)%nat →
   ∃ e, decodeDlogFileContent ((example_records ≫= buildLogContent) ++
          take 22 (buildLogContent (MkContent (MkHandle 3 9) true ["z"; "y"]%char))) =
          Ret (Err e)).
Proof.
  apply (torn_tail example_records (MkContent (MkHandle 3 9) true ["z"; "y"]%char) 22).
  - apply example_records_ok.
  - split; [split|]; simpl; unfold min_i64, max_i64; lia.
  - vm_compute. lia.
Defined.

Lemma decode_total f : ∃ r, decodeDlogFileContent f = Ret r.
Proof.
  assert (decodeDlogFileContent f ≠ OutOfFuel) as Hret.
  { apply decode_loop_returns. lia. }
  assert (∀ fuel g r, decode_loop fuel g r ≠ Panic) as Hnp.
  { induction fuel as [|fuel IH]; intros g r; [done|]. cbn [decode_loop].
    repeat case_match; try done; apply IH. }
  unfold decodeDlogFileContent in *.
  destruct (decode_loop _ _ _) as [r| |] eqn:E; [by exists r|by apply Hnp in E|done].
Qed.

(** the decoder's loop ends on every file, well formed or not. *)
Theorem decode_terminates (f : list byte) :
  ∃ r, decodeDlogFileContent f = Ret r.
Proof. apply decode_total. Qed.

(** The name of a log file determines its handle: it has the log extension
    and parsing it gives the handle back, whatever the sign of the timestamp. *)
Theorem log_file_name_roundtrip (h : Handle) :
  handle_ok h →
  isDownloadLogFile (logFileName h) = true ∧
  parseHandleFromDownloadLogFile (logFileName h) = Ok h.
Proof. split; [apply isDownloadLogFile_logFileName|by apply parse_logFileName]. Qed.

Lemma log_file_name_roundtrip_witness :
  logFileName (MkHandle 42 (-7)) = "download_log_42--7.dlog" ∧
  isDownloadLogFile (logFileName (MkHandle 42 (-7))) = true ∧
  parseHandleFromDownloadLogFile (logFileName (MkHandle 42 (-7))) = Ok (MkHandle 42 (-7)).
Proof.
  split; [reflexivity|]. apply (log_file_name_roundtrip (MkHandle 42 (-7))).
  split; simpl; unfold min_i64, max_i64; lia.
Defined.

#[global] Arguments le_bytes : simpl never.
#[global] Arguments buildLogContent : simpl never.
#[global] Arguments registry_entry : simpl never.
#[global] Arguments logFileName : simpl never.

End Codec.
