(* ===== verification/Types.v ===== *)
(** The messages of [mrp/rpc_definitions.go] and the shared records of
    [mrp/types.go]. *)

From S2P Require Import Prelude Codec.
From stdpp Require Import options.

Module Types.
Import Codec.

(** ** [types.go] *)

Record KeyValue := MkKV { Key : string; Value : string }.
#[export] Instance KeyValue_eq_dec : EqDecision KeyValue.
Proof. solve_decision. Defined.

Record CompletedHandleMetadata := MkMeta {
  cm_Handle : Handle;
  cm_SourceLog : string;
  cm_SourcePath : string;
  cm_SizeBytes : Z;
  cm_ModUnixNano : Z;
  cm_UploadedAt : string;
  cm_Completed : bool;
  cm_RawContent : list byte
}.

(** ** [rpc_definitions.go] *)

Record DownloadRequest := MkDownload {
  dr_Handle : Handle; dr_Data : list byte; dr_Eof : bool }.
Record DownloadReply := MkDownloadReply {
  dp_Status : string; dp_ErrorCode : Z; dp_ErrorMessage : string }.

Record HandleReply := MkHandleReply {
  hp_Status : string; hp_ErrorCode : Z; hp_ErrorMessage : string; hp_Handle : Handle }.

Record StartMapReduceRequest := MkStart { sr_Handle : Handle; sr_Plugin : string }.
Record StartMapReduceReply := MkStartReply {
  sp_Status : string; sp_ErrorCode : Z; sp_ErrorMessage : string; sp_Message : string }.

Record ChunkInfo := MkChunk {
  Index : Z; Offset : Z; Size : Z; Path : string; ChunkHandle : Z }.
#[export] Instance ChunkInfo_eq_dec : EqDecision ChunkInfo.
Proof. solve_decision. Defined.

Record FileMetadata := MkFileMeta {
  fm_Handle : Handle;
  fm_SourceLog : string;
  fm_SourcePath : string;
  fm_SizeBytes : Z;
  fm_ModUnixNano : Z;
  fm_UploadedAt : string;
  fm_Completed : bool;
  fm_RawContent : list byte;
  fm_Chunks : list ChunkInfo
}.

Record MapReduceRequest := MkMRRequest {
  mr_Handle : Handle; mr_File : FileMetadata; mr_ChunkIndex : Z; mr_ChunkInfo : ChunkInfo }.
Record MapReduceReply := MkMRReply {
  mp_Status : string; mp_ErrorCode : Z; mp_ErrorMessage : string; mp_Message : string }.

Record MapReduceResultRequest := MkResult {
  rr_Handle : Handle;
  rr_ChunkIndex : Z;
  rr_WorkerAddr : string;
  rr_OutputFile : string;
  rr_OutputData : string;
  rr_GeneratedAt : string
}.
#[export] Instance MapReduceResultRequest_eq_dec : EqDecision MapReduceResultRequest.
Proof. solve_decision. Defined.
Record MapReduceResultReply := MkResultReply {
  rp_Status : string; rp_ErrorCode : Z; rp_ErrorMessage : string; rp_Message : string }.

Record JobCompleteRequest := MkComplete {
  jr_Handle : Handle; jr_ResultFile : string; jr_Status : string; jr_Message : string }.
Record JobCompleteReply := MkCompleteReply {
  jp_Status : string; jp_ErrorCode : Z; jp_ErrorMessage : string; jp_Message : string }.

Record HeartbeatRequest := MkBeat { WorkerID : string; Message : string }.
Record HeartbeatReply := MkBeatReply {
  bp_Status : string; bp_Message : string; bp_ServerUTC : string }.

Record TriggerProcessingReply := MkTriggerReply {
  tp_Status : string; tp_ErrorMessage : string; tp_HandlesDispatched : Z }.

Record GetJobResultReply := MkJobResult {
  gp_Status : string; gp_ErrorMessage : string; gp_Complete : bool; gp_ResultJSON : string }.

End Types.
