(* ===== verification/Durable.v ===== *)
(** The write-ahead buffer of [mrp/durable_buffer.go]: its configuration, the
    ring of accepted records, the three handle registries and the log
    directory, with one definition per method. Clock readings, file-system
    failures, map iteration order and sorting are arguments. *)

From S2P Require Import Prelude GoStrings Ring Codec.
From stdpp Require Import options.

Module Durable.
Import GoStrings Codec.

(** ** The log directory

    Every path the buffer uses is [logDir] joined with a base name, so the
    directory is a map from base names. *)

Record File := MkFile { content : list byte; modtime : Z }.
Record Dir := MkDir { d_exists : bool; d_files : gmap string File }.

(** Which file-system calls fail during an operation. [f_write name = Some k]
    is a write of which only the first [k] bytes reach the file. *)
Record Faults := MkFaults {
  f_mkdir : bool;
  f_readdir : bool;
  f_info : string → bool;
  f_open : string → bool;
  f_write : string → option nat;
  f_sync : string → bool;
  f_remove : string → bool;
  f_rename : string → bool
}.

Definition no_faults : Faults :=
  MkFaults false false (λ _, false) (λ _, false) (λ _, None) (λ _, false)
    (λ _, false) (λ _, false).

(** [os.MkdirAll(d.logDir)]. *)
Definition mkdir_all (fl : Faults) (d : Dir) : Dir * option go_error :=
  if f_mkdir fl then (d, Some (ErrMsg "mkdir"))
  else (MkDir true (d_files d), None).

(** [os.ReadDir]: the names in sorted order. *)
Definition read_dir (fl : Faults) (d : Dir) : res (list string) :=
  if f_readdir fl || negb (d_exists d) then Err (ErrMsg "readdir")
  else Ok (merge_sort String.le (elements (dom (d_files d)))).

Definition file_content (d : Dir) (name : string) : list byte :=
  match d_files d !! name with Some f => content f | None => [] end.

(** [os.Remove]. *)
Definition remove_file (fl : Faults) (name : string) (d : Dir) : Dir * bool :=
  match d_files d !! name with
  | Some _ => if f_remove fl name then (d, false)
              else (MkDir (d_exists d) (delete name (d_files d)), true)
  | None => (d, false)
  end.

(** ** State *)

Definition OverflowDropOldest : Z := 0.
Definition OverflowReject : Z := 1.

Definition second : Z := 1000000000.
Definition minute : Z := 60 * second.
Definition hour : Z := 60 * minute.
Definition defaultUploadedHandleTTL : Z := 48 * hour.
Definition defaultProcessingHandleTTL : Z := 5 * minute.
Definition uploadedHandlesFileName : string := "uploaded_handles.dat".

Record Config := MkConfig {
  capacity : Z;
  recoveryMode : bool;
  handleExpiryDuration : Z;
  cleanupTimeInterval : Z;
  logDeletionDuration : Z;
  uploadedHandleTTL : Z;
  processingHandleTTL : Z
}.

Record DurableBuffer := MkDB {
  config : Config;
  inRecovery : bool;
  nextHandle : Z;
  lastTimestamp : Z;
  overflowPolicy : Z;
  log : Ring.RingBuffer Content;
  handles : gmap Handle bool;
  uploadedHandles : gmap Handle Z;
  processingHandles : gmap Handle Z;
  logDir : Dir
}.

Definition set_config (c : Config) (d : DurableBuffer) : DurableBuffer :=
  MkDB c (inRecovery d) (nextHandle d) (lastTimestamp d) (overflowPolicy d) (log d)
    (handles d) (uploadedHandles d) (processingHandles d) (logDir d).
Definition set_inRecovery (b : bool) (d : DurableBuffer) : DurableBuffer :=
  MkDB (config d) b (nextHandle d) (lastTimestamp d) (overflowPolicy d) (log d)
    (handles d) (uploadedHandles d) (processingHandles d) (logDir d).
Definition set_nextHandle (n : Z) (d : DurableBuffer) : DurableBuffer :=
  MkDB (config d) (inRecovery d) n (lastTimestamp d) (overflowPolicy d) (log d)
    (handles d) (uploadedHandles d) (processingHandles d) (logDir d).
Definition set_lastTimestamp (t : Z) (d : DurableBuffer) : DurableBuffer :=
  MkDB (config d) (inRecovery d) (nextHandle d) t (overflowPolicy d) (log d)
    (handles d) (uploadedHandles d) (processingHandles d) (logDir d).
Definition set_overflowPolicy (p : Z) (d : DurableBuffer) : DurableBuffer :=
  MkDB (config d) (inRecovery d) (nextHandle d) (lastTimestamp d) p (log d)
    (handles d) (uploadedHandles d) (processingHandles d) (logDir d).
Definition set_log (r : Ring.RingBuffer Content) (d : DurableBuffer) : DurableBuffer :=
  MkDB (config d) (inRecovery d) (nextHandle d) (lastTimestamp d) (overflowPolicy d) r
    (handles d) (uploadedHandles d) (processingHandles d) (logDir d).
Definition set_handles (h : gmap Handle bool) (d : DurableBuffer) : DurableBuffer :=
  MkDB (config d) (inRecovery d) (nextHandle d) (lastTimestamp d) (overflowPolicy d) (log d)
    h (uploadedHandles d) (processingHandles d) (logDir d).
Definition set_uploadedHandles (u : gmap Handle Z) (d : DurableBuffer) : DurableBuffer :=
  MkDB (config d) (inRecovery d) (nextHandle d) (lastTimestamp d) (overflowPolicy d) (log d)
    (handles d) u (processingHandles d) (logDir d).
Definition set_processingHandles (p : gmap Handle Z) (d : DurableBuffer) : DurableBuffer :=
  MkDB (config d) (inRecovery d) (nextHandle d) (lastTimestamp d) (overflowPolicy d) (log d)
    (handles d) (uploadedHandles d) p (logDir d).
Definition set_logDir (l : Dir) (d : DurableBuffer) : DurableBuffer :=
  MkDB (config d) (inRecovery d) (nextHandle d) (lastTimestamp d) (overflowPolicy d) (log d)
    (handles d) (uploadedHandles d) (processingHandles d) l.

(** ** Durations

    A [float64] is a dyadic number [mant * 2 ^ expo]. *)

Record float64 := F64 { mant : Z; expo : Z }.

(** Rounds [m * 2 ^ e] to 53 significant bits, ties to even. *)
Definition round53 (m e : Z) : float64 :=
  let drop := Z.log2 (Z.abs m) - 52 in
  if drop <=? 0 then F64 m e else
  let q := Z.shiftr (Z.abs m) drop in
  let r := Z.abs m - Z.shiftl q drop in
  let half := Z.shiftl 1 (drop - 1) in
  let q := if (half <? r) || ((half =? r) && Z.odd q) then q + 1 else q in
  F64 (Z.sgn m * q) (e + drop).

Definition float64_of_int (z : Z) : float64 := round53 z 0.
Definition float64_mul (a b : float64) : float64 :=
  round53 (mant a * mant b) (expo a + expo b).
(** Conversion to an integer truncates towards zero. *)
Definition float64_trunc (a : float64) : Z :=
  if 0 <=? expo a then mant a * 2 ^ expo a
  else Z.quot (mant a) (2 ^ (- expo a)).
Definition float64_lt1 (a : float64) : bool :=
  if 0 <=? expo a then mant a * 2 ^ expo a <? 1
  else mant a <? 2 ^ (- expo a).
Definition float64_two : float64 := F64 2 0.

Definition SafeLogDeletionDuration (handleExpiryDuration cleanupTimeInterval
    expectedRecoveryTime : Z) (safetyFactor : float64) : Z :=
  let safetyFactor := if float64_lt1 safetyFactor then float64_two else safetyFactor in
  let base := i64 (i64 (handleExpiryDuration + cleanupTimeInterval) + expectedRecoveryTime) in
  float64_trunc (float64_mul (float64_of_int base) safetyFactor).

Definition SetOverflowPolicy (policy : Z) (d : DurableBuffer) : DurableBuffer :=
  let policy :=
    if negb (policy =? OverflowDropOldest) && negb (policy =? OverflowReject)
    then OverflowDropOldest else policy in
  set_overflowPolicy policy d.

(** ** Handles *)

Definition GenerateHandle (now : Z) (d : DurableBuffer) : Handle * DurableBuffer :=
  let id := u64 (nextHandle d + 1) in
  let last := lastTimestamp d in
  let timestamp := if now <=? last then i64 (last + 1) else now in
  (MkHandle id timestamp, set_lastTimestamp timestamp (set_nextHandle id d)).

Definition isHandleExpired (now : Z) (h : Handle) (d : DurableBuffer) : bool :=
  if inRecovery d then false
  else if (Id h =? 0) || (nextHandle d <? Id h) then true
  else handleExpiryDuration (config d) <? i64 (now - TimeStamp h).

Definition isHandleUploaded (h : Handle) (d : DurableBuffer) : bool :=
  bool_decide (is_Some (uploadedHandles d !! h)).

(** The order [GetCompletedHandleForRetransmission] and [GetUploadedHandles]
    sort by. *)
Definition handle_le (a b : Handle) : Prop :=
  Id a < Id b ∨ (Id a = Id b ∧ TimeStamp a <= TimeStamp b).
#[export] Instance handle_le_dec a b : Decision (handle_le a b).
Proof. unfold handle_le. apply _. Defined.

Section operations.
Context `{MapOrder} `{SortSlice}.

(** ** Flushing *)

(** [writeToFile]: append, then sync. *)
Definition writeToFile (fl : Faults) (now : Z) (name : string) (data : list byte) (dir : Dir) :
    Dir * option go_error :=
  if f_open fl name || negb (d_exists dir) then
    (dir, Some (ErrWrap "failed to open file" (ErrMsg name)))
  else
    let put data :=
      MkDir (d_exists dir)
        (<[name := MkFile (file_content dir name ++ data) now]> (d_files dir)) in
    match f_write fl name with
    | Some k => (put (take k data), Some (ErrWrap "failed to write to file" (ErrMsg name)))
    | None =>
        if f_sync fl name then (put data, Some (ErrWrap "failed to sync file" (ErrMsg name)))
        else (put data, None)
    end.

(** The per-file buffers of [syncContentsToFile]; the [i]-th entry is checked
    for expiry at clock reading [i]. *)
Fixpoint group_contents (clock : nat → Z) (d : DurableBuffer) (i : nat)
    (contents : list Content) (bufs : gmap string (list byte)) : gmap string (list byte) :=
  match contents with
  | [] => bufs
  | e :: contents =>
      let bufs :=
        if (Id (CId e) =? 0) || isHandleExpired (clock i) (CId e) d then bufs
        else
          let name := logFileName (CId e) in
          <[name := default [] (bufs !! name) ++ buildLogContent e]> bufs in
      group_contents clock d (S i) contents bufs
  end.

Fixpoint write_buffers (fl : Faults) (now : Z) (bufs : list (string * list byte)) (dir : Dir) :
    Dir * option go_error :=
  match bufs with
  | [] => (dir, None)
  | (name, data) :: bufs =>
      match writeToFile fl now name data dir with
      | (dir, Some e) => (dir, Some e)
      | (dir, None) => write_buffers fl now bufs dir
      end
  end.

Definition syncContentsToFile (fl : Faults) (clock : nat → Z) (contents : list Content)
    (d : DurableBuffer) : DurableBuffer * option go_error :=
  let bufs := group_contents clock d 0 contents ∅ in
  match mkdir_all fl (logDir d) with
  | (dir, Some e) => (set_logDir dir d, Some e)
  | (dir, None) =>
      let r := write_buffers fl (clock (length contents)) (map_entries bufs) dir in
      (set_logDir r.1 d, r.2)
  end.

(** [syncLogToFile], which [Flush] calls: the ring is drained first, then the
    snapshot is written. *)
Definition syncLogToFile (spin : nat) (fl : Faults) (clock : nat → Z) (d : DurableBuffer) :
    outcome (DurableBuffer * option go_error) :=
  r ← Ring.Drain spin (log d) (Z.to_nat (Ring.Cap (log d)));
  let d := set_log r.2 d in
  match r.1 with
  | [] => Ret (d, None)
  | snapshot => Ret (syncContentsToFile fl clock snapshot d)
  end.

Definition Flush := syncLogToFile.

(** ** Writing *)

(** The retry loop of [Write], with [n] turns left. *)
Fixpoint write_loop (spin n : nat) (policy : Z) (entry : Content)
    (rb : Ring.RingBuffer Content) : outcome (option go_error * Ring.RingBuffer Content) :=
  match n with
  | O => Ret (Some (ErrWrap "after 100 retries" ErrBufferFull), rb)
  | S n =>
      r ← Ring.Push spin rb entry;
      match r with
      | (true, rb) => Ret (None, rb)
      | (false, rb) =>
          if policy =? OverflowReject then Ret (Some ErrBufferFull, rb)
          else
            r ← Ring.Pop spin rb;
            r' ← Ring.Push spin r.2 entry;
            match r' with
            | (true, rb) => Ret (None, rb)
            | (false, rb) => write_loop spin n policy entry rb
            end
      end
  end.

Definition maxRetries : nat := 100.

(** The bookkeeping of an accepted record: an end-of-file record completes its
    handle, other records register it without undoing a completion. *)
Definition register (c : Content) (hs : gmap Handle bool) : gmap Handle bool :=
  if Eof c then <[CId c := true]> hs
  else match hs !! CId c with
       | Some true => hs
       | _ => <[CId c := false]> hs
       end.

Definition Write (spin : nat) (now : Z) (c : Content) (d : DurableBuffer) :
    outcome (option go_error * DurableBuffer) :=
  if isHandleExpired now (CId c) d then Ret (Some ErrInvalidHandle, d)
  else
    r ← write_loop spin (S maxRetries) (overflowPolicy d) c (log d);
    match r with
    | (Some e, rb) => Ret (Some e, set_log rb d)
    | (None, rb) => Ret (None, set_handles (register c (handles d)) (set_log rb d))
    end.

(** ** The uploaded-handles registry *)

Definition expired_since (now ttl at_ : Z) : bool := ttl <? i64 (now - at_).

Definition loadUploadedHandles (now : Z) (d : DurableBuffer) : DurableBuffer :=
  match d_files (logDir d) !! uploadedHandlesFileName with
  | None => d
  | Some f =>
      set_uploadedHandles
        (foldl (λ m e,
           if expired_since now (uploadedHandleTTL (config d)) e.2 then m
           else <[e.1 := e.2]> m)
           (uploadedHandles d) (read_registry (content f))) d
  end.

(** [saveUploadedHandles]: temporary file, sync, rename. The write calls'
    errors are ignored by the code. *)
Definition saveUploadedHandles (fl : Faults) (now : Z) (d : DurableBuffer) : DurableBuffer :=
  match mkdir_all fl (logDir d) with
  | (dir, Some _) => set_logDir dir d
  | (dir, None) =>
      let tmp := uploadedHandlesFileName +:+ ".tmp" in
      if f_open fl tmp then set_logDir dir d else
      let live := filter (λ e, Is_true (negb
        (expired_since now (uploadedHandleTTL (config d)) e.2))) (map_entries (uploadedHandles d)) in
      let bytes := registry_bytes live in
      let bytes := match f_write fl tmp with Some k => take k bytes | None => bytes end in
      let dir := MkDir true (<[tmp := MkFile bytes now]> (d_files dir)) in
      if f_sync fl tmp then set_logDir dir d else
      if f_rename fl tmp then set_logDir dir d else
      set_logDir (MkDir true
        (<[uploadedHandlesFileName := MkFile bytes now]> (delete tmp (d_files dir)))) d
  end.

Definition pruneProcessingHandles (now : Z) (d : DurableBuffer) : DurableBuffer :=
  set_processingHandles
    (foldl (λ m e,
       if expired_since now (processingHandleTTL (config d)) e.2 then delete e.1 m else m)
       (processingHandles d) (map_entries (processingHandles d))) d.

Definition pruneUploadedHandles (fl : Faults) (now : Z) (d : DurableBuffer) : DurableBuffer :=
  let ttl := uploadedHandleTTL (config d) in
  saveUploadedHandles fl now
    (foldl (λ d e,
       if expired_since now ttl e.2 then
         set_processingHandles (delete e.1 (processingHandles d))
           (set_uploadedHandles (delete e.1 (uploadedHandles d)) d)
       else d) d (map_entries (uploadedHandles d))).

Definition SetUploadedHandleTTL (ttl : Z) (d : DurableBuffer) : DurableBuffer :=
  let c := config d in
  let ttl := if ttl <=? 0 then defaultUploadedHandleTTL else ttl in
  let ttl := if ttl <? logDeletionDuration c then logDeletionDuration c else ttl in
  set_config (MkConfig (capacity c) (recoveryMode c) (handleExpiryDuration c)
    (cleanupTimeInterval c) (logDeletionDuration c) ttl (processingHandleTTL c)) d.

(** The timer-driven [cleanup]: a failing flush only logs a warning. *)
Definition cleanup (spin : nat) (fl : Faults) (clock : nat → Z) (now : Z)
    (d : DurableBuffer) : outcome DurableBuffer :=
  r ← syncLogToFile spin fl clock d;
  Ret (saveUploadedHandles fl now (pruneProcessingHandles now r.1)).

(** One file of [performLogDeletion]. *)
Definition delete_log (fl : Faults) (now : Z) (d : DurableBuffer) (name : string) :
    DurableBuffer :=
  if negb (isDownloadLogFile name) then d else
  match parseHandleFromDownloadLogFile name with
  | Err _ => d
  | Ok h =>
      if negb (isHandleUploaded h d) then d else
      if f_info fl name then d else
      match d_files (logDir d) !! name with
      | None => d
      | Some f =>
          if modtime f <? now - logDeletionDuration (config d) then
            match remove_file fl name (logDir d) with
            | (dir, false) => set_logDir dir d
            | (dir, true) =>
                set_uploadedHandles (delete h (uploadedHandles d)) (set_logDir dir d)
            end
          else d
      end
  end.

Definition performLogDeletion (fl : Faults) (now : Z) (d : DurableBuffer) : DurableBuffer :=
  match read_dir fl (logDir d) with
  | Err _ => d
  | Ok names => pruneUploadedHandles fl now (foldl (delete_log fl now) d names)
  end.

(** ** Hand-over to the coordinator *)

Definition GetCompletedHandleForRetransmission (d : DurableBuffer) : list Handle :=
  sort_slice handle_le (filter (λ e, Is_true e.2) (map_entries (handles d))).*1.

Definition MarkHandlesUploaded (fl : Faults) (now : Z) (hs : list Handle)
    (d : DurableBuffer) : DurableBuffer :=
  let d := foldl (λ d h,
    set_handles (delete h (handles d))
      (set_uploadedHandles (<[h := now]> (uploadedHandles d)) d)) d hs in
  let d := saveUploadedHandles fl now d in
  set_logDir (foldl (λ dir h, (remove_file fl (logFileName h) dir).1) (logDir d) hs) d.

(** One entry of the [Range] of [GetUploadedHandles]: the handles collected so
    far and the processing registry. *)
Definition claim_handle (now ttl : Z) (acc : list Handle * gmap Handle Z) (e : Handle * Z) :
    list Handle * gmap Handle Z :=
  match acc.2 !! e.1 with
  | None => (acc.1 ++ [e.1], <[e.1 := now]> acc.2)
  | Some ts =>
      if expired_since now ttl ts then (acc.1 ++ [e.1], <[e.1 := now]> acc.2) else acc
  end.

Definition GetUploadedHandles (now : Z) (d : DurableBuffer) : list Handle * DurableBuffer :=
  let r := foldl (claim_handle now (processingHandleTTL (config d)))
             ([], processingHandles d) (map_entries (uploadedHandles d)) in
  (sort_slice handle_le r.1, set_processingHandles r.2 d).

Definition ReleaseProcessingHandle (h : Handle) (d : DurableBuffer) : DurableBuffer :=
  set_processingHandles (delete h (processingHandles d)) d.

(** ** Replay and recovery *)

(** What [Replay] passes to its visitor: the complete records of the non-empty
    log files, in file-name order, without those of uploaded handles. *)
Definition replay_contents (fl : Faults) (d : DurableBuffer) : list Content :=
  match read_dir fl (logDir d) with
  | Err _ => []
  | Ok names =>
      filter (λ c, Is_true (negb (isHandleUploaded (CId c) d)))
        (sort_slice String.le names ≫= λ name,
          if negb (isDownloadLogFile name) || f_info fl name || f_open fl name then []
          else file_records (file_content (logDir d) name))
  end.

(** The visitor may stop the replay. *)
Fixpoint visit {S} (visitor : S → Content → outcome (S * bool)) (s : S) (cs : list Content) :
    outcome S :=
  match cs with
  | [] => Ret s
  | c :: cs =>
      r ← visitor s c;
      match r with
      | (s, true) => visit visitor s cs
      | (s, false) => Ret s
      end
  end.

(** A missing directory is created instead ([MkdirAll] after a failed
    [ReadDir]). *)
Definition replay_dir (fl : Faults) (d : DurableBuffer) : DurableBuffer :=
  match read_dir fl (logDir d) with
  | Err _ => set_logDir (mkdir_all fl (logDir d)).1 d
  | Ok _ => d
  end.

(** The visitor of [monitor]: advance the handle counter, push the record back
    into the ring (giving up after [maxRetries]), rebuild the handle registry. *)
Fixpoint push_retry (spin n : nat) (c : Content) (rb : Ring.RingBuffer Content) :
    outcome (Ring.RingBuffer Content) :=
  match n with
  | O => Ret rb
  | S n =>
      r ← Ring.Push spin rb c;
      match r with
      | (true, rb) => Ret rb
      | (false, rb) => push_retry spin n c rb
      end
  end.

Definition recovery_visitor (spin : nat) (d : DurableBuffer) (c : Content) :
    outcome (DurableBuffer * bool) :=
  let d := if nextHandle d <=? Id (CId c)
           then set_nextHandle (u64 (Id (CId c) + 1)) d else d in
  rb ← push_retry spin (S maxRetries) c (log d);
  Ret (set_handles (register c (handles d)) (set_log rb d), true).

(** The start of [monitor]. *)
Definition recover (spin : nat) (fl : Faults) (d : DurableBuffer) : outcome DurableBuffer :=
  if recoveryMode (config d) then
    let d := set_inRecovery true d in
    let cs := replay_contents fl d in
    d ← visit (recovery_visitor spin) (replay_dir fl d) cs;
    Ret (set_inRecovery false d)
  else Ret d.

(** ** Construction *)

Definition effective_config (capacity : Z) (recoveryMode : bool)
    (handleExpiryDuration cleanupTimeInterval logDeletionDuration : Z) : Config :=
  let handleExpiryDuration :=
    if handleExpiryDuration <=? 0 then minute else handleExpiryDuration in
  let capacity := if capacity =? 0 then 1024 else capacity in
  let cleanupTimeInterval :=
    if cleanupTimeInterval <=? 0 then 30 * second else cleanupTimeInterval in
  let minDeletion :=
    SafeLogDeletionDuration handleExpiryDuration cleanupTimeInterval 0 float64_two in
  let logDeletionDuration :=
    if logDeletionDuration <? minDeletion then minDeletion else logDeletionDuration in
  let uploadedHandleTTL :=
    if defaultUploadedHandleTTL <? logDeletionDuration then logDeletionDuration
    else defaultUploadedHandleTTL in
  MkConfig capacity recoveryMode handleExpiryDuration cleanupTimeInterval
    logDeletionDuration uploadedHandleTTL defaultProcessingHandleTTL.

Definition empty_content : Content := MkContent (MkHandle 0 0) false [].

(** [NewDurableBuffer] over the directory found on disk; the monitor goroutine
    it starts is [recover] followed by the timer events. *)
Definition NewDurableBuffer (now : Z) (capacity : Z) (recoveryMode : bool)
    (handleExpiryDuration cleanupTimeInterval logDeletionDuration : Z) (dir : Dir) :
    DurableBuffer :=
  let c := effective_config capacity recoveryMode handleExpiryDuration
             cleanupTimeInterval logDeletionDuration in
  loadUploadedHandles now
    (MkDB c false 0 0 OverflowDropOldest
      (Ring.NewRingBuffer empty_content (Durable.capacity c)) ∅ ∅ ∅ dir).

End operations.

#[global] Arguments syncContentsToFile : simpl never.
#[global] Arguments saveUploadedHandles : simpl never.
#[global] Arguments isHandleExpired : simpl never.
#[global] Arguments register : simpl never.
#[global] Arguments file_records : simpl never.

End Durable.
