(* ===== verification/WritePath.v ===== *)
(** The write path of the durable buffer: [Write] against the bounded queue of
    accepted records, [Flush] against the contents of the log files, and the
    two composed. *)

From S2P Require Import Prelude GoStrings Ring Codec Durable.
From Stdlib Require Import Ascii.
From stdpp Require Import options.

Module WritePath.
Import Codec Durable.

(** ** What the write path promises *)

(** The queue of accepted, not yet flushed records after one more record is
    offered to it. *)
Definition accept (cap policy : Z) (q : list Content) (c : Content) :
    option go_error * list Content :=
  if Z.of_nat (length q) <? cap then (None, q ++ [c])
  else if policy =? OverflowReject then (Some ErrBufferFull, q)
  else (None, tail q ++ [c]).

(** The records of a snapshot that are still within the lifetime of their
    handle when they are flushed, the [i]-th at clock reading [i]. *)
Fixpoint live_contents (clock : nat → Z) (d : DurableBuffer) (i : nat)
    (cs : list Content) : list Content :=
  match cs with
  | [] => []
  | e :: cs =>
      if (Id (CId e) =? 0) || isHandleExpired (clock i) (CId e) d
      then live_contents clock d (S i) cs
      else e :: live_contents clock d (S i) cs
  end.

Definition of_handle (h : Handle) (cs : list Content) : list Content :=
  filter (λ e, CId e = h) cs.

Definition handles_ok (cs : list Content) : Prop := Forall (λ e, handle_ok (CId e)) cs.

Section facts.
Context `{MapOrder}.

(** ** Write *)

Lemma write_loop_accept spin n policy c rb q :
  Ring.ring_repr rb q →
  ∃ rb', write_loop (S spin) (S n) policy c rb =
           Ret ((accept (Ring.Cap rb) policy q c).1, rb') ∧
         Ring.ring_repr rb' (accept (Ring.Cap rb) policy q c).2 ∧
         Ring.Cap rb' = Ring.Cap rb.
Proof.
  intros Hr. cbn [write_loop]. unfold accept.
  destruct (Ring.Push_spec spin rb q c Hr) as (rb1 & -> & Hr1 & Hc1). revert Hr1.
  pose proof (Ring.ring_repr_fit _ _ Hr) as Hfit.
  unfold Ring.bq_push. destruct (Z.ltb_spec (Z.of_nat (length q)) (Ring.Cap rb)) as [Hlt|Hge];
    cbn; intros Hr1; [by exists rb1|].
  destruct (policy =? OverflowReject); [by exists rb1|].
  destruct (Ring.Pop_spec spin rb1 q Hr1) as (rb2 & -> & Hr2 & Hc2). cbn.
  destruct (Ring.Push_spec spin rb2 _ c Hr2) as (rb3 & -> & Hr3 & Hc3). revert Hr3.
  unfold Ring.bq_push.
  assert (Z.of_nat (length (Ring.bq_pop q).2) < Ring.Cap rb2) as Hroom.
  { destruct Hr as [? Hinv]. pose proof (Ring.cap_bounds _ _ _ Hinv).
    unfold Ring.Cap in *. destruct q; simpl in *; lia. }
  destruct (Z.ltb_spec (Z.of_nat (length (Ring.bq_pop q).2)) (Ring.Cap rb2)); [|lia].
  cbn. intros Hr3. exists rb3. rewrite Hc3, Hc2, Hc1. by destruct q.
Qed.

Lemma accept_room cap policy q c :
  Z.of_nat (length q) < cap → accept cap policy q c = (None, q ++ [c]).
Proof. intros Hlt. unfold accept. by destruct (Z.ltb_spec (Z.of_nat (length q)) cap); [|lia]. Qed.

Lemma ring_room (rb : Ring.RingBuffer Content) :
  Ring.ring_repr rb [] → Z.of_nat (length (@nil Content)) < Ring.Cap rb.
Proof. intros [? Hinv]. pose proof (Ring.cap_bounds _ _ _ Hinv). unfold Ring.Cap. cbn. lia. Qed.

Lemma Write_live spin now c d q :
  Ring.ring_repr (log d) q → isHandleExpired now (CId c) d = false →
  ∃ rb', Ring.ring_repr rb' (accept (Ring.Cap (log d)) (overflowPolicy d) q c).2 ∧
         Ring.Cap rb' = Ring.Cap (log d) ∧
         Write (S spin) now c d =
           Ret (match (accept (Ring.Cap (log d)) (overflowPolicy d) q c).1 with
                | Some e => (Some e, set_log rb' d)
                | None => (None, set_handles (register c (handles d)) (set_log rb' d))
                end).
Proof.
  intros Hr Hlive. unfold Write. rewrite Hlive.
  destruct (write_loop_accept spin maxRetries (overflowPolicy d) c _ _ Hr)
    as (rb' & -> & Hr' & Hc'). exists rb'. split_and!; [done..|].
  cbn. by destruct (accept _ _ _ _).1.
Qed.

(** ** Flush *)

Lemma live_contents_log clock rb d i cs :
  live_contents clock (set_log rb d) i cs = live_contents clock d i cs.
Proof.
  revert i. induction cs as [|e cs IH]; intros i; [done|].
  cbn [live_contents]. by rewrite IH.
Qed.

Lemma group_contents_other clock d i cs bufs name :
  handles_ok cs →
  (∀ h, handle_ok h → name ≠ logFileName h) →
  group_contents clock d i cs bufs !! name = bufs !! name.
Proof.
  intros Hcs Hname. revert i bufs. induction Hcs as [|e cs He Hcs IH]; intros i bufs; [done|].
  cbn [group_contents]. rewrite IH. case_match; [done|].
  apply lookup_insert_ne. intros E. by apply (Hname (CId e)).
Qed.

Lemma group_contents_lookup clock d i cs bufs h :
  handles_ok cs → handle_ok h →
  default [] (group_contents clock d i cs bufs !! logFileName h) =
    default [] (bufs !! logFileName h) ++
    log_bytes (of_handle h (live_contents clock d i cs)).
Proof.
  intros Hcs Hh. revert i bufs. induction Hcs as [|e cs He Hcs IH]; intros i bufs.
  { symmetry. apply (right_id_L [] (++)). }
  cbn [group_contents live_contents]. rewrite IH. case_match; [done|].
  unfold of_handle. destruct (decide (CId e = h)) as [<-|Hne].
  - rewrite filter_cons_True, log_bytes_cons, lookup_insert_eq by done.
    cbn. by rewrite <- (assoc_L (++)).
  - rewrite filter_cons_False, lookup_insert_ne; [done| |done].
    intros E. apply logFileName_inj in E; done.
Qed.

Lemma write_buffers_ok now bufs dir :
  NoDup bufs.*1 → d_exists dir = true →
  ∃ dir', write_buffers no_faults now bufs dir = (dir', None) ∧
    d_exists dir' = true ∧
    ∀ name, d_files dir' !! name =
      match (list_to_map bufs : gmap string (list byte)) !! name with
      | Some data => Some (MkFile (file_content dir name ++ data) now)
      | None => d_files dir !! name
      end.
Proof.
  revert dir. induction bufs as [|[n data] bufs IH]; intros dir Hnd Hex.
  { by exists dir. }
  apply NoDup_cons in Hnd as [Hn Hnd]. cbn [write_buffers]. unfold writeToFile.
  rewrite Hex. cbn. 
  set (dir1 := MkDir true _).
  destruct (IH dir1 Hnd eq_refl) as (dir' & -> & Hex' & Hfiles).
  exists dir'. split_and!; [done..|]. intros name. rewrite Hfiles.
  destruct (decide (name = n)) as [->|Hne].
  - rewrite lookup_insert_eq, not_elem_of_list_to_map_1 by done.
    unfold dir1; cbn. by rewrite lookup_insert_eq.
  - rewrite lookup_insert_ne by done. unfold dir1, file_content; cbn.
    by rewrite lookup_insert_ne by done.
Qed.

Lemma syncContentsToFile_ok clock cs d :
  handles_ok cs →
  ∃ d', syncContentsToFile no_faults clock cs d = (d', None) ∧
    d' = set_logDir (logDir d') d ∧
    (∀ h, handle_ok h →
       file_content (logDir d') (logFileName h) =
         file_content (logDir d) (logFileName h) ++
         log_bytes (of_handle h (live_contents clock d 0 cs))) ∧
    (∀ name, (∀ h, handle_ok h → name ≠ logFileName h) →
       d_files (logDir d') !! name = d_files (logDir d) !! name).
Proof.
  intros Hcs. unfold syncContentsToFile, mkdir_all. cbn.
  set (bufs := group_contents clock d 0 cs ∅).
  destruct (write_buffers_ok (clock (length cs)) (map_entries bufs)
    (MkDir true (d_files (logDir d)))) as (dir' & -> & Hex & Hfiles).
  { rewrite map_entries_perm. apply NoDup_fst_map_to_list. }
  { done. }
  setoid_rewrite list_to_map_map_entries in Hfiles.
  eexists; split_and!; [done|done| |]; cbn.
  - intros h Hh. pose proof (group_contents_lookup clock d 0 cs ∅ h Hcs Hh) as Hl.
    unfold file_content at 1. rewrite Hfiles. fold bufs in Hl.
    rewrite lookup_empty in Hl. cbn in Hl.
    destruct (bufs !! logFileName h) as [data|]; cbn in Hl |- *; [by rewrite Hl|].
    rewrite <- Hl. symmetry. apply (right_id_L [] (++)).
  - intros name Hname. rewrite Hfiles.
    unfold bufs. by rewrite group_contents_other.
Qed.

Lemma Flush_ok spin clock d q :
  Ring.ring_repr (log d) q → handles_ok q →
  ∃ d', Flush (S spin) no_faults clock d = Ret (d', None) ∧
    d' = set_logDir (logDir d') (set_log (log d') d) ∧
    Ring.ring_repr (log d') [] ∧ Ring.Cap (log d') = Ring.Cap (log d) ∧
    (∀ h, handle_ok h →
       file_content (logDir d') (logFileName h) =
         file_content (logDir d) (logFileName h) ++
         log_bytes (of_handle h (live_contents clock d 0 q))) ∧
    (∀ name, (∀ h, handle_ok h → name ≠ logFileName h) →
       d_files (logDir d') !! name = d_files (logDir d) !! name).
Proof.
  intros Hr Hq. unfold Flush, syncLogToFile.
  pose proof (Ring.ring_repr_fit _ _ Hr) as Hfit.
  destruct (Ring.Drain_spec spin (log d) q (Z.to_nat (Ring.Cap (log d))) Hr)
    as (rb & -> & Hr' & Hc').
  rewrite drop_ge in Hr' by lia. rewrite take_ge by lia. cbn.
  destruct q as [|c q].
  - exists (set_log rb d). split_and!; try done; cbn.
    intros h Hh. symmetry. apply (right_id_L [] (++)).
  - destruct (syncContentsToFile_ok clock (c :: q) (set_log rb d) Hq)
      as (d' & -> & Hd' & Hfiles & Hother).
    assert (log d' = rb) as Hlog by (by rewrite Hd').
    exists d'. rewrite !Hlog. setoid_rewrite live_contents_log in Hfiles.
    by split_and!.
Qed.

(** *** Flushes that fail *)

(** A write that fails leaves a file with a part of what it should have got. *)
Definition grown (e : option go_error) (old new data : list byte) : Prop :=
  ∃ k, new = old ++ take k data ∧ (e = None → take k data = data).

Lemma grown_same e old : grown e old old [].
Proof. exists 0%nat. split; [symmetry; apply app_nil_r|done]. Qed.

Lemma writeToFile_grows fl now n data dir name :
  let r := writeToFile fl now n data dir in
  grown r.2 (file_content dir name) (file_content r.1 name) (if decide (name = n) then data else []).
Proof.
  cbn zeta. unfold writeToFile. destruct (f_open fl n || negb (d_exists dir)).
  { exists 0%nat. split; [symmetry; apply app_nil_r|done]. }
  assert (∀ data', file_content (MkDir (d_exists dir)
    (<[n := MkFile (file_content dir n ++ data') now]> (d_files dir))) name =
      file_content dir name ++ (if decide (name = n) then data' else [])) as Hput.
  { intros data'. unfold file_content at 1. cbn. case_decide as E.
    - subst n. by rewrite lookup_insert_eq.
    - rewrite lookup_insert_ne by done. by rewrite app_nil_r. }
  destruct (f_write fl n) as [k|]; [|destruct (f_sync fl n)]; cbn [fst snd]; rewrite Hput.
  - exists k. split; [|done]. f_equal. case_decide; [done|by destruct k].
  - exists (length data). split; [|done]. f_equal. case_decide; [by rewrite take_ge|by rewrite take_nil].
  - exists (length data). case_decide; [by rewrite take_ge|by rewrite take_nil].
Qed.

Lemma write_buffers_grow fl now bufs dir name :
  NoDup bufs.*1 →
  let r := write_buffers fl now bufs dir in
  grown r.2 (file_content dir name) (file_content r.1 name)
    (default [] ((list_to_map bufs : gmap string (list byte)) !! name)).
Proof.
  cbn zeta. revert dir. induction bufs as [|[n data] bufs IH]; intros dir Hnd; [apply grown_same|].
  apply NoDup_cons in Hnd as [Hn Hnd]. cbn [write_buffers].
  pose proof (writeToFile_grows fl now n data dir name) as Hg.
  assert ((list_to_map ((n, data) :: bufs) : gmap string (list byte)) !! name =
    if decide (name = n) then Some data else (list_to_map bufs : gmap string (list byte)) !! name) as ->.
  { cbn. case_decide as E; [subst n; by rewrite lookup_insert_eq|by rewrite lookup_insert_ne]. }
  destruct (writeToFile fl now n data dir) as [dir1 [e|]]; cbn [fst snd] in *.
  - destruct Hg as (k & E & _). exists (if decide (name = n) then k else 0%nat).
    split; [|done]. rewrite E. f_equal. case_decide; [done|by destruct k].
  - destruct Hg as (k & E & Hk). specialize (Hk eq_refl). rewrite Hk in E.
    specialize (IH dir1 Hnd). rewrite E in IH. case_decide as En; [|by rewrite app_nil_r in IH].
    subst n. rewrite not_elem_of_list_to_map_1 in IH by done. destruct IH as (j & E' & _). exists (length data).
    rewrite E'. cbn [default from_option id]. rewrite take_nil, app_nil_r, take_ge by done. done.
Qed.

(** A flush empties the queue whatever the files do, and a log file grows by the
    records of its handle, or by the beginning of them when the flush reports an
    error. *)
Lemma Flush_grows spin fl clock d q :
  Ring.ring_repr (log d) q → handles_ok q →
  ∃ d' e, Flush (S spin) fl clock d = Ret (d', e) ∧
    d' = set_logDir (logDir d') (set_log (log d') d) ∧
    Ring.ring_repr (log d') [] ∧
    ∀ h, handle_ok h →
      grown e (file_content (logDir d) (logFileName h)) (file_content (logDir d') (logFileName h))
        (log_bytes (of_handle h (live_contents clock d 0 q))).
Proof.
  intros Hr Hq. unfold Flush, syncLogToFile. pose proof (Ring.ring_repr_fit _ _ Hr) as Hfit.
  destruct (Ring.Drain_spec spin (log d) q (Z.to_nat (Ring.Cap (log d))) Hr)
    as (rb & -> & Hr' & Hc').
  rewrite drop_ge in Hr' by lia. rewrite take_ge by lia. cbn [mbind outcome_bind fst snd].
  destruct q as [|c q]; [eexists _, _; split_and!; [done..|]; intros; apply grown_same|].
  unfold syncContentsToFile, mkdir_all. destruct (f_mkdir fl); cbn [fst snd].
  { eexists _, _. split_and!; [done..|]. intros h Hh. exists 0%nat.
    split; [symmetry; apply app_nil_r|done]. }
  eexists _, _. split_and!; [done..|]. intros h Hh. cbn [logDir set_logDir].
  assert (NoDup (map_entries (group_contents clock (set_log rb d) 0 (c :: q) ∅)).*1) as Hnd.
  { rewrite map_entries_perm. apply NoDup_fst_map_to_list. }
  pose proof (write_buffers_grow fl (clock (length (c :: q))) _
    (MkDir true (d_files (logDir (set_log rb d)))) (logFileName h) Hnd) as Hg.
  rewrite list_to_map_map_entries, (group_contents_lookup _ _ _ _ _ h Hq Hh), lookup_empty in Hg.
  rewrite live_contents_log in Hg. exact Hg.
Qed.

Lemma live_contents_all clock d i cs :
  (∀ j e, cs !! j = Some e →
     Id (CId e) ≠ 0 ∧ isHandleExpired (clock (i + j)%nat) (CId e) d = false) →
  live_contents clock d i cs = cs.
Proof.
  revert i. induction cs as [|e cs IH]; intros i Hcs; [done|]. cbn.
  destruct (Hcs 0%nat e eq_refl) as [Hid He]. rewrite Nat.add_0_r in He. rewrite He.
  destruct (Z.eqb_spec (Id (CId e)) 0); [done|]. cbn. f_equal. apply IH.
  intros j e' Hj. replace (S i + j)%nat with (i + S j)%nat by lia. by apply Hcs.
Qed.

Lemma of_handle_live h clock d i cs :
  Id h ≠ 0 → (∀ j, isHandleExpired (clock j) h d = false) →
  of_handle h (live_contents clock d i cs) = of_handle h cs.
Proof.
  intros Hid Hlive. unfold of_handle. revert i. induction cs as [|e cs IH]; intros i; [done|].
  cbn [live_contents]. destruct (decide (CId e = h)) as [<-|Hne].
  - rewrite Hlive. destruct (Z.eqb_spec (Id (CId e)) 0); [done|]. cbn [orb].
    by rewrite !filter_cons_True, IH.
  - rewrite (filter_cons_False _ e cs) by done.
    case_match; [done|]. by rewrite filter_cons_False.
Qed.

Lemma of_handle_dead h clock d i cs :
  (∀ j, isHandleExpired (clock j) h d = true) →
  of_handle h (live_contents clock d i cs) = [].
Proof.
  intros Hdead. unfold of_handle. revert i. induction cs as [|e cs IH]; intros i; [done|].
  cbn [live_contents]. destruct (decide (CId e = h)) as [<-|Hne].
  - by rewrite Hdead, orb_true_r.
  - case_match; [done|]. by rewrite filter_cons_False.
Qed.

Lemma of_handle_all h cs : Forall (λ c, CId c = h) cs → of_handle h cs = cs.
Proof.
  unfold of_handle. induction 1 as [|c cs Hc Hcs IH]; [done|]. by rewrite filter_cons_True, IH.
Qed.

(** ** Sequences of writes *)

(** A client's writes, each at its own time; it stops at the first error. *)
Fixpoint run_writes (spin : nat) (ws : list (Z * Content)) (d : DurableBuffer) :
    outcome (option go_error * DurableBuffer) :=
  match ws with
  | [] => Ret (None, d)
  | (now, c) :: ws =>
      r ← Write spin now c d;
      match r with
      | (None, d) => run_writes spin ws d
      | (Some e, d) => Ret (Some e, d)
      end
  end.

Lemma run_writes_ok spin ws d q :
  Ring.ring_repr (log d) q →
  Z.of_nat (length q + length ws) <= Ring.Cap (log d) →
  Forall (λ w, isHandleExpired w.1 (CId w.2) d = false) ws →
  ∃ rb', run_writes (S spin) ws d =
           Ret (None, set_handles (foldl (λ m c, register c m) (handles d) ws.*2)
                        (set_log rb' d)) ∧
         Ring.ring_repr rb' (q ++ ws.*2) ∧ Ring.Cap rb' = Ring.Cap (log d).
Proof.
  intros Hr Hfit Hlive. revert d q Hr Hfit Hlive.
  induction ws as [|[now c] ws IH]; intros d q Hr Hfit Hlive.
  { exists (log d). rewrite fmap_nil, (right_id_L [] (++)). split_and!; [by destruct d|done..]. }
  apply Forall_cons in Hlive as [Hc Hlive]. cbn [length] in Hfit.
  destruct (Write_live spin now c d q Hr Hc) as (rb1 & Hr1 & Hc1 & E).
  rewrite accept_room in E, Hr1 by lia. cbn in E, Hr1. cbn [run_writes]. rewrite E. cbn.
  destruct (IH (set_handles (register c (handles d)) (set_log rb1 d)) (q ++ [c]))
    as (rb2 & -> & Hr2 & Hc2); cbn; [done| |done|].
  { rewrite Hc1, length_app. simpl. lia. }
  exists rb2. rewrite Hc2. split_and!; [done| |done].
  by rewrite <- (assoc_L (++)) in Hr2.
Qed.

Lemma register_complete h cs m :
  Forall (λ c, CId c = h) cs → Exists (λ c, Eof c = true) cs ∨ m !! h = Some true →
  foldl (λ m c, register c m) m cs !! h = Some true.
Proof.
  intros Hcs. revert m. induction Hcs as [|c cs <- Hcs IH]; intros m Hex; cbn.
  { by destruct Hex as [Hex%Exists_nil|]. }
  apply IH. unfold register. destruct (Eof c) eqn:HE.
  - right. by rewrite lookup_insert_eq.
  - destruct Hex as [Hex|Hm].
    + apply Exists_cons in Hex as [Hc|Hex]; [congruence|by left].
    + right. by rewrite Hm.
Qed.

Lemma written_flushed (spin : nat) (ws : list (Z * Content)) (clock : nat → Z)
    (h : Handle) (d : DurableBuffer) (q : list Content) :
  Ring.ring_repr (log d) q → handles_ok q → of_handle h q = [] →
  file_content (logDir d) (logFileName h) = [] →
  handle_ok h → Id h ≠ 0 →
  Forall (λ w, CId w.2 = h ∧ Z.of_nat (length (Data w.2)) < 2 ^ 32 ∧
               isHandleExpired w.1 h d = false) ws →
  (∀ j, isHandleExpired (clock j) h d = false) →
  Z.of_nat (length q + length ws) <= Ring.Cap (log d) →
  ∃ d1 d2,
    run_writes (S spin) ws d = Ret (None, d1) ∧
    Flush (S spin) no_faults clock d1 = Ret (d2, None) ∧
    file_content (logDir d2) (logFileName h) = log_bytes ws.*2 ∧
    Forall record_ok ws.*2 ∧ Forall (λ c, CId c = h) ws.*2 ∧
    handles d2 = foldl (λ m c, register c m) (handles d) ws.*2.
Proof.
  intros Hr Hq Hqh Hfile Hh Hid Hws Hclock Hfit.
  assert (Forall (λ c, CId c = h) ws.*2) as Hall.
  { apply Forall_fmap. eapply Forall_impl; [exact Hws|]. by intros w (? & _). }
  destruct (run_writes_ok spin ws d q Hr Hfit) as (rb & Hrun & Hr1 & _).
  { eapply Forall_impl; [exact Hws|]. by intros w (-> & _ & ?). }
  eexists. set (d1 := set_handles _ _) in Hrun.
  destruct (Flush_ok spin clock d1 (q ++ ws.*2)) as (d2 & Hfl & Hd2 & _ & _ & Hfiles & _).
  { exact Hr1. }
  { apply Forall_app. split; [done|]. eapply Forall_impl; [exact Hall|]. by intros c ->. }
  exists d2. split_and!; [exact Hrun|exact Hfl| | |done|by rewrite Hd2].
  - rewrite Hfiles by done. unfold d1 at 1. cbn. rewrite Hfile.
    rewrite of_handle_live by done.
    unfold of_handle in *. rewrite filter_app, Hqh.
    fold (of_handle h ws.*2). by rewrite of_handle_all.
  - apply Forall_fmap. eapply Forall_impl; [exact Hws|].
    by intros w (E & ? & _); split; [rewrite E|].
Qed.

(** ** Properties *)

(** C30: [Write] implements the accepting queue. A record of an expired handle
    is refused and changes nothing; otherwise the queue takes the record, or
    refuses it when full under the reject policy, or drops its oldest record;
    only an accepted record is registered, and a handle already completed stays
    completed. The retry loop always ends on its first turn. *)
Theorem Write_refines (spin : nat) (now : Z) (c : Content) (d : DurableBuffer) (q : list Content) :
  Ring.ring_repr (log d) q →
  if isHandleExpired now (CId c) d then
    Write (S spin) now c d = Ret (Some ErrInvalidHandle, d)
  else
    let r := accept (Ring.Cap (log d)) (overflowPolicy d) q c in
    ∃ rb', Ring.ring_repr rb' r.2 ∧ Ring.Cap rb' = Ring.Cap (log d) ∧
      Write (S spin) now c d =
        Ret (r.1, match r.1 with
                  | Some _ => set_log rb' d
                  | None => set_handles (register c (handles d)) (set_log rb' d)
                  end) ∧
      (handles d !! CId c = Some true → register c (handles d) !! CId c = Some true).
Proof.
  intros Hr. destruct (isHandleExpired now (CId c) d) eqn:Hlive.
  { unfold Write. by rewrite Hlive. }
  destruct (Write_live spin now c d q Hr Hlive) as (rb' & Hr' & Hc' & ->).
  exists rb'. split_and!; [done..| |].
  - by destruct (accept _ _ _ _).1.
  - intros Hm. apply (register_complete (CId c) [c]); auto.
Qed.

(** C31: when no file operation fails, [Flush] empties the queue and appends to the
    log file of every handle exactly the records of that handle whose lifetime has
    not ended, in the order they were accepted, and touches no other file. *)
Theorem Flush_appends (spin : nat) (clock : nat → Z) (d : DurableBuffer) (q : list Content) :
  Ring.ring_repr (log d) q → handles_ok q →
  ∃ d', Flush (S spin) no_faults clock d = Ret (d', None) ∧
    d' = set_logDir (logDir d') (set_log (log d') d) ∧
    Ring.ring_repr (log d') [] ∧
    (∀ h, handle_ok h →
       file_content (logDir d') (logFileName h) =
         file_content (logDir d) (logFileName h) ++
         log_bytes (of_handle h (live_contents clock d 0 q))) ∧
    (∀ name, (∀ h, handle_ok h → name ≠ logFileName h) →
       d_files (logDir d') !! name = d_files (logDir d) !! name).
Proof.
  intros Hr Hq. destruct (Flush_ok spin clock d q Hr Hq)
    as (d' & ? & ? & ? & _ & ? & ?). by exists d'.
Qed.

(** What a client writes is what the coordinator reads. The records of one
    handle, accepted without overflow and flushed within the lifetime of the
    handle, decode from its log file to the concatenation of their data, and an
    end-of-file record among them leaves the handle completed; the records of
    other handles waiting in the queue do not interfere. *)
Theorem written_flushed_decoded (spin : nat) (ws : list (Z * Content)) (clock : nat → Z)
    (h : Handle) (d : DurableBuffer) (q : list Content) :
  Ring.ring_repr (log d) q → handles_ok q → of_handle h q = [] →
  file_content (logDir d) (logFileName h) = [] →
  handle_ok h → Id h ≠ 0 →
  Forall (λ w, CId w.2 = h ∧ Z.of_nat (length (Data w.2)) < 2 ^ 32 ∧
               isHandleExpired w.1 h d = false) ws →
  (∀ j, isHandleExpired (clock j) h d = false) →
  Z.of_nat (length q + length ws) <= Ring.Cap (log d) →
  ∃ d1 d2,
    run_writes (S spin) ws d = Ret (None, d1) ∧
    Flush (S spin) no_faults clock d1 = Ret (d2, None) ∧
    decodeDlogFileContent (file_content (logDir d2) (logFileName h)) =
      Ret (Ok (ws.*2 ≫= Data)) ∧
    (Exists (λ w, Eof w.2 = true) ws → handles d2 !! h = Some true).
Proof.
  intros Hr Hq Hqh Hfile Hh Hid Hws Hclock Hfit.
  destruct (written_flushed spin ws clock h d q) as (d1 & d2 & E1 & E2 & Hf & Hrec & Hall & Hhs);
    try done.
  exists d1, d2. split_and!; [done|done|by rewrite Hf, decode_log_bytes|].
  intros Hex. rewrite Hhs. apply register_complete; [done|]. left. by apply Exists_fmap.
Qed.

(** Accepted data can be lost without an error. When the lifetime of a
    handle ends between the acceptance of its records and the flush, [Flush]
    reports success, drops the records, and leaves the handle registered as
    completed with nothing on disk. *)
Theorem expired_between_write_and_flush (spin : nat) (now : Z) (clock : nat → Z)
    (c : Content) (d : DurableBuffer) :
  Ring.ring_repr (log d) [] → handle_ok (CId c) → Eof c = true →
  isHandleExpired now (CId c) d = false →
  (∀ j, isHandleExpired (clock j) (CId c) d = true) →
  ∃ d1 d2,
    Write (S spin) now c d = Ret (None, d1) ∧
    Flush (S spin) no_faults clock d1 = Ret (d2, None) ∧
    Ring.ring_repr (log d2) [] ∧
    handles d2 !! CId c = Some true ∧
    file_content (logDir d2) (logFileName (CId c)) =
      file_content (logDir d) (logFileName (CId c)).
Proof.
  intros Hr Hh HE Hlive Hdead.
  destruct (Write_live spin now c d [] Hr Hlive) as (rb & Hr1 & _ & E).
  rewrite accept_room in E, Hr1 by (by apply ring_room). cbn in E, Hr1.
  destruct (Flush_ok spin clock (set_handles (register c (handles d)) (set_log rb d)) [c])
    as (d2 & Hfl & Hd2 & Hr2 & _ & Hfiles & _); [done|by apply Forall_singleton|].
  eexists _, d2. split_and!; [exact E|exact Hfl|done| |].
  - rewrite Hd2. cbn. unfold register. by rewrite HE, lookup_insert_eq.
  - rewrite Hfiles by done. rewrite of_handle_dead by done.
    apply (right_id_L [] (++)).
Qed.

(** A flush that fails loses what it drained: when the log directory
    cannot be created, [Flush] returns an error, the queue is empty and no file
    has changed. *)
Theorem failed_flush_drops_queue (spin : nat) (fl : Faults) (clock : nat → Z)
    (d : DurableBuffer) (q : list Content) :
  Ring.ring_repr (log d) q → q ≠ [] → f_mkdir fl = true →
  ∃ d' e, Flush (S spin) fl clock d = Ret (d', Some e) ∧
    Ring.ring_repr (log d') [] ∧ logDir d' = logDir d.
Proof.
  intros Hr Hq Hfl. unfold Flush, syncLogToFile.
  pose proof (Ring.ring_repr_fit _ _ Hr) as Hfit.
  destruct (Ring.Drain_spec spin (log d) q (Z.to_nat (Ring.Cap (log d))) Hr)
    as (rb & -> & Hr' & _).
  rewrite drop_ge in Hr' by lia. rewrite take_ge by lia. cbn.
  destruct q as [|c q]; [done|]. unfold syncContentsToFile, mkdir_all. rewrite Hfl.
  eexists _, _. split_and!; [done|done|done].
Qed.

End facts.

(** ** Witnesses *)

Definition example_config : Config :=
  MkConfig 4 false 100 10 220 1000 500.
Definition example_buffer : DurableBuffer :=
  MkDB example_config false 1 50 OverflowDropOldest
    (Ring.NewRingBuffer empty_content 4) ∅ ∅ ∅ (MkDir true ∅).
Definition example_handle : Handle := MkHandle 1 50.
Definition example_chunks : list (Z * Content) :=
  [(60, MkContent example_handle false ["h"; "i"]%char);
   (70, MkContent example_handle true ["!"]%char)].

Lemma example_ring : Ring.ring_repr (log example_buffer) [].
Proof. apply Ring.NewRingBuffer_repr. lia. Qed.
Lemma example_handle_ok : handle_ok example_handle.
Proof. split; simpl; unfold min_i64, max_i64; lia. Qed.

Lemma Write_refines_witness :
  let c := MkContent example_handle false ["h"]%char in
  if isHandleExpired 60 example_handle example_buffer then
    Write 1 60 c example_buffer = Ret (Some ErrInvalidHandle, example_buffer)
  else
    let r := accept (Ring.Cap (log example_buffer)) (overflowPolicy example_buffer) [] c in
    ∃ rb', Ring.ring_repr rb' r.2 ∧ Ring.Cap rb' = Ring.Cap (log example_buffer) ∧
      Write 1 60 c example_buffer =
        Ret (r.1, match r.1 with
                  | Some _ => set_log rb' example_buffer
                  | None => set_handles (register c (handles example_buffer))
                              (set_log rb' example_buffer)
                  end) ∧
      (handles example_buffer !! CId c = Some true →
       register c (handles example_buffer) !! CId c = Some true).
Proof.
  apply (Write_refines 0 60 (MkContent example_handle false ["h"]%char) example_buffer []).
  apply example_ring.
Defined.

Lemma written_flushed_decoded_witness :
  ∃ d1 d2,
    run_writes 1 example_chunks example_buffer = Ret (None, d1) ∧
    Flush (H := canonical_order) 1 no_faults (λ _, 80) d1 = Ret (d2, None) ∧
    decodeDlogFileContent (file_content (logDir d2) (logFileName example_handle)) =
      Ret (Ok ["h"; "i"; "!"]%char) ∧
    (Exists (λ w, Eof w.2 = true) example_chunks → handles d2 !! example_handle = Some true).
Proof.
  apply (written_flushed_decoded (H := canonical_order) 0 example_chunks (λ _, 80)
    example_handle example_buffer []); try done.
  - apply example_ring.
  - constructor.
  - repeat constructor.
Defined.

Lemma expired_between_write_and_flush_witness :
  let c := MkContent example_handle true ["h"]%char in
  ∃ d1 d2,
    Write 1 60 c example_buffer = Ret (None, d1) ∧
    Flush (H := canonical_order) 1 no_faults (λ _, 151) d1 = Ret (d2, None) ∧
    Ring.ring_repr (log d2) [] ∧
    handles d2 !! CId c = Some true ∧
    file_content (logDir d2) (logFileName (CId c)) =
      file_content (logDir example_buffer) (logFileName (CId c)).
Proof.
  apply (expired_between_write_and_flush (H := canonical_order) 0 60 (λ _, 151)
    (MkContent example_handle true ["h"]%char) example_buffer); try done.
  - apply example_ring.
Defined.

Definition example_full : DurableBuffer :=
  set_log (match Ring.Push 1 (log example_buffer) (MkContent example_handle true ["x"]%char) with
           | Ret (_, rb) => rb
           | _ => log example_buffer
           end) example_buffer.

Lemma example_full_ring :
  Ring.ring_repr (log example_full) [MkContent example_handle true ["x"]%char].
Proof.
  destruct (Ring.Push_spec 0 (log example_buffer) [] (MkContent example_handle true ["x"]%char)
    example_ring) as (rb & E & Hr & _).
  unfold example_full. rewrite E. exact Hr.
Qed.

(** A queue of two records of one handle and, between them, one of a handle whose
    lifetime has ended. *)
Definition example_queue : list Content :=
  [MkContent example_handle false ["h"; "i"]%char; MkContent (MkHandle 2 (-90)) true ["?"]%char;
   MkContent example_handle true ["!"]%char].
Definition example_queued : DurableBuffer :=
  set_log (match Ring.run 1 (log example_buffer) (Ring.OpPush <$> example_queue) with
           | Ret (_, rb) => rb
           | _ => log example_buffer
           end) example_buffer.

Lemma example_queued_ring : Ring.ring_repr (log example_queued) example_queue.
Proof.
  destruct (Ring.run_spec 0 (log example_buffer) [] (Ring.OpPush <$> example_queue) example_ring)
    as (rb & E & Hr).
  unfold example_queued. rewrite E. exact Hr.
Qed.

Lemma example_queue_ok : handles_ok example_queue.
Proof.
  repeat (apply Forall_cons; split; [split; simpl; unfold min_i64, max_i64; lia|]).
  by apply Forall_nil.
Qed.

Lemma Flush_appends_witness :
  ∃ d', Flush (H := canonical_order) 1 no_faults (λ _, 80) example_queued = Ret (d', None) ∧
    Ring.ring_repr (log d') [] ∧
    file_content (logDir example_queued) (logFileName example_handle) = [] ∧
    file_content (logDir d') (logFileName example_handle) =
      log_bytes [MkContent example_handle false ["h"; "i"]%char;
                 MkContent example_handle true ["!"]%char].
Proof.
  destruct (Flush_appends (H := canonical_order) 0 (λ _, 80) example_queued example_queue)
    as (d' & E & _ & Hr & Hf & _).
  - apply example_queued_ring.
  - apply example_queue_ok.
  - exists d'. split; [exact E|]. split; [exact Hr|]. split; [reflexivity|].
    rewrite (Hf example_handle example_handle_ok). reflexivity.
Defined.

Lemma failed_flush_drops_queue_witness :
  let fl := MkFaults true false (λ _, false) (λ _, false) (λ _, None) (λ _, false)
              (λ _, false) (λ _, false) in
  ∃ d' e, Flush (H := canonical_order) 1 fl (λ _, 80) example_full = Ret (d', Some e) ∧
    Ring.ring_repr (log d') [] ∧ logDir d' = logDir example_full.
Proof.
  intros fl.
  apply (failed_flush_drops_queue (H := canonical_order) 0 fl (λ _, 80) example_full
    [MkContent example_handle true ["x"]%char]); [apply example_full_ring|done|done].
Defined.

End WritePath.
