(* ===== verification/Registry.v ===== *)
(** Handles and their registries: generation, the timing configuration, the
    hand-over of uploaded handles to the coordinator, and the registry of
    uploaded handles on disk. *)

From S2P Require Import Prelude GoStrings Ring Codec Durable.
From Stdlib Require Import Ascii.
From stdpp Require Import options.

Module Registry.
Import Codec Durable.

(** ** Generating handles *)

(** Successive calls of [GenerateHandle], one per clock reading. *)
Fixpoint generate (clocks : list Z) (d : DurableBuffer) : list Handle * DurableBuffer :=
  match clocks with
  | [] => ([], d)
  | now :: clocks =>
      let r := GenerateHandle now d in
      let r' := generate clocks r.2 in
      (r.1 :: r'.1, r'.2)
  end.

Definition before (a b : Handle) : Prop := Id a < Id b ∧ TimeStamp a < TimeStamp b.

Lemma GenerateHandle_spec now d M :
  0 <= nextHandle d → nextHandle d + 1 < 2 ^ 64 →
  min_i64 <= lastTimestamp d <= M → now <= M → M + 1 <= max_i64 →
  ∃ h d', GenerateHandle now d = (h, d') ∧
    Id h = nextHandle d + 1 ∧ lastTimestamp d < TimeStamp h <= M + 1 ∧
    nextHandle d' = Id h ∧ lastTimestamp d' = TimeStamp h.
Proof.
  intros Hn Hfit Hl Hnow HM. unfold GenerateHandle.
  rewrite u64_small by lia. eexists _, _; split_and!; try done; cbn;
    destruct (Z.leb_spec now (lastTimestamp d)); unfold min_i64, max_i64 in *;
    rewrite ?i64_small; lia.
Qed.

Lemma generate_spec clocks d (M : Z) :
  0 <= nextHandle d → nextHandle d + Z.of_nat (length clocks) < 2 ^ 64 →
  min_i64 <= lastTimestamp d <= M → Forall (λ now, now <= M) clocks →
  M + Z.of_nat (length clocks) <= max_i64 →
  let hs := (generate clocks d).1 in
  StronglySorted before hs ∧
  Forall (λ h, nextHandle d < Id h ∧ lastTimestamp d < TimeStamp h) hs.
Proof.
  revert d M. induction clocks as [|now clocks IH]; intros d M Hn Hfit Hl Hc HM.
  { split; constructor. }
  apply Forall_cons in Hc as [Hnow Hc]. cbn [length] in *.
  destruct (GenerateHandle_spec now d M) as (h & d1 & E & Hid & Ht & Hn1 & Hl1); try lia.
  cbn [generate]. rewrite E. cbn [fst snd].
  destruct (IH d1 (M + 1)) as [Hs Hall]; try lia.
  { eapply Forall_impl; [exact Hc|]. cbn. lia. }
  split; constructor; try done; try lia.
  - eapply Forall_impl; [exact Hall|]. unfold before; cbn. lia.
  - eapply Forall_impl; [exact Hall|]. cbn. lia.
Qed.

(** Handles are unique and ordered. Whatever the clock does (stand still,
    step back), successive calls of [GenerateHandle] return handles with
    strictly increasing ids and strictly increasing timestamps, all above those
    of the buffer before the calls, as long as the counters do not overflow. *)
Theorem GenerateHandle_increasing (clocks : list Z) (d : DurableBuffer) (M : Z) :
  0 <= nextHandle d → nextHandle d + Z.of_nat (length clocks) < 2 ^ 64 →
  min_i64 <= lastTimestamp d <= M → Forall (λ now, now <= M) clocks →
  M + Z.of_nat (length clocks) <= max_i64 →
  let hs := (generate clocks d).1 in
  StronglySorted before hs ∧ NoDup hs ∧
  Forall (λ h, nextHandle d < Id h ∧ lastTimestamp d < TimeStamp h) hs.
Proof.
  intros Hn Hfit Hl Hc HM. destruct (generate_spec clocks d M) as [Hs Hall]; try done.
  split_and!; [done| |done]. clear -Hs.
  induction Hs as [|h hs Hs IH Hh]; constructor; [|done].
  intros Hin. rewrite Forall_forall in Hh. apply Hh in Hin as [? _]. lia.
Qed.

Definition fresh_buffer : DurableBuffer :=
  MkDB (MkConfig 4 false 100 10 220 1000 500) false 0 0 OverflowDropOldest
    (Ring.NewRingBuffer empty_content 4) ∅ ∅ ∅ (MkDir true ∅).

Lemma GenerateHandle_increasing_witness :
  let hs := (generate [7; 7; 3] fresh_buffer).1 in
  hs = [MkHandle 1 7; MkHandle 2 8; MkHandle 3 9] ∧
  StronglySorted before hs ∧ NoDup hs ∧
  Forall (λ h, nextHandle fresh_buffer < Id h ∧ lastTimestamp fresh_buffer < TimeStamp h) hs.
Proof.
  split; [reflexivity|].
  apply (GenerateHandle_increasing [7; 7; 3] fresh_buffer 7); try done.
  repeat (apply Forall_cons; split; [done|]). by apply Forall_nil.
Defined.

(** ** Timing *)

Lemma round53_exact m e : Z.abs m < 2 ^ 53 → round53 m e = F64 m e.
Proof.
  intros Hm. unfold round53.
  assert (Z.log2 (Z.abs m) < 53).
  { destruct (decide (Z.abs m = 0)) as [->|]; [done|]. apply Z.log2_lt_pow2; lia. }
  by destruct (Z.leb_spec (Z.log2 (Z.abs m) - 52) 0); [|lia].
Qed.

Lemma SafeLogDeletionDuration_two a b c :
  0 <= a → 0 <= b → 0 <= c → a + b + c < 2 ^ 52 →
  SafeLogDeletionDuration a b c float64_two = 2 * (a + b + c).
Proof.
  intros Ha Hb Hc Hsum. unfold SafeLogDeletionDuration. cbn [float64_lt1].
  change (float64_lt1 float64_two) with false. cbn iota.
  rewrite (i64_small (a + b)), (i64_small (a + b + c)) by lia.
  unfold float64_mul, float64_of_int. rewrite (round53_exact (a + b + c)) by lia.
  change (mant (F64 (a + b + c) 0) * mant float64_two) with ((a + b + c) * 2).
  rewrite round53_exact by lia. change (expo (F64 (a + b + c) 0) + expo float64_two) with 0. unfold float64_trunc, mant, expo.
  change (0 <=? 0) with true. cbn iota. change (2 ^ 0) with 1. lia.
Qed.

(** The relations between the durations of a buffer that its comments rely on. *)
Definition timing_ok (c : Config) : Prop :=
  0 < handleExpiryDuration c ∧ 0 < cleanupTimeInterval c ∧
  2 * (handleExpiryDuration c + cleanupTimeInterval c) <= logDeletionDuration c ∧
  logDeletionDuration c <= uploadedHandleTTL c ∧
  0 < processingHandleTTL c.

(** The constructor replaces missing durations and enforces the timing
    relations (a log outlives twice the expiry and flush interval, a registry
    entry outlives its log file), and [SetUploadedHandleTTL] preserves them for
    every argument; durations are assumed below 2^51 ns (26 days), where the
    [float64] computation of the safe duration is exact. *)
Theorem timing_invariant (capacity : Z) (recoveryMode : bool) (expiry cleanup deletion ttl : Z)
    (d : DurableBuffer) :
  expiry < 2 ^ 51 → cleanup < 2 ^ 51 →
  config d = effective_config capacity recoveryMode expiry cleanup deletion →
  timing_ok (config d) ∧ timing_ok (config (SetUploadedHandleTTL ttl d)).
Proof.
  intros He Hc Hd.
  assert (timing_ok (config d)) as Hok.
  { rewrite Hd. unfold effective_config, timing_ok. cbn.
    set (e := if expiry <=? 0 then minute else expiry).
    set (c := if cleanup <=? 0 then 30 * second else cleanup).
    assert (0 < e < 2 ^ 51 ∧ 0 < c < 2 ^ 51) as [He' Hc'].
    { unfold e, c, minute, second.
      destruct (Z.leb_spec expiry 0), (Z.leb_spec cleanup 0); lia. }
    rewrite SafeLogDeletionDuration_two by lia.
    unfold defaultUploadedHandleTTL, defaultProcessingHandleTTL, hour, minute, second.
    repeat case_match; lia. }
  split; [done|]. destruct Hok as (? & ? & ? & ? & ?).
  unfold timing_ok, SetUploadedHandleTTL; cbn.
  repeat match goal with |- context [if ?b then _ else _] => destruct b eqn:? end; lia.
Qed.

Lemma timing_invariant_witness :
  let d := NewDurableBuffer 0 1024 true minute (5 * minute) hour (MkDir true ∅) in
  logDeletionDuration (config d) = hour ∧
  timing_ok (config d) ∧ timing_ok (config (SetUploadedHandleTTL 1 d)).
Proof.
  split; [vm_compute; reflexivity|].
  apply (timing_invariant 1024 true minute (5 * minute) hour 1); [done|done|].
  reflexivity.
Defined.


(** ** Handing uploaded handles to the coordinator *)

Section polling.
Context `{MapOrder} `{SortSlice}.

(** A poll at [now] may claim [h]: nobody holds it, or its lease has run out. *)
Definition claimable (now ttl : Z) (pm : gmap Handle Z) (h : Handle) : bool :=
  match pm !! h with
  | None => true
  | Some ts => expired_since now ttl ts
  end.

Lemma claim_handle_spec now ttl hs pm e :
  claim_handle now ttl (hs, pm) e =
    if claimable now ttl pm e.1 then (hs ++ [e.1], <[e.1 := now]> pm) else (hs, pm).
Proof. unfold claim_handle, claimable; cbn. by repeat case_match. Qed.

Lemma claimable_insert_ne now ttl pm h h' t :
  h ≠ h' → claimable now ttl (<[h := t]> pm) h' = claimable now ttl pm h'.
Proof. intros. unfold claimable. by rewrite lookup_insert_ne. Qed.

Lemma claim_fold now ttl l hs pm :
  NoDup l.*1 →
  let r := foldl (claim_handle now ttl) (hs, pm) l in
  r.1 = hs ++ filter (λ h, Is_true (claimable now ttl pm h)) l.*1 ∧
  ∀ h, r.2 !! h =
    if decide (h ∈ l.*1 ∧ Is_true (claimable now ttl pm h)) then Some now else pm !! h.
Proof.
  revert hs pm. induction l as [|e l IH]; intros hs pm; cbn [foldl fmap list_fmap].
  { intros _; split; [by rewrite filter_nil, (right_id_L [] (++))|].
    intros h. case_decide as Hd; [|done]. by destruct Hd as [Hd%elem_of_nil _]. }
  intros [Hnin Hnd]%NoDup_cons. rewrite claim_handle_spec, filter_cons.
  destruct (claimable now ttl pm e.1) eqn:HC; case_decide as HD; try (by destruct HD).
  - destruct (IH (hs ++ [e.1]) (<[e.1 := now]> pm) Hnd) as [E1 E2]. split.
    + rewrite E1, <- (assoc_L (++)). cbn. f_equal. f_equal. apply filter_ext_in.
      intros h Hh. rewrite claimable_insert_ne; [done|]. by intros <-.
    + intros h. rewrite E2. destruct (decide (e.1 = h)) as [<-|Hne].
      * rewrite lookup_insert_eq. transitivity (Some now); [by case_decide|].
        rewrite decide_True; [done|]. split; [by left|by rewrite HC].
      * rewrite lookup_insert_ne, claimable_insert_ne by done.
        apply decide_ext. rewrite elem_of_cons. intuition congruence.
  - destruct (IH hs pm Hnd) as [E1 E2]. split; [done|]. intros h. rewrite E2.
    apply decide_ext. rewrite elem_of_cons. intuition (subst; congruence).
Qed.

#[export] Instance handle_le_total : Total handle_le.
Proof. intros a b. unfold handle_le. lia. Qed.
#[export] Instance handle_le_trans : Transitive handle_le.
Proof. intros a b c. unfold handle_le. lia. Qed.

Definition uploaded (d : DurableBuffer) (h : Handle) : Prop :=
  is_Some (uploadedHandles d !! h).

Definition available (now : Z) (d : DurableBuffer) (h : Handle) : Prop :=
  uploaded d h ∧ claimable now (processingHandleTTL (config d)) (processingHandles d) h = true.

#[export] Instance available_dec now d h : Decision (available now d h).
Proof. unfold available, uploaded. apply _. Defined.

Lemma elem_of_uploaded_entries d h :
  h ∈ (map_entries (uploadedHandles d)).*1 ↔ uploaded d h.
Proof.
  rewrite list_elem_of_fmap. unfold uploaded, is_Some. split.
  - intros ([h' t] & -> & Hin). exists t. by apply elem_of_map_entries.
  - intros [t Ht]. exists (h, t). by rewrite elem_of_map_entries.
Qed.

Lemma GetUploadedHandles_facts now d :
  let r := GetUploadedHandles now d in
  r.2 = set_processingHandles (processingHandles r.2) d ∧
  StronglySorted handle_le r.1 ∧ NoDup r.1 ∧
  (∀ h, h ∈ r.1 ↔ available now d h) ∧
  (∀ h, processingHandles r.2 !! h =
     if decide (available now d h) then Some now else processingHandles d !! h).
Proof.
  cbn zeta. unfold GetUploadedHandles.
  destruct (claim_fold now (processingHandleTTL (config d)) (map_entries (uploadedHandles d))
    [] (processingHandles d)) as [E1 E2]; [apply NoDup_fst_map_entries|].
  set (r := foldl _ _ _) in *. cbn [fst snd]. split_and!; [done| | | |].
  - apply sort_slice_sorted; apply _.
  - rewrite sort_slice_perm, E1. cbn. apply NoDup_filter, NoDup_fst_map_entries.
  - intros h. rewrite sort_slice_perm, E1. cbn.
    rewrite list_elem_of_filter, elem_of_uploaded_entries. unfold available.
    rewrite Is_true_true. tauto.
  - intros h. cbn. rewrite E2. apply decide_ext. unfold available.
    rewrite elem_of_uploaded_entries, Is_true_true. tauto.
Qed.

(** ** A history of the registries *)

(** What changes or reads the registries after start-up: a poll by the
    coordinator, the release of a handle, a batch of uploads confirmed, the
    periodic clean-up, the periodic log deletion. *)
Inductive event :=
| Poll (now : Z)
| Release (h : Handle)
| Confirm (fl : Faults) (now : Z) (hs : list Handle)
| Tick (fl : Faults) (now : Z)
| Sweep (fl : Faults) (now : Z).

Definition step (d : DurableBuffer) (e : event) : list Handle * DurableBuffer :=
  match e with
  | Poll now => GetUploadedHandles now d
  | Release h => ([], ReleaseProcessingHandle h d)
  | Confirm fl now hs => ([], MarkHandlesUploaded fl now hs d)
  | Tick fl now => ([], saveUploadedHandles fl now (pruneProcessingHandles now d))
  | Sweep fl now => ([], performLogDeletion fl now d)
  end.

(** The batches handed out by the polls of a history. *)
Fixpoint dispatched (es : list event) (d : DurableBuffer) : list (list Handle) :=
  match es with
  | [] => []
  | e :: es => (step d e).1 :: dispatched es (step d e).2
  end.
(** The buffer after a history. *)
Definition after (es : list event) (d : DurableBuffer) : DurableBuffer :=
  foldl (λ d e, (step d e).2) d es.

(** *** What each operation leaves alone *)

Lemma saveUploadedHandles_frame fl now d :
  saveUploadedHandles fl now d = set_logDir (logDir (saveUploadedHandles fl now d)) d.
Proof. unfold saveUploadedHandles. by repeat case_match. Qed.

Lemma pruneProcessingHandles_lookup now d h :
  processingHandles (pruneProcessingHandles now d) !! h =
    ts ← processingHandles d !! h;
    if expired_since now (processingHandleTTL (config d)) ts then None else Some ts.
Proof.
  apply (lookup_range_delete (λ e, expired_since now (processingHandleTTL (config d)) e.2)).
Qed.

Lemma prune_fold (P : Handle * Z → bool) l d :
  foldl (λ d e, if P e then
      set_processingHandles (delete e.1 (processingHandles d))
        (set_uploadedHandles (delete e.1 (uploadedHandles d)) d) else d) d l =
    set_processingHandles
      (foldl (λ m e, if P e then delete e.1 m else m) (processingHandles d) l)
      (set_uploadedHandles
        (foldl (λ m e, if P e then delete e.1 m else m) (uploadedHandles d) l) d).
Proof.
  revert d. induction l as [|e l IH]; intros d; cbn [foldl]; [by destruct d|].
  rewrite IH. by destruct (P e).
Qed.

(** A handle whose registration has outlived the TTL. *)
Definition lapsed (now : Z) (d : DurableBuffer) (h : Handle) : bool :=
  match uploadedHandles d !! h with
  | Some at_ => expired_since now (uploadedHandleTTL (config d)) at_
  | None => false
  end.

Lemma pruneUploadedHandles_facts fl now d :
  let d' := pruneUploadedHandles fl now d in
  config d' = config d ∧ handles d' = handles d ∧
  (∀ h, uploadedHandles d' !! h = if lapsed now d h then None else uploadedHandles d !! h) ∧
  (∀ h, processingHandles d' !! h = if lapsed now d h then None else processingHandles d !! h).
Proof.
  cbn zeta. unfold pruneUploadedHandles. rewrite saveUploadedHandles_frame.
  rewrite (prune_fold (λ e, expired_since now (uploadedHandleTTL (config d)) e.2)).
  cbn. split_and!; [done|done| |]; intros h; unfold lapsed.
  - rewrite (lookup_range_delete (λ e, expired_since now (uploadedHandleTTL (config d)) e.2)).
    by destruct (uploadedHandles d !! h).
  - rewrite (lookup_foldl_delete (λ e, expired_since now (uploadedHandleTTL (config d)) e.2)).
    case_bool_decide as HE; rewrite Exists_exists in HE.
    + destruct HE as ([h' t] & Hin & Ht & [= ->]).
      apply elem_of_map_entries in Hin. rewrite Hin. cbn in Ht. by rewrite Ht.
    + destruct (uploadedHandles d !! h) as [t|] eqn:Hh; [|done].
      destruct (expired_since _ _ t) eqn:Ht; [|done]. destruct HE.
      exists (h, t). by rewrite elem_of_map_entries.
Qed.

Lemma MarkHandlesUploaded_facts fl now hs d :
  let d' := MarkHandlesUploaded fl now hs d in
  config d' = config d ∧ processingHandles d' = processingHandles d ∧
  (∀ h, uploadedHandles d' !! h = if decide (h ∈ hs) then Some now else uploadedHandles d !! h) ∧
  (∀ h, handles d' !! h = if decide (h ∈ hs) then None else handles d !! h).
Proof.
  cbn zeta. unfold MarkHandlesUploaded. rewrite saveUploadedHandles_frame. cbn.
  induction hs as [|h0 hs IH] using rev_ind; cbn.
  { split_and!; [done..| |]; intros h; by rewrite decide_False by set_solver. }
  rewrite foldl_snoc. cbn. destruct IH as (? & ? & IHu & IHh). split_and!; [done|done| |];
    intros h; destruct (decide (h0 = h)) as [<-|]; simplify_map_eq;
    rewrite ?IHu, ?IHh; repeat case_decide; set_solver.
Qed.

(** *** Log deletion *)

Definition old (now : Z) (d : DurableBuffer) (f : File) : Prop :=
  modtime f < now - logDeletionDuration (config d).

Definition remove_log (h : Handle) (name : string) (d : DurableBuffer) : DurableBuffer :=
  set_uploadedHandles (delete h (uploadedHandles d))
    (set_logDir (MkDir (d_exists (logDir d)) (delete name (d_files (logDir d)))) d).

Lemma delete_log_cases fl now d name :
  (∃ h f, parseHandleFromDownloadLogFile name = Ok h ∧ uploaded d h ∧
     d_files (logDir d) !! name = Some f ∧ old now d f ∧
     delete_log fl now d name = remove_log h name d) ∨
  delete_log fl now d name = d.
Proof.
  unfold delete_log, remove_file, isHandleUploaded.
  destruct (isDownloadLogFile name); [cbn|by right].
  destruct (parseHandleFromDownloadLogFile name) as [h|]; [|by right].
  case_bool_decide as Hu; [cbn|by right].
  destruct (f_info fl name); [by right|].
  destruct (d_files (logDir d) !! name) as [f|] eqn:Hf; [|by right].
  destruct (Z.ltb_spec (modtime f) (now - logDeletionDuration (config d))); [|by right].
  destruct (f_remove fl name); [by right; destruct d|].
  left. exists h, f. by split_and!.
Qed.

Lemma delete_log_removes fl now d h f :
  handle_ok h → uploaded d h → d_files (logDir d) !! logFileName h = Some f → old now d f →
  f_info fl (logFileName h) = false → f_remove fl (logFileName h) = false →
  delete_log fl now d (logFileName h) = remove_log h (logFileName h) d.
Proof.
  intros Hh Hu Hf Ho Hi Hr. unfold delete_log, remove_file, isHandleUploaded.
  rewrite isDownloadLogFile_logFileName, parse_logFileName, bool_decide_true, Hi, Hf, Hr by done.
  cbn. by rewrite (proj2 (Z.ltb_lt _ _) Ho).
Qed.

(** What a pass over the directory preserves. *)
Record swept (now : Z) (d d' : DurableBuffer) : Prop := {
  swept_config : config d' = config d;
  swept_handles : handles d' = handles d;
  swept_processing : processingHandles d' = processingHandles d;
  swept_uploaded h : uploadedHandles d' !! h = None ∨
    uploadedHandles d' !! h = uploadedHandles d !! h;
  swept_files name f : d_files (logDir d) !! name = Some f →
    d_files (logDir d') !! name = Some f ∨
    d_files (logDir d') !! name = None ∧ old now d f ∧
    ∃ h, parseHandleFromDownloadLogFile name = Ok h ∧ uploaded d h;
  swept_files_none name : d_files (logDir d) !! name = None →
    d_files (logDir d') !! name = None;
  swept_evicted h : uploaded d h → uploadedHandles d' !! h = None →
    ∃ name f, parseHandleFromDownloadLogFile name = Ok h ∧
      d_files (logDir d) !! name = Some f ∧ d_files (logDir d') !! name = None
}.

Lemma swept_refl now d : swept now d d.
Proof. split; try tauto; try naive_solver. intros h [t Ht] ?. congruence. Qed.

Lemma swept_step fl now d d1 name :
  swept now d d1 → swept now d (delete_log fl now d1 name).
Proof.
  intros [Hc Hh Hp Hu Hf Hn He].
  destruct (delete_log_cases fl now d1 name) as [(h & f & Hpar & Hup & Hfile & Ho & ->)| ->];
    [|by split].
  unfold old in Ho. rewrite Hc in Ho.
  assert (d_files (logDir d) !! name = Some f) as Hfile0.
  { destruct (d_files (logDir d) !! name) as [f'|] eqn:E.
    - destruct (Hf _ _ E) as [?|[? _]]; congruence.
    - rewrite Hn in Hfile; done. }
  split; cbn; try done.
  - intros h'. destruct (decide (h = h')) as [<-|]; simplify_map_eq; auto.
  - intros name' f' E. destruct (decide (name = name')) as [<-|]; simplify_map_eq; [|by apply Hf].
    right. split_and!; [done|done|]. exists h. split; [done|].
    destruct Hup as [t Ht]. destruct (Hu h) as [?|?]; [congruence|]. exists t. congruence.
  - intros name' E. destruct (decide (name = name')) as [<-|]; simplify_map_eq; auto.
  - intros h' Hup' E. destruct (decide (h = h')) as [<-|]; simplify_map_eq.
    + exists name, f. by simplify_map_eq.
    + destruct (He _ Hup' E) as (name' & f' & ? & ? & ?). exists name', f'.
      destruct (decide (name = name')) as [<-|]; by simplify_map_eq.
Qed.

Lemma swept_foldl fl now d names : swept now d (foldl (delete_log fl now) d names).
Proof.
  induction names as [|name names IH] using rev_ind; [apply swept_refl|].
  rewrite foldl_snoc. by apply swept_step.
Qed.

(** Every log file of the directory carries the name of its handle. *)
Definition well_named (dir : Dir) : Prop :=
  ∀ name f, d_files dir !! name = Some f → isDownloadLogFile name = true →
    ∃ h, handle_ok h ∧ name = logFileName h.

Lemma parse_Ok_log name h :
  parseHandleFromDownloadLogFile name = Ok h → isDownloadLogFile name = true.
Proof. unfold parseHandleFromDownloadLogFile. by destruct (isDownloadLogFile name). Qed.

Lemma parse_Ok_not_registry name h :
  parseHandleFromDownloadLogFile name = Ok h →
  name ≠ uploadedHandlesFileName ∧ name ≠ uploadedHandlesFileName +:+ ".tmp".
Proof. intros Hp%parse_Ok_log. split; intros ->; done. Qed.

(** In a well-named directory a pass gets to the file of an uploaded handle
    before it forgets the handle. *)
Lemma foldl_delete_log_removes fl now d h f names :
  well_named (logDir d) → handle_ok h → uploaded d h →
  d_files (logDir d) !! logFileName h = Some f → old now d f →
  f_info fl (logFileName h) = false → f_remove fl (logFileName h) = false →
  logFileName h ∈ names →
  d_files (logDir (foldl (delete_log fl now) d names)) !! logFileName h = None.
Proof.
  intros Hwn Hh Hu Hf Ho Hi Hr. revert d Hwn Hu Hf Ho.
  induction names as [|name names IH]; intros d Hwn Hu Hf Ho Hin; [inversion Hin|].
  cbn [foldl]. destruct (decide (name = logFileName h)) as [->|Hne].
  { rewrite (delete_log_removes fl now d h f) by done.
    apply (swept_files_none _ _ _ (swept_foldl fl now _ _)). cbn. by simplify_map_eq. }
  apply elem_of_cons in Hin as [?|Hin]; [congruence|].
  destruct (delete_log_cases fl now d name) as [(h' & f' & Hpar & Hup & Hfile & Ho' & ->)| ->];
    [|by apply IH].
  destruct (Hwn name f') as (h1 & Hok & ->); [done|by eapply parse_Ok_log|].
  rewrite parse_logFileName in Hpar by done. injection Hpar as [= <-].
  assert (h1 ≠ h) by (by intros ->).
  apply IH; try done.
  - intros name f0 E. cbn in E. apply lookup_delete_Some in E as [_ E]. exact (Hwn name f0 E).
  - destruct Hu as [t Ht]. exists t. cbn. by rewrite lookup_delete_ne.
  - cbn. by rewrite lookup_delete_ne.
Qed.

Lemma saveUploadedHandles_files fl now d name :
  name ≠ uploadedHandlesFileName → name ≠ uploadedHandlesFileName +:+ ".tmp" →
  d_files (logDir (saveUploadedHandles fl now d)) !! name = d_files (logDir d) !! name.
Proof.
  intros. unfold saveUploadedHandles, mkdir_all. repeat case_match; simplify_eq; cbn;
    by simplify_map_eq.
Qed.

Lemma pruneUploadedHandles_files fl now d name :
  name ≠ uploadedHandlesFileName → name ≠ uploadedHandlesFileName +:+ ".tmp" →
  d_files (logDir (pruneUploadedHandles fl now d)) !! name = d_files (logDir d) !! name.
Proof.
  intros. unfold pruneUploadedHandles. rewrite saveUploadedHandles_files by done. cbn zeta.
  set (ttl := uploadedHandleTTL (config d)).
  by rewrite (prune_fold (λ e, expired_since now ttl e.2)).
Qed.

Lemma logFileName_not_registry h :
  logFileName h ≠ uploadedHandlesFileName ∧ logFileName h ≠ uploadedHandlesFileName +:+ ".tmp".
Proof. done. Qed.

Lemma performLogDeletion_eq fl now d :
  (∃ names, read_dir fl (logDir d) = Ok names ∧
     performLogDeletion fl now d =
       pruneUploadedHandles fl now (foldl (delete_log fl now) d names)) ∨
  (∃ e, read_dir fl (logDir d) = Err e ∧ performLogDeletion fl now d = d).
Proof.
  unfold performLogDeletion. destruct (read_dir _ _) as [names|e]; [left; by exists names|right].
  by exists e.
Qed.

(** ** Leases *)

(** An event during the lease of [h] that started at [t1]: its clock reading
    lies in the lease, and it neither releases [h] nor confirms its upload. *)
Definition during_lease (h : Handle) (t1 ttl : Z) (e : event) : Prop :=
  match e with
  | Poll now | Tick _ now | Sweep _ now => t1 <= now <= t1 + ttl
  | Release h' => h' ≠ h
  | Confirm _ _ hs => h ∉ hs
  end.

Definition leased (h : Handle) (t1 ttl : Z) (d : DurableBuffer) : Prop :=
  processingHandleTTL (config d) = ttl ∧
  (processingHandles d !! h = Some t1 ∨ uploadedHandles d !! h = None).

Lemma not_expired now ttl t : t <= now <= t + ttl → ttl <= max_i64 → expired_since now ttl t = false.
Proof.
  intros. unfold expired_since, max_i64 in *. rewrite i64_small by lia. apply Z.ltb_ge. lia.
Qed.

Lemma leased_step h t1 ttl d e :
  ttl <= max_i64 → leased h t1 ttl d → during_lease h t1 ttl e →
  leased h t1 ttl (step d e).2 ∧ h ∉ (step d e).1.
Proof.
  intros Hmax [Httl Hl] He. destruct e as [now|h'|fl now hs|fl now|fl now];
    cbn [during_lease step fst snd] in He |- *.
  - destruct (GetUploadedHandles_facts now d) as (E & _ & _ & Hin & Hp).
    assert (¬ available now d h) as Hna.
    { intros [[t Ht] Hc]. destruct Hl as [Hl|Hl]; [|congruence].
      unfold claimable in Hc. rewrite Hl, Httl, not_expired in Hc; done. }
    rewrite Hin. split; [|done]. rewrite E. split; [done|]. cbn - [GetUploadedHandles].
    by rewrite Hp, decide_False.
  - split; [|by apply not_elem_of_nil]. split; [done|]. cbn. by rewrite lookup_delete_ne.
  - destruct (MarkHandlesUploaded_facts fl now hs d) as (Hc & Hp & Hu & _).
    split; [|by apply not_elem_of_nil]. split; [by rewrite Hc|]. rewrite Hp, Hu.
    by rewrite decide_False.
  - split; [|by apply not_elem_of_nil]. rewrite saveUploadedHandles_frame.
    split; [done|]. cbn - [pruneProcessingHandles]. destruct Hl as [Hl|Hl]; [left|by right].
    rewrite pruneProcessingHandles_lookup, Hl. cbn. by rewrite Httl, not_expired.
  - split; [|by apply not_elem_of_nil].
    destruct (performLogDeletion_eq fl now d) as [(names & _ & ->)|(e & _ & ->)]; [|done].
    destruct (swept_foldl fl now d names) as [Hc _ Hp Hu _ _ _].
    set (d1 := foldl _ _ _) in *.
    destruct (pruneUploadedHandles_facts fl now d1) as (Hc' & _ & Hu' & Hp').
    split; [by rewrite Hc', Hc|]. rewrite Hu', Hp'. case_match; [by right|].
    rewrite Hp. destruct Hl as [Hl|Hl]; [by left|right]. destruct (Hu h); congruence.
Qed.

Lemma dispatched_lease h t1 ttl es d :
  ttl <= max_i64 → leased h t1 ttl d → Forall (during_lease h t1 ttl) es →
  Forall (λ hs, h ∉ hs) (dispatched es d) ∧ leased h t1 ttl (after es d).
Proof.
  intros Hmax Hl Hes. revert d Hl. induction Hes as [|e es He _ IH]; intros d Hl; cbn [dispatched].
  { split; [constructor|done]. }
  destruct (leased_step h t1 ttl d e Hmax Hl He) as [Hl' Hn]. destruct (IH _ Hl') as [? ?].
  split; [by constructor|done].
Qed.

(** Only a log deletion takes a handle out of the registry of uploads. *)
Lemma step_keeps_uploaded h d e :
  (∀ fl now, e ≠ Sweep fl now) → uploaded d h → uploaded (step d e).2 h.
Proof.
  intros He [t Ht]. destruct e as [now|h'|fl now hs|fl now|fl now]; cbn [step snd].
  - destruct (GetUploadedHandles_facts now d) as (E & _). rewrite E. by exists t.
  - by exists t.
  - destruct (MarkHandlesUploaded_facts fl now hs d) as (_ & _ & Hu & _).
    unfold uploaded. rewrite Hu. case_decide; by eexists.
  - rewrite saveUploadedHandles_frame. by exists t.
  - by destruct (He fl now).
Qed.

Lemma after_keeps_uploaded h es d :
  (∀ fl now, Sweep fl now ∉ es) → uploaded d h → uploaded (after es d) h.
Proof.
  revert d. induction es as [|e es IH]; intros d Hes Hu; [done|]. cbn. apply IH.
  - intros fl now Hin. apply (Hes fl now). by right.
  - apply step_keeps_uploaded; [|done]. intros fl now ->. apply (Hes fl now). by left.
Qed.

(** A leased handle that is registered is handed out when the lease has run out and
    when it is released. *)
Lemma leased_again h t1 ttl d :
  leased h t1 ttl d → uploaded d h →
  (∀ now, t1 + ttl < now → min_i64 <= now - t1 <= max_i64 → h ∈ (GetUploadedHandles now d).1) ∧
  (∀ now, h ∈ (GetUploadedHandles now (ReleaseProcessingHandle h d)).1).
Proof.
  intros [Hc [Hp|Hp]] Hu; [|by destruct Hu as [t Ht]; congruence]. split.
  - intros now Hnow Hfit. apply GetUploadedHandles_facts. split; [done|].
    unfold claimable. rewrite Hp, Hc. unfold expired_since, min_i64, max_i64 in *.
    rewrite i64_small by lia. apply Z.ltb_lt. lia.
  - intros now. apply GetUploadedHandles_facts. split; [done|].
    unfold claimable. cbn - [GetUploadedHandles]. by rewrite lookup_delete_eq.
Qed.

Lemma GetUploadedHandles_leased h now d :
  h ∈ (GetUploadedHandles now d).1 →
  let d1 := (GetUploadedHandles now d).2 in
  config d1 = config d ∧ uploaded d1 h ∧ processingHandles d1 !! h = Some now.
Proof.
  destruct (GetUploadedHandles_facts now d) as (E & _ & _ & Hin & Hp).
  intros Ha%Hin. cbn zeta. rewrite Hp, decide_True by done. rewrite E.
  split_and!; [done|apply Ha|done].
Qed.

(** ** Properties *)

(** C17: a poll hands over exactly the uploaded handles that nobody holds or
    whose lease has run out, each once, in the order of ids and timestamps,
    whatever the enumeration order of the registry; it leases each of them at
    the poll's clock reading and changes nothing else. *)
Theorem GetUploadedHandles_hands_over (now : Z) (d : DurableBuffer) :
  let r := GetUploadedHandles now d in
  r.2 = set_processingHandles (processingHandles r.2) d ∧
  StronglySorted handle_le r.1 ∧ NoDup r.1 ∧
  (∀ h, h ∈ r.1 ↔ available now d h) ∧
  (∀ h, processingHandles r.2 !! h =
     if decide (available now d h) then Some now else processingHandles d !! h).
Proof. apply GetUploadedHandles_facts. Qed.

(** C18: a lease excludes a second dispatch and loses nothing. Once a poll has handed
    out a handle, no later poll hands it out again while the lease lasts, whatever
    polls, releases of other handles, confirmed batches, clean-ups and log
    deletions happen in between. After all of them the handle is still registered as
    uploaded, unless one of them was a log deletion; and as long as it is registered
    it is handed out again by any poll once the lease has run out, and by any poll
    once it is released. *)
Theorem lease_exclusion (h : Handle) (t1 : Z) (es : list event) (d : DurableBuffer) :
  let ttl := processingHandleTTL (config d) in
  let d1 := (GetUploadedHandles t1 d).2 in
  let d2 := after es d1 in
  ttl <= max_i64 →
  h ∈ (GetUploadedHandles t1 d).1 →
  Forall (during_lease h t1 ttl) es →
  Forall (λ hs, h ∉ hs) (dispatched es d1) ∧
  ((∀ fl now, Sweep fl now ∉ es) → uploaded d2 h) ∧
  (uploaded d2 h →
     (∀ now, t1 + ttl < now → min_i64 <= now - t1 <= max_i64 →
        h ∈ (GetUploadedHandles now d2).1) ∧
     (∀ now, h ∈ (GetUploadedHandles now (ReleaseProcessingHandle h d2)).1)).
Proof.
  cbn zeta. intros Hmax Hin Hes.
  destruct (GetUploadedHandles_leased h t1 d Hin) as (Hc & Hu & Hp).
  destruct (dispatched_lease h t1 _ es (GetUploadedHandles t1 d).2 Hmax) as [Hd Hl];
    [split; [by rewrite Hc|by left]|exact Hes|].
  split_and!; [done| |].
  - intros Hns. by apply after_keeps_uploaded.
  - by apply leased_again.
Qed.

(** C32: log deletion removes nothing it should keep. A file that is not one of
    the two registry files survives unless its name is that of a handle
    registered as uploaded and it is older than the deletion threshold; no
    registration of completion or upload appears out of nowhere, and a handle
    leaves the registry of uploads only when its registration has lapsed or a log
    file of it was older than the threshold and has been removed: a file whose
    removal fails keeps its handle registered. *)
Theorem performLogDeletion_safe (fl : Faults) (now : Z) (d : DurableBuffer) :
  let d' := performLogDeletion fl now d in
  (∀ name f, name ≠ uploadedHandlesFileName → name ≠ uploadedHandlesFileName +:+ ".tmp" →
     d_files (logDir d) !! name = Some f →
     d_files (logDir d') !! name = Some f ∨
     d_files (logDir d') !! name = None ∧ old now d f ∧
     ∃ h, parseHandleFromDownloadLogFile name = Ok h ∧ uploaded d h) ∧
  handles d' = handles d ∧
  (∀ h, uploadedHandles d' !! h = uploadedHandles d !! h ∨
     uploadedHandles d' !! h = None ∧
     (lapsed now d h = true ∨
      ∃ name f, parseHandleFromDownloadLogFile name = Ok h ∧
        d_files (logDir d) !! name = Some f ∧ old now d f ∧
        d_files (logDir d') !! name = None)).
Proof.
  cbn zeta. destruct (performLogDeletion_eq fl now d) as [(names & _ & ->)|(e & _ & ->)];
    [|by split_and!; auto].
  destruct (swept_foldl fl now d names) as [Hc Hh Hp Hu Hf Hn He].
  set (d1 := foldl _ _ _) in *.
  destruct (pruneUploadedHandles_facts fl now d1) as (Hc' & Hh' & Hu' & _). split_and!.
  - intros name f ? ?. rewrite pruneUploadedHandles_files by done. apply Hf.
  - by rewrite Hh', Hh.
  - intros h. rewrite Hu'. destruct (Hu h) as [E|E].
    + assert ((if lapsed now d1 h then None else uploadedHandles d1 !! h) = None) as ->.
      { by case_match. }
      destruct (uploadedHandles d !! h) as [t|] eqn:Ht; [|by left]. right. split; [done|].
      right. destruct (He h) as (name & f & Hpar & Hfile & Hgone); [by exists t|done|].
      destruct (parse_Ok_not_registry name h Hpar).
      exists name, f. rewrite pruneUploadedHandles_files by done. split_and!; [done|done| |done].
      destruct (Hf _ _ Hfile) as [?|[_ [? _]]]; [|done]. congruence.
    + replace (lapsed now d1 h) with (lapsed now d h) by (unfold lapsed; by rewrite E, Hc).
      rewrite E. destruct (lapsed now d h); [|by left]. auto.
Qed.

(** A registration outlives the log file it guards. When the timing
    relations hold and the log of an uploaded handle was last written before
    the upload was confirmed, a deletion pass that drops the registration
    leaves no log file of that handle behind, so that a later recovery cannot
    replay records already uploaded. *)
Theorem registry_outlives_log (fl : Faults) (now : Z) (d : DurableBuffer) (h : Handle) (at_ : Z) :
  timing_ok (config d) → well_named (logDir d) → handle_ok h →
  f_info fl (logFileName h) = false → f_remove fl (logFileName h) = false →
  uploadedHandles d !! h = Some at_ → min_i64 <= now - at_ <= max_i64 →
  (∀ f, d_files (logDir d) !! logFileName h = Some f → modtime f <= at_) →
  let d' := performLogDeletion fl now d in
  uploadedHandles d' !! h = None →
  d_files (logDir d') !! logFileName h = None.
Proof.
  intros Htime Hwn Hh Hi Hr Hu Hfit Hmod. cbn zeta.
  destruct (performLogDeletion_eq fl now d) as [(names & Hnames & ->)|(e & _ & ->)];
    [|congruence].
  destruct (swept_foldl fl now d names) as [Hc _ _ Hup _ Hn He].
  pose proof (foldl_delete_log_removes fl now d h) as Hrm.
  set (d1 := foldl _ _ _) in *. destruct (pruneUploadedHandles_facts fl now d1) as (_ & _ & Hu' & _).
  rewrite Hu'. destruct (logFileName_not_registry h).
  rewrite pruneUploadedHandles_files by done. intros Hgone.
  destruct (d_files (logDir d) !! logFileName h) as [f|] eqn:Hf; [|by apply Hn].
  destruct (uploadedHandles d1 !! h) as [t|] eqn:Ht.
  - destruct (lapsed now d1 h) eqn:Hl; [|done].
    unfold lapsed in Hl. destruct (Hup h) as [?|E]; [congruence|].
    rewrite E, Hu, Hc in Hl. apply Z.ltb_lt in Hl. unfold min_i64, max_i64 in *.
    rewrite i64_small in Hl by lia. destruct Htime as (_ & _ & _ & ? & _).
    apply (Hrm f); try done; [by exists at_| |].
    + unfold old. specialize (Hmod f eq_refl). lia.
    + unfold read_dir in Hnames. destruct (_ || _) eqn:?; [done|]. injection Hnames as [= <-].
      rewrite merge_sort_Permutation, elem_of_elements, elem_of_dom. by exists f.
  - destruct (He h) as (name & f' & Hpar & Hfile & Hno); [by exists at_|done|].
    destruct (Hwn name f') as (h' & Hok & ->); [done|by eapply parse_Ok_log|].
    rewrite parse_logFileName in Hpar by done. by injection Hpar as [= ->].
Qed.

End polling.

(** ** Witnesses *)

Definition example_handle : Handle := MkHandle 1 50.

(** One handle uploaded at 60 whose log, written at 55, is still there. *)
Definition example_uploaded : DurableBuffer :=
  set_uploadedHandles {[example_handle := 60]}
    (set_logDir (MkDir true {[logFileName example_handle := MkFile [] 55]}) fresh_buffer).

Definition example_events : list event :=
  [Tick no_faults 150; Release (MkHandle 2 51); Poll 400; Confirm no_faults 450 []; Poll 600].

Lemma lease_exclusion_witness :
  let d1 := (GetUploadedHandles (H := canonical_order) (H0 := merge_sort_slice)
               100 example_uploaded).2 in
  let d2 := after (H := canonical_order) (H0 := merge_sort_slice) example_events d1 in
  Forall (λ hs, example_handle ∉ hs)
    (dispatched (H := canonical_order) (H0 := merge_sort_slice) example_events d1) ∧
  uploaded d2 example_handle ∧
  (∀ now, 100 + processingHandleTTL (config example_uploaded) < now →
     min_i64 <= now - 100 <= max_i64 →
     example_handle ∈
       (GetUploadedHandles (H := canonical_order) (H0 := merge_sort_slice) now d2).1) ∧
  (∀ now, example_handle ∈
     (GetUploadedHandles (H := canonical_order) (H0 := merge_sort_slice) now
       (ReleaseProcessingHandle example_handle d2)).1).
Proof.
  destruct (lease_exclusion (H := canonical_order) (H0 := merge_sort_slice) example_handle 100
    example_events example_uploaded) as (Hd & Hu & Hagain).
  - done.
  - vm_compute. left.
  - repeat (apply Forall_cons; split; [first [apply not_elem_of_nil|split; done|done]|]).
    by apply Forall_nil.
  - assert (∀ fl now, Sweep fl now ∉ example_events) as Hs.
    { intros fl now. unfold example_events. rewrite !not_elem_of_cons.
      split_and!; [done..|apply not_elem_of_nil]. }
    split; [exact Hd|]. split; [exact (Hu Hs)|]. exact (Hagain (Hu Hs)).
Defined.

Lemma registry_outlives_log_witness :
  d_files (logDir (performLogDeletion (H := canonical_order) no_faults 2000 example_uploaded))
    !! logFileName example_handle = None.
Proof.
  apply (registry_outlives_log (H := canonical_order) no_faults 2000 example_uploaded
    example_handle 60); try done.
  - intros name f. cbn. intros [<- <-]%lookup_singleton_Some _.
    exists example_handle. done.
  - intros f. cbn. rewrite lookup_singleton_eq. by intros [= <-].
Defined.

End Registry.
