(* ===== verification/Recovery.v ===== *)
(** Crash recovery: what [Replay] and the start of [monitor] rebuild from the
    log directory, the registry of uploaded handles across a restart, and what
    recovered records do to the log files. *)

From S2P Require Import Prelude GoStrings Ring Codec Durable WritePath Registry.
From Stdlib Require Import Ascii.
From stdpp Require Import options.

Module Recovery.
Import Codec Durable WritePath Registry.

(** ** The visitor *)

Section visitor.
Implicit Types (d : DurableBuffer) (q cs : list Content).

Lemma push_retry_ok spin n c rb q :
  Ring.ring_repr rb q →
  ∃ rb', push_retry (S spin) (S n) c rb = Ret rb' ∧
    Ring.ring_repr rb' (take (Z.to_nat (Ring.Cap rb)) (q ++ [c])) ∧
    Ring.Cap rb' = Ring.Cap rb.
Proof.
  revert rb. induction n as [|n IH]; intros rb Hr; pose proof (Ring.ring_repr_fit _ _ Hr);
    cbn [push_retry]; destruct (Ring.Push_spec spin rb q c Hr) as (rb1 & -> & Hr1 & Hc1);
    unfold Ring.bq_push in *; destruct (Z.ltb_spec (Z.of_nat (length q)) (Ring.Cap rb)); cbn in *.
  1,3: exists rb1; rewrite take_ge by (rewrite length_app; cbn; lia); done.
  - exists rb1. rewrite take_app_le, take_ge by lia. done.
  - destruct (IH rb1 Hr1) as (rb2 & -> & Hr2 & Hc2). rewrite Hc1 in *. by exists rb2.
Qed.

(** The handle counter after the records [cs]. *)
Definition bump (n : Z) (c : Content) : Z :=
  if n <=? Id (CId c) then u64 (Id (CId c) + 1) else n.

Lemma bump_spec n cs :
  0 <= n → Forall (λ c, 0 <= Id (CId c) < 2 ^ 64 - 1) cs →
  n <= foldl bump n cs ∧ Forall (λ c, Id (CId c) < foldl bump n cs) cs ∧
  (foldl bump n cs = n ∨ Exists (λ c, foldl bump n cs = Id (CId c) + 1) cs).
Proof.
  intros Hn Hcs. revert n Hn. induction Hcs as [|c cs Hc Hcs IH]; intros n Hn; cbn [foldl].
  { split_and!; [lia|constructor|by left]. }
  assert (n <= bump n c ∧ Id (CId c) < bump n c ∧ (bump n c = n ∨ bump n c = Id (CId c) + 1))
    as (? & ? & Hor).
  { unfold bump. destruct (Z.leb_spec n (Id (CId c))); [rewrite u64_small|]; lia. }
  destruct (IH (bump n c)) as (? & ? & Hor'); [lia|]. split_and!; [lia|constructor; [lia|done]|].
  rewrite Exists_cons. destruct Hor' as [->|]; [destruct Hor|]; auto.
Qed.

Lemma recovery_visitor_eq spin d c :
  recovery_visitor spin d c =
    (rb ← push_retry spin (S maxRetries) c (log d);
     Ret (set_handles (register c (handles d)) (set_log rb
            (set_nextHandle (bump (nextHandle d) c) d)), true)).
Proof. unfold recovery_visitor, bump. case_match; [done|]. by destruct d. Qed.

Lemma visit_recovery spin cs d q :
  Ring.ring_repr (log d) q →
  ∃ d', visit (recovery_visitor (S spin)) d cs = Ret d' ∧
    d' = set_nextHandle (foldl bump (nextHandle d) cs)
           (set_handles (foldl (λ m c, register c m) (handles d) cs) (set_log (log d') d)) ∧
    Ring.ring_repr (log d') (take (Z.to_nat (Ring.Cap (log d))) (q ++ cs)) ∧
    Ring.Cap (log d') = Ring.Cap (log d).
Proof.
  revert d q. induction cs as [|c cs IH]; intros d q Hr; pose proof (Ring.ring_repr_fit _ _ Hr).
  { exists d. rewrite (right_id_L [] (++)), take_ge by lia. by destruct d. }
  cbn [visit]. rewrite recovery_visitor_eq.
  destruct (push_retry_ok spin maxRetries c (log d) q Hr) as (rb & -> & Hrb & Hcap).
  cbn [mbind outcome_bind].
  destruct (IH (set_handles (register c (handles d)) (set_log rb
    (set_nextHandle (bump (nextHandle d) c) d))) _ Hrb) as (d' & E & Hd' & Hr' & Hcap').
  cbn in E, Hd', Hr', Hcap'. exists d'. rewrite Hcap in *. split_and!; [exact E|exact Hd'| |done].
  revert Hr'. destruct (decide (length (q ++ [c]) ≤ Z.to_nat (Ring.Cap (log d)))%nat) as [Hle|Hgt].
  - rewrite (take_ge (q ++ [c])) by done. by rewrite <- (assoc_L (++)).
  - rewrite length_app in Hgt. cbn in Hgt.
    assert (take (Z.to_nat (Ring.Cap (log d))) (q ++ [c]) = q) as ->.
    { rewrite take_app_le, take_ge; [done|lia..]. }
    rewrite !(take_app_le q), !take_ge by lia. done.
Qed.

(** The completion registry rebuilt from records. *)
Lemma register_lookup h cs (m : gmap Handle bool) :
  foldl (λ m c, register c m) m cs !! h =
    if decide (Exists (λ c, CId c = h ∧ Eof c = true) cs) then Some true
    else if decide (Exists (λ c, CId c = h) cs) then Some (default false (m !! h))
    else m !! h.
Proof.
  revert m. induction cs as [|c cs IH]; intros m; cbn [foldl].
  { repeat case_decide as HX; try done; by apply Exists_nil in HX. }
  rewrite IH. pose proof (Exists_cons (λ c, CId c = h ∧ Eof c = true) c cs) as X1.
  pose proof (Exists_cons (λ c, CId c = h) c cs) as X2.
  assert (register c m !! h = if decide (CId c = h) then
    Some (Eof c || default false (m !! h)) else m !! h) as ->.
  { unfold register. destruct (decide (CId c = h)) as [<-|].
    - destruct (Eof c); [by simplify_map_eq|].
      destruct (m !! CId c) as [[]|] eqn:E; cbn; simplify_map_eq; done.
    - repeat case_match; by simplify_map_eq. }
  destruct (decide (CId c = h)), (Eof c) eqn:?, (m !! h) as [[]|];
    repeat case_decide; try done; exfalso; intuition congruence.
Qed.

End visitor.

(** ** The directory *)

Section replay.
Context `{MapOrder} `{SortSlice}.

(** Every log file carries the name of its handle and holds only its records
    (a torn record at its end is not a record). *)
Definition log_dir_ok (dir : Dir) : Prop :=
  d_exists dir = true ∧
  ∀ name f, d_files dir !! name = Some f → isDownloadLogFile name = true →
    ∃ h, handle_ok h ∧ name = logFileName h ∧
      Forall (λ c, CId c = h) (file_records (content f)).

Lemma of_handle_replay d h :
  log_dir_ok (logDir d) → handle_ok h → isHandleUploaded h d = false →
  of_handle h (replay_contents no_faults d) =
    file_records (file_content (logDir d) (logFileName h)).
Proof.
  intros [Hex Hdir] Hh Hu. unfold replay_contents, read_dir. rewrite Hex. cbn [f_readdir negb orb no_faults].
  set (names := sort_slice _ _).
  assert (∀ name, name ∈ names ↔ is_Some (d_files (logDir d) !! name)) as Hnames.
  { intros name. unfold names.
    by rewrite sort_slice_perm, merge_sort_Permutation, elem_of_elements, elem_of_dom. }
  assert (NoDup names) as Hnd.
  { unfold names. rewrite sort_slice_perm, merge_sort_Permutation. apply NoDup_elements. }
  unfold of_handle. rewrite !filter_bind.
  rewrite (bind_single _ names (logFileName h) Hnd).
  - rewrite isDownloadLogFile_logFileName. cbn [f_info f_open negb orb no_faults].
    case_decide as Hin; rewrite Hnames in Hin.
    + destruct Hin as [f Hf]. unfold file_content. rewrite Hf.
      destruct (Hdir _ _ Hf (isDownloadLogFile_logFileName h)) as (h' & Hh' & E & Hall).
      apply logFileName_inj in E; [subst h'|done..].
      rewrite list_filter_filter. apply filter_all.
      eapply Forall_impl; [exact Hall|]. intros c <-. by rewrite Hu.
    + unfold file_content. destruct (d_files (logDir d) !! logFileName h) eqn:E; [|done].
      destruct Hin. by eexists.
  - intros name Hin Hne. apply Hnames in Hin as [f Hf].
    destruct (isDownloadLogFile name) eqn:Hlog; [|done]. cbn [f_info f_open negb orb no_faults].
    destruct (Hdir _ _ Hf Hlog) as (h' & Hh' & -> & Hall).
    unfold file_content. rewrite Hf, list_filter_filter.
    apply filter_none. eapply Forall_impl; [exact Hall|].
    intros c -> [-> _]. done.
Qed.

Lemma replay_handles_ok d : log_dir_ok (logDir d) → handles_ok (replay_contents no_faults d).
Proof.
  intros [Hex Hdir]. unfold replay_contents, read_dir. rewrite Hex. cbn [f_readdir negb orb no_faults].
  apply Forall_forall. intros c [_ (name & Hc & Hin)%list_elem_of_bind]%list_elem_of_filter.
  rewrite sort_slice_perm, merge_sort_Permutation, elem_of_elements, elem_of_dom in Hin.
  destruct Hin as [f Hf]. destruct (isDownloadLogFile name) eqn:Hlog; [|by inversion Hc].
  destruct (Hdir _ _ Hf Hlog) as (h & Hh & -> & Hall). unfold file_content in Hc. cbn in Hc.
  rewrite Hf in Hc. rewrite Forall_forall in Hall. by rewrite (Hall c Hc).
Qed.

Lemma replay_not_uploaded d h :
  isHandleUploaded h d = true → of_handle h (replay_contents no_faults d) = [].
Proof.
  intros Hu. unfold replay_contents, of_handle. case_match; [|done].
  rewrite list_filter_filter. apply filter_none, Forall_forall. intros c _ [<- Hc].
  by rewrite Hu in Hc.
Qed.

Lemma recover_ok spin d :
  recoveryMode (config d) = true → Ring.ring_repr (log d) [] → d_exists (logDir d) = true →
  let cs := replay_contents no_faults d in
  ∃ d', recover (S spin) no_faults d = Ret d' ∧
    d' = set_inRecovery false (set_nextHandle (foldl bump (nextHandle d) cs)
           (set_handles (foldl (λ m c, register c m) (handles d) cs) (set_log (log d') d))) ∧
    Ring.ring_repr (log d') (take (Z.to_nat (Ring.Cap (log d))) cs) ∧
    Ring.Cap (log d') = Ring.Cap (log d).
Proof.
  intros Hm Hr Hex. cbn zeta. unfold recover. rewrite Hm. cbv zeta.
  assert (replay_dir no_faults (set_inRecovery true d) = set_inRecovery true d) as ->.
  { unfold replay_dir, read_dir. cbn. by rewrite Hex. }
  change (replay_contents no_faults (set_inRecovery true d)) with (replay_contents no_faults d).
  destruct (visit_recovery spin (replay_contents no_faults d) (set_inRecovery true d) [] Hr)
    as (d1 & -> & E & Hr1 & Hc1).
  cbn [mbind outcome_bind]. eexists. split_and!; [done| |exact Hr1|exact Hc1].
  rewrite E. done.
Qed.

Lemma Exists_of_handle (P : Content → Prop) h cs :
  Exists P (of_handle h cs) ↔ Exists (λ c, CId c = h ∧ P c) cs.
Proof.
  unfold of_handle. rewrite !Exists_exists. setoid_rewrite list_elem_of_filter. naive_solver.
Qed.

Lemma of_handle_nil h cs : of_handle h cs = [] ↔ ¬ Exists (λ c, CId c = h) cs.
Proof.
  unfold of_handle. induction cs as [|c cs IH]; [by rewrite Exists_nil, filter_nil; split; auto|].
  rewrite Exists_cons, filter_cons. case_decide as Hc; [|tauto].
  split; [done|]. intros []. by left.
Qed.

Lemma recovered_id_below d h :
  0 <= nextHandle d → log_dir_ok (logDir d) →
  Forall (λ c, Id (CId c) < 2 ^ 64 - 1) (replay_contents no_faults d) →
  of_handle h (replay_contents no_faults d) ≠ [] →
  Id h < foldl bump (nextHandle d) (replay_contents no_faults d).
Proof.
  intros Hn Hdir Hids Hne.
  destruct (bump_spec (nextHandle d) (replay_contents no_faults d) Hn) as (_ & Hbump & _).
  { eapply Forall_impl; [apply Forall_and; split; [exact Hids|by apply replay_handles_ok]|].
    intros c [? [? _]]. lia. }
  rewrite of_handle_nil in Hne. apply dec_stable, Exists_exists in Hne as (c & Hc & <-).
  rewrite Forall_forall in Hbump. by apply Hbump.
Qed.

(** ** Properties *)

(** C16: recovery restores the state the logs imply. From an empty buffer over
    a directory of log files (possibly ending in a torn record), recovery ends,
    leaves the directory and the upload registry alone, and for every handle
    not yet uploaded registers it as completed exactly when its log holds an
    end-of-file record and as open when it only holds others; the handle
    counter ends up above every replayed id, and when the records fit the ring
    they are queued again, in order. Uploaded handles are not replayed. *)
Theorem recovery_restores (spin : nat) (d : DurableBuffer) :
  recoveryMode (config d) = true → Ring.ring_repr (log d) [] → handles d = ∅ →
  0 <= nextHandle d → log_dir_ok (logDir d) →
  Forall (λ c, Id (CId c) < 2 ^ 64 - 1) (replay_contents no_faults d) →
  ∃ d' q, recover (S spin) no_faults d = Ret d' ∧
    logDir d' = logDir d ∧ uploadedHandles d' = uploadedHandles d ∧
    inRecovery d' = false ∧ Ring.ring_repr (log d') q ∧
    ∀ h, handle_ok h →
      let cs := file_records (file_content (logDir d) (logFileName h)) in
      if isHandleUploaded h d then handles d' !! h = None
      else
        (handles d' !! h = if decide (Exists (λ c, Eof c = true) cs) then Some true
                           else if decide (cs = []) then None else Some false) ∧
        (cs ≠ [] → Id h < nextHandle d') ∧
        (Z.of_nat (length (replay_contents no_faults d)) <= Ring.Cap (log d) →
         of_handle h q = cs).
Proof.
  intros Hm Hr Hh0 Hn Hdir Hids.
  destruct (recover_ok spin d Hm Hr (proj1 Hdir)) as (d' & E & Hd' & Hr' & _).
  eexists d', _. split_and!; [exact E|by rewrite Hd'..|exact Hr'|].
  intros h Hh. cbv zeta. assert (handles d' = foldl (λ m c, register c m) ∅
    (replay_contents no_faults d)) as -> by (by rewrite Hd', <- Hh0).
  rewrite register_lookup, lookup_empty.
  destruct (isHandleUploaded h d) eqn:Hu.
  - pose proof (replay_not_uploaded d h Hu) as Hnil. apply of_handle_nil in Hnil.
    rewrite !decide_False; [done|done|]. contradict Hnil.
    eapply Exists_impl; [exact Hnil|]. by intros c [? _].
  - rewrite <- (of_handle_replay d h Hdir Hh Hu). split_and!.
    + rewrite (decide_ext _ _ _ _ (Exists_of_handle (λ c, Eof c = true) h _)).
      case_decide; [done|].
      destruct (decide (of_handle h (replay_contents no_faults d) = [])) as [Hnil|Hnil];
        rewrite of_handle_nil in Hnil; [by rewrite decide_False|].
      rewrite decide_True; [done|]. by apply dec_stable.
    + intros Hne. rewrite Hd'. by apply recovered_id_below.
    + intros Hfit. rewrite take_ge by lia. done.
Qed.

(** Recovered records are written twice. Recovery leaves the log files in
    place and queues their records again, so when the lifetime of a handle
    lasts beyond the restart, the next flush appends all its records to the log
    that already holds them, and the coordinator decodes its data twice. *)
Theorem recovery_duplicates_logs (spin : nat) (clock : nat → Z) (d : DurableBuffer)
    (h : Handle) (cs : list Content) :
  recoveryMode (config d) = true → Ring.ring_repr (log d) [] →
  0 <= nextHandle d → log_dir_ok (logDir d) →
  Forall (λ c, Id (CId c) < 2 ^ 64 - 1) (replay_contents no_faults d) →
  Z.of_nat (length (replay_contents no_faults d)) <= Ring.Cap (log d) →
  handle_ok h → Id h ≠ 0 → isHandleUploaded h d = false → cs ≠ [] → Forall record_ok cs →
  file_content (logDir d) (logFileName h) = log_bytes cs →
  (∀ j, i64 (clock j - TimeStamp h) <= handleExpiryDuration (config d)) →
  ∃ d1 d2,
    recover (S spin) no_faults d = Ret d1 ∧
    Flush (S spin) no_faults clock d1 = Ret (d2, None) ∧
    file_content (logDir d2) (logFileName h) = log_bytes (cs ++ cs) ∧
    decodeDlogFileContent (file_content (logDir d2) (logFileName h)) =
      Ret (Ok ((cs ≫= Data) ++ (cs ≫= Data))).
Proof.
  intros Hm Hr Hn Hdir Hids Hfit Hh Hid Hu Hne Hcs Hfile Hlive.
  destruct (recover_ok spin d Hm Hr (proj1 Hdir)) as (d1 & E1 & Hd1 & Hr1 & _).
  rewrite take_ge in Hr1 by lia.
  pose proof (replay_handles_ok d Hdir) as Hok.
  pose proof (of_handle_replay d h Hdir Hh Hu) as Hmine.
  rewrite Hfile, file_records_log_bytes in Hmine by done.
  destruct (Flush_ok spin clock d1 _ Hr1 Hok) as (d2 & E2 & _ & _ & _ & Hfiles & _).
  assert (∀ j, isHandleExpired (clock j) h d1 = false) as Hl.
  { intros j. assert (Id h < nextHandle d1).
    { rewrite Hd1. apply (recovered_id_below d h); try done. by rewrite Hmine. }
    unfold isHandleExpired. rewrite Hd1 at 1. cbn [inRecovery set_inRecovery].
    destruct (Z.eqb_spec (Id h) 0), (Z.ltb_spec (nextHandle d1) (Id h)); try lia.
    rewrite Hd1. cbn. apply Z.ltb_ge, Hlive. }
  assert (file_content (logDir d2) (logFileName h) = log_bytes (cs ++ cs)) as E3.
  { rewrite Hfiles, of_handle_live, Hmine, log_bytes_app by done. by rewrite Hd1, <- Hfile. }
  exists d1, d2. split_and!; [done..|].
  rewrite E3, decode_log_bytes by (by apply Forall_app). by rewrite bind_app.
Qed.

(** ** The registry across a restart *)

Definition load_entry (P : Handle * Z → bool) (m : gmap Handle Z) (e : Handle * Z) :
    gmap Handle Z := if P e then m else <[e.1 := e.2]> m.

Lemma load_fold_notin P l m h : h ∉ l.*1 → foldl (load_entry P) m l !! h = m !! h.
Proof.
  revert m. induction l as [|e l IH]; intros m Hnin; [done|]. cbn [foldl].
  rewrite fmap_cons, not_elem_of_cons in Hnin. destruct Hnin as [? Hnin].
  rewrite IH by done. unfold load_entry. destruct (P e); by simplify_map_eq.
Qed.

Lemma load_fold P l m h at_ :
  NoDup l.*1 → (h, at_) ∈ l → P (h, at_) = false →
  foldl (load_entry P) m l !! h = Some at_.
Proof.
  revert m. induction l as [|e l IH]; intros m Hnd Hin HP; [by inversion Hin|].
  rewrite fmap_cons in Hnd. apply NoDup_cons in Hnd as [Hnin Hnd]. cbn [foldl].
  apply elem_of_cons in Hin as [<-|Hin]; [|by apply IH].
  rewrite load_fold_notin by done. unfold load_entry. rewrite HP. by simplify_map_eq.
Qed.

Lemma load_fold_lookup P l m h :
  NoDup l.*1 →
  foldl (load_entry P) m l !! h =
    match (list_to_map l : gmap Handle Z) !! h with
    | Some at_ => if P (h, at_) then m !! h else Some at_
    | None => m !! h
    end.
Proof.
  intros Hnd. destruct (list_to_map l !! h) as [at_|] eqn:E.
  - apply elem_of_list_to_map in E; [|done]. destruct (P (h, at_)) eqn:HP; [|by apply load_fold].
    revert m. induction l as [|e l IH]; intros m; [done|].
    rewrite fmap_cons in Hnd. apply NoDup_cons in Hnd as [Hnin Hnd]. cbn [foldl].
    apply elem_of_cons in E as [<-|E].
    + rewrite load_fold_notin by done. unfold load_entry. by rewrite HP.
    + rewrite IH by done. unfold load_entry. destruct (P e); [done|].
      apply lookup_insert_ne. intros <-. apply Hnin. by apply (list_elem_of_fmap_2 fst _ (_, at_)).
  - apply not_elem_of_list_to_map in E. by apply load_fold_notin.
Qed.

Lemma loadUploadedHandles_eq now d f :
  d_files (logDir d) !! uploadedHandlesFileName = Some f →
  uploadedHandles (loadUploadedHandles now d) =
    foldl (load_entry (λ e, expired_since now (uploadedHandleTTL (config d)) e.2))
      (uploadedHandles d) (read_registry (content f)).
Proof. intros Hf. unfold loadUploadedHandles. by rewrite Hf. Qed.

(** The calls that rewrite the registry file succeed. *)
Definition registry_writable (fl : Faults) : Prop :=
  let tmp := uploadedHandlesFileName +:+ ".tmp" in
  f_mkdir fl = false ∧ f_open fl tmp = false ∧ f_write fl tmp = None ∧
  f_sync fl tmp = false ∧ f_rename fl tmp = false.

Definition live_entries (now ttl : Z) (m : gmap Handle Z) : list (Handle * Z) :=
  filter (λ e, Is_true (negb (expired_since now ttl e.2))) (map_entries m).

Lemma saveUploadedHandles_registry fl now d :
  registry_writable fl →
  d_files (logDir (saveUploadedHandles fl now d)) !! uploadedHandlesFileName =
    Some (MkFile (registry_bytes
      (live_entries now (uploadedHandleTTL (config d)) (uploadedHandles d))) now).
Proof.
  intros (Hm & Ho & Hw & Hs & Hr). unfold saveUploadedHandles, mkdir_all.
  rewrite Hm, Ho, Hw, Hs, Hr. cbn. by simplify_map_eq.
Qed.

Lemma remove_files_other fl hs dir name :
  (∀ h, h ∈ hs → name ≠ logFileName h) →
  d_files (foldl (λ dir h, (remove_file fl (logFileName h) dir).1) dir hs) !! name =
    d_files dir !! name.
Proof.
  revert dir. induction hs as [|h hs IH]; intros dir Hne; [done|]. cbn [foldl].
  rewrite IH by (intros; apply Hne; by right). unfold remove_file.
  repeat case_match; try done. cbn. rewrite lookup_delete_ne; [done|].
  intros E. apply (Hne h); [by left|done].
Qed.

Definition registry_ok (m : gmap Handle Z) : Prop :=
  map_Forall (λ h at_, handle_ok h ∧ min_i64 <= at_ <= max_i64) m.

Lemma live_entries_NoDup now ttl m : NoDup (live_entries now ttl m).*1.
Proof.
  unfold live_entries. eapply sublist_NoDup; [apply (NoDup_fst_map_entries m)|].
  apply fmap_sublist, sublist_filter.
Qed.

Lemma live_entries_lookup now ttl m h :
  (list_to_map (live_entries now ttl m) : gmap Handle Z) !! h =
    at_ ← m !! h; if expired_since now ttl at_ then None else Some at_.
Proof.
  apply option_eq. intros at_. rewrite <- elem_of_list_to_map by apply live_entries_NoDup.
  unfold live_entries. rewrite list_elem_of_filter, elem_of_map_entries, bind_Some. cbn.
  rewrite negb_True. split.
  - intros [He Hm]. exists at_. by destruct (expired_since now ttl at_).
  - intros (t & Hm & Ht). destruct (expired_since now ttl t) eqn:E; [done|].
    simplify_eq. split; [by rewrite E; intros []|done].
Qed.

(** The registry after a confirmed batch and a restart. *)
Lemma registry_reloaded fl now hs d now2 cap rec expiry clean deletion :
  registry_writable fl → registry_ok (uploadedHandles (MarkHandlesUploaded fl now hs d)) →
  let d1 := MarkHandlesUploaded fl now hs d in
  let d2 := NewDurableBuffer now2 cap rec expiry clean deletion (logDir d1) in
  ∀ h, uploadedHandles d2 !! h =
    at_ ← uploadedHandles d1 !! h;
    if expired_since now (uploadedHandleTTL (config d)) at_ ||
       expired_since now2 (uploadedHandleTTL (config d2)) at_ then None else Some at_.
Proof.
  intros Hfl Hok. cbv zeta. set (d1 := MarkHandlesUploaded fl now hs d) in *. intros h.
  assert (∃ f, d_files (logDir d1) !! uploadedHandlesFileName = Some f ∧
    content f = registry_bytes (live_entries now (uploadedHandleTTL (config d))
      (uploadedHandles d1))) as (f & Hf & Hbytes).
  { eexists. unfold d1, MarkHandlesUploaded. split.
    - cbn [logDir set_logDir].
      rewrite remove_files_other, saveUploadedHandles_registry by done. done.
    - cbn [content]. rewrite saveUploadedHandles_frame. cbn.
      f_equal. f_equal. clear. by induction hs as [|? ? IH] using rev_ind;
        rewrite ?foldl_snoc. }
  set (d2 := NewDurableBuffer _ _ _ _ _ _ _).
  assert (config d2 = effective_config cap rec expiry clean deletion) as Hc2.
  { unfold d2, NewDurableBuffer, loadUploadedHandles. by case_match. }
  rewrite Hc2. unfold d2, NewDurableBuffer. erewrite loadUploadedHandles_eq by exact Hf.
  rewrite Hbytes, read_registry_bytes.
  - rewrite load_fold_lookup by apply live_entries_NoDup. rewrite live_entries_lookup.
    cbn [uploadedHandles config]. rewrite lookup_empty.
    destruct (uploadedHandles d1 !! h) as [t|]; [cbn|done].
    destruct (expired_since now _ t); [done|]. cbn. by destruct (expired_since now2 _ t).
  - apply Forall_forall. intros [h' t] [_ Hin]%list_elem_of_filter.
    apply elem_of_map_entries in Hin. by apply Hok.
Qed.

(** C33: a confirmed upload survives a restart. After [MarkHandlesUploaded] has
    rewritten the registry file, a buffer created over the same directory knows
    exactly the uploads of the old one that have not lapsed; in particular, even
    if removing the log files failed, no record of a confirmed handle is
    replayed as long as its registration lasts. *)
Theorem confirmed_upload_survives_restart (fl : Faults) (now : Z) (hs : list Handle)
    (d : DurableBuffer) (now2 cap : Z) (rec : bool) (expiry clean deletion : Z) :
  let d1 := MarkHandlesUploaded fl now hs d in
  let d2 := NewDurableBuffer now2 cap rec expiry clean deletion (logDir d1) in
  registry_writable fl → registry_ok (uploadedHandles d1) →
  0 <= uploadedHandleTTL (config d) →
  (∀ h, uploadedHandles d2 !! h =
     at_ ← uploadedHandles d1 !! h;
     if expired_since now (uploadedHandleTTL (config d)) at_ ||
        expired_since now2 (uploadedHandleTTL (config d2)) at_ then None else Some at_) ∧
  (∀ h, h ∈ hs → expired_since now2 (uploadedHandleTTL (config d2)) now = false →
     isHandleUploaded h d2 = true ∧ of_handle h (replay_contents no_faults d2) = []).
Proof.
  cbv zeta. intros Hfl Hok Httl.
  pose proof (registry_reloaded fl now hs d now2 cap rec expiry clean deletion Hfl Hok) as Hreg.
  cbv zeta in Hreg. split; [exact Hreg|]. intros h Hin Hlive.
  assert (isHandleUploaded h (NewDurableBuffer now2 cap rec expiry clean deletion
    (logDir (MarkHandlesUploaded fl now hs d))) = true) as Hu.
  { apply bool_decide_eq_true. rewrite Hreg.
    destruct (MarkHandlesUploaded_facts fl now hs d) as (_ & _ & Hup & _).
    rewrite Hup, decide_True by done. cbn - [NewDurableBuffer MarkHandlesUploaded].
    rewrite Hlive, orb_false_r. unfold expired_since.
    rewrite Z.sub_diag. change (i64 0) with 0. destruct (Z.ltb_spec (uploadedHandleTTL (config d)) 0);
      [lia|by eexists]. }
  split; [exact Hu|]. by apply replay_not_uploaded.
Qed.

End replay.

(** ** Witnesses *)

Definition example_records : list Content :=
  [MkContent (MkHandle 1 50) false ["h"; "i"]%char; MkContent (MkHandle 1 50) true ["!"]%char].

(** A buffer started in recovery mode over a directory with one complete log. *)
Definition example_restarted : DurableBuffer :=
  MkDB (MkConfig 4 true 100 10 220 1000 500) false 0 0 OverflowDropOldest
    (Ring.NewRingBuffer empty_content 4) ∅ ∅ ∅
    (MkDir true {[logFileName (MkHandle 1 50) := MkFile (log_bytes example_records) 55]}).

Lemma recovered_records_ok : Forall record_ok example_records.
Proof. repeat constructor; cbn; unfold min_i64, max_i64; lia. Qed.

Lemma example_log_dir : log_dir_ok (logDir example_restarted).
Proof.
  split; [done|]. unfold example_restarted. cbn [logDir d_files].
  intros name f [<- <-]%lookup_singleton_Some _.
  exists (MkHandle 1 50). split_and!; [done|done|]. cbn [content].
  rewrite file_records_log_bytes by apply recovered_records_ok. by repeat constructor.
Qed.

Lemma example_replay :
  replay_contents (H0 := merge_sort_slice) no_faults example_restarted = example_records.
Proof. by vm_compute. Qed.

Lemma recovery_restores_witness :
  ∃ d' q, recover (H0 := merge_sort_slice) 1 no_faults example_restarted = Ret d' ∧
    logDir d' = logDir example_restarted ∧
    uploadedHandles d' = uploadedHandles example_restarted ∧
    inRecovery d' = false ∧ Ring.ring_repr (log d') q ∧
    ∀ h, handle_ok h →
      let cs := file_records (file_content (logDir example_restarted) (logFileName h)) in
      if isHandleUploaded h example_restarted then handles d' !! h = None
      else
        (handles d' !! h = if decide (Exists (λ c, Eof c = true) cs) then Some true
                           else if decide (cs = []) then None else Some false) ∧
        (cs ≠ [] → Id h < nextHandle d') ∧
        (Z.of_nat (length (replay_contents (H0 := merge_sort_slice) no_faults example_restarted)) <=
           Ring.Cap (log example_restarted) → of_handle h q = cs).
Proof.
  apply (recovery_restores (H0 := merge_sort_slice) 0 example_restarted); try done.
  - apply Ring.NewRingBuffer_repr. lia.
  - apply example_log_dir.
  - rewrite example_replay. by repeat constructor.
Defined.

Lemma recovery_duplicates_logs_witness :
  ∃ d1 d2,
    recover (H0 := merge_sort_slice) 1 no_faults example_restarted = Ret d1 ∧
    Flush (H := canonical_order) 1 no_faults (λ _, 120) d1 = Ret (d2, None) ∧
    file_content (logDir d2) (logFileName (MkHandle 1 50)) =
      log_bytes (example_records ++ example_records) ∧
    decodeDlogFileContent (file_content (logDir d2) (logFileName (MkHandle 1 50))) =
      Ret (Ok ["h"; "i"; "!"; "h"; "i"; "!"]%char).
Proof.
  apply (recovery_duplicates_logs (H := canonical_order) (H0 := merge_sort_slice) 0 (λ _, 120)
    example_restarted (MkHandle 1 50) example_records).
  - done.
  - apply Ring.NewRingBuffer_repr. lia.
  - done.
  - apply example_log_dir.
  - rewrite example_replay. by repeat constructor.
  - rewrite example_replay. by vm_compute.
  - done.
  - done.
  - done.
  - done.
  - apply recovered_records_ok.
  - unfold file_content, example_restarted. cbn [logDir d_files].
    by rewrite lookup_singleton_eq.
  - done.
Defined.

Lemma confirmed_upload_survives_restart_witness :
  let fl := MkFaults false false (λ _, false) (λ _, false) (λ _, None) (λ _, false)
              (λ _, true) (λ _, false) in
  let d1 := MarkHandlesUploaded (H := canonical_order) fl 60 [MkHandle 1 50] example_restarted in
  let d2 := NewDurableBuffer 70 4 true 100 10 220 (logDir d1) in
  isHandleUploaded (MkHandle 1 50) d2 = true ∧
  of_handle (MkHandle 1 50) (replay_contents (H0 := merge_sort_slice) no_faults d2) = [].
Proof.
  intros fl d1 d2.
  apply (confirmed_upload_survives_restart (H := canonical_order) (H0 := merge_sort_slice)
    fl 60 [MkHandle 1 50] example_restarted 70 4 true 100 10 220).
  - by repeat split.
  - intros h t. destruct (MarkHandlesUploaded_facts (H := canonical_order) fl 60
      [MkHandle 1 50] example_restarted) as (_ & _ & Hu & _).
    rewrite Hu. case_decide as Hin; [|done]. intros [= <-].
    apply list_elem_of_singleton in Hin as ->. by repeat split.
  - done.
  - left.
  - done.
Defined.

End Recovery.
