(* ===== verification/Worker.v ===== *)
(** The worker of [mrp/worker.go]: reading a chunk, the map phase, the
    partitioning into intermediate files, the reduce phase and the submission of
    the result. The plugin's map and reduce functions, the DFS client and the
    call to the master are parameters; so are the order in which the writer
    goroutines finish and the sorting algorithm. *)

From S2P Require Import Prelude GoStrings Json Codec Types.
From Stdlib Require Import Ascii.
From stdpp Require Import options.

#[local] Arguments String.append !_ _ / : simpl nomatch.

Module Worker.
Import GoStrings Codec Types.

(** ** Hashing and partitioning *)

(** [Ihash]: FNV-1a, 32 bits, without the top bit. *)
Definition fnv_step (h : Z) (c : ascii) : Z :=
  u32 (Z.lxor h (Z.of_N (N_of_ascii c)) * 16777619).
Fixpoint fnv32a (h : Z) (s : string) : Z :=
  match s with
  | EmptyString => h
  | String c s => fnv32a (fnv_step h c) s
  end.
Definition Ihash (key : string) : Z := Z.land (fnv32a 2166136261 key) 0x7fffffff.

(** [arrangeImmediate]: allocating a negative number of buckets and reducing
    modulo zero panic. *)
Fixpoint fill_buckets (nReduce : Z) (kvs : list KeyValue) (kvap : list (list KeyValue)) :
    outcome (list (list KeyValue)) :=
  match kvs with
  | [] => Ret kvap
  | kv :: kvs =>
      if nReduce =? 0 then Panic
      else
        let bucket := Z.rem (Ihash (Key kv)) nReduce in
        fill_buckets nReduce kvs (alter (λ b, b ++ [kv]) (Z.to_nat bucket) kvap)
  end.

Definition arrangeImmediate (kvs : list KeyValue) (nReduce : Z) :
    outcome (list (list KeyValue)) :=
  if nReduce <? 0 then Panic
  else fill_buckets nReduce kvs (replicate (Z.to_nat nReduce) []).

(** The default plugin counts words. *)
Definition defaultMap (_ contents : string) : list KeyValue :=
  (λ word, MkKV word "1") <$> Fields contents.
Definition defaultReduce (_ : string) (values : list string) : string :=
  Itoa (Z.of_nat (length values)).

(** ** Configuration *)

Record Worker := MkWorker {
  serverAddress : string;
  masterAddress : string;
  fsServerAddr : string;
  pluginName : string;
  nReduce : Z;
  mapf : string → string → list KeyValue;
  reducef : string → list string → string
}.

(** [NewWorker]'s reading of MAPREDUCE_N_REDUCE. *)
Definition parse_nReduce (env : string) : Z :=
  match Atoi (TrimSpace env) with
  | Some parsed => if 0 <? parsed then parsed else 1
  | None => 1
  end.

(** [envOrDefault]. *)
Definition envOrDefault (value fallback : string) : string :=
  if bool_decide (value = "") then fallback else value.

Definition defaultWorkerMasterAddress : string := "localhost:1235".

Definition NewWorker (address masterEnv dfsEnv nameEnv nReduceEnv : string) : Worker :=
  MkWorker address (envOrDefault masterEnv defaultWorkerMasterAddress)
    (envOrDefault dfsEnv "localhost:8089") (TrimSpace nameEnv) (parse_nReduce nReduceEnv)
    defaultMap defaultReduce.

(** ** Reading a chunk *)

(** What the DFS client's [Read] leaves: a count, the buffer, an error. *)
Inductive dfs_error := DfsEOF | DfsFailed (e : go_error).
Record dfs_read := MkRead { read_n : Z; read_buffer : list byte; read_err : option dfs_error }.

Definition defaultChunkReadSize : Z := 64 * 1024.

(** A slice expression [s[i:j]] panics out of range. *)
Definition slice {A} (s : list A) (i j : Z) : outcome (list A) :=
  if (0 <=? i) && (i <=? j) && (j <=? Z.of_nat (length s)) then
    Ret (take (Z.to_nat (j - i)) (drop (Z.to_nat i) s))
  else Panic.

Definition readChunkData (Read : string → Z → Z → dfs_read) (cancelled : bool) (w : Worker)
    (request : MapReduceRequest) : outcome (res (list byte)) :=
  let raw := fm_RawContent (mr_File request) in
  let ci := mr_ChunkInfo request in
  let len := Z.of_nat (length raw) in
  if 0 <? len then
    let start := Z.max (Offset ci) 0 in
    if len <=? start then Ret (Ok [])
    else
      let end_ :=
        if 0 <? Size ci then
          let candidate := i64 (start + Size ci) in
          if candidate <? len then candidate else len
        else len in
      data ← slice raw start end_; Ret (Ok data)
  else if bool_decide (TrimSpace (fsServerAddr w) = "") then
    Ret (Err (ErrMsg "DFS server address not configured"))
  else
    let path := TrimSpace (Path ci) in
    let path := if bool_decide (path = "") then TrimSpace (fm_SourcePath (mr_File request))
                else path in
    if bool_decide (path = "") then Ret (Err (ErrMsg "chunk path is empty"))
    else
      let readSize :=
        if Size ci <=? 0 then
          if Offset ci <? fm_SizeBytes (mr_File request) then
            i64 (fm_SizeBytes (mr_File request) - Offset ci)
          else defaultChunkReadSize
        else Size ci in
      if cancelled then Ret (Err (ErrMsg "context canceled"))
      else
        if readSize <? 0 then Panic else
        let r := Read path (Offset ci) readSize in
        match read_err r with
        | Some (DfsFailed e) => Ret (Err e)
        | _ =>
            if read_n r <? 0 then
              Ret (Err (ErrMsg ("invalid bytes read: " +:+ fmt_d (read_n r))))
            else if read_n r =? 0 then Ret (Ok [])
            else data ← slice (read_buffer r) 0 (read_n r); Ret (Ok data)
        end.

(** ** Intermediate and output files *)

(** The two directories of a worker, by base name. *)
Record Disk := MkDisk { intermediate : gmap string string; output : gmap string string }.

(** Which file-system calls fail. *)
Record IoFaults := MkIo {
  io_mkdir_intermediate : bool;
  io_mkdir_output : bool;
  io_create : string → bool;
  io_write : string → option nat;
  io_open : string → bool;
  io_write_output : option nat;
  io_rename_output : bool;
  io_remove : string → bool
}.
Definition no_io_faults : IoFaults :=
  MkIo false false (λ _, false) (λ _, None) (λ _, false) None false (λ _, false).

Definition partitionFile (handleId chunkIndex index : Z) : string :=
  "mr-" +:+ fmt_d handleId +:+ "-" +:+ fmt_d chunkIndex +:+ "-" +:+ fmt_d index +:+ ".json".
Definition outputFileName (handleId chunkIndex : Z) : string :=
  "mr-out-" +:+ fmt_d handleId +:+ "-" +:+ fmt_d chunkIndex.

(** A [KeyValue] as [encoding/json] writes it. *)
Definition kv_json (kv : KeyValue) : Json.json :=
  Json.JObj [("Key", Json.JStr (Key kv)); ("Value", Json.JStr (Value kv))].

Definition set_field (acc : option KeyValue) (f : string * Json.json) : option KeyValue :=
  kv ← acc;
  if bool_decide (ToLower f.1 = "key") then
    match f.2 with
    | Json.JStr s => Some (MkKV s (Value kv))
    | Json.JNull => Some kv
    | _ => None
    end
  else if bool_decide (ToLower f.1 = "value") then
    match f.2 with
    | Json.JStr s => Some (MkKV (Key kv) s)
    | Json.JNull => Some kv
    | _ => None
    end
  else Some kv.

(** ... and as it reads it back: unknown fields are ignored, a missing field
    keeps its zero value. *)
Definition kv_of_json (j : Json.json) : option KeyValue :=
  match j with
  | Json.JObj fields => foldl set_field (Some (MkKV "" "")) fields
  | Json.JNull => Some (MkKV "" "")
  | _ => None
  end.

Definition decode_kvs (text : string) : option (list KeyValue) :=
  js ← Json.decode_stream text; mapM kv_of_json js.

Definition writeIntermediatePartition (fl : IoFaults) (file : string) (kvs : list KeyValue)
    (d : Disk) : Disk * option go_error :=
  if io_create fl file then (d, Some (ErrMsg ("create " +:+ file)))
  else
    let text := Json.encode_stream (kv_json <$> kvs) in
    match io_write fl file with
    | Some k => (MkDisk (<[file := string_take k text]> (intermediate d)) (output d),
                 Some (ErrMsg ("write " +:+ file)))
    | None => (MkDisk (<[file := text]> (intermediate d)) (output d), None)
    end.

(** [cleanupIntermediateFiles]: the files matching [mr-<id>-<chunk>-*.json]. *)
Definition matches_chunk (handleId chunkIndex : Z) (name : string) : bool :=
  HasPrefix name ("mr-" +:+ fmt_d handleId +:+ "-" +:+ fmt_d chunkIndex +:+ "-") &&
  HasSuffix name ".json".

Definition cleanupIntermediateFiles (fl : IoFaults) (handleId chunkIndex : Z) (d : Disk) : Disk :=
  MkDisk (filter (λ f, Is_true (negb (matches_chunk handleId chunkIndex f.1 && negb (io_remove fl f.1))))
            (intermediate d)) (output d).

(** ** Reducing *)

Definition key_le (a b : KeyValue) : Prop := String.le (Key a) (Key b).
#[export] Instance key_le_dec a b : Decision (key_le a b).
Proof. unfold key_le. apply _. Defined.

(** The values of the leading entries with key [k], and the entries after them. *)
Fixpoint take_run (k : string) (l : list KeyValue) : list string * list KeyValue :=
  match l with
  | kv :: l' =>
      if bool_decide (Key kv = k) then let r := take_run k l' in (Value kv :: r.1, r.2)
      else ([], l)
  | [] => ([], [])
  end.

Definition output_line (key reduced : string) : string :=
  key +:+ " " +:+ reduced +:+ Json.nl.

(** The grouping loop; every turn consumes at least one entry. *)
Fixpoint reduce_loop (fuel : nat) (reducef : string → list string → string)
    (all : list KeyValue) : outcome string :=
  match all with
  | [] => Ret ""
  | kv :: rest =>
      match fuel with
      | O => OutOfFuel
      | S fuel =>
          let r := take_run (Key kv) rest in
          out ← reduce_loop fuel reducef r.2;
          Ret (output_line (Key kv) (reducef (Key kv) (Value kv :: r.1)) +:+ out)
      end
  end.

Fixpoint read_partitions (fl : IoFaults) (d : Disk) (files : list string) :
    res (list KeyValue) :=
  match files with
  | [] => Ok []
  | file :: files =>
      if io_open fl file then Err (ErrMsg ("open " +:+ file)) else
      match intermediate d !! file with
      | None => Err (ErrMsg ("open " +:+ file))
      | Some text =>
          match decode_kvs text with
          | None => Err (ErrMsg ("failed to decode intermediate file " +:+ file))
          | Some kvs => rest ← read_partitions fl d files; Ok (kvs ++ rest)
          end
      end
  end.

(** The conversion [string(chunkData)]. *)
Fixpoint bytes_text (bs : list byte) : string :=
  match bs with [] => EmptyString | b :: bs => String b (bytes_text bs) end.

Section pipeline.
Context `{SortSlice}.

Definition runReduceFromChannel (fl : IoFaults) (w : Worker) (request : MapReduceRequest)
    (files : list string) (d : Disk) : outcome (res (string * string) * Disk) :=
  match read_partitions fl d files with
  | Err e => Ret (Err e, d)
  | Ok all =>
      let all := sort_slice key_le all in
      text ← reduce_loop (length all) (reducef w) all;
      let name := outputFileName (Id (mr_Handle request)) (mr_ChunkIndex request) in
      let tmp := name +:+ ".tmp" in
      match io_write_output fl with
      | Some k => Ret (Err (ErrMsg ("write " +:+ tmp)),
                       MkDisk (intermediate d) (<[tmp := string_take k text]> (output d)))
      | None =>
          if io_rename_output fl then
            Ret (Err (ErrMsg ("rename " +:+ tmp)),
                 MkDisk (intermediate d) (delete tmp (output d)))
          else Ret (Ok (name, text),
                    MkDisk (intermediate d) (<[name := text]> (delete tmp (output d))))
      end
  end.

(** The writer goroutines in the order they finish: the files sent to the
    reducer, the joined errors and the directory. *)
Fixpoint run_writers (fl : IoFaults) (handleId chunkIndex : Z)
    (partitions : list (list KeyValue)) (sched : list nat) (err : option go_error) (d : Disk) :
    list string * option go_error * Disk :=
  match sched with
  | [] => ([], err, d)
  | i :: sched =>
      let file := partitionFile handleId chunkIndex (Z.of_nat i) in
      match writeIntermediatePartition fl file (default [] (partitions !! i)) d with
      | (d, Some e) =>
          run_writers fl handleId chunkIndex partitions sched (join_errors err e) d
      | (d, None) =>
          let r := run_writers fl handleId chunkIndex partitions sched err d in
          (file :: r.1.1, r.1.2, r.2)
      end
  end.

Definition runMapReducePipeline (fl : IoFaults) (sched : list nat) (w : Worker)
    (request : MapReduceRequest) (chunkData : list byte) (d : Disk) :
    outcome (res (string * string) * Disk) :=
  if io_mkdir_intermediate fl then Ret (Err (ErrMsg "mkdir"), d)
  else if io_mkdir_output fl then Ret (Err (ErrMsg "mkdir"), d)
  else
    let mapOutput := mapf w (Path (mr_ChunkInfo request)) (bytes_text chunkData) in
    partitions ← arrangeImmediate mapOutput (nReduce w);
    let ws := run_writers fl (Id (mr_Handle request)) (mr_ChunkIndex request) partitions sched
                None d in
    r ← runReduceFromChannel fl w request ws.1.1 ws.2;
    match ws.1.2, r with
    | None, r => Ret r
    | Some e, (Ok _, d) => Ret (Err e, d)
    | Some e, (Err e', d) => Ret (Err (ErrJoin [e; e']), d)
    end.

(** The result sent to the master. *)
Definition submission (w : Worker) (generatedAt : string) (request : MapReduceRequest)
    (outputFile outputData : string) : MapReduceResultRequest :=
  MkResult (mr_Handle request) (mr_ChunkIndex request) (serverAddress w)
    outputFile outputData generatedAt.

Definition submitResultToMaster (call : MapReduceResultRequest → res MapReduceResultReply)
    (w : Worker) (generatedAt : string) (request : MapReduceRequest)
    (outputFile outputData : string) : option go_error :=
  if bool_decide (TrimSpace (masterAddress w) = "") then
    Some (ErrMsg "master address not configured")
  else
    match call (submission w generatedAt request outputFile outputData) with
    | Err e => Some e
    | Ok reply =>
        if bool_decide (rp_Status reply = "error") then
          Some (ErrMsg ("master rejected result: " +:+ rp_ErrorMessage reply))
        else None
    end.

(** The goroutine [RPCMapReduce] starts: the submission it makes, if any. *)
Definition process_chunk (fl : IoFaults) (Read : string → Z → Z → dfs_read) (cancelled : bool)
    (sched : list nat) (generatedAt : string) (w : Worker) (request : MapReduceRequest)
    (d : Disk) : outcome (option MapReduceResultRequest * Disk) :=
  let clean := cleanupIntermediateFiles fl (Id (mr_Handle request)) (mr_ChunkIndex request) in
  let d := clean d in
  r ← readChunkData Read cancelled w request;
  match r with
  | Err _ => Ret (None, d)
  | Ok chunkData =>
      r ← runMapReducePipeline fl sched w request chunkData d;
      match r with
      | (Err _, d) => Ret (None, d)
      | (Ok (outputFile, outputData), d) =>
          Ret (if bool_decide (TrimSpace (masterAddress w) = "") then None
               else Some (submission w generatedAt request outputFile outputData), clean d)
      end
  end.

End pipeline.

(** [RPCMapReduce] itself answers before the work starts. *)
Definition RPCMapReduce (request : MapReduceRequest) : MapReduceReply :=
  MkMRReply "accepted" 0 ""
    ("accepted chunk " +:+ fmt_d (mr_ChunkIndex request) +:+ " of handle " +:+
     fmt_d (Id (mr_Handle request)) +:+ " for processing").

Definition RPCGetPluginInfo (w : Worker) : string := pluginName w.

(** [serverUTC] is the formatted clock reading. *)
Definition Heartbeat (serverUTC : string) (request : HeartbeatRequest) : HeartbeatReply :=
  MkBeatReply "ok"
    (if bool_decide (WorkerID request = "") then "worker heartbeat received"
     else if bool_decide (Message request = "") then
       "worker heartbeat received from " +:+ WorkerID request
     else "worker heartbeat received from " +:+ WorkerID request +:+ ": " +:+ Message request)
    serverUTC.

End Worker.
