(* ===== verification/MapReduce.v ===== *)
(** Correctness of the worker's map-reduce pipeline: partitioning, the
    intermediate files, grouping and reducing, independence of the number of
    partitions, of scheduling and of the sorting algorithm. *)

From S2P Require Import Prelude GoStrings Json Codec Types Worker.
From Stdlib Require Import Ascii.
From stdpp Require Import options.

#[local] Arguments String.append !_ _ / : simpl nomatch.

Module MapReduce.
Import GoStrings Codec Types Worker.

(** ** Partitioning *)

Lemma Ihash_range key : 0 <= Ihash key < 2 ^ 31.
Proof.
  unfold Ihash. change 0x7fffffff with (Z.ones 31). rewrite Z.land_ones by lia.
  apply Z.mod_pos_bound. lia.
Qed.

Definition bucket_of (n : Z) (kv : KeyValue) : nat := Z.to_nat (Z.rem (Ihash (Key kv)) n).

Lemma bucket_of_lt n kv : 0 < n → (bucket_of n kv < Z.to_nat n)%nat.
Proof.
  intros Hn. unfold bucket_of. pose proof (Ihash_range (Key kv)).
  pose proof (Z.rem_bound_pos (Ihash (Key kv)) n). lia.
Qed.

Lemma concat_alter_snoc (l : list (list KeyValue)) b kv :
  (b < length l)%nat → concat (alter (λ x, x ++ [kv]) b l) ≡ₚ kv :: concat l.
Proof.
  revert b. induction l as [|x l IH]; intros b Hb; [cbn in Hb; lia|].
  destruct b as [|b]; cbn in *.
  - rewrite <- (assoc_L (++)). cbn. by rewrite <- Permutation_middle.
  - rewrite IH by lia. by rewrite <- Permutation_middle.
Qed.

Lemma fill_buckets_spec n kvs kvap :
  0 < n → length kvap = Z.to_nat n →
  ∃ kvap', fill_buckets n kvs kvap = Ret kvap' ∧ length kvap' = length kvap ∧
    concat kvap' ≡ₚ concat kvap ++ kvs ∧
    ∀ b old, kvap !! b = Some old →
      kvap' !! b = Some (old ++ filter (λ kv, bucket_of n kv = b) kvs).
Proof.
  intros Hn. revert kvap. induction kvs as [|kv kvs IH]; intros kvap Hlen; cbn [fill_buckets].
  { exists kvap. split_and!; [done|done|by rewrite (right_id_L [] (++))|].
    intros b old. by rewrite filter_nil, (right_id_L [] (++)). }
  destruct (Z.eqb_spec n 0); [lia|]. pose proof (bucket_of_lt n kv Hn) as Hb.
  destruct (IH (alter (λ b, b ++ [kv]) (bucket_of n kv) kvap)) as (kvap' & E & Hl & Hp & Hf).
  { by rewrite length_alter. }
  exists kvap'. rewrite length_alter in Hl. split_and!; [exact E|done| |].
  - rewrite Hp, concat_alter_snoc by lia. cbn. by rewrite Permutation_middle.
  - intros b old Hold. rewrite filter_cons. case_decide as Hd.
    + subst b. rewrite (Hf _ (old ++ [kv])); [by rewrite <- (assoc_L (++))|].
      by rewrite list_lookup_alter_eq, Hold.
    + apply Hf. by rewrite list_lookup_alter_ne.
Qed.

Lemma arrangeImmediate_spec kvs n :
  0 < n →
  ∃ parts, arrangeImmediate kvs n = Ret parts ∧ length parts = Z.to_nat n ∧
    concat parts ≡ₚ kvs ∧
    ∀ b, (b < Z.to_nat n)%nat → parts !! b = Some (filter (λ kv, bucket_of n kv = b) kvs).
Proof.
  intros Hn. unfold arrangeImmediate. destruct (Z.ltb_spec n 0); [lia|].
  destruct (fill_buckets_spec n kvs (replicate (Z.to_nat n) [])) as (parts & E & Hl & Hp & Hf).
  { done. } { apply length_replicate. }
  exists parts. rewrite length_replicate in Hl. split_and!; [done|done| |].
  - rewrite Hp. clear. by induction (Z.to_nat n).
  - intros b Hb. rewrite (Hf b []); [done|]. by apply lookup_replicate_2.
Qed.

(** ** Intermediate files *)

(** A pair as it comes back from an intermediate file. *)
Definition kv_norm (kv : KeyValue) : KeyValue :=
  MkKV (Json.to_valid (Key kv)) (Json.to_valid (Value kv)).

Lemma decode_encode_kvs kvs :
  decode_kvs (Json.encode_stream (kv_json <$> kvs)) = Some (kv_norm <$> kvs).
Proof.
  unfold decode_kvs. rewrite Json.decode_encode_stream.
  - cbn [mbind option_bind]. apply mapM_Some, Forall2_fmap_2, Forall2_fmap_l, Forall_Forall2_diag.
    by apply Forall_true.
  - apply Forall_fmap, Forall_true. done.
Qed.

Lemma kv_norm_valid kv :
  Json.valid_utf8 (Key kv) = true → Json.valid_utf8 (Value kv) = true → kv_norm kv = kv.
Proof. intros Hk Hv. unfold kv_norm. rewrite !Json.concat_text by done. by destruct kv. Qed.

Lemma partitionFile_inj h c i j :
  0 <= i → 0 <= j → partitionFile h c i = partitionFile h c j → i = j.
Proof.
  intros Hi Hj. unfold partitionFile. intros E.
  repeat (apply (inj (String.append _)) in E).
  by apply (fmt_d_sep_inj "." i j "json" "json") in E as [-> _].
Qed.

Definition chunk_file (h c : Z) (i : nat) : string := partitionFile h c (Z.of_nat i).

Lemma chunk_file_inj h c i j : chunk_file h c i = chunk_file h c j → i = j.
Proof. intros E%partitionFile_inj; lia. Qed.

(** Fault-free writers send every file and leave its text on disk. *)
Lemma run_writers_ok h c parts sched d :
  NoDup sched →
  ∃ d', run_writers no_io_faults h c parts sched None d = (chunk_file h c <$> sched, None, d') ∧
    output d' = output d ∧
    (∀ i, i ∈ sched → intermediate d' !! chunk_file h c i =
       Some (Json.encode_stream (kv_json <$> default [] (parts !! i)))) ∧
    (∀ name, name ∉ chunk_file h c <$> sched → intermediate d' !! name = intermediate d !! name).
Proof.
  intros Hnd. revert d. induction Hnd as [|i sched Hi Hnd IH]; intros d; cbn [run_writers].
  { exists d. split_and!; [done|done| |done]. intros i Hi. by inversion Hi. }
  cbn [writeIntermediatePartition io_create io_write no_io_faults].
  destruct (IH (MkDisk (<[chunk_file h c i :=
    Json.encode_stream (kv_json <$> default [] (parts !! i))]> (intermediate d)) (output d)))
    as (d' & E & Ho & Hin & Hout).
  unfold writeIntermediatePartition. cbn [io_create io_write no_io_faults].
  fold (chunk_file h c i). rewrite E. exists d'. cbn [fst snd].
  assert (chunk_file h c i ∉ chunk_file h c <$> sched) as Hni.
  { intros (j & Ej%chunk_file_inj & Hj)%list_elem_of_fmap. by subst. }
  split_and!; [done|done| |].
  - intros j [->|Hj]%elem_of_cons; [|by apply Hin].
    rewrite Hout by done. cbn. by rewrite lookup_insert_eq.
  - intros name Hname. rewrite fmap_cons, not_elem_of_cons in Hname.
    rewrite Hout by tauto. cbn. by rewrite lookup_insert_ne by (intros <-; tauto).
Qed.

Lemma read_partitions_ok h c (parts : list (list KeyValue)) sched d :
  (∀ i, i ∈ sched → intermediate d !! chunk_file h c i =
     Some (Json.encode_stream (kv_json <$> default [] (parts !! i)))) →
  read_partitions no_io_faults d (chunk_file h c <$> sched) =
    Ok (kv_norm <$> (sched ≫= λ i, default [] (parts !! i))).
Proof.
  induction sched as [|i sched IH]; intros Hd; [done|].
  cbn [fmap list_fmap read_partitions io_open no_io_faults].
  rewrite Hd by (by left). rewrite decode_encode_kvs.
  change (list_fmap _ _ (chunk_file h c) sched) with (chunk_file h c <$> sched).
  rewrite IH by (intros; apply Hd; by right). cbn [mbind res_bind].
  by rewrite bind_cons, fmap_app.
Qed.

Lemma bind_seq_lookup (parts : list (list KeyValue)) :
  seq 0 (length parts) ≫= (λ i, default [] (parts !! i)) = concat parts.
Proof.
  induction parts as [|p parts IH]; [done|]. cbn [length seq]. rewrite bind_cons. cbn.
  f_equal. rewrite <- IH, <- fmap_S_seq, bind_fmap_l. done.
Qed.

(** ** Grouping and reducing *)

Definition values_of (k : string) (kvs : list KeyValue) : list string :=
  Value <$> filter (λ kv, Key kv = k) kvs.

(** The distinct keys in order. *)
Definition sorted_keys (kvs : list KeyValue) : list string :=
  merge_sort String.le (remove_dups (Key <$> kvs)).

(** What a reduce phase should print: one line per key, in the order of keys,
    with the reduction of all its values. *)
Definition reduce_lines (f : string → list string → string) (ks : list string)
    (kvs : list KeyValue) : string :=
  Json.concat_strings ((λ k, output_line k (f k (values_of k kvs))) <$> ks).
Definition reduce_spec (f : string → list string → string) (kvs : list KeyValue) : string :=
  reduce_lines f (sorted_keys kvs) kvs.

Lemma take_run_split k l :
  l = (MkKV k <$> (take_run k l).1) ++ (take_run k l).2 ∧
  match (take_run k l).2 with kv :: _ => Key kv ≠ k | [] => True end.
Proof.
  induction l as [|kv l [IH1 IH2]]; [done|]. cbn [take_run].
  case_bool_decide as Hk; [|done]. cbn. split; [|done].
  rewrite IH1 at 1. f_equal. destruct kv; cbn in *; by subst.
Qed.

Lemma key_le_antisymm a b : key_le a b → key_le b a → Key a = Key b.
Proof. unfold key_le. apply (anti_symm String.le). Qed.

Lemma values_of_app k l1 l2 : values_of k (l1 ++ l2) = values_of k l1 ++ values_of k l2.
Proof. unfold values_of. by rewrite filter_app, fmap_app. Qed.
Lemma values_of_run k vs : values_of k (MkKV k <$> vs) = vs.
Proof.
  unfold values_of. rewrite filter_all by (apply Forall_fmap, Forall_true; done).
  rewrite <- list_fmap_compose. cbn. by apply list_fmap_id.
Qed.
Lemma values_of_other k l : Forall (λ kv, Key kv ≠ k) l → values_of k l = [].
Proof. intros Hl. unfold values_of. by rewrite filter_none. Qed.

(** In a sorted list the run of the first key takes all its entries. *)
Lemma take_run_sorted kv rest :
  StronglySorted key_le (kv :: rest) →
  let r := take_run (Key kv) rest in
  Forall (λ e, Key e ≠ Key kv ∧ key_le kv e) r.2 ∧ StronglySorted key_le r.2 ∧
  values_of (Key kv) (kv :: rest) = Value kv :: r.1 ∧
  (∀ k, k ≠ Key kv → values_of k (kv :: rest) = values_of k r.2) ∧
  (∀ k, k ∈ Key <$> kv :: rest ↔ k = Key kv ∨ k ∈ Key <$> r.2) ∧
  (length r.2 ≤ length rest)%nat.
Proof.
  intros Hs. cbn zeta. destruct (take_run_split (Key kv) rest) as [E Hhd].
  set (run := (take_run (Key kv) rest).1) in *. set (tl := (take_run (Key kv) rest).2) in *.
  clearbody run tl. subst rest. apply StronglySorted_inv in Hs as [Hs Hall].
  apply Forall_app in Hall as [_ Hall]. apply StronglySorted_app_1_r in Hs.
  assert (Forall (λ e, Key e ≠ Key kv ∧ key_le kv e) tl) as Htl.
  { rewrite Forall_forall in *. intros e He. split; [|by apply Hall].
    destruct tl as [|hd tl]; [by inversion He|]. intros Ek.
    apply elem_of_cons in He as [->|He]; [done|].
    apply StronglySorted_inv in Hs as [_ Hhe]. rewrite Forall_forall in Hhe.
    apply Hhd. apply key_le_antisymm; [|apply Hall; by left].
    unfold key_le. rewrite <- Ek. by apply Hhe. }
  assert (Forall (λ e, Key e ≠ Key kv) tl) as Htl'.
  { eapply Forall_impl; [exact Htl|]. by intros e []. }
  split_and!; [done|done| | | |rewrite length_app; lia].
  - unfold values_of. rewrite filter_cons_True by done. cbn. f_equal.
    change (values_of (Key kv) ((MkKV (Key kv) <$> run) ++ tl) = run).
    rewrite values_of_app, values_of_run, values_of_other by done. apply (right_id_L [] (++)).
  - intros k Hk. change (values_of k ([kv] ++ (MkKV (Key kv) <$> run) ++ tl) = values_of k tl).
    rewrite !values_of_app, (values_of_other k [kv]), (values_of_other k (MkKV _ <$> _)); [done| |].
    + apply Forall_fmap, Forall_true. naive_solver.
    + by apply Forall_singleton.
  - intros k. rewrite fmap_cons, fmap_app, elem_of_cons, elem_of_app.
    rewrite <- list_fmap_compose. split; [|tauto].
    intros [?|[(v & -> & _)%list_elem_of_fmap|?]]; auto.
Qed.

Lemma reduce_loop_sorted f fuel all :
  StronglySorted key_le all → (length all ≤ fuel)%nat →
  ∃ ks, reduce_loop fuel f all = Ret (reduce_lines f ks all) ∧
    StronglySorted String.le ks ∧ NoDup ks ∧ ∀ k, k ∈ ks ↔ k ∈ Key <$> all.
Proof.
  revert all. induction fuel as [|fuel IH]; intros [|kv rest] Hs Hlen.
  1,3: exists []; split_and!; [done|constructor|constructor|done].
  { cbn in Hlen. lia. }
  destruct (take_run_sorted kv rest Hs) as (Htl & Hs' & Hv & Hother & Hkeys & Hl).
  cbn [reduce_loop]. set (r := take_run (Key kv) rest) in *.
  destruct (IH r.2 Hs') as (ks & E & Hks & Hnd & Hin); [cbn in Hlen; lia|].
  assert (∀ k, k ∈ ks → k ≠ Key kv ∧ String.le (Key kv) k) as Hgt.
  { intros k (e & -> & He)%Hin%list_elem_of_fmap. rewrite Forall_forall in Htl. by apply Htl. }
  exists (Key kv :: ks). rewrite E. cbn [mbind outcome_bind]. split_and!.
  - f_equal. unfold reduce_lines. rewrite fmap_cons. cbn [Json.concat_strings]. rewrite Hv.
    f_equal. f_equal. apply list_fmap_ext. intros i k Hk%list_elem_of_lookup_2.
    by rewrite Hother by (by apply Hgt).
  - constructor; [done|]. apply Forall_forall. intros k Hk. by apply Hgt.
  - constructor; [|done]. intros Hk. by apply Hgt in Hk as [? _].
  - intros k. by rewrite elem_of_cons, Hin, Hkeys.
Qed.

Lemma sorted_keys_unique ks kvs :
  StronglySorted String.le ks → NoDup ks → (∀ k, k ∈ ks ↔ k ∈ Key <$> kvs) →
  ks = sorted_keys kvs.
Proof.
  intros Hs Hnd Hin. apply (StronglySorted_unique String.le); [done| |].
  - apply StronglySorted_merge_sort; apply _.
  - unfold sorted_keys. rewrite merge_sort_Permutation. apply NoDup_Permutation; [done| |].
    + apply NoDup_remove_dups.
    + intros k. by rewrite Hin, elem_of_remove_dups.
Qed.

Lemma reduce_loop_spec f all kvs :
  (∀ k vs vs', vs ≡ₚ vs' → f k vs = f k vs') →
  StronglySorted key_le all → all ≡ₚ kvs →
  reduce_loop (length all) f all = Ret (reduce_spec f kvs).
Proof.
  intros Hf Hs Hp. destruct (reduce_loop_sorted f (length all) all Hs) as (ks & -> & Hks & Hnd & Hin);
    [done|]. f_equal. unfold reduce_spec.
  rewrite <- (sorted_keys_unique ks kvs) by (first [done|intros k; by rewrite Hin, Hp]).
  unfold reduce_lines. f_equal. apply list_fmap_ext. intros i k _. f_equal. apply Hf.
  unfold values_of. by rewrite Hp.
Qed.

#[export] Instance key_le_total : Total key_le.
Proof. intros a b. apply (total String.le). Qed.
#[export] Instance key_le_trans : Transitive key_le.
Proof. intros a b c. unfold key_le. apply transitivity. Qed.

(** ** The pipeline *)

(** The goroutines of the [n] partitions finish in some order. *)
Definition schedule (n : Z) (sched : list nat) : Prop := sched ≡ₚ seq 0 (Z.to_nat n).

Definition order_insensitive (f : string → list string → string) : Prop :=
  ∀ k vs vs', vs ≡ₚ vs' → f k vs = f k vs'.

Definition map_output (w : Worker) (request : MapReduceRequest) (data : list byte) :
    list KeyValue :=
  mapf w (Path (mr_ChunkInfo request)) (bytes_text data).

Section pipeline.
Context `{SortSlice}.

Lemma pipeline_ok sched w request data d :
  0 < nReduce w → schedule (nReduce w) sched → order_insensitive (reducef w) →
  let h := Id (mr_Handle request) in
  let c := mr_ChunkIndex request in
  let text := reduce_spec (reducef w) (kv_norm <$> map_output w request data) in
  ∃ d', runMapReducePipeline no_io_faults sched w request data d =
          Ret (Ok (outputFileName h c, text), d') ∧
    output d' = <[outputFileName h c := text]> (delete (outputFileName h c +:+ ".tmp") (output d)) ∧
    (∀ name, name ∉ chunk_file h c <$> sched → intermediate d' !! name = intermediate d !! name).
Proof.
  intros Hn Hsched Hf. cbn zeta. unfold runMapReducePipeline.
  cbn [io_mkdir_intermediate io_mkdir_output no_io_faults]. fold (map_output w request data).
  destruct (arrangeImmediate_spec (map_output w request data) (nReduce w) Hn)
    as (parts & -> & Hlen & Hperm & _).
  cbn [mbind outcome_bind].
  assert (NoDup sched) as Hnd by (rewrite Hsched; apply NoDup_seq).
  destruct (run_writers_ok (Id (mr_Handle request)) (mr_ChunkIndex request) parts sched d Hnd)
    as (d1 & -> & Ho & Hin & Hout).
  cbn [fst snd]. unfold runReduceFromChannel.
  rewrite (read_partitions_ok _ _ parts) by done.
  set (all := kv_norm <$> _).
  assert (sort_slice key_le all ≡ₚ kv_norm <$> map_output w request data) as Hall.
  { rewrite sort_slice_perm. unfold all. rewrite <- Hperm, <- (bind_seq_lookup parts), Hlen.
    by rewrite Hsched. }
  rewrite (reduce_loop_spec (reducef w) _ _ Hf (sort_slice_sorted _ _ _ _) Hall).
  cbn. eexists. split_and!; [done|cbn; by rewrite Ho|]. intros name Hname. cbn. by apply Hout.
Qed.

(** ** Clean-up *)

Lemma matches_chunk_file h c i : matches_chunk h c (chunk_file h c i) = true.
Proof.
  unfold matches_chunk, chunk_file, partitionFile. apply andb_true_intro. split.
  - apply HasPrefix_spec. exists (fmt_d (Z.of_nat i) +:+ ".json"). by rewrite !append_assoc.
  - apply HasSuffix_spec.
    exists ("mr-" +:+ fmt_d h +:+ "-" +:+ fmt_d c +:+ "-" +:+ fmt_d (Z.of_nat i)).
    by rewrite !append_assoc.
Qed.

(** The pattern of one chunk matches no file of another chunk or handle. *)
Lemma matches_chunk_other h c h' c' i :
  0 <= h → 0 <= c → 0 <= h' → 0 <= c' → (h', c') ≠ (h, c) →
  matches_chunk h c (partitionFile h' c' i) = false.
Proof.
  intros Hh Hc Hh' Hc' Hne. apply not_true_is_false. intros [Hp _]%andb_prop.
  apply HasPrefix_spec in Hp as [rest E]. unfold partitionFile in E.
  rewrite <- !append_assoc in E. apply (inj (String.append _)) in E.
  apply fmt_d_dash_inj in E as [-> E]; [|done..].
  apply fmt_d_dash_inj in E as [-> _]; done.
Qed.

Lemma cleanup_lookup h c d name :
  intermediate (cleanupIntermediateFiles no_io_faults h c d) !! name =
    if matches_chunk h c name then None else intermediate d !! name.
Proof.
  cbn. rewrite map_lookup_filter. cbn [io_remove no_io_faults negb].
  destruct (intermediate d !! name); cbn; [|by case_match].
  destruct (matches_chunk h c name); cbn; by case_guard.
Qed.

(** ** Properties *)

(** Partitioning loses nothing and keeps keys together. For every value of
    the partition-count variable, [arrangeImmediate] returns without a panic at
    least one bucket; bucket [b] holds, in order, exactly the pairs whose key
    hashes to [b], so all values of a key share a bucket, and together the
    buckets hold the map output. *)
Theorem arrangeImmediate_partitions (env : string) (kvs : list KeyValue) :
  let n := parse_nReduce env in
  1 <= n ∧
  ∃ parts, arrangeImmediate kvs n = Ret parts ∧ length parts = Z.to_nat n ∧
    concat parts ≡ₚ kvs ∧
    ∀ b, (b < length parts)%nat → parts !! b = Some (filter (λ kv, bucket_of n kv = b) kvs).
Proof.
  cbn zeta. assert (1 <= parse_nReduce env) as Hn.
  { unfold parse_nReduce. destruct (Atoi _) as [z|]; [|lia].
    destruct (Z.ltb_spec 0 z); lia. }
  split; [done|]. destruct (arrangeImmediate_spec kvs (parse_nReduce env))
    as (parts & ? & Hlen & ? & ?); [lia|]. exists parts. rewrite Hlen. by split_and!.
Qed.

(** C12: the pipeline computes the specified reduction. For a reduce function
    that does not depend on the order of its values, the output is one line per
    distinct key, in key order, with the reduction of all values of the key,
    whatever the number of partitions, the order in which the partition writers
    finish and the sorting algorithm; keys and values pass through JSON, which
    replaces bytes that are not UTF-8. The output file is replaced as a whole. *)
Theorem pipeline_correct (sched : list nat) (w : Worker) (request : MapReduceRequest)
    (data : list byte) (d : Disk) :
  0 < nReduce w → schedule (nReduce w) sched → order_insensitive (reducef w) →
  let name := outputFileName (Id (mr_Handle request)) (mr_ChunkIndex request) in
  let text := reduce_spec (reducef w) (kv_norm <$> map_output w request data) in
  ∃ d', runMapReducePipeline no_io_faults sched w request data d = Ret (Ok (name, text), d') ∧
    output d' = <[name := text]> (delete (name +:+ ".tmp") (output d)).
Proof.
  intros Hn Hs Hf. destruct (pipeline_ok sched w request data d Hn Hs Hf) as (d' & E & Ho & _).
  by exists d'.
Qed.

Lemma process_chunk_ok (Read : string → Z → Z → dfs_read) (sched : list nat)
    (now : string) (w : Worker) (request : MapReduceRequest) (data : list byte) (d : Disk) :
  0 < nReduce w → schedule (nReduce w) sched → order_insensitive (reducef w) →
  TrimSpace (masterAddress w) ≠ "" →
  readChunkData Read false w request = Ret (Ok data) →
  let h := Id (mr_Handle request) in
  let c := mr_ChunkIndex request in
  ∃ d', process_chunk no_io_faults Read false sched now w request d =
      Ret (Some (submission w now request (outputFileName h c)
             (reduce_spec (reducef w) (kv_norm <$> map_output w request data))), d') ∧
    (∀ name, intermediate d' !! name =
       if matches_chunk h c name then None else intermediate d !! name) ∧
    (∀ h' c' i, 0 <= h → 0 <= c → 0 <= h' → 0 <= c' → (h', c') ≠ (h, c) →
       intermediate d' !! partitionFile h' c' i = intermediate d !! partitionFile h' c' i).
Proof.
  intros Hn Hs Hf Hm Hread. cbn zeta. unfold process_chunk. rewrite Hread. cbn [mbind outcome_bind].
  destruct (pipeline_ok sched w request data
    (cleanupIntermediateFiles no_io_faults (Id (mr_Handle request)) (mr_ChunkIndex request) d)
    Hn Hs Hf) as (d1 & -> & _ & Hi).
  cbn [mbind outcome_bind]. rewrite bool_decide_false by done.
  assert (∀ name, intermediate (cleanupIntermediateFiles no_io_faults (Id (mr_Handle request))
      (mr_ChunkIndex request) d1) !! name =
    if matches_chunk (Id (mr_Handle request)) (mr_ChunkIndex request) name then None
    else intermediate d !! name) as Hfin.
  { intros name. rewrite cleanup_lookup. destruct (matches_chunk _ _ name) eqn:Hmatch; [done|].
    rewrite Hi; [by rewrite cleanup_lookup, Hmatch|].
    intros (i & -> & _)%list_elem_of_fmap. by rewrite matches_chunk_file in Hmatch. }
  eexists. split_and!; [done|done|]. intros h' c' i ? ? ? ? ?.
  by rewrite Hfin, matches_chunk_other.
Qed.

(** C27: a task submits its result and cleans up after itself. When the chunk
    can be read, the background task submits the specified output for its handle
    and chunk, leaves no intermediate file of its chunk behind (not even one
    from an earlier attempt) and touches no other intermediate file, in
    particular none of another chunk or handle being processed. *)
Theorem process_chunk_submits (Read : string → Z → Z → dfs_read) (sched : list nat)
    (now : string) (w : Worker) (request : MapReduceRequest) (data : list byte) (d : Disk) :
  0 < nReduce w → schedule (nReduce w) sched → order_insensitive (reducef w) →
  TrimSpace (masterAddress w) ≠ "" →
  readChunkData Read false w request = Ret (Ok data) →
  let h := Id (mr_Handle request) in
  let c := mr_ChunkIndex request in
  ∃ d', process_chunk no_io_faults Read false sched now w request d =
      Ret (Some (submission w now request (outputFileName h c)
             (reduce_spec (reducef w) (kv_norm <$> map_output w request data))), d') ∧
    (∀ name, intermediate d' !! name =
       if matches_chunk h c name then None else intermediate d !! name) ∧
    (∀ h' c' i, 0 <= h → 0 <= c → 0 <= h' → 0 <= c' → (h', c') ≠ (h, c) →
       intermediate d' !! partitionFile h' c' i = intermediate d !! partitionFile h' c' i).
Proof. apply process_chunk_ok. Qed.

(** *** Failures *)

Lemma take_run_shorter k l : (length (take_run k l).2 ≤ length l)%nat.
Proof.
  induction l as [|kv l IH]; [done|]. cbn [take_run]. case_bool_decide; cbn; lia.
Qed.

Lemma reduce_loop_total f fuel all :
  (length all ≤ fuel)%nat → ∃ text, reduce_loop fuel f all = Ret text.
Proof.
  revert all. induction fuel as [|fuel IH]; intros [|kv rest] Hl; cbn in *; try (by eexists); [lia|].
  pose proof (take_run_shorter (Key kv) rest).
  destruct (IH (take_run (Key kv) rest).2) as [text ->]; [lia|]. by eexists.
Qed.

Lemma reduce_total fl w request files d :
  ∃ r d', runReduceFromChannel fl w request files d = Ret (r, d').
Proof.
  unfold runReduceFromChannel. destruct (read_partitions _ _ _) as [all|e]; [|by eexists _, _].
  destruct (reduce_loop_total (reducef w) (length (sort_slice key_le all)) (sort_slice key_le all))
    as [text ->]; [done|]. cbn. repeat case_match; by eexists _, _.
Qed.

Definition writer_fails (fl : IoFaults) (file : string) : bool :=
  io_create fl file || bool_decide (is_Some (io_write fl file)).

Lemma run_writers_error fl h c parts sched err d :
  (is_Some err ∨ Exists (λ i, writer_fails fl (chunk_file h c i) = true) sched) →
  is_Some (run_writers fl h c parts sched err d).1.2.
Proof.
  revert err d. induction sched as [|i sched IH]; intros err d Hex; cbn [run_writers].
  { destruct Hex as [?|Hex]; [done|]. by apply Exists_nil in Hex. }
  fold (chunk_file h c i). unfold writeIntermediatePartition, writer_fails in *.
  rewrite Exists_cons in Hex.
  destruct (io_create fl (chunk_file h c i)).
  { apply IH. left. by destruct err as [[]|]; eexists. }
  destruct (io_write fl (chunk_file h c i)) as [k|].
  { apply IH. left. by destruct err as [[]|]; eexists. }
  cbn [fst snd]. apply IH. rewrite bool_decide_false in Hex by (by intros []). naive_solver.
Qed.

Lemma pipeline_writer_error fl sched w request data d :
  0 < nReduce w →
  Exists (λ i, writer_fails fl (chunk_file (Id (mr_Handle request)) (mr_ChunkIndex request) i) = true)
    sched →
  ∃ e d', runMapReducePipeline fl sched w request data d = Ret (Err e, d').
Proof.
  intros Hn Hex. unfold runMapReducePipeline.
  destruct (io_mkdir_intermediate fl); [by eexists _, _|].
  destruct (io_mkdir_output fl); [by eexists _, _|].
  destruct (arrangeImmediate_spec (mapf w (Path (mr_ChunkInfo request)) (bytes_text data))
    (nReduce w) Hn) as (parts & -> & _). cbn [mbind outcome_bind].
  set (ws := run_writers _ _ _ _ _ _ _).
  assert (is_Some ws.1.2) as [e He] by (apply run_writers_error; by right).
  destruct (reduce_total fl w request ws.1.1 ws.2) as (r & d' & ->). cbn [mbind outcome_bind].
  rewrite He. destruct r; by eexists _, _.
Qed.

(** A failed partition writer aborts the task without a word to the master.
    If creating or writing any intermediate file fails, the task ends, whatever
    the other writers and the reducer do, and submits nothing; the master, which
    was told "accepted" before the work began, is not informed. *)
Theorem failed_writer_submits_nothing (fl : IoFaults) (Read : string → Z → Z → dfs_read)
    (cancelled : bool) (sched : list nat) (now : string) (w : Worker)
    (request : MapReduceRequest) (r : res (list byte)) (d : Disk) :
  0 < nReduce w → readChunkData Read cancelled w request = Ret r →
  Exists (λ i, writer_fails fl (chunk_file (Id (mr_Handle request)) (mr_ChunkIndex request) i) = true)
    sched →
  mp_Status (RPCMapReduce request) = "accepted" ∧
  ∃ d', process_chunk fl Read cancelled sched now w request d = Ret (None, d').
Proof.
  intros Hn Hread Hex. split; [done|]. unfold process_chunk. rewrite Hread.
  cbn [mbind outcome_bind]. destruct r as [data|e]; [|by eexists].
  destruct (pipeline_writer_error fl sched w request data (cleanupIntermediateFiles fl
    (Id (mr_Handle request)) (mr_ChunkIndex request) d) Hn Hex) as (e & d' & ->).
  by eexists.
Qed.

End pipeline.

(** ** Word count *)

Definition count (k : string) (words : list string) : nat :=
  length (filter (λ w, w = k) words).

Lemma values_of_words k words :
  length (values_of k (kv_norm <$> ((λ w, MkKV w "1") <$> words))) =
    count k (Json.to_valid <$> words).
Proof.
  unfold values_of, count. rewrite length_fmap. induction words as [|w words IH]; [done|].
  rewrite !fmap_cons, !filter_cons. cbn [Key kv_norm].
  repeat case_decide; cbn [length]; by rewrite ?IH.
Qed.

Lemma reduce_spec_words ws :
  reduce_spec defaultReduce (kv_norm <$> ((λ w, MkKV w "1") <$> ws)) =
    Json.concat_strings ((λ k, output_line k (Itoa (Z.of_nat (count k (Json.to_valid <$> ws))))) <$>
      merge_sort String.le (remove_dups (Json.to_valid <$> ws))).
Proof.
  unfold reduce_spec, reduce_lines, sorted_keys.
  replace (Key <$> (kv_norm <$> ((λ w, MkKV w "1") <$> ws))) with (Json.to_valid <$> ws)
    by (by rewrite <- !list_fmap_compose).
  f_equal. apply list_fmap_ext. intros i k _. unfold defaultReduce. by rewrite values_of_words.
Qed.

(** Without a plugin a worker counts words. For every partition count and
    every scheduling, the output for a chunk lists each distinct word of the
    chunk once, in order, with the number of its occurrences. *)
Theorem default_worker_counts_words `{SortSlice} (addr masterEnv dfsEnv nameEnv nReduceEnv : string)
    (sched : list nat) (request : MapReduceRequest) (data : list byte) (d : Disk) :
  let w := NewWorker addr masterEnv dfsEnv nameEnv nReduceEnv in
  schedule (nReduce w) sched →
  let words := Json.to_valid <$> Fields (bytes_text data) in
  ∃ name d', runMapReducePipeline no_io_faults sched w request data d =
    Ret (Ok (name, Json.concat_strings
      ((λ k, output_line k (Itoa (Z.of_nat (count k words)))) <$>
         merge_sort String.le (remove_dups words))), d').
Proof.
  cbn zeta. set (w := NewWorker _ _ _ _ _). intros Hs.
  assert (0 < nReduce w) as Hn.
  { unfold w, NewWorker, parse_nReduce; cbn. destruct (Atoi _) as [z|]; [|lia].
    destruct (Z.ltb_spec 0 z); lia. }
  destruct (pipeline_ok sched w request data d Hn Hs) as (d' & E & _).
  { intros k vs vs' Hp. cbn. unfold defaultReduce. by rewrite Hp. }
  exists (outputFileName (Id (mr_Handle request)) (mr_ChunkIndex request)), d'. rewrite E.
  do 4 f_equal. apply reduce_spec_words.
Qed.

(** ** Reading chunks *)

Lemma slice_ok {A} (s : list A) i j :
  0 <= i <= j → j <= Z.of_nat (length s) →
  slice s i j = Ret (take (Z.to_nat (j - i)) (drop (Z.to_nat i) s)).
Proof.
  intros Hi Hj. unfold slice.
  by rewrite !(proj2 (Z.leb_le _ _)) by lia.
Qed.

Definition with_inline (raw : list byte) (offset size : Z) : MapReduceRequest :=
  MkMRRequest (MkHandle 1 1) (MkFileMeta (MkHandle 1 1) "" "" 0 0 "" true raw []) 0
    (MkChunk 0 offset size "" 0).

(** Reading inline content. A chunk that starts inside the content is the
    slice of at most its size from its offset (a size that is not positive means
    the rest, a negative offset the start, a chunk past the end is empty), as
    long as offset and size add up within 63 bits; when the sum overflows, the
    slice bound becomes negative and the read panics. *)
Theorem readChunkData_inline (Read : string → Z → Z → dfs_read) (cancelled : bool) (w : Worker)
    (request : MapReduceRequest) :
  let raw := fm_RawContent (mr_File request) in
  let start := Z.max (Offset (mr_ChunkInfo request)) 0 in
  let size := Size (mr_ChunkInfo request) in
  raw ≠ [] → Z.of_nat (length raw) <= max_i64 → start <= max_i64 → size <= max_i64 →
  readChunkData Read cancelled w request =
    if Z.of_nat (length raw) <=? start then Ret (Ok [])
    else if size <=? 0 then Ret (Ok (drop (Z.to_nat start) raw))
    else if start + size <=? max_i64 then
      Ret (Ok (take (Z.to_nat size) (drop (Z.to_nat start) raw)))
    else Panic.
Proof.
  cbn zeta. unfold readChunkData, max_i64. set (raw := fm_RawContent _). set (ci := mr_ChunkInfo _).
  intros Hne Hlen Hstart Hsize. assert (0 < Z.of_nat (length raw)).
  { destruct raw; [done|]. cbn. lia. }
  rewrite (proj2 (Z.ltb_lt 0 _)) by done. set (start := Z.max (Offset ci) 0) in *.
  destruct (Z.leb_spec (Z.of_nat (length raw)) start); [done|].
  destruct (Z.leb_spec (Size ci) 0), (Z.ltb_spec 0 (Size ci)); try lia.
  { rewrite slice_ok by lia. cbn. rewrite take_ge; [done|]. rewrite length_drop. lia. }
  destruct (Z.leb_spec (start + Size ci) (2 ^ 63 - 1)).
  - rewrite i64_small by lia. destruct (Z.ltb_spec (start + Size ci) (Z.of_nat (length raw))).
    + rewrite slice_ok by lia. cbn. do 3 f_equal. lia.
    + rewrite slice_ok by lia. cbn. rewrite !take_ge; [done|rewrite length_drop; lia..].
  - assert (i64 (start + Size ci) = start + Size ci - 2 ^ 64) as ->.
    { unfold i64. rewrite <- (Z.mod_unique (start + Size ci + 2 ^ 63) (2 ^ 64) 1
        (start + Size ci - 2 ^ 63)) by lia. lia. }
    rewrite (proj2 (Z.ltb_lt _ _)) by lia. unfold slice.
    by rewrite (proj2 (Z.leb_gt start _)), andb_false_r by lia.
Qed.

(** ** Witnesses *)

Fixpoint text_bytes (s : string) : list byte :=
  match s with EmptyString => [] | String c s => c :: text_bytes s end.

Definition example_worker : Worker := NewWorker "w:1" "" "" "" "2".
Definition hi_ho : list byte := text_bytes "hi ho hi".
Definition no_read : string → Z → Z → dfs_read := λ _ _ _, MkRead 0 [] None.

Lemma example_schedule : schedule (nReduce example_worker) [1; 0]%nat.
Proof. apply Permutation_swap. Qed.

Lemma count_order_insensitive : order_insensitive defaultReduce.
Proof. intros k vs vs' Hp. unfold defaultReduce. by rewrite Hp. Qed.

Lemma pipeline_correct_witness :
  let request := with_inline hi_ho 0 0 in
  let name := outputFileName 1 0 in
  let text := reduce_spec defaultReduce (kv_norm <$> map_output example_worker request hi_ho) in
  ∃ d', runMapReducePipeline (H := merge_sort_slice) no_io_faults [1; 0]%nat example_worker
          request hi_ho (MkDisk ∅ ∅) = Ret (Ok (name, text), d') ∧
    output d' = <[name := text]> (delete (name +:+ ".tmp") ∅).
Proof.
  apply (pipeline_correct (H := merge_sort_slice) [1; 0]%nat example_worker
    (with_inline hi_ho 0 0) hi_ho (MkDisk ∅ ∅)).
  - done.
  - apply example_schedule.
  - apply count_order_insensitive.
Defined.

Lemma process_chunk_submits_witness :
  ∃ d', process_chunk (H := merge_sort_slice) no_io_faults no_read false [1; 0]%nat "now"
      example_worker (with_inline hi_ho 0 0) (MkDisk ∅ ∅) =
    Ret (Some (submission example_worker "now" (with_inline hi_ho 0 0) "mr-out-1-0"
      (reduce_spec defaultReduce
        (kv_norm <$> map_output example_worker (with_inline hi_ho 0 0) hi_ho))), d').
Proof.
  destruct (process_chunk_submits (H := merge_sort_slice) no_read [1; 0]%nat "now" example_worker
    (with_inline hi_ho 0 0) hi_ho (MkDisk ∅ ∅)) as (d' & E & _).
  - done.
  - apply example_schedule.
  - apply count_order_insensitive.
  - by vm_compute.
  - reflexivity.
  - exists d'. exact E.
Defined.

Lemma failed_writer_submits_nothing_witness :
  let fl := MkIo false false (λ f, bool_decide (f = "mr-1-0-1.json")) (λ _, None) (λ _, false)
              None false (λ _, false) in
  mp_Status (RPCMapReduce (with_inline hi_ho 0 0)) = "accepted" ∧
  ∃ d', process_chunk (H := merge_sort_slice) fl no_read false [1; 0]%nat "now"
      example_worker (with_inline hi_ho 0 0) (MkDisk ∅ ∅) = Ret (None, d').
Proof.
  intros fl.
  apply (failed_writer_submits_nothing (H := merge_sort_slice) fl no_read false [1; 0]%nat "now"
    example_worker (with_inline hi_ho 0 0) (Ok hi_ho) (MkDisk ∅ ∅)); [done|reflexivity|].
  apply Exists_cons. left. by vm_compute.
Defined.

Lemma default_worker_counts_words_witness :
  ∃ name d', runMapReducePipeline (H := merge_sort_slice) no_io_faults [1; 0]%nat example_worker
      (with_inline hi_ho 0 0) hi_ho (MkDisk ∅ ∅) =
    Ret (Ok (name, "hi 2" +:+ Json.nl +:+ "ho 1" +:+ Json.nl), d').
Proof.
  destruct (default_worker_counts_words (H := merge_sort_slice) "w:1" "" "" "" "2" [1; 0]%nat
    (with_inline hi_ho 0 0) hi_ho (MkDisk ∅ ∅) example_schedule) as (name & d' & E).
  exists name, d'. exact E.
Defined.

Lemma readChunkData_inline_witness :
  readChunkData no_read false example_worker (with_inline hi_ho 3 2) =
    Ret (Ok (text_bytes "ho")) ∧
  readChunkData no_read false example_worker (with_inline hi_ho 3 max_i64) = Panic.
Proof.
  split.
  - apply (readChunkData_inline no_read false example_worker (with_inline hi_ho 3 2)); done.
  - apply (readChunkData_inline no_read false example_worker (with_inline hi_ho 3 max_i64)); done.
Defined.

End MapReduce.
