(* ===== verification/Master.v ===== *)
(** The master of [mrp/master.go]: worker addresses and upload prefixes, the
    metadata of an uploaded file and its chunks, the dispatch of a job, the
    collection and collation of results. The DFS client, the calls to workers,
    the environment, failures of the result directory, map iteration order and
    sorting are parameters. *)

From S2P Require Import Prelude GoStrings Json Codec Types Worker.
From Stdlib Require Import Ascii.
From stdpp Require Import options.

#[local] Arguments String.append !_ _ / : simpl nomatch.

Module Master.
Import GoStrings Codec Types.

(** The text of an error, as [%v] prints it. *)
Fixpoint error_text (e : go_error) : string :=
  match e with
  | ErrInvalidHandle => "invalid content handle"
  | ErrBufferFull => "buffer full, data may be lost"
  | ErrMsg msg => msg
  | ErrWrap msg inner => msg +:+ ": " +:+ error_text inner
  | ErrJoin errs => Join (error_text <$> errs) Json.nl
  end.

(** ** Configuration *)

Fixpoint distinct_addresses (seen : gset string) (parts : list string) : list string :=
  match parts with
  | [] => []
  | part :: parts =>
      let address := TrimSpace part in
      if bool_decide (address = "") then distinct_addresses seen parts
      else if bool_decide (address ∈ seen) then distinct_addresses seen parts
      else address :: distinct_addresses ({[address]} ∪ seen) parts
  end.

Definition parseWorkerAddresses (raw : string) : list string :=
  distinct_addresses ∅ (Split raw ",").

(** The normal form [resolveUploadPrefixes] gives a prefix. *)
Definition clean_prefix (prefix : string) : string :=
  let cleaned := "/" +:+ Trim (TrimPrefix prefix "/") [" "%char] in
  let cleaned := TrimRight cleaned ["/"%char] in
  if bool_decide (cleaned = "") then "/" else cleaned.

Fixpoint distinct_prefixes (seen : gset string) (prefixes : list string) : list string :=
  match prefixes with
  | [] => []
  | prefix :: prefixes =>
      let cleaned := TrimSpace prefix in
      if bool_decide (cleaned = "") then distinct_prefixes seen prefixes
      else
        let cleaned := clean_prefix cleaned in
        if bool_decide (cleaned ∈ seen) then distinct_prefixes seen prefixes
        else cleaned :: distinct_prefixes ({[cleaned]} ∪ seen) prefixes
  end.

Definition resolveUploadPrefixes (prefixEnv : string) : list string :=
  let configured := TrimSpace (Worker.envOrDefault prefixEnv "/mapreduce") in
  distinct_prefixes ∅ [configured; "/mapreduce"; "/mapreduce/download_logs"].

(** ** State *)

Record Master := MkMaster {
  fsServerAddress : string;
  coordinatorAddress : string;
  workerAddresses : list string;
  results : gmap string MapReduceResultRequest;
  jobs : gmap Z Z;
  workerPlugins : gmap string string;
  resultDir : gmap string string
}.

Definition set_results (r : gmap string MapReduceResultRequest) (m : Master) : Master :=
  MkMaster (fsServerAddress m) (coordinatorAddress m) (workerAddresses m) r (jobs m)
    (workerPlugins m) (resultDir m).
Definition set_jobs (j : gmap Z Z) (m : Master) : Master :=
  MkMaster (fsServerAddress m) (coordinatorAddress m) (workerAddresses m) (results m) j
    (workerPlugins m) (resultDir m).
Definition set_workerPlugins (p : gmap string string) (m : Master) : Master :=
  MkMaster (fsServerAddress m) (coordinatorAddress m) (workerAddresses m) (results m) (jobs m)
    p (resultDir m).
Definition set_resultDir (d : gmap string string) (m : Master) : Master :=
  MkMaster (fsServerAddress m) (coordinatorAddress m) (workerAddresses m) (results m) (jobs m)
    (workerPlugins m) d.

Definition NewMaster (workersEnv dfsEnv coordinatorEnv : string) (dir : gmap string string) :
    Master :=
  MkMaster (Worker.envOrDefault dfsEnv "localhost:8089") (Worker.envOrDefault coordinatorEnv "")
    (parseWorkerAddresses (Worker.envOrDefault workersEnv "")) ∅ ∅ ∅ dir.

(** [serverUTC] is the formatted clock reading. *)
Definition Heartbeat (serverUTC : string) (request : HeartbeatRequest) : HeartbeatReply :=
  MkBeatReply "ok"
    (if bool_decide (WorkerID request = "") then "heartbeat received"
     else if bool_decide (Message request = "") then
       "heartbeat received from " +:+ WorkerID request
     else "heartbeat received from " +:+ WorkerID request +:+ ": " +:+ Message request)
    serverUTC.

(** ** File metadata *)

(** What the DFS client answers. *)
Record FileInfo := MkInfo { Length : Z; Chunks : Z }.
Record DFS := MkDFS {
  GetFile : string → res (option FileInfo);
  GetChunkHandle : string → Z → res Z;
  ChunkMaxSizeInByte : Z
}.

(** The chunk at [index] of a file of [length] bytes. *)
Definition chunk_at (dfs : DFS) (contentFile : string) (length index handle : Z) : ChunkInfo :=
  let offset := i64 (index * ChunkMaxSizeInByte dfs) in
  let size := ChunkMaxSizeInByte dfs in
  let remaining := i64 (length - offset) in
  let size := if remaining <? size then Z.max remaining 0 else size in
  MkChunk index offset size contentFile handle.

Fixpoint fetch_chunks (dfs : DFS) (contentFile : string) (length index : Z) (n : nat) :
    res (list ChunkInfo) :=
  match n with
  | O => Ok []
  | S n =>
      match GetChunkHandle dfs contentFile index with
      | Err e => Err (ErrWrap ("failed to fetch chunk handle for " +:+ contentFile +:+
                        " at index " +:+ fmt_d index) e)
      | Ok handle =>
          rest ← fetch_chunks dfs contentFile length (index + 1) n;
          Ok (chunk_at dfs contentFile length index handle :: rest)
      end
  end.

Fixpoint try_prefixes (dfs : DFS) (handle : Handle) (logFile : string) (prefixes : list string)
    (fetchErr : option go_error) : res FileMetadata :=
  match prefixes with
  | [] =>
      match fetchErr with
      | Some e => Err (ErrWrap "failed to fetch metadata file info from DFS" e)
      | None => Err (ErrMsg "failed to fetch metadata file info from DFS")
      end
  | remotePrefix :: prefixes =>
      let base := TrimRight remotePrefix ["/"%char] +:+ "/" +:+ logFile in
      let remoteFile := base +:+ ".json" in
      let contentFile := base +:+ ".content" in
      let missing :=
        let fetchErr := join_errors fetchErr (ErrMsg (contentFile +:+ ": content file not found")) in
        match GetFile dfs remoteFile with
        | Err e => try_prefixes dfs handle logFile prefixes
                     (join_errors fetchErr (ErrWrap remoteFile e))
        | Ok None => try_prefixes dfs handle logFile prefixes
                       (join_errors fetchErr
                          (ErrMsg ("DFS returned empty file info for " +:+ remoteFile)))
        | Ok (Some info) =>
            Ok (MkFileMeta handle (logFile +:+ ".json") remoteFile (Length info) 0 "" true []
                  [MkChunk 0 0 (Length info) remoteFile 0])
        end in
      match GetFile dfs contentFile with
      | Ok (Some info) =>
          if Length info =? 0 then missing
          else
            let metadata := MkFileMeta handle (logFile +:+ ".content") contentFile (Length info)
                              0 "" true [] in
            if (Chunks info <=? 0) || (Length info =? 0) then
              Ok (metadata [MkChunk 0 0 0 contentFile 0])
            else
              chunks ← fetch_chunks dfs contentFile (Length info) 0 (Z.to_nat (Chunks info));
              Ok (metadata chunks)
      | _ => missing
      end
  end.

Definition fetchFileMetadataFromDFS (dfs : DFS) (prefixEnv : string) (m : Master)
    (handle : Handle) : res FileMetadata :=
  if bool_decide (TrimSpace (fsServerAddress m) = "") then
    Err (ErrMsg "DFS server address not configured")
  else
    let logFile := "download_log_" +:+ fmt_d (Id handle) +:+ "-" +:+ fmt_d (TimeStamp handle) in
    try_prefixes dfs handle logFile (resolveUploadPrefixes prefixEnv) None.

(** ** Dispatch *)

(** [getWorkersForPlugin]: unknown workers are probed, answers are cached. *)
Definition probe_worker (probe : string → option string) (cache : gmap string string)
    (addr : string) : gmap string string :=
  match cache !! addr with
  | Some _ => cache
  | None => match probe addr with
            | Some name => <[addr := name]> cache
            | None => cache
            end
  end.

Definition getWorkersForPlugin (probe : string → option string) (plugin : string) (m : Master) :
    list string * Master :=
  let cache := foldl (probe_worker probe) (workerPlugins m) (workerAddresses m) in
  (filter (λ addr, default "" (cache !! addr) = plugin) (workerAddresses m),
   set_workerPlugins cache m).

(** What the dispatch goroutine of chunk [idx] reports. *)
Definition dispatch_chunk (call : string → MapReduceRequest → res MapReduceReply)
    (cancelled : nat → bool) (targets : list string) (handle : Handle) (file : FileMetadata)
    (idx : nat) (ci : ChunkInfo) : outcome (option (string * MapReduceRequest) * option go_error) :=
  if cancelled idx then Ret (None, Some (ErrMsg "context deadline exceeded"))
  else
    workerAddr ← index targets (Z.of_nat (idx `mod` length targets)%nat);
    let request := MkMRRequest handle file (Z.of_nat idx) ci in
    Ret (Some (workerAddr, request),
         match call workerAddr request with
         | Err e => Some e
         | Ok reply =>
             if bool_decide (mp_Status reply = "error") then
               Some (ErrMsg ("worker " +:+ workerAddr +:+ " chunk " +:+ fmt_d (Z.of_nat idx) +:+
                             ": " +:+ mp_ErrorMessage reply))
             else None
         end).

Fixpoint dispatch_all (call : string → MapReduceRequest → res MapReduceReply)
    (cancelled : nat → bool) (targets : list string) (handle : Handle) (file : FileMetadata)
    (idx : nat) (chunks : list ChunkInfo) :
    outcome (list (option (string * MapReduceRequest) * option go_error)) :=
  match chunks with
  | [] => Ret []
  | ci :: chunks =>
      r ← dispatch_chunk call cancelled targets handle file idx ci;
      rs ← dispatch_all call cancelled targets handle file (S idx) chunks;
      Ret (r :: rs)
  end.

(** The tally loop over the reports in the order they arrive. *)
Definition tally (reports : list (option go_error)) : Z * Z * option go_error :=
  foldl (λ acc r,
    match r with
    | Some e => (acc.1.1, acc.1.2 + 1, join_errors acc.2 e)
    | None => (acc.1.1 + 1, acc.1.2, acc.2)
    end) (0, 0, None) reports.

Definition start_error (code : Z) (msg : string) : StartMapReduceReply :=
  MkStartReply "error" code msg "".

(** [%q] of a plugin name made of printable characters. *)
Definition quoted (name : string) : string :=
  String Json.dq (name +:+ String Json.dq "").

(** What a dispatch goroutine tried to send and the error it reported. *)
Definition report : Type := option (string * MapReduceRequest) * option go_error.

(** The end of [RPCStartMapReduce]: the reports are tallied in the order
    [sched] in which they arrive; a job none of whose chunks was dispatched is
    forgotten. *)
Definition conclude_dispatch (sched : list nat) (h : Handle) (total : Z) (rs : list report)
    (m : Master) : StartMapReduceReply * list (string * MapReduceRequest) * Master :=
  let t := tally (omap (λ i, snd <$> rs !! i) sched) in
  let sent := omap fst rs in
  if t.1.1 =? 0 then
    (start_error 500 ("all " +:+ fmt_d total +:+ " chunk dispatches failed: " +:+
       match t.2 with Some e => error_text e | None => "<nil>" end),
     sent, set_jobs (delete (Id h) (jobs m)) m)
  else if 0 <? t.1.2 then
    (MkStartReply "partial" 207
       (fmt_d t.1.2 +:+ " of " +:+ fmt_d total +:+ " chunks failed to dispatch")
       ("map reduce partially dispatched for handle " +:+ fmt_d (Id h) +:+ ": " +:+
        fmt_d t.1.1 +:+ "/" +:+ fmt_d total +:+ " succeeded"), sent, m)
  else
    (MkStartReply "accepted" 0 ""
       ("map reduce dispatched for handle " +:+ fmt_d (Id h) +:+ " with " +:+
        fmt_d total +:+ " chunks"), sent, m).

(** What a start request has come to when the handler waits for the dispatch
    goroutines: an answer already, or the number of chunks and the reports. *)
Definition started : Type := StartMapReduceReply + Z * list report.

(** The job is recorded, then every chunk is sent. *)
Definition begin_dispatch (call : string → MapReduceRequest → res MapReduceReply)
    (cancelled : nat → bool) (targets : list string) (h : Handle) (file : FileMetadata)
    (m : Master) : outcome (started * Master) :=
  let total := Z.of_nat (length (fm_Chunks file)) in
  let m := set_jobs (<[Id h := total]> (jobs m)) m in
  rs ← dispatch_all call cancelled targets h file 0 (fm_Chunks file);
  Ret (inr (total, rs), m).

(** [RPCStartMapReduce] up to that point. *)
Definition start_job (dfs : DFS) (prefixEnv : string) (probe : string → option string)
    (call : string → MapReduceRequest → res MapReduceReply) (cancelled : nat → bool)
    (request : StartMapReduceRequest) (m : Master) : outcome (started * Master) :=
  let h := sr_Handle request in
  match fetchFileMetadataFromDFS dfs prefixEnv m h with
  | Err e => Ret (inl (start_error 500 ("failed to fetch file metadata: " +:+ error_text e)), m)
  | Ok file =>
      if bool_decide (fm_Chunks file = []) then
        Ret (inl (start_error 500 "no chunks available from DFS metadata"), m)
      else if bool_decide (workerAddresses m = []) then
        Ret (inl (start_error 503 "no workers available"), m)
      else
        let plugin := TrimSpace (sr_Plugin request) in
        if bool_decide (plugin = "") then
          begin_dispatch call cancelled (workerAddresses m) h file m
        else
          match getWorkersForPlugin probe plugin m with
          | ([], m) =>
              Ret (inl (start_error 503 ("no workers available for plugin " +:+ quoted plugin)), m)
          | (targets, m) => begin_dispatch call cancelled targets h file m
          end
  end.

(** The rest of it. *)
Definition finish_start (sched : list nat) (h : Handle) (r : started) (m : Master) :
    StartMapReduceReply * list (string * MapReduceRequest) * Master :=
  match r with
  | inl reply => (reply, [], m)
  | inr (total, rs) => conclude_dispatch sched h total rs m
  end.

(** [RPCStartMapReduce]: the reply, the requests the goroutines tried to send,
    with their workers, and the state. *)
Definition RPCStartMapReduce (dfs : DFS) (prefixEnv : string) (probe : string → option string)
    (call : string → MapReduceRequest → res MapReduceReply) (cancelled : nat → bool)
    (sched : list nat) (request : StartMapReduceRequest) (m : Master) :
    outcome (StartMapReduceReply * list (string * MapReduceRequest) * Master) :=
  r ← start_job dfs prefixEnv probe call cancelled request m;
  Ret (finish_start sched (sr_Handle request) r.1 r.2).

(** ** Results *)

Definition resultKey (id chunkIndex : Z) : string := fmt_d id +:+ ":" +:+ fmt_d chunkIndex.
Definition keyPrefix (id : Z) : string := fmt_d id +:+ ":".

Record chunkResult := MkChunkResult {
  cr_ChunkIndex : Z;
  cr_WorkerAddr : string;
  cr_OutputFile : string;
  cr_OutputData : string;
  cr_GeneratedAt : string
}.

Definition chunkResult_of (item : MapReduceResultRequest) : chunkResult :=
  MkChunkResult (rr_ChunkIndex item) (rr_WorkerAddr item) (rr_OutputFile item)
    (rr_OutputData item) (rr_GeneratedAt item).

Definition chunk_le (a b : chunkResult) : Prop := cr_ChunkIndex a <= cr_ChunkIndex b.
#[export] Instance chunk_le_dec a b : Decision (chunk_le a b).
Proof. unfold chunk_le. apply _. Defined.

(** The combined output: every chunk's output on lines of its own. *)
Definition append_output (combined : string) (ic : nat * chunkResult) : string :=
  let combined :=
    if (0 <? Z.of_nat ic.1) && negb (HasSuffix combined Json.nl) then combined +:+ Json.nl
    else combined in
  let combined := combined +:+ cr_OutputData ic.2 in
  if negb (HasSuffix (cr_OutputData ic.2) Json.nl) then combined +:+ Json.nl else combined.

Definition combine (chunks : list chunkResult) : string :=
  foldl append_output "" (imap pair chunks).

Definition handle_json (h : Handle) : Json.json :=
  Json.JObj [("Id", Json.JInt (Id h)); ("TimeStamp", Json.JInt (TimeStamp h))].

Definition chunk_json (c : chunkResult) : Json.json :=
  Json.JObj [("chunk_index", Json.JInt (cr_ChunkIndex c));
    ("worker_addr", Json.JStr (cr_WorkerAddr c)); ("output_file", Json.JStr (cr_OutputFile c));
    ("output_data", Json.JStr (cr_OutputData c)); ("generated_at", Json.JStr (cr_GeneratedAt c))].

(** [collatedResult]. *)
Definition collated_json (h : Handle) (chunks : list chunkResult) (now : string) : Json.json :=
  Json.JObj [("handle", handle_json h);
    ("chunk_count", Json.JInt (Z.of_nat (length chunks)));
    ("chunks", Json.JArr (chunk_json <$> chunks));
    ("combined_output", Json.JStr (combine chunks));
    ("last_updated_at", Json.JStr now)].

Definition resultFileName (id : Z) : string := "map_reduce_result_" +:+ fmt_d id +:+ ".json".

(** What [RPCSubmitMapReduceResult] decides while it holds the result lock. *)
Inductive decision :=
| NotTracked
| Waiting (received expected : Z)
| Complete (chunks : list chunkResult).

(** The errors the result directory reports, by their texts. *)
Record ResultFaults := MkRF {
  rf_mkdir : option string;
  rf_create : option string;
  rf_encode : option string;
  rf_rename : option string
}.
Definition no_result_faults : ResultFaults := MkRF None None None None.

Section results.
Context `{MapOrder} `{SortSlice}.

Definition collect (id : Z) (m : Master) : list chunkResult :=
  (λ e, chunkResult_of e.2) <$>
    filter (λ e, Is_true (HasPrefix e.1 (keyPrefix id))) (map_entries (results m)).

Definition submit_locked (request : MapReduceResultRequest) (m : Master) : decision * Master :=
  let id := Id (rr_Handle request) in
  let m := set_results (<[resultKey id (rr_ChunkIndex request) := request]> (results m)) m in
  match jobs m !! id with
  | None => (NotTracked, m)
  | Some expected =>
      let chunks := collect id m in
      let received := Z.of_nat (length chunks) in
      if received <? expected then (Waiting received expected, m)
      else (Complete chunks, m)
  end.

Definition result_error (msg : string) : MapReduceResultReply := MkResultReply "error" 500 msg "".
Definition result_success (msg : string) : MapReduceResultReply := MkResultReply "success" 0 "" msg.

(** [notifyCoordinator]: the request it sends, if a coordinator is configured. *)
Definition notifyCoordinator (handle : Handle) (resultFile : string) (m : Master) :
    option JobCompleteRequest :=
  if bool_decide (TrimSpace (coordinatorAddress m) = "") then None
  else Some (MkComplete handle resultFile "completed"
               ("all chunks collated for handle " +:+ fmt_d (Id handle))).

(** The rest, after the lock is released. *)
Definition submit_finish (fl : ResultFaults) (now : string) (request : MapReduceResultRequest)
    (chunks : list chunkResult) (m : Master) :
    MapReduceResultReply * option JobCompleteRequest * Master :=
  let h := rr_Handle request in
  let chunks := sort_slice chunk_le chunks in
  let resultFile := resultFileName (Id h) in
  let tmpFile := resultFile +:+ ".tmp" in
  let without_tmp := delete tmpFile (resultDir m) in
  match rf_mkdir fl, rf_create fl, rf_encode fl, rf_rename fl with
  | Some e, _, _, _ => (result_error ("failed to create result directory: " +:+ e), None, m)
  | None, Some e, _, _ => (result_error ("failed to create temp result file: " +:+ e), None, m)
  | None, None, Some e, _ =>
      (result_error ("failed to write collated result file: " +:+ e), None,
       set_resultDir without_tmp m)
  | None, None, None, Some e =>
      (result_error ("failed to finalize result file: " +:+ e), None, set_resultDir without_tmp m)
  | None, None, None, None =>
    let text := Json.print_indent 0 (collated_json h chunks now) +:+ Json.nl in
    let m := set_resultDir (<[resultFile := text]> without_tmp) m in
    let m := set_jobs (delete (Id h) (jobs m)) m in
    (result_success ("all " +:+ fmt_d (Z.of_nat (length chunks)) +:+
       " chunks collated for handle " +:+ fmt_d (Id h)),
     notifyCoordinator h resultFile m, m)
  end.

Definition RPCSubmitMapReduceResult (fl : ResultFaults) (now : string)
    (request : MapReduceResultRequest) (m : Master) :
    MapReduceResultReply * option JobCompleteRequest * Master :=
  match submit_locked request m with
  | (NotTracked, m) => (result_success "result accepted (job not tracked)", None, m)
  | (Waiting received expected, m) =>
      (result_success ("result accepted (" +:+ fmt_d received +:+ "/" +:+ fmt_d expected +:+
         " chunks received)"), None, m)
  | (Complete chunks, m) => submit_finish fl now request chunks m
  end.

End results.

(** [RPCGetJobResult]; [readErr] is the text of an error of the read other than
    that the file does not exist. *)
Definition RPCGetJobResult (readErr : option string) (id : Z) (m : Master) : GetJobResultReply :=
  match readErr, resultDir m !! resultFileName id with
  | Some e, _ => MkJobResult "error" ("failed to read result: " +:+ e) false ""
  | None, Some text => MkJobResult "ok" "" true text
  | None, None =>
      MkJobResult "ok"
        (match jobs m !! id with Some _ => "job in progress" | None => "job not found" end)
        false ""
  end.

End Master.
