(* ===== verification/Jobs.v ===== *)
(** Correctness of the master: collecting the results of a job, collating them,
    the layout of chunks, dispatch and routing. *)

From S2P Require Import Prelude GoStrings Json Codec Types Worker MapReduce Master.
From Stdlib Require Import Ascii.
From stdpp Require Import options.

#[local] Arguments String.append !_ _ / : simpl nomatch.

Module Jobs.
Import GoStrings Codec Types Master.

(** ** Result keys *)

Lemma resultKey_inj id c id' c' : resultKey id c = resultKey id' c' → id = id' ∧ c = c'.
Proof.
  unfold resultKey. intros E. apply (fmt_d_sep_inj ":" id id') in E as [-> E]; [|done].
  split; [done|]. by apply (inj fmt_d).
Qed.

(** A prefix selects the results of one handle: handle 1 does not match 12:0. *)
Lemma resultKey_prefix id c id' : HasPrefix (resultKey id c) (keyPrefix id') = true ↔ id = id'.
Proof.
  rewrite HasPrefix_spec. unfold resultKey, keyPrefix. split.
  - intros [t E]. rewrite <- append_assoc in E.
    by apply (fmt_d_sep_inj ":" id id') in E as [-> _].
  - intros ->. exists (fmt_d c). by rewrite <- append_assoc.
Qed.

(** Every result is stored under its own key. *)
Definition results_ok (m : Master) : Prop :=
  map_Forall (λ k r, k = resultKey (Id (rr_Handle r)) (rr_ChunkIndex r)) (results m).

Section collection.
Context `{MapOrder} `{SortSlice}.
Implicit Types (m : Master) (r : MapReduceResultRequest) (rs : list MapReduceResultRequest).

Lemma elem_of_collect id m x :
  results_ok m →
  x ∈ collect id m ↔
    ∃ r, results m !! resultKey id (rr_ChunkIndex r) = Some r ∧ x = chunkResult_of r.
Proof.
  intros Hok. unfold collect. rewrite list_elem_of_fmap. split.
  - intros ([k r] & -> & [Hp Hin]%list_elem_of_filter). apply elem_of_map_entries in Hin.
    cbn in Hp |- *. exists r. split; [|done]. pose proof (Hok _ _ Hin) as Ek. cbn in Ek. subst k.
    apply Is_true_true, resultKey_prefix in Hp. by rewrite <- Hp.
  - intros (r & Hr & ->). exists (resultKey id (rr_ChunkIndex r), r). split; [done|].
    apply list_elem_of_filter. split; [|by apply elem_of_map_entries].
    cbn. apply Is_true_true. by apply resultKey_prefix.
Qed.

Lemma NoDup_collect id m : results_ok m → NoDup (cr_ChunkIndex <$> collect id m).
Proof.
  intros Hok. unfold collect. rewrite <- list_fmap_compose.
  apply NoDup_fmap_2_strong; [|apply NoDup_filter, NoDup_map_entries].
  intros [k1 r1] [k2 r2] [Hp1 Hin1]%list_elem_of_filter [Hp2 Hin2]%list_elem_of_filter E.
  cbn in *. apply elem_of_map_entries in Hin1, Hin2.
  pose proof (Hok _ _ Hin1) as E1. pose proof (Hok _ _ Hin2) as E2. cbn in E1, E2. subst k1 k2.
  apply Is_true_true, resultKey_prefix in Hp1, Hp2.
  rewrite Hp1, Hp2, E in *. congruence.
Qed.

(** The chunks of a handle that have been received. *)
Definition received (id : Z) (m : Master) : gset Z :=
  list_to_set (cr_ChunkIndex <$> collect id m).

Lemma elem_of_received id m c :
  results_ok m → c ∈ received id m ↔ is_Some (results m !! resultKey id c).
Proof.
  intros Hok. unfold received. rewrite elem_of_list_to_set, list_elem_of_fmap. split.
  - intros (x & -> & (r & Hr & ->)%elem_of_collect); [|done]. by exists r.
  - intros [r Hr]. pose proof (Hok _ _ Hr) as E. cbn in E.
    apply resultKey_inj in E as [E1 E2].
    exists (chunkResult_of r). split; [done|]. apply elem_of_collect; [done|].
    exists r. by rewrite <- E2.
Qed.

Lemma length_collect id m : results_ok m → length (collect id m) = size (received id m).
Proof.
  intros Hok. unfold received. rewrite size_list_to_set by (by apply NoDup_collect).
  by rewrite length_fmap.
Qed.

Definition store (r : MapReduceResultRequest) (m : Master) : Master :=
  set_results (<[resultKey (Id (rr_Handle r)) (rr_ChunkIndex r) := r]> (results m)) m.

Lemma store_ok r m : results_ok m → results_ok (store r m).
Proof. intros Hok. by apply map_Forall_insert_2. Qed.

Lemma received_store r m :
  results_ok m →
  received (Id (rr_Handle r)) (store r m) =
    {[rr_ChunkIndex r]} ∪ received (Id (rr_Handle r)) m.
Proof.
  intros Hok. apply set_eq. intros c. rewrite elem_of_union, elem_of_singleton.
  rewrite !elem_of_received by auto using store_ok. cbn.
  destruct (decide (c = rr_ChunkIndex r)) as [->|Hne].
  - rewrite lookup_insert_eq. split; [auto|]. by eexists.
  - rewrite lookup_insert_ne; [naive_solver|]. by intros [_ ?]%resultKey_inj.
Qed.

(** What the locked section decides. *)
Lemma submit_locked_spec r m n :
  results_ok m → jobs m !! Id (rr_Handle r) = Some n →
  submit_locked r m =
    (let k := Z.of_nat (size (received (Id (rr_Handle r)) (store r m))) in
     if k <? n then Waiting k n else Complete (collect (Id (rr_Handle r)) (store r m)),
     store r m).
Proof.
  intros Hok Hn. unfold submit_locked. fold (store r m). cbn [jobs set_results store].
  rewrite Hn. rewrite length_collect by (by apply store_ok). by case_match.
Qed.

(** ** A sequence of submissions *)

Fixpoint submit_all (now : string) (rs : list MapReduceResultRequest) (m : Master) :
    list (option JobCompleteRequest) * Master :=
  match rs with
  | [] => ([], m)
  | r :: rs =>
      let x := RPCSubmitMapReduceResult no_result_faults now r m in
      let y := submit_all now rs x.2 in
      (x.1.2 :: y.1, y.2)
  end.

Definition store_all (rs : list MapReduceResultRequest) (m : Master) : Master :=
  foldl (λ m r, store r m) m rs.
Definition indices (rs : list MapReduceResultRequest) : gset Z :=
  list_to_set (rr_ChunkIndex <$> rs).
Definition for_handle (id : Z) (rs : list MapReduceResultRequest) : Prop :=
  Forall (λ r, Id (rr_Handle r) = id) rs.

(** The last submission for a chunk. *)
Definition latest (c : Z) (rs : list MapReduceResultRequest) : option MapReduceResultRequest :=
  last (filter (λ r, rr_ChunkIndex r = c) rs).

Lemma store_all_frame rs m : store_all rs m = set_results (results (store_all rs m)) m.
Proof.
  unfold store_all. induction rs as [|r rs IH] using rev_ind; [by destruct m|].
  rewrite foldl_snoc. unfold store at 1. by rewrite IH.
Qed.

Lemma store_all_ok rs m : results_ok m → results_ok (store_all rs m).
Proof.
  unfold store_all. induction rs as [|r rs IH] using rev_ind; [done|].
  rewrite foldl_snoc. auto using store_ok.
Qed.

Lemma received_store_all id rs m :
  results_ok m → for_handle id rs →
  received id (store_all rs m) = received id m ∪ indices rs.
Proof.
  intros Hok Hrs. unfold store_all, indices.
  induction rs as [|r rs IH] using rev_ind; [cbn; by rewrite (right_id_L ∅ (∪))|].
  apply Forall_app in Hrs as [Hrs Hr%Forall_inv]. rewrite foldl_snoc. cbn in Hr. subst id.
  rewrite received_store by (by apply (store_all_ok rs)). rewrite IH by done.
  rewrite fmap_app, list_to_set_app_L. cbn. rewrite (right_id_L ∅ (∪)).
  by rewrite (comm_L (∪) {[_]}), (assoc_L (∪)).
Qed.

Lemma latest_snoc c rs r :
  latest c (rs ++ [r]) = if decide (rr_ChunkIndex r = c) then Some r else latest c rs.
Proof.
  unfold latest. rewrite filter_app, filter_cons, filter_nil.
  case_decide; [by rewrite last_snoc|]. by rewrite (right_id_L [] (++)).
Qed.

Lemma results_store_all id rs m c :
  for_handle id rs →
  results (store_all rs m) !! resultKey id c =
    match latest c rs with Some r => Some r | None => results m !! resultKey id c end.
Proof.
  intros Hrs. unfold store_all. induction rs as [|r rs IH] using rev_ind; [done|].
  apply Forall_app in Hrs as [Hrs Hr%Forall_inv]. rewrite foldl_snoc, latest_snoc. cbn.
  rewrite Hr. case_decide as Hc.
  - rewrite Hc. by rewrite lookup_insert_eq.
  - rewrite lookup_insert_ne; [by apply IH|]. by intros [_ ?]%resultKey_inj.
Qed.

Lemma submit_waiting now r m n :
  results_ok m → jobs m !! Id (rr_Handle r) = Some n →
  Z.of_nat (size (received (Id (rr_Handle r)) (store r m))) < n →
  ∃ msg, RPCSubmitMapReduceResult no_result_faults now r m = (result_success msg, None, store r m).
Proof.
  intros Hok Hn Hlt. unfold RPCSubmitMapReduceResult.
  rewrite (submit_locked_spec r m n) by done. cbv zeta.
  rewrite (proj2 (Z.ltb_lt _ _) Hlt). by eexists.
Qed.

Lemma submit_all_waiting now id n rs m :
  results_ok m → jobs m !! id = Some n → for_handle id rs →
  Z.of_nat (size (received id m ∪ indices rs)) < n →
  submit_all now rs m = (replicate (length rs) None, store_all rs m).
Proof.
  intros Hok Hn Hrs. revert m Hok Hn. induction Hrs as [|r rs Hr Hrs IH]; intros m Hok Hn Hlt; [done|].
  subst id. cbn [submit_all]. rewrite <- received_store_all in Hlt by (done || by constructor).
  destruct (submit_waiting now r m n) as [msg ->]; [done|done| |].
  - eapply Z.le_lt_trans; [|exact Hlt]. apply inj_le, subseteq_size.
    change (store_all (r :: rs) m) with (store_all rs (store r m)).
    rewrite (received_store_all _ rs (store r m)) by (done || by apply store_ok).
    apply union_subseteq_l.
  - cbn [fst snd]. rewrite IH; [done|by apply store_ok|done|].
    change (store_all (r :: rs) m) with (store_all rs (store r m)) in Hlt.
    by rewrite received_store_all in Hlt by (done || by apply store_ok).
Qed.

#[export] Instance chunk_le_total : Total chunk_le.
Proof. intros a b. unfold chunk_le. lia. Qed.
#[export] Instance chunk_le_trans : Transitive chunk_le.
Proof. intros a b c. unfold chunk_le. lia. Qed.

Definition chunk_lt (a b : chunkResult) : Prop := cr_ChunkIndex a < cr_ChunkIndex b.

Lemma sorted_strict l :
  StronglySorted chunk_le l → NoDup (cr_ChunkIndex <$> l) → StronglySorted chunk_lt l.
Proof.
  induction 1 as [|x l Hs IH Hx]; intros Hnd; [constructor|].
  rewrite fmap_cons in Hnd. apply NoDup_cons in Hnd as [Hnin Hnd]. constructor; [auto|].
  rewrite Forall_forall in *. intros y Hy. specialize (Hx y Hy). unfold chunk_le, chunk_lt in *.
  assert (cr_ChunkIndex x ≠ cr_ChunkIndex y); [|lia].
  intros E. apply Hnin. rewrite E. by apply list_elem_of_fmap_2.
Qed.

(** The chunks a collation writes, from the submissions seen. *)
Lemma collated_chunks id rs m :
  results_ok m → received id m = ∅ → for_handle id rs →
  let chunks := sort_slice chunk_le (collect id (store_all rs m)) in
  StronglySorted chunk_lt chunks ∧
  (∀ x, x ∈ chunks ↔ ∃ c r, latest c rs = Some r ∧ x = chunkResult_of r).
Proof.
  intros Hok Hfresh Hrs. cbn zeta. pose proof (store_all_ok rs m Hok) as Hok'. split.
  - apply sorted_strict; [apply sort_slice_sorted; apply _|].
    rewrite sort_slice_perm. by apply NoDup_collect.
  - intros x. rewrite sort_slice_perm, elem_of_collect by done.
    assert (∀ c, results m !! resultKey id c = None) as Hnone.
    { intros c. destruct (results m !! resultKey id c) as [r|] eqn:E; [|done].
      assert (c ∈ received id m) by (apply elem_of_received; [done|by eexists]). set_solver. }
    split.
    + intros (r & Hr & ->). rewrite (results_store_all id), Hnone in Hr by done.
      exists (rr_ChunkIndex r), r. by case_match.
    + intros (c & r & Hr & ->). exists r. split; [|done].
      assert (rr_ChunkIndex r = c) as ->.
      { unfold latest in Hr. apply last_Some_elem_of, list_elem_of_filter in Hr. tauto. }
      by rewrite (results_store_all id), Hr.
Qed.

Lemma submit_complete now r m n :
  results_ok m → jobs m !! Id (rr_Handle r) = Some n →
  n <= Z.of_nat (size (received (Id (rr_Handle r)) (store r m))) →
  RPCSubmitMapReduceResult no_result_faults now r m =
    submit_finish no_result_faults now r (collect (Id (rr_Handle r)) (store r m)) (store r m).
Proof.
  intros Hok Hn Hle. unfold RPCSubmitMapReduceResult.
  rewrite (submit_locked_spec r m n) by done. cbv zeta.
  by rewrite (proj2 (Z.ltb_ge _ _) Hle).
Qed.

Lemma submit_untracked now r m :
  jobs m !! Id (rr_Handle r) = None →
  RPCSubmitMapReduceResult no_result_faults now r m =
    (result_success "result accepted (job not tracked)", None, store r m).
Proof.
  intros Hj. unfold RPCSubmitMapReduceResult, submit_locked. cbn [jobs set_results]. by rewrite Hj.
Qed.

(** The state after a collation. *)
Definition finished (now : string) (h : Handle) (chunks : list chunkResult) (m : Master) : Master :=
  set_jobs (delete (Id h) (jobs m))
    (set_resultDir (<[resultFileName (Id h) :=
       Json.print_indent 0 (collated_json h chunks now) +:+ Json.nl]>
       (delete (resultFileName (Id h) +:+ ".tmp") (resultDir m))) m).

Lemma submit_finish_ok now r cs m :
  let chunks := sort_slice chunk_le cs in
  submit_finish no_result_faults now r cs m =
    (result_success ("all " +:+ fmt_d (Z.of_nat (length chunks)) +:+
       " chunks collated for handle " +:+ fmt_d (Id (rr_Handle r))),
     notifyCoordinator (rr_Handle r) (resultFileName (Id (rr_Handle r))) m,
     finished now (rr_Handle r) chunks m).
Proof. reflexivity. Qed.

(** ** Properties *)

Lemma collation_ok (now : string) (id n : Z) (rs : list MapReduceResultRequest)
    (r : MapReduceResultRequest) (m : Master) :
  results_ok m → jobs m !! id = Some n → received id m = ∅ → for_handle id (rs ++ [r]) →
  Z.of_nat (size (indices rs)) < n <= Z.of_nat (size (indices (rs ++ [r]))) →
  ∃ m1 m2 chunks msg,
    submit_all now rs m = (replicate (length rs) None, m1) ∧
    jobs m1 = jobs m ∧ resultDir m1 = resultDir m ∧
    RPCSubmitMapReduceResult no_result_faults now r m1 =
      (result_success msg, notifyCoordinator (rr_Handle r) (resultFileName id) m, m2) ∧
    jobs m2 = delete id (jobs m) ∧
    resultDir m2 !! resultFileName id =
      Some (Json.print_indent 0 (collated_json (rr_Handle r) chunks now) +:+ Json.nl) ∧
    StronglySorted chunk_lt chunks ∧
    (∀ x, x ∈ chunks ↔ ∃ c r', latest c (rs ++ [r]) = Some r' ∧ x = chunkResult_of r') ∧
    (∀ r', Id (rr_Handle r') = id →
       RPCSubmitMapReduceResult no_result_faults now r' m2 =
         (result_success "result accepted (job not tracked)", None, store r' m2)).
Proof.
  intros Hok Hn Hfresh Hrs [Hlt Hle].
  apply Forall_app in Hrs as Hrs'. destruct Hrs' as [Hrs1 Hr%Forall_inv]. subst id.
  destruct (collated_chunks _ (rs ++ [r]) m Hok Hfresh Hrs) as [Hs Hin].
  pose proof (store_all_frame rs m) as Hframe.
  exists (store_all rs m). rewrite (submit_all_waiting now _ n rs m) by (rewrite ?Hfresh, ?(left_id_L ∅ (∪)); done).
  rewrite (submit_complete now r _ n).
  - unfold store_all in Hs, Hin. rewrite foldl_snoc in Hs, Hin. fold (store_all rs m) in Hs, Hin.
    rewrite submit_finish_ok. cbv zeta. set (chunks := sort_slice _ _) in *. clearbody chunks.
    exists (finished now (rr_Handle r) chunks (store r (store_all rs m))), chunks. eexists.
    split_and!; [reflexivity|by rewrite Hframe..| | | |exact Hs|exact Hin|].
    + assert (notifyCoordinator (rr_Handle r) (resultFileName (Id (rr_Handle r)))
        (store r (store_all rs m)) = notifyCoordinator (rr_Handle r)
        (resultFileName (Id (rr_Handle r))) m) as ->; [|reflexivity].
      unfold notifyCoordinator, store. by rewrite Hframe.
    + unfold finished. by rewrite Hframe.
    + unfold finished. cbn [resultDir set_jobs set_resultDir]. by rewrite lookup_insert_eq.
    + intros r' Hr'. apply submit_untracked. unfold finished. cbn [jobs set_jobs].
      by rewrite Hr', lookup_delete_eq.
  - by apply store_all_ok.
  - by rewrite Hframe.
  - change (store r (store_all rs m)) with (foldl (λ m r, store r m) (store_all rs m) [r]).
    unfold store_all. rewrite <- foldl_app. fold (store_all (rs ++ [r]) m).
    by rewrite received_store_all, Hfresh, (left_id_L ∅ (∪)).
Qed.

(** C13: a job completes exactly when its last chunk arrives. From a state
    without results of the handle, in whatever order the chunks of a job of [n]
    chunks arrive, with repetitions, and whatever other handles have stored:
    as long as fewer than [n] distinct chunks have arrived nothing is written
    and nobody is notified; the submission that brings the [n]-th distinct chunk
    writes the result file, forgets the job and notifies the coordinator once.
    The file holds one entry per chunk, in chunk order, each from the last
    submission for that chunk. A later submission changes no file. *)
Theorem job_collation (now : string) (id n : Z) (rs : list MapReduceResultRequest)
    (r : MapReduceResultRequest) (m : Master) :
  results_ok m → jobs m !! id = Some n → received id m = ∅ → for_handle id (rs ++ [r]) →
  Z.of_nat (size (indices rs)) < n <= Z.of_nat (size (indices (rs ++ [r]))) →
  ∃ m1 m2 chunks msg,
    submit_all now rs m = (replicate (length rs) None, m1) ∧
    jobs m1 = jobs m ∧ resultDir m1 = resultDir m ∧
    RPCSubmitMapReduceResult no_result_faults now r m1 =
      (result_success msg, notifyCoordinator (rr_Handle r) (resultFileName id) m, m2) ∧
    jobs m2 = delete id (jobs m) ∧
    resultDir m2 !! resultFileName id =
      Some (Json.print_indent 0 (collated_json (rr_Handle r) chunks now) +:+ Json.nl) ∧
    StronglySorted chunk_lt chunks ∧
    (∀ x, x ∈ chunks ↔ ∃ c r', latest c (rs ++ [r]) = Some r' ∧ x = chunkResult_of r') ∧
    (∀ r', Id (rr_Handle r') = id →
       RPCSubmitMapReduceResult no_result_faults now r' m2 =
         (result_success "result accepted (job not tracked)", None, store r' m2)).
Proof. apply collation_ok. Qed.

Lemma submit_stale (now : string) (id n : Z) (r : MapReduceResultRequest)
    (m : Master) :
  results_ok m → jobs m !! id = Some n → n <= Z.of_nat (size (received id m)) →
  Id (rr_Handle r) = id →
  ∃ msg chunks,
    RPCSubmitMapReduceResult no_result_faults now r m =
      (result_success msg, notifyCoordinator (rr_Handle r) (resultFileName id) m,
       finished now (rr_Handle r) chunks (store r m)) ∧
    chunkResult_of r ∈ chunks ∧
    (∀ c old, c ≠ rr_ChunkIndex r → results m !! resultKey id c = Some old →
       chunkResult_of old ∈ chunks).
Proof.
  intros Hok Hn Hle Hr. subst id. pose proof (store_ok r m Hok) as Hok'.
  rewrite (submit_complete now r m n), submit_finish_ok; [|done|done|].
  - eexists _, _. split; [reflexivity|]. split.
    + rewrite sort_slice_perm. apply elem_of_collect; [done|]. exists r. cbn.
      by rewrite lookup_insert_eq.
    + intros c old Hc Hold. rewrite sort_slice_perm. apply elem_of_collect; [done|].
      exists old. split; [|done]. pose proof (Hok _ _ Hold) as E. cbn in E.
      apply resultKey_inj in E as [_ ->]. cbn. rewrite lookup_insert_ne; [done|].
      by intros [_ E]%resultKey_inj.
  - rewrite received_store by done.
    etransitivity; [exact Hle|]. apply inj_le, subseteq_size, union_subseteq_r.
Qed.

(** Results outlive their job. The stored results of a handle id are never
    cleared and do not record the handle's timestamp, so when a job is started
    again for an id that has been processed before, its first submission already
    completes it: the result file mixes the new output with the outputs stored
    by the previous run for all other chunks, the job is forgotten and the
    coordinator notified, before the other chunks have been processed. *)
Theorem stale_results_complete_early (now : string) (id n : Z) (r : MapReduceResultRequest)
    (m : Master) :
  results_ok m → jobs m !! id = Some n → n <= Z.of_nat (size (received id m)) →
  Id (rr_Handle r) = id →
  ∃ msg chunks,
    RPCSubmitMapReduceResult no_result_faults now r m =
      (result_success msg, notifyCoordinator (rr_Handle r) (resultFileName id) m,
       finished now (rr_Handle r) chunks (store r m)) ∧
    chunkResult_of r ∈ chunks ∧
    (∀ c old, c ≠ rr_ChunkIndex r → results m !! resultKey id c = Some old →
       chunkResult_of old ∈ chunks).
Proof. apply submit_stale. Qed.

End collection.

(** ** Combined output *)

Definition ensure_nl (s : string) : string := if HasSuffix s Json.nl then s else s +:+ Json.nl.

Lemma HasSuffix_append s1 s2 p : HasSuffix s2 p = true → HasSuffix (s1 +:+ s2) p = true.
Proof. rewrite !HasSuffix_spec. intros [t ->]. exists (s1 +:+ t). by rewrite append_assoc. Qed.

Lemma ensure_nl_suffix s : HasSuffix (ensure_nl s) Json.nl = true.
Proof.
  unfold ensure_nl. destruct (HasSuffix s Json.nl) eqn:E; [done|].
  apply HasSuffix_append. done.
Qed.

Lemma append_output_eq acc i c :
  (i = 0%nat ∨ HasSuffix acc Json.nl = true) →
  append_output acc (i, c) = acc +:+ ensure_nl (cr_OutputData c).
Proof.
  intros Hi. unfold append_output, ensure_nl. cbn [fst snd].
  assert ((0 <? Z.of_nat i) && negb (HasSuffix acc Json.nl) = false) as ->.
  { destruct Hi as [-> | ->]; [done|apply andb_false_r]. }
  destruct (HasSuffix (cr_OutputData c) Json.nl); cbn [negb]; [done|]. by rewrite append_assoc.
Qed.

Lemma combine_from acc k chunks :
  (k = 0%nat ∨ HasSuffix acc Json.nl = true) →
  foldl append_output acc (imap (λ i c, (k + i, c)%nat) chunks) =
    acc +:+ Json.concat_strings ((λ c, ensure_nl (cr_OutputData c)) <$> chunks).
Proof.
  revert acc k. induction chunks as [|c chunks IH]; intros acc k Hk.
  { symmetry. apply append_nil_r. }
  rewrite imap_cons. cbn [foldl]. rewrite append_output_eq by (by rewrite Nat.add_0_r).
  rewrite fmap_cons. cbn [Json.concat_strings]. rewrite append_assoc.
  rewrite <- (IH _ (S k)) by (right; apply HasSuffix_append, ensure_nl_suffix).
  f_equal. apply imap_ext. intros i x _. cbn. f_equal. lia.
Qed.

(** The combined output is the outputs of the chunks in order, each
    terminated by a newline when it is not already; the test for a missing
    newline in front of a chunk never fires. *)
Theorem combine_lines (chunks : list chunkResult) :
  combine chunks = Json.concat_strings ((λ c, ensure_nl (cr_OutputData c)) <$> chunks) ∧
  (∀ i, HasSuffix (combine (take (S i) chunks)) Json.nl = true ∨ chunks = []).
Proof.
  assert (∀ l, combine l = Json.concat_strings ((λ c, ensure_nl (cr_OutputData c)) <$> l)) as E.
  { intros l. exact (combine_from "" 0 l (or_introl eq_refl)). }
  split; [apply E|]. intros i. destruct chunks as [|c chunks]; [by right|left].
  rewrite E. cbn [take]. generalize (take i chunks). intros l. revert c.
  induction l as [|c' l IH]; intros c; cbn [fmap list_fmap Json.concat_strings].
  - rewrite append_nil_r. apply ensure_nl_suffix.
  - apply HasSuffix_append, IH.
Qed.

(** ** Chunk layout *)

Section layout.
Context (dfs : DFS) (f : string) (L S K : Z).
Hypothesis HS : 0 < S.
Hypothesis HK : (K - 1) * S < L <= K * S.
Hypothesis Hmax : K * S <= max_i64.
Hypothesis Hsize : ChunkMaxSizeInByte dfs = S.

Definition layout (i handle : Z) : ChunkInfo :=
  MkChunk i (i * S) (Z.min S (L - i * S)) f handle.

Lemma chunk_at_layout i handle : 0 <= i < K → chunk_at dfs f L i handle = layout i handle.
Proof using HK HS Hmax Hsize.
  intros Hi. unfold chunk_at, layout. rewrite Hsize. unfold max_i64 in Hmax.
  assert (0 <= i * S <= (K - 1) * S) by nia.
  rewrite (i64_small (i * S)), (i64_small (L - i * S)) by lia.
  destruct (Z.ltb_spec (L - i * S) S); f_equal; lia.
Qed.

Lemma fetch_chunks_layout (handle : Z → Z) i n :
  (∀ j, 0 <= j < K → GetChunkHandle dfs f j = Ok (handle j)) →
  0 <= i → i + Z.of_nat n <= K →
  fetch_chunks dfs f L i n = Ok ((λ j, layout (i + Z.of_nat j) (handle (i + Z.of_nat j))) <$> seq 0 n).
Proof using HK HS Hmax Hsize.
  intros Hh. revert i. induction n as [|n IH]; intros i Hi Hn; [done|].
  cbn [fetch_chunks]. rewrite Hh by lia. rewrite (IH (i + 1)) by lia. cbn [mbind res_bind].
  rewrite chunk_at_layout by lia. cbn [seq]. rewrite fmap_cons, Z.add_0_r. do 2 f_equal.
  rewrite <- fmap_S_seq, <- list_fmap_compose. apply list_fmap_ext.
  intros k j _. cbn. by replace (i + 1 + Z.of_nat j) with (i + Z.of_nat (Datatypes.S j)) by lia.
Qed.

End layout.

(** What a DFS client's [Read] promises for a file: as many bytes as are there,
    up to the size asked for. *)
Definition reads (Read : string → Z → Z → Worker.dfs_read) (path : string)
    (file : list byte) : Prop :=
  ∀ off n, 0 <= off → 0 < n →
    let data := take (Z.to_nat n) (drop (Z.to_nat off) file) in
    let r := Read path off n in
    Worker.read_n r = Z.of_nat (length data) ∧
    take (length data) (Worker.read_buffer r) = data ∧
    (length data ≤ length (Worker.read_buffer r))%nat ∧
    (Worker.read_err r = None ∨ Worker.read_err r = Some Worker.DfsEOF).

Lemma read_chunk Read w file request :
  let ci := mr_ChunkInfo request in
  fm_RawContent (mr_File request) = [] → TrimSpace (Worker.fsServerAddr w) ≠ "" →
  TrimSpace (Path ci) ≠ "" → reads Read (TrimSpace (Path ci)) file →
  0 <= Offset ci → 0 < Size ci →
  Worker.readChunkData Read false w request =
    Ret (Ok (take (Z.to_nat (Size ci)) (drop (Z.to_nat (Offset ci)) file))).
Proof.
  cbn zeta. intros Hraw Hfs Hpath Hread Hoff Hsz. unfold Worker.readChunkData.
  rewrite Hraw. cbn [length Z.of_nat Z.ltb Z.compare]. rewrite (bool_decide_false _ Hfs).
  cbv zeta. rewrite !(bool_decide_false _ Hpath).
  rewrite (proj2 (Z.leb_gt (Size _) 0)) by lia. rewrite (proj2 (Z.ltb_ge (Size _) 0)) by lia.
  destruct (Hread _ _ Hoff Hsz) as (En & Eb & Hlen & Herr). set (r := Read _ _ _) in *.
  set (data := take _ (drop _ file)) in *. clearbody data r.
  rewrite (proj2 (Z.ltb_ge (Worker.read_n r) 0)) by lia.
  assert (Worker.slice (Worker.read_buffer r) 0 (Worker.read_n r) = Ret data) as Hs.
  { rewrite MapReduce.slice_ok by lia. rewrite Z.sub_0_r, En, Nat2Z.id. by rewrite drop_0, Eb. }
  destruct (Z.eqb_spec (Worker.read_n r) 0).
  - assert (data = []) as -> by (destruct data; cbn in *; [done|lia]).
    destruct Herr as [-> | ->]; done.
  - rewrite Hs. destruct Herr as [-> | ->]; done.
Qed.

(** Consecutive pieces of [n] bytes make up a list. *)
Lemma pieces_concat {A} (n k : nat) (l : list A) :
  (0 < n)%nat → (length l ≤ k * n)%nat →
  (seq 0 k ≫= λ i, take n (drop (i * n) l)) = l.
Proof.
  intros Hn. revert l. induction k as [|k IH]; intros l Hl.
  { destruct l; [done|]. cbn in Hl. lia. }
  cbn [seq]. rewrite bind_cons. cbn [Nat.mul]. rewrite drop_0, <- fmap_S_seq, bind_fmap_l.
  rewrite <- (take_drop n l) at 2. f_equal. rewrite <- (IH (drop n l)).
  - apply list_bind_ext; [|done]. intros i. by rewrite drop_drop.
  - rewrite length_drop. lia.
Qed.

Lemma layout_covers (file : list byte) (S K : Z) :
  0 < S → (K - 1) * S < Z.of_nat (length file) <= K * S →
  (seq 0 (Z.to_nat K) ≫= λ j,
     take (Z.to_nat (Z.min S (Z.of_nat (length file) - Z.of_nat j * S)))
       (drop (Z.to_nat (Z.of_nat j * S)) file)) = file.
Proof.
  intros HS HK. etransitivity; [|apply (pieces_concat (Z.to_nat S) (Z.to_nat K) file); nia].
  apply list_bind_ext; [|done]. intros j.
  replace (Z.to_nat (Z.of_nat j * S)) with (j * Z.to_nat S)%nat by nia.
  destruct (decide (S <= Z.of_nat (length file) - Z.of_nat j * S)).
  - by rewrite Z.min_l.
  - rewrite Z.min_r by lia. rewrite !take_ge; [done|rewrite length_drop; nia..].
Qed.

(** The metadata of a content file, and what any worker reads for its chunks. *)
Lemma fetch_layout (dfs : DFS) (Read : string → Z → Z → Worker.dfs_read)
    (prefixEnv prefix : string) (prefixes : list string) (m : Master)
    (h : Handle) (file : list byte) (K : Z) (handle : Z → Z) :
  let S := ChunkMaxSizeInByte dfs in
  let L := Z.of_nat (length file) in
  let contentFile := TrimRight prefix ["/"%char] +:+ "/" +:+ "download_log_" +:+ fmt_d (Id h) +:+
                       "-" +:+ fmt_d (TimeStamp h) +:+ ".content" in
  TrimSpace (fsServerAddress m) ≠ "" → resolveUploadPrefixes prefixEnv = prefix :: prefixes →
  GetFile dfs contentFile = Ok (Some (MkInfo L K)) →
  (∀ j, 0 <= j < K → GetChunkHandle dfs contentFile j = Ok (handle j)) →
  0 < S → 0 < L → (K - 1) * S < L <= K * S → K * S <= max_i64 →
  TrimSpace contentFile ≠ "" → reads Read (TrimSpace contentFile) file →
  ∃ meta pieces,
    fetchFileMetadataFromDFS dfs prefixEnv m h = Ok meta ∧
    Z.of_nat (length (fm_Chunks meta)) = K ∧
    Forall2 (λ ci piece, Path ci = contentFile ∧
      ∀ w i, TrimSpace (Worker.fsServerAddr w) ≠ "" →
        Worker.readChunkData Read false w (MkMRRequest h meta i ci) = Ret (Ok piece))
      (fm_Chunks meta) pieces ∧
    concat pieces = file.
Proof.
  cbv zeta. set (S := ChunkMaxSizeInByte dfs). set (f := TrimRight _ _ +:+ _).
  intros Hfs Hpre Hfile Hh HS HL HK Hmax Hpath Hread.
  pose proof (fetch_chunks_layout dfs f (Z.of_nat (length file)) S K HS HK Hmax eq_refl handle 0
    (Z.to_nat K) Hh ltac:(lia) ltac:(lia)) as Hchunks.
  eexists _, ((λ j, take (Z.to_nat (Z.min S (Z.of_nat (length file) - Z.of_nat j * S)))
       (drop (Z.to_nat (Z.of_nat j * S)) file)) <$> seq 0 (Z.to_nat K)).
  split_and!.
  - unfold fetchFileMetadataFromDFS. rewrite bool_decide_false, Hpre by done. cbn [try_prefixes].
    replace ((TrimRight prefix ["/"%char] +:+ "/" +:+ ("download_log_" +:+ fmt_d (Id h) +:+ "-" +:+
      fmt_d (TimeStamp h))) +:+ ".content") with f by (unfold f; by rewrite <- !append_assoc).
    rewrite Hfile. cbn [Length Chunks].
    rewrite (proj2 (Z.eqb_neq _ 0)), (proj2 (Z.leb_gt K 0)) by lia. cbn [orb].
    rewrite Hchunks. reflexivity.
  - cbn. rewrite length_fmap, length_seq. lia.
  - cbn [fm_Chunks]. apply Forall2_fmap_2, Forall_Forall2_diag, Forall_forall. intros j Hj.
    split; [done|]. intros w i Hw.
    apply elem_of_seq in Hj. rewrite (read_chunk Read w file); cbn; try done; nia.
  - etransitivity; [|apply (layout_covers file S K HS HK)]. generalize (seq 0 (Z.to_nat K)).
    intros l. induction l as [|j l IH]; [done|]. rewrite fmap_cons, bind_cons. cbn. by rewrite IH.
Qed.

(** C25: the chunks of a job cover the uploaded file. When the DFS reports a
    content file of [K] chunks (as many as its length needs at the chunk size),
    the metadata lists [K] chunks in order, and the pieces that workers read for
    them put together are the file, byte for byte. *)
Theorem chunks_cover_file (dfs : DFS) (Read : string → Z → Z → Worker.dfs_read)
    (prefixEnv prefix : string) (prefixes : list string) (m : Master) (w : Worker.Worker)
    (h : Handle) (file : list byte) (K : Z) (handle : Z → Z) :
  let S := ChunkMaxSizeInByte dfs in
  let L := Z.of_nat (length file) in
  let contentFile := TrimRight prefix ["/"%char] +:+ "/" +:+ "download_log_" +:+ fmt_d (Id h) +:+
                       "-" +:+ fmt_d (TimeStamp h) +:+ ".content" in
  TrimSpace (fsServerAddress m) ≠ "" → resolveUploadPrefixes prefixEnv = prefix :: prefixes →
  GetFile dfs contentFile = Ok (Some (MkInfo L K)) →
  (∀ j, 0 <= j < K → GetChunkHandle dfs contentFile j = Ok (handle j)) →
  0 < S → 0 < L → (K - 1) * S < L <= K * S → K * S <= max_i64 →
  TrimSpace (Worker.fsServerAddr w) ≠ "" → TrimSpace contentFile ≠ "" →
  reads Read (TrimSpace contentFile) file →
  ∃ meta pieces,
    fetchFileMetadataFromDFS dfs prefixEnv m h = Ok meta ∧
    Z.of_nat (length (fm_Chunks meta)) = K ∧
    Forall2 (λ ci piece, ∀ i,
      Worker.readChunkData Read false w (MkMRRequest h meta i ci) = Ret (Ok piece))
      (fm_Chunks meta) pieces ∧
    concat pieces = file.
Proof.
  cbv zeta. intros Hfs Hpre Hfile Hh HS HL HK Hmax Hw Hpath Hread.
  destruct (fetch_layout dfs Read prefixEnv prefix prefixes m h file K handle)
    as (meta & pieces & E & Hlen & Hp & Hc); [done..|].
  exists meta, pieces. split_and!; [done|done| |done].
  eapply Forall2_impl; [exact Hp|]. intros ci piece [_ Hr] i. by apply Hr.
Qed.

(** ** Dispatch *)

Definition assigned (targets : list string) (i : nat) : string :=
  targets !!! (i `mod` length targets)%nat.

(** The requests a job consists of, round-robin over the targets. *)
Definition job_requests (targets : list string) (h : Handle) (file : FileMetadata) :
    list (string * MapReduceRequest) :=
  imap (λ i ci, (assigned targets i, MkMRRequest h file (Z.of_nat i) ci)) (fm_Chunks file).

(** The worker could not be called, or answered with an error. *)
Definition call_failed (call : string → MapReduceRequest → res MapReduceReply)
    (q : string * MapReduceRequest) : bool :=
  match call q.1 q.2 with
  | Err _ => true
  | Ok reply => bool_decide (mp_Status reply = "error")
  end.

Lemma dispatch_chunk_sent call targets h file i ci :
  targets ≠ [] →
  ∃ err, dispatch_chunk call (λ _, false) targets h file i ci =
      Ret (Some (assigned targets i, MkMRRequest h file (Z.of_nat i) ci), err) ∧
    (is_Some err ↔ call_failed call (assigned targets i, MkMRRequest h file (Z.of_nat i) ci) = true).
Proof.
  intros Ht. unfold dispatch_chunk, index.
  assert (i `mod` length targets < length targets)%nat as Hi.
  { apply Nat.mod_upper_bound. by destruct targets. }
  rewrite bool_decide_true by lia. rewrite Nat2Z.id.
  rewrite (list_lookup_lookup_total_lt targets _ Hi). fold (assigned targets i).
  cbn [mbind outcome_bind]. eexists. split; [done|]. unfold call_failed. cbn [fst snd].
  destruct (call _ _) as [reply|e]; [|by split; eauto].
  case_bool_decide; [by split; eauto|]. split; [by intros []|done].
Qed.

Lemma dispatch_all_sent call targets h file k chunks :
  targets ≠ [] →
  ∃ rs, dispatch_all call (λ _, false) targets h file k chunks = Ret rs ∧
    Forall2 (λ x q, x.1 = Some q ∧ (is_Some x.2 ↔ call_failed call q = true)) rs
      (imap (λ i ci, (assigned targets (k + i), MkMRRequest h file (Z.of_nat (k + i)) ci)) chunks).
Proof.
  intros Ht. revert k. induction chunks as [|ci chunks IH]; intros k; cbn [dispatch_all].
  { exists []. split; [done|constructor]. }
  destruct (dispatch_chunk_sent call targets h file k ci Ht) as (err & -> & Herr).
  destruct (IH (S k)) as (rs & -> & Hrs). cbn [mbind outcome_bind].
  eexists. split; [done|]. rewrite imap_cons. constructor; [by rewrite Nat.add_0_r|].
  erewrite imap_ext; [exact Hrs|]. intros i x _. cbn. by rewrite Nat.add_succ_r.
Qed.

Definition failures (l : list (option go_error)) : nat := length (omap (λ r, r) l).

Lemma tally_counts l :
  (tally l).1 = (Z.of_nat (length l - failures l), Z.of_nat (failures l)) ∧
  (failures l ≤ length l)%nat.
Proof.
  unfold tally. set (step := λ (acc : Z * Z * option go_error) r, _).
  assert (∀ a b e, (foldl step (a, b, e) l).1 =
    (a + Z.of_nat (length l - failures l), b + Z.of_nat (failures l)) ∧
    (failures l ≤ length l)%nat) as Hgen.
  { unfold failures. induction l as [|[x|] l IH]; intros a b e; cbn [foldl].
    - cbn. by rewrite !Z.add_0_r.
    - destruct (IH a (b + 1) (join_errors e x)) as [E Hl].
      unfold step at 2. cbn [fst snd]. rewrite E. cbn in Hl |- *. split; [|lia]. f_equal; lia.
    - destruct (IH (a + 1) b e) as [E Hl].
      unfold step at 2. cbn [fst snd]. rewrite E. cbn in Hl |- *. split; [|lia]. f_equal; lia. }
  destruct (Hgen 0 0 None) as [-> ?]. by rewrite !Z.add_0_l.
Qed.

Lemma failures_perm l l' : l ≡ₚ l' → failures l = failures l'.
Proof. intros Hp. unfold failures. by rewrite Hp. Qed.

Lemma reports_perm (rs : list report) sched :
  sched ≡ₚ seq 0 (length rs) → omap (λ i, snd <$> rs !! i) sched ≡ₚ rs.*2.
Proof.
  intros Hs. rewrite Hs, <- (list_fmap_omap (λ i, rs !! i) snd). by rewrite omap_lookup_seq.
Qed.

Definition failed_calls (call : string → MapReduceRequest → res MapReduceReply)
    (qs : list (string * MapReduceRequest)) : nat :=
  length (filter (λ q, call_failed call q = true) qs).

Lemma reports_failures call (rs : list report) qs :
  Forall2 (λ x q, x.1 = Some q ∧ (is_Some x.2 ↔ call_failed call q = true)) rs qs →
  failures rs.*2 = failed_calls call qs ∧ omap fst rs = qs.
Proof.
  unfold failures, failed_calls. induction 1 as [|[a e] q rs qs [Ha He] Hrs [IH1 IH2]]; [done|].
  cbn in Ha, He. subst a. rewrite fmap_cons, filter_cons. cbn. rewrite IH2. split; [|done].
  case_decide as Hq.
  - apply He in Hq as [x ->]. cbn. by rewrite IH1.
  - destruct e as [x|]; [|done]. exfalso. apply Hq, He. by eexists.
Qed.

(** A dispatch from the record of the job to the answer. *)
Definition dispatch_job call cancelled sched targets h file m :
    outcome (StartMapReduceReply * list (string * MapReduceRequest) * Master) :=
  r ← begin_dispatch call cancelled targets h file m; Ret (finish_start sched h r.1 r.2).

Lemma dispatch_job_spec call sched targets h file m :
  targets ≠ [] → sched ≡ₚ seq 0 (length (fm_Chunks file)) →
  let total := length (fm_Chunks file) in
  let failed := failed_calls call (job_requests targets h file) in
  ∃ reply m', dispatch_job call (λ _, false) sched targets h file m =
      Ret (reply, job_requests targets h file, m') ∧ (failed ≤ total)%nat ∧
    if decide (failed = total) then
      sp_Status reply = "error" ∧ m' = set_jobs (delete (Id h) (jobs m)) m
    else
      sp_Status reply = (if decide (failed = 0%nat) then "accepted" else "partial") ∧
      m' = set_jobs (<[Id h := Z.of_nat total]> (jobs m)) m.
Proof.
  intros Ht Hs. cbv zeta. unfold dispatch_job, begin_dispatch.
  destruct (dispatch_all_sent call targets h file 0 (fm_Chunks file) Ht) as (rs & -> & Hrs).
  fold (job_requests targets h file) in Hrs. cbn [mbind outcome_bind].
  destruct (reports_failures call rs _ Hrs) as [Hf Hsent].
  assert (length rs = length (fm_Chunks file)) as Hlen.
  { apply Forall2_length in Hrs. rewrite Hrs. unfold job_requests. apply length_imap. }
  assert (sched ≡ₚ seq 0 (length rs)) as Hs' by (by rewrite Hlen).
  pose proof (reports_perm rs sched Hs') as Hperm.
  cbn [fst snd finish_start]. unfold conclude_dispatch. set (l := omap _ sched) in *.
  destruct (tally_counts l) as [Et Hle]. destruct (tally l) as [[a b] e]. cbn in Et.
  injection Et as [= -> ->]. rewrite (failures_perm _ _ Hperm), Hf, Hsent in *.
  assert (length l = length (fm_Chunks file)) as Hll.
  { rewrite Hperm. by rewrite length_fmap. }
  rewrite Hll in *. cbn [fst snd].
  set (failed := failed_calls call _) in *. set (total := length (fm_Chunks file)) in *.
  destruct (decide (failed = total)) as [E|E].
  - rewrite (proj2 (Z.eqb_eq _ _)) by lia. eexists _, _. split_and!; [done|done|done|].
    cbn. by rewrite delete_insert_eq.
  - rewrite (proj2 (Z.eqb_neq _ _)) by lia.
    destruct (decide (failed = 0%nat)) as [E0|E0].
    + rewrite (proj2 (Z.ltb_ge _ _)) by lia. by eexists _, _.
    + rewrite (proj2 (Z.ltb_lt _ _)) by lia. by eexists _, _.
Qed.

Lemma start_dispatches dfs env probe call sched request m file :
  fetchFileMetadataFromDFS dfs env m (sr_Handle request) = Ok file →
  fm_Chunks file ≠ [] → workerAddresses m ≠ [] → TrimSpace (sr_Plugin request) = "" →
  RPCStartMapReduce dfs env probe call (λ _, false) sched request m =
    dispatch_job call (λ _, false) sched (workerAddresses m) (sr_Handle request) file m.
Proof.
  intros Hf Hc Hw Hp. unfold RPCStartMapReduce, start_job. rewrite Hf, !bool_decide_false by done.
  by rewrite bool_decide_true.
Qed.

(** Dispatching a job. Every chunk of the file is sent exactly once, chunk
    [i] to worker [i] modulo the number of workers. The reply says "accepted"
    when every call succeeded, "partial" when some did and "error" when none did,
    in whatever order the calls return; the job is recorded with the number of
    its chunks unless every call failed, in which case it is forgotten. *)
Theorem start_dispatches_round_robin (dfs : DFS) (env : string) (probe : string → option string)
    (call : string → MapReduceRequest → res MapReduceReply) (sched : list nat)
    (request : StartMapReduceRequest) (m : Master) (file : FileMetadata) :
  fetchFileMetadataFromDFS dfs env m (sr_Handle request) = Ok file →
  fm_Chunks file ≠ [] → workerAddresses m ≠ [] → TrimSpace (sr_Plugin request) = "" →
  sched ≡ₚ seq 0 (length (fm_Chunks file)) →
  let sent := job_requests (workerAddresses m) (sr_Handle request) file in
  let total := length (fm_Chunks file) in
  let failed := failed_calls call sent in
  length sent = total ∧
  ∃ reply m', RPCStartMapReduce dfs env probe call (λ _, false) sched request m =
      Ret (reply, sent, m') ∧
    if decide (failed = total) then
      sp_Status reply = "error" ∧ m' = set_jobs (delete (Id (sr_Handle request)) (jobs m)) m
    else
      sp_Status reply = (if decide (failed = 0%nat) then "accepted" else "partial") ∧
      m' = set_jobs (<[Id (sr_Handle request) := Z.of_nat total]> (jobs m)) m.
Proof.
  intros Hf Hc Hw Hp Hs. cbv zeta. split; [apply length_imap|].
  rewrite (start_dispatches _ _ _ _ _ _ _ file) by done.
  destruct (dispatch_job_spec call sched (workerAddresses m) (sr_Handle request) file m Hw Hs)
    as (reply & m' & E & _ & H). by exists reply, m'.
Qed.

Lemma filter_split {A} (P : A → bool) (l : list A) :
  (length (filter (λ x, P x = true) l) + length (filter (λ x, P x = false) l) = length l)%nat.
Proof.
  induction l as [|x l IH]; [done|]. rewrite !filter_cons.
  destruct (P x); repeat case_decide; cbn; done || lia.
Qed.

Lemma size_list_to_set_le (l : list Z) : (size (list_to_set l : gset Z) ≤ length l)%nat.
Proof.
  induction l as [|x l IH]; [done|]. cbn [list_to_set length].
  rewrite size_union_alt, size_singleton.
  pose proof (subseteq_size (list_to_set l ∖ {[x]} : gset Z) (list_to_set l)) as Hle.
  specialize (Hle ltac:(set_solver)). lia.
Qed.

(** A partly dispatched job never completes. The master records the number
    of chunks of the file, not the number dispatched; when some dispatch failed,
    no sequence of submissions by the workers that did receive a chunk completes
    the job: nobody is notified, no result is written, and a query keeps
    answering that the job is in progress. *)
Theorem partial_dispatch_never_completes `{MapOrder} `{SortSlice} (dfs : DFS) (env : string)
    (probe : string → option string) (call : string → MapReduceRequest → res MapReduceReply)
    (sched : list nat) (request : StartMapReduceRequest) (m : Master) (file : FileMetadata)
    (now : string) (rs : list MapReduceResultRequest) :
  let id := Id (sr_Handle request) in
  let sent := job_requests (workerAddresses m) (sr_Handle request) file in
  let delivered := filter (λ q, call_failed call q = false) sent in
  fetchFileMetadataFromDFS dfs env m (sr_Handle request) = Ok file →
  fm_Chunks file ≠ [] → workerAddresses m ≠ [] → TrimSpace (sr_Plugin request) = "" →
  sched ≡ₚ seq 0 (length (fm_Chunks file)) →
  (0 < failed_calls call sent < length (fm_Chunks file))%nat →
  results_ok m → received id m = ∅ → resultDir m !! resultFileName id = None →
  for_handle id rs →
  indices rs ⊆ list_to_set ((λ q, mr_ChunkIndex q.2) <$> delivered) →
  ∃ reply m1, RPCStartMapReduce dfs env probe call (λ _, false) sched request m =
      Ret (reply, sent, m1) ∧ sp_Status reply = "partial" ∧
    submit_all now rs m1 = (replicate (length rs) None, store_all rs m1) ∧
    gp_Complete (RPCGetJobResult None id (store_all rs m1)) = false ∧
    gp_ErrorMessage (RPCGetJobResult None id (store_all rs m1)) = "job in progress".
Proof.
  cbv zeta. intros Hf Hc Hw Hp Hs Hpart Hok Hfresh Hdir Hrs Hsub.
  rewrite (start_dispatches _ _ _ _ _ _ _ file) by done.
  destruct (dispatch_job_spec call sched (workerAddresses m) (sr_Handle request) file m Hw Hs)
    as (reply & m1 & E & _ & Hcase).
  set (sent := job_requests _ _ _) in *.
  rewrite decide_False in Hcase by lia. destruct Hcase as [Hst ->].
  rewrite decide_False in Hst by lia. eexists reply, _. rewrite E.
  assert (length (filter (λ q, call_failed call q = false) sent) < length (fm_Chunks file))%nat
    as Hfew.
  { pose proof (filter_split (call_failed call) sent) as Hsplit. unfold failed_calls in Hpart.
    assert (length sent = length (fm_Chunks file)) by apply length_imap. lia. }
  set (m1 := set_jobs _ m).
  assert (submit_all now rs m1 = (replicate (length rs) None, store_all rs m1)) as Hsubmit.
  { eapply (submit_all_waiting now (Id (sr_Handle request))); [exact Hok| |exact Hrs|].
    - unfold m1. cbn. by rewrite lookup_insert_eq.
    - change (received (Id (sr_Handle request)) m1) with (received (Id (sr_Handle request)) m).
      rewrite Hfresh, (left_id_L ∅ (∪)). apply subseteq_size in Hsub.
      pose proof (size_list_to_set_le ((λ q, mr_ChunkIndex q.2) <$>
        filter (λ q, call_failed call q = false) sent)) as Hle.
      rewrite length_fmap in Hle. lia. }
  split_and!; [done|done|exact Hsubmit|..];
    rewrite store_all_frame; unfold RPCGetJobResult, m1; cbn [resultDir jobs set_results set_jobs];
    by rewrite Hdir, ?lookup_insert_eq.
Qed.

(** ** Witnesses *)

Definition example_handle : Handle := MkHandle 1 50.
Definition example_file : list byte := MapReduce.text_bytes "hello!".
Definition example_path : string := "/mapreduce/download_log_1-50.content".

(** A DFS with chunks of four bytes that stores one content file of six. *)
Definition example_dfs : DFS :=
  MkDFS (λ path, if bool_decide (path = example_path) then Ok (Some (MkInfo 6 2))
                 else Err (ErrMsg "not found"))
    (λ _ i, Ok (100 + i)) 4.
Definition example_read (_ : string) (off n : Z) : Worker.dfs_read :=
  let data := take (Z.to_nat n) (drop (Z.to_nat off) example_file) in
  Worker.MkRead (Z.of_nat (length data)) data None.
Definition example_master : Master := NewMaster "w1:1, w2:1" "" "c:1" ∅.
Definition example_meta : FileMetadata :=
  MkFileMeta example_handle "download_log_1-50.content" example_path 6 0 "" true []
    [MkChunk 0 0 4 example_path 100; MkChunk 1 4 2 example_path 101].
Definition example_request : StartMapReduceRequest := MkStart example_handle "".
(** Only the first worker can be reached. *)
Definition example_call (addr : string) (q : MapReduceRequest) : res MapReduceReply :=
  if bool_decide (addr = "w1:1") then Ok (Worker.RPCMapReduce q) else Err (ErrMsg "refused").
Definition example_result (c : Z) (out : string) : MapReduceResultRequest :=
  MkResult example_handle c "w1:1" "f" out "t".

Definition example_started : Master := set_jobs {[1 := 2]} example_master.
Definition example_stale : Master :=
  store_all [example_result 0 "old 1"; example_result 1 "old 2"] example_started.

Lemma job_collation_witness :
  let r := example_result 1 "b 2" in
  ∃ m1 m2 chunks msg,
    submit_all (H := canonical_order) (H0 := merge_sort_slice) "now"
      [example_result 0 "a 1"; example_result 0 "a 3"] example_started =
      ([None; None], m1) ∧
    RPCSubmitMapReduceResult (H := canonical_order) (H0 := merge_sort_slice)
      no_result_faults "now" r m1 =
      (result_success msg, notifyCoordinator example_handle (resultFileName 1) example_started, m2) ∧
    StronglySorted chunk_lt chunks.
Proof.
  destruct (job_collation (H := canonical_order) (H0 := merge_sort_slice) "now" 1 2
    [example_result 0 "a 1"; example_result 0 "a 3"] (example_result 1 "b 2") example_started)
    as (m1 & m2 & chunks & msg & E1 & _ & _ & E2 & _ & _ & Hs & _).
  - apply map_Forall_empty.
  - reflexivity.
  - by vm_compute.
  - repeat constructor.
  - by vm_compute.
  - exists m1, m2, chunks, msg. by split_and!.
Defined.

Lemma example_stale_ok : results_ok example_stale.
Proof. apply store_all_ok, map_Forall_empty. Qed.

Lemma stale_results_complete_early_witness :
  ∃ msg chunks,
    RPCSubmitMapReduceResult (H := canonical_order) (H0 := merge_sort_slice)
      no_result_faults "now" (example_result 0 "new 1") example_stale =
      (result_success msg, notifyCoordinator example_handle (resultFileName 1) example_stale,
       finished "now" example_handle chunks (store (example_result 0 "new 1") example_stale)) ∧
    chunkResult_of (example_result 1 "old 2") ∈ chunks.
Proof.
  destruct (stale_results_complete_early (H := canonical_order) (H0 := merge_sort_slice) "now" 1 2
    (example_result 0 "new 1") example_stale) as (msg & chunks & E & _ & Hold).
  - apply example_stale_ok.
  - by vm_compute.
  - by vm_compute.
  - reflexivity.
  - exists msg, chunks. split; [exact E|]. apply (Hold 1); [done|by vm_compute].
Defined.

Lemma chunks_cover_file_witness :
  ∃ meta pieces,
    fetchFileMetadataFromDFS example_dfs "" example_master example_handle = Ok meta ∧
    Z.of_nat (length (fm_Chunks meta)) = 2 ∧
    Forall2 (λ ci piece, ∀ i,
      Worker.readChunkData example_read false MapReduce.example_worker
        (MkMRRequest example_handle meta i ci) = Ret (Ok piece)) (fm_Chunks meta) pieces ∧
    concat pieces = example_file.
Proof.
  apply (chunks_cover_file example_dfs example_read "" "/mapreduce" ["/mapreduce/download_logs"]
    example_master MapReduce.example_worker example_handle example_file 2 (λ i, 100 + i)).
  1-2, 7-10: by vm_compute.
  - by vm_compute.
  - done.
  - by vm_compute.
  - by vm_compute.
  - intros off n _ _. cbn zeta. unfold example_read. cbn [Worker.read_n Worker.read_buffer Worker.read_err].
    split_and!; [done|by rewrite take_ge|done|by left].
Defined.

Lemma start_dispatches_round_robin_witness :
  ∃ reply m', RPCStartMapReduce example_dfs "" (λ _, None) example_call (λ _, false) [1; 0]%nat
      example_request example_master =
      Ret (reply, job_requests (workerAddresses example_master) example_handle example_meta, m') ∧
    sp_Status reply = "partial" ∧ m' = set_jobs (<[1 := 2]> (jobs example_master)) example_master.
Proof.
  destruct (start_dispatches_round_robin example_dfs "" (λ _, None) example_call [1; 0]%nat
    example_request example_master example_meta) as (_ & reply & m' & E & Hcase).
  - by vm_compute.
  - done.
  - by vm_compute.
  - by vm_compute.
  - apply Permutation_swap.
  - assert (failed_calls example_call (job_requests (workerAddresses example_master)
      (sr_Handle example_request) example_meta) = 1%nat) as Hf by (by vm_compute).
    rewrite Hf in Hcase. exists reply, m'. split; [exact E|exact Hcase].
Defined.

Lemma partial_dispatch_never_completes_witness :
  ∃ reply m1, RPCStartMapReduce example_dfs "" (λ _, None) example_call (λ _, false) [1; 0]%nat
      example_request example_master =
      Ret (reply, job_requests (workerAddresses example_master) example_handle example_meta, m1) ∧
    sp_Status reply = "partial" ∧
    submit_all (H := canonical_order) (H0 := merge_sort_slice) "now" [example_result 0 "a 1"] m1 =
      ([None], store_all [example_result 0 "a 1"] m1) ∧
    gp_Complete (RPCGetJobResult None 1 (store_all [example_result 0 "a 1"] m1)) = false ∧
    gp_ErrorMessage (RPCGetJobResult None 1 (store_all [example_result 0 "a 1"] m1)) =
      "job in progress".
Proof.
  apply (partial_dispatch_never_completes (H := canonical_order) (H0 := merge_sort_slice)
    example_dfs "" (λ _, None) example_call [1; 0]%nat example_request example_master example_meta
    "now" [example_result 0 "a 1"]).
  - by vm_compute.
  - done.
  - by vm_compute.
  - by vm_compute.
  - apply Permutation_swap.
  - by vm_compute.
  - apply map_Forall_empty.
  - by vm_compute.
  - by vm_compute.
  - repeat constructor.
  - by vm_compute.
Defined.

End Jobs.
