(* ===== verification/Coordinator.v ===== *)
(** The coordinator of [mrp/coordinator.go]: the RPC handlers clients and the
    master call, the upload of completed handles to the DFS and the dispatch of
    uploaded handles to the master. The DFS client and the master are
    parameters with a state of their own. *)

From S2P Require Import Prelude GoStrings Ring Json Codec Types Durable Worker Master.
From Stdlib Require Import Ascii.
From stdpp Require Import options.

#[local] Arguments String.append !_ _ / : simpl nomatch.

Module Coordinator.
Import GoStrings Codec Types Durable.

(** ** The DFS client *)

(** The calls the coordinator makes, each with the text of its error. *)
Record DFSOps (D : Type) := MkDFSOps {
  MkDir : string → D → D * option string;
  CreateFile : string → D → D * option string;
  WriteAt : string → list byte → D → D * option string
}.
Arguments MkDir {_} _ _ _.
Arguments CreateFile {_} _ _ _.
Arguments WriteAt {_} _ _ _ _.

(** What the client promises: a write at offset 0 overlays the file, creating a
    file leaves existing content alone, and no call touches another file. *)
Class DFSClient (D : Type) := {
  ops : DFSOps D;
  dfs_content : D → string → option (list byte);
  mkdir_content d p : dfs_content (MkDir ops p d).1 = dfs_content d;
  create_content d p q : dfs_content (CreateFile ops p d).1 q =
    if decide (p = q) then
      match dfs_content d q, (CreateFile ops p d).2 with
      | Some old, _ => Some old
      | None, None => Some []
      | None, Some _ => None
      end
    else dfs_content d q;
  write_content d p q bytes : dfs_content (WriteAt ops p bytes d).1 q =
    if decide (p = q) then
      match (WriteAt ops p bytes d).2 with
      | None => Some (bytes ++ drop (length bytes) (default [] (dfs_content d q)))
      | Some _ => dfs_content (WriteAt ops p bytes d).1 q
      end
    else dfs_content d q
}.

(** ** Paths *)

(** [path.Clean], component by component; [stack] is reversed. *)
Definition clean_step (rooted : bool) (stack : list string) (comp : string) : list string :=
  if bool_decide (comp = "") || bool_decide (comp = ".") then stack
  else if bool_decide (comp = "..") then
    match stack with
    | top :: stack' => if bool_decide (top = "..") then comp :: stack else stack'
    | [] => if rooted then [] else [comp]
    end
  else comp :: stack.

Definition path_clean (p : string) : string :=
  let rooted := HasPrefix p "/" in
  let comps := Join (rev (foldl (clean_step rooted) [] (Split p "/"))) "/" in
  let s := (if rooted then "/" else "") +:+ comps in
  if bool_decide (s = "") then "." else s.

(** Everything up to the last slash. *)
Fixpoint dir_part (s : string) : string :=
  match s with
  | EmptyString => EmptyString
  | String c s' =>
      if bool_decide (c = "/"%char) then String c (dir_part s')
      else if Contains s' "/" then String c (dir_part s') else EmptyString
  end.
Definition path_dir (p : string) : string := path_clean (dir_part p).

(** ** State *)

Record Coordinator := MkCoord {
  fsServerAddress : string;
  masterAddress : string;
  durableLog : DurableBuffer
}.
Definition set_log (d : DurableBuffer) (c : Coordinator) : Coordinator :=
  MkCoord (fsServerAddress c) (masterAddress c) d.

Definition defaultDownloadBufferSize : Z := 1024.
Definition defaultMasterAddress : string := "localhost:1235".

Definition NewCoordinator (now : Z) (fileServer masterEnv : string) (dir : Dir) : Coordinator :=
  MkCoord fileServer (Worker.envOrDefault masterEnv defaultMasterAddress)
    (NewDurableBuffer now defaultDownloadBufferSize true minute (5 * minute) hour dir).

(** ** Clients *)

Definition RPCPing (message : string) : string :=
  if bool_decide (message = "") then "pong" else "pong: " +:+ message.

Definition RPCGenerateDownloadHandle (now : Z) (c : Coordinator) : HandleReply * Coordinator :=
  let r := GenerateHandle now (durableLog c) in
  (MkHandleReply "success" 0 "" r.1, set_log r.2 c).

Definition RPCForwardDownload (spin : nat) (now : Z) (request : DownloadRequest)
    (c : Coordinator) : outcome (DownloadReply * Coordinator) :=
  r ← Write spin now (MkContent (dr_Handle request) (dr_Eof request) (dr_Data request))
        (durableLog c);
  match r with
  | (Some err, d) =>
      let code := match err with
                  | ErrInvalidHandle => 400
                  | ErrBufferFull => 400
                  | _ => 500
                  end in
      Ret (MkDownloadReply "error" code ("failed to write content: " +:+ Master.error_text err),
           set_log d c)
  | (None, d) => Ret (MkDownloadReply "success" 0 "", set_log d c)
  end.

(** ** The master *)

Definition RPCNotifyJobComplete (request : JobCompleteRequest) (c : Coordinator) :
    JobCompleteReply * Coordinator :=
  (MkCompleteReply "success" 0 ""
     ("acknowledged completion of handle " +:+ fmt_d (Id (jr_Handle request))),
   set_log (ReleaseProcessingHandle (jr_Handle request) (durableLog c)) c).

Section coordinator.
Context `{MapOrder} `{SortSlice}.

(** *** Dispatch; [W] is the state of the master. *)

Definition runMapReduceForHandle {W} (call : StartMapReduceRequest → W → res StartMapReduceReply * W)
    (c : Coordinator) (handle : Handle) (plugin : string) (w : W) : option go_error * W :=
  if bool_decide (TrimSpace (masterAddress c) = "") then
    (Some (ErrMsg "master address is empty"), w)
  else
    match call (MkStart handle plugin) w with
    | (Err e, w) => (Some e, w)
    | (Ok reply, w) =>
        if bool_decide (sp_Status reply = "error") then
          (Some (ErrMsg ("master failed to start map reduce: " +:+ sp_ErrorMessage reply)), w)
        else (None, w)
    end.

Definition start_handle {W} (call : StartMapReduceRequest → W → res StartMapReduceReply * W)
    (plugin : string) (acc : Coordinator * option go_error * W) (handle : Handle) :
    Coordinator * option go_error * W :=
  let '(c, err, w) := acc in
  match runMapReduceForHandle call c handle plugin w with
  | (None, w) => (c, err, w)
  | (Some e, w) =>
      (set_log (ReleaseProcessingHandle handle (durableLog c)) c, join_errors err e, w)
  end.

Definition startMapReduce {W} (call : StartMapReduceRequest → W → res StartMapReduceReply * W)
    (now : Z) (plugin : string) (c : Coordinator) (w : W) : Coordinator * option go_error * W :=
  let r := GetUploadedHandles now (durableLog c) in
  foldl (start_handle call plugin) (set_log r.2 c, None, w) r.1.

(** *** Upload *)

(** [encoding/json] writes a byte slice in base64 and leaves out an empty one
    that is marked [omitempty]. *)
Definition base64_char (n : N) : ascii :=
  ascii_of_N (if n <? 26 then 65 + n else if n <? 52 then 71 + n
              else if n <? 62 then n - 4 else if n =? 62 then 43 else 47)%N.
Fixpoint base64 (bs : list byte) : string :=
  match bs with
  | [] => ""
  | [a] =>
      let n := (N_of_ascii a * 16)%N in
      String (base64_char (n / 64)) (String (base64_char (n mod 64)) "==")
  | [a; b] =>
      let n := ((N_of_ascii a * 256 + N_of_ascii b) * 4)%N in
      String (base64_char (n / 4096)) (String (base64_char (n / 64 mod 64))
        (String (base64_char (n mod 64)) "="))
  | a :: b :: c :: bs =>
      let n := ((N_of_ascii a * 256 + N_of_ascii b) * 256 + N_of_ascii c)%N in
      String (base64_char (n / 262144)) (String (base64_char (n / 4096 mod 64))
        (String (base64_char (n / 64 mod 64)) (String (base64_char (n mod 64)) (base64 bs))))
  end.

Definition metadata_json (m : CompletedHandleMetadata) : Json.json :=
  Json.JObj ([("handle", Master.handle_json (cm_Handle m));
    ("source_log", Json.JStr (cm_SourceLog m)); ("source_path", Json.JStr (cm_SourcePath m));
    ("size_bytes", Json.JInt (cm_SizeBytes m)); ("mod_unix_nano", Json.JInt (cm_ModUnixNano m));
    ("uploaded_at", Json.JStr (cm_UploadedAt m)); ("completed", Json.JBool (cm_Completed m))] ++
    match cm_RawContent m with
    | [] => []
    | raw => [("raw_content", Json.JStr (base64 raw))]
    end).

Fixpoint text_bytes (s : string) : list byte :=
  match s with EmptyString => [] | String c s => c :: text_bytes s end.

Definition remotePath (prefixEnv : string) (h : Handle) : string :=
  TrimRight (Worker.envOrDefault prefixEnv "/mapreduce") ["/"%char] +:+ "/" +:+
  TrimSuffix (logFileName h) (Ext (logFileName h)) +:+ ".json".

(** A missing log file only logs a warning here. [logPath] joins the log
    directory, [uploadedAt] is the formatted time. *)
Definition buildHandleMetadataPayload (fl : Faults) (logPath : string → string)
    (prefixEnv uploadedAt : string) (h : Handle) (d : DurableBuffer) :
    res (list byte * string) :=
  let logFile := logFileName h in
  if f_info fl logFile then Err (ErrMsg "stat") else
  let info := match d_files (logDir d) !! logFile with
              | Some f => (Z.of_nat (length (content f)), modtime f)
              | None => (0, 0)
              end in
  let metadata := MkMeta h logFile (logPath logFile) info.1 info.2 uploadedAt true [] in
  Ok (text_bytes (Json.print (metadata_json metadata)), remotePath prefixEnv h).

Definition decodeDlogContent (fl : Faults) (h : Handle) (d : DurableBuffer) :
    outcome (res (list byte)) :=
  match d_files (logDir d) !! logFileName h with
  | Some f => if f_open fl (logFileName h) then Ret (Err (ErrMsg "open"))
              else decodeDlogFileContent (content f)
  | None => Ret (Err (ErrMsg "open: no such file or directory"))
  end.

Context `{DFSClient D}.

(** [ensureRemoteDirectoryExists]: every ancestor is created; errors that say
    it exists are ignored. *)
Fixpoint make_dirs (current : string) (parts : list string) (dfs : D) : D * option go_error :=
  match parts with
  | [] => (dfs, None)
  | part :: parts =>
      if bool_decide (TrimSpace part = "") then make_dirs current parts dfs
      else
        let current := current +:+ "/" +:+ part in
        match MkDir ops current dfs with
        | (dfs, None) => make_dirs current parts dfs
        | (dfs, Some err) =>
            if Contains (ToLower err) "exist" || Contains (ToLower err) "already" then
              make_dirs current parts dfs
            else (dfs, Some (ErrMsg err))
        end
  end.

Definition ensureRemoteDirectoryExists (remoteFilePath : string) (dfs : D) :
    D * option go_error :=
  let remoteDir := path_dir (TrimSpace remoteFilePath) in
  if bool_decide (remoteDir = ".") || bool_decide (remoteDir = "") || bool_decide (remoteDir = "/")
  then (dfs, None)
  else make_dirs "" (Split (Trim remoteDir ["/"%char]) "/") dfs.

(** [CreateFile] for which an existing file is no error. *)
Definition create_file (p : string) (dfs : D) : D * option go_error :=
  match CreateFile ops p dfs with
  | (dfs, None) => (dfs, None)
  | (dfs, Some err) =>
      if Contains (ToLower err) "exist" then (dfs, None) else (dfs, Some (ErrMsg err))
  end.

Definition contentPath (remote : string) : string := TrimSuffix remote ".json" +:+ ".content".

(** The body of the upload loop for one handle: [None] when it was uploaded. *)
Definition upload_handle (fl : Faults) (logPath : string → string) (prefixEnv uploadedAt : string)
    (cancelled : Handle → bool) (d : DurableBuffer) (h : Handle) (dfs : D) :
    outcome (D * option go_error) :=
  if cancelled h then Ret (dfs, Some (ErrMsg "context canceled")) else
  match buildHandleMetadataPayload fl logPath prefixEnv uploadedAt h d with
  | Err e => Ret (dfs, Some (ErrWrap ("failed to build metadata payload for handle " +:+
                               fmt_d (Id h)) e))
  | Ok (payload, remote) =>
      match ensureRemoteDirectoryExists remote dfs with
      | (dfs, Some e) => Ret (dfs, Some (ErrWrap ("failed to ensure remote directory for " +:+ remote) e))
      | (dfs, None) =>
          match create_file (contentPath remote) dfs with
          | (dfs, Some e) => Ret (dfs, Some (ErrWrap ("failed to create content file " +:+ contentPath remote) e))
          | (dfs, None) =>
              r ← decodeDlogContent fl h d;
              match r with
              | Err e => Ret (dfs, Some (ErrWrap ("failed to decode dlog for handle " +:+ fmt_d (Id h)) e))
              | Ok data =>
                  match WriteAt ops (contentPath remote) data dfs with
                  | (dfs, Some e) => Ret (dfs, Some (ErrWrap ("failed to write content file " +:+ contentPath remote) (ErrMsg e)))
                  | (dfs, None) =>
                      match create_file remote dfs with
                      | (dfs, Some e) => Ret (dfs, Some (ErrWrap ("failed to create remote path " +:+ remote) e))
                      | (dfs, None) =>
                          match WriteAt ops remote payload dfs with
                          | (dfs, Some e) => Ret (dfs, Some (ErrWrap ("failed to write remote metadata " +:+ remote) (ErrMsg e)))
                          | (dfs, None) => Ret (dfs, None)
                          end
                      end
                  end
              end
          end
      end
  end.

(** The loop: the handles uploaded, the joined errors, the DFS. *)
Fixpoint upload_all (fl : Faults) (logPath : string → string) (prefixEnv uploadedAt : string)
    (cancelled : Handle → bool) (d : DurableBuffer) (hs : list Handle) (err : option go_error)
    (dfs : D) : outcome (list Handle * option go_error * D) :=
  match hs with
  | [] => Ret ([], err, dfs)
  | h :: hs =>
      r ← upload_handle fl logPath prefixEnv uploadedAt cancelled d h dfs;
      match r with
      | (dfs, Some e) =>
          upload_all fl logPath prefixEnv uploadedAt cancelled d hs (join_errors err e) dfs
      | (dfs, None) =>
          r ← upload_all fl logPath prefixEnv uploadedAt cancelled d hs err dfs;
          Ret (h :: r.1.1, r.1.2, r.2)
      end
  end.

Definition uploadFileToStorage (spin : nat) (fl : Faults) (clock : nat → Z) (now : Z)
    (logPath : string → string) (prefixEnv uploadedAt : string) (cancelled : Handle → bool)
    (c : Coordinator) (dfs : D) : outcome (Coordinator * option go_error * D) :=
  if bool_decide (TrimSpace (fsServerAddress c) = "") then Ret (c, None, dfs)
  else
    f ← Flush spin fl clock (durableLog c);
    let d := f.1 in
    match GetCompletedHandleForRetransmission d with
    | [] => Ret (set_log d c, None, dfs)
    | hs =>
        r ← upload_all fl logPath prefixEnv uploadedAt cancelled d hs None dfs;
        let d := match r.1.1 with
                 | [] => d
                 | uploaded => MarkHandlesUploaded fl now uploaded d
                 end in
        Ret (set_log d c, r.1.2, r.2)
    end.

(** The two halves of a poll tick, as [RPCTriggerProcessing] runs them. *)
Definition RPCTriggerProcessing {W} (spin : nat) (fl : Faults) (clock : nat → Z) (now : Z)
    (logPath : string → string) (prefixEnv uploadedAt : string) (cancelled : Handle → bool)
    (call : StartMapReduceRequest → W → res StartMapReduceReply * W) (now' : Z) (plugin : string)
    (c : Coordinator) (dfs : D) (w : W) :
    outcome (TriggerProcessingReply * Coordinator * D * W) :=
  r ← uploadFileToStorage spin fl clock now logPath prefixEnv uploadedAt cancelled c dfs;
  match r with
  | (c, Some e, dfs) =>
      Ret (MkTriggerReply "error" ("upload to DFS failed: " +:+ Master.error_text e) 0, c, dfs, w)
  | (c, None, dfs) =>
      match startMapReduce call now' plugin c w with
      | (c, Some e, w) =>
          Ret (MkTriggerReply "error" ("dispatch to master failed: " +:+ Master.error_text e) 0,
               c, dfs, w)
      | (c, None, w) => Ret (MkTriggerReply "success" "" 0, c, dfs, w)
      end
  end.

End coordinator.

End Coordinator.
