(* ===== verification/Upload.v ===== *)
(** Correctness of the coordinator: what an upload delivers and what it keeps for
    a retry, and the dispatch of uploaded handles to the master. *)

From S2P Require Import Prelude GoStrings Ring Json Codec Types Durable.
From S2P Require Import WritePath Registry Recovery Worker Master Coordinator.
From Stdlib Require Import Ascii.
From stdpp Require Import options.

#[local] Arguments String.append !_ _ / : simpl nomatch.

Module Upload.
Import GoStrings Codec Types Durable Registry Coordinator.

(** ** Remote paths *)

Definition remote_base (prefixEnv : string) (h : Handle) : string :=
  TrimRight (Worker.envOrDefault prefixEnv "/mapreduce") ["/"%char] +:+ "/" +:+
  "download_log_" +:+ fmt_d (Id h) +:+ "-" +:+ fmt_d (TimeStamp h).

Lemma remotePath_base env h : remotePath env h = remote_base env h +:+ ".json".
Proof.
  unfold remotePath, remote_base. rewrite logFileName_Ext. unfold logFileName.
  rewrite !append_assoc, TrimSuffix_append. by rewrite <- !append_assoc.
Qed.
Lemma contentPath_base env h : contentPath (remotePath env h) = remote_base env h +:+ ".content".
Proof. unfold contentPath. by rewrite remotePath_base, TrimSuffix_append. Qed.

Lemma remote_base_inj env h h' e :
  handle_ok h → handle_ok h' →
  remote_base env h +:+ String "." e = remote_base env h' +:+ String "." e → h = h'.
Proof.
  intros [Hh _] [Hh' _] E. unfold remote_base in E. rewrite <- !append_assoc in E.
  repeat (apply (inj (String.append _)) in E).
  apply (fmt_d_dash_inj (Id h) (Id h')) in E as [Ei E]; [|lia..].
  apply (fmt_d_sep_inj "." (TimeStamp h) (TimeStamp h')) in E as [Et _]; [|done].
  destruct h, h'; cbn in *; by subst.
Qed.

Lemma content_not_json a b : a +:+ ".content" ≠ b +:+ ".json".
Proof. intros E. apply (f_equal string_rev) in E. rewrite !string_rev_append in E. done. Qed.

(** ** One handle *)

Section upload.
Context `{MapOrder} `{SortSlice} `{DFSClient D}.
Implicit Types (dfs : D) (d : DurableBuffer).

Lemma make_dirs_content cur parts dfs :
  dfs_content (make_dirs cur parts dfs).1 = dfs_content dfs.
Proof.
  revert cur dfs. induction parts as [|part parts IH]; intros cur dfs; [done|]. cbn [make_dirs].
  case_match; [apply IH|]. pose proof (mkdir_content dfs (cur +:+ "/" +:+ part)) as Hm.
  destruct (MkDir ops _ dfs) as [dfs' [err|]]; cbn in Hm; [|by rewrite IH].
  case_match; [by rewrite IH|done].
Qed.

Lemma ensure_dirs_content p dfs :
  dfs_content (ensureRemoteDirectoryExists p dfs).1 = dfs_content dfs.
Proof. unfold ensureRemoteDirectoryExists. case_match; [done|apply make_dirs_content]. Qed.

Lemma create_file_content p q dfs :
  (p ≠ q → dfs_content (create_file p dfs).1 q = dfs_content dfs q) ∧
  default [] (dfs_content (create_file p dfs).1 q) = default [] (dfs_content dfs q).
Proof.
  unfold create_file. pose proof (create_content dfs p q) as Hc.
  assert (dfs_content (CreateFile ops p dfs).1 q =
    dfs_content (match CreateFile ops p dfs with
      | (dfs, None) => (dfs, @None go_error)
      | (dfs, Some err) => if Contains (ToLower err) "exist" then (dfs, None)
                           else (dfs, Some (ErrMsg err)) end).1 q) as <-.
  { destruct (CreateFile ops p dfs) as [dfs' [err|]]; [|done].
    by destruct (Contains (ToLower err) "exist"). }
  rewrite Hc. case_decide; [|done]. split; [done|].
  destruct (dfs_content dfs q); [done|]. by case_match.
Qed.

Lemma write_content_other p q bytes dfs :
  p ≠ q → dfs_content (WriteAt ops p bytes dfs).1 q = dfs_content dfs q.
Proof. intros Hne. by rewrite write_content, decide_False. Qed.

Lemma decodeDlogContent_total fl h d : ∃ r, decodeDlogContent fl h d = Ret r.
Proof.
  unfold decodeDlogContent. destruct (d_files _ !! _) as [f|]; [|by eexists].
  case_match; [by eexists|apply decode_total].
Qed.

(** What uploading one handle does: it ends; on success the decoded data has
    been written to the handle's content file; no other file than its two is
    touched. *)
Lemma upload_handle_spec fl logPath env at_ cancelled d h dfs :
  ∃ dfs' e, upload_handle fl logPath env at_ cancelled d h dfs = Ret (dfs', e) ∧
    (∀ q, q ≠ remote_base env h +:+ ".content" → q ≠ remote_base env h +:+ ".json" →
       dfs_content dfs' q = dfs_content dfs q) ∧
    (e = None → ∃ data, decodeDlogContent fl h d = Ret (Ok data) ∧
       dfs_content dfs' (remote_base env h +:+ ".content") =
         Some (data ++ drop (length data)
           (default [] (dfs_content dfs (remote_base env h +:+ ".content"))))).
Proof.
  unfold upload_handle. destruct (cancelled h); [by eexists _, _|].
  unfold buildHandleMetadataPayload. destruct (f_info fl _); [by eexists _, _|].
  cbv zeta. rewrite contentPath_base, !remotePath_base.
  set (cp := remote_base env h +:+ ".content"). set (jp := remote_base env h +:+ ".json").
  assert (cp ≠ jp) as Hne by apply content_not_json.
  pose proof (ensure_dirs_content jp dfs) as F1.
  destruct (ensureRemoteDirectoryExists jp dfs) as [dfs1 [e|]]; cbn in F1.
  { eexists _, _. split_and!; [done|by rewrite F1|done]. }
  pose proof (λ q, create_file_content cp q dfs1) as F2. rewrite F1 in F2.
  destruct (create_file cp dfs1) as [dfs2 [e|]]; cbn in F2.
  { eexists _, _. split_and!; [done| |done]. intros q Hq _. by apply F2. }
  destruct (decodeDlogContent_total fl h d) as [[data|e] E]; rewrite E; cbn [mbind outcome_bind].
  2: { eexists _, _. split_and!; [done| |done]. intros q Hq _. by apply F2. }
  assert (∀ q, cp ≠ q → dfs_content (WriteAt ops cp data dfs2).1 q = dfs_content dfs q) as F3.
  { intros q Hq. rewrite write_content_other by done. by apply F2. }
  pose proof (write_content dfs2 cp cp data) as F3'. rewrite decide_True in F3' by done.
  destruct (WriteAt ops cp data dfs2) as [dfs3 [e|]]; cbn in F3, F3'.
  { eexists _, _. split_and!; [done| |done]. intros q Hq _. by apply F3. }
  rewrite (proj2 (F2 cp)) in F3'.
  pose proof (λ q, proj1 (create_file_content jp q dfs3)) as F4.
  destruct (create_file jp dfs3) as [dfs4 [e|]]; cbn in F4.
  { eexists _, _. split_and!; [done| |done]. intros q Hq Hq'. rewrite F4 by done. by apply F3. }
  pose proof (λ q, write_content_other jp q
    (text_bytes (Json.print (metadata_json (MkMeta h (logFileName h) (logPath (logFileName h))
      (match d_files (logDir d) !! logFileName h with
       | Some f => (Z.of_nat (length (content f)), modtime f) | None => (0, 0) end).1
      (match d_files (logDir d) !! logFileName h with
       | Some f => (Z.of_nat (length (content f)), modtime f) | None => (0, 0) end).2 at_ true []))))
    dfs4) as F5.
  destruct (WriteAt ops jp _ dfs4) as [dfs5 e]; cbn in F5.
  assert (∀ q, q ≠ cp → q ≠ jp → dfs_content dfs5 q = dfs_content dfs q) as Hframe.
  { intros q Hq Hq'. rewrite F5, F4 by done. by apply F3. }
  destruct e as [e|]; eexists _, _; (split_and!; [done|exact Hframe|]); [done|].
  intros _. exists data. split; [done|]. by rewrite F5, F4.
Qed.

(** The data of [h] is in the DFS. *)
Definition delivered (fl : Faults) (env : string) (d : DurableBuffer) (dfs dfs' : D)
    (h : Handle) : Prop :=
  ∃ data, decodeDlogContent fl h d = Ret (Ok data) ∧
    dfs_content dfs' (contentPath (remotePath env h)) =
      Some (data ++ drop (length data)
        (default [] (dfs_content dfs (contentPath (remotePath env h))))).

Definition untouched (env : string) (hs : list Handle) (dfs dfs' : D) : Prop :=
  ∀ q, Forall (λ h, q ≠ remote_base env h +:+ ".content" ∧ q ≠ remote_base env h +:+ ".json") hs →
    dfs_content dfs' q = dfs_content dfs q.

Lemma untouched_content env h hs dfs dfs' :
  untouched env hs dfs dfs' → handle_ok h → Forall handle_ok hs → h ∉ hs →
  dfs_content dfs' (contentPath (remotePath env h)) =
    dfs_content dfs (contentPath (remotePath env h)).
Proof.
  intros Hun Hh Hhs Hnin. apply Hun. rewrite contentPath_base. rewrite Forall_forall in *.
  intros h' Hin. split; [|apply content_not_json].
  intros E%remote_base_inj; [by subst|done|by apply Hhs].
Qed.

Lemma upload_all_spec fl logPath env at_ cancelled d hs err dfs :
  NoDup hs → Forall handle_ok hs →
  ∃ U err' dfs', upload_all fl logPath env at_ cancelled d hs err dfs = Ret (U, err', dfs') ∧
    U ⊆ hs ∧ (is_Some err → is_Some err') ∧ (∀ h, h ∈ hs → h ∉ U → is_Some err') ∧
    Forall (delivered fl env d dfs dfs') U ∧ untouched env hs dfs dfs'.
Proof.
  intros Hnd Hok. revert err dfs. induction Hnd as [|h hs Hnin Hnd IH]; intros err dfs; cbn [upload_all].
  { eexists _, _, _. split_and!; [done|done|done|by intros h Hh; inversion Hh|constructor|done]. }
  apply Forall_cons in Hok as [Hh Hok]. specialize (IH Hok).
  destruct (upload_handle_spec fl logPath env at_ cancelled d h dfs) as (dfs1 & e & -> & Hfr & Hdel).
  cbn [mbind outcome_bind].
  assert (∀ U dfs2, Forall (delivered fl env d dfs1 dfs2) U → U ⊆ hs →
    Forall (delivered fl env d dfs dfs2) U) as Hlift.
  { intros U dfs2 HU Hsub. rewrite Forall_forall in *. intros h' Hh'.
    destruct (HU h' Hh') as (data & E & Hc). exists data. split; [done|]. rewrite Hc.
    do 4 f_equal. rewrite contentPath_base in *.
    apply Hfr; [|apply content_not_json]. intros E'%remote_base_inj; [|auto..].
    by subst; apply Hnin, Hsub. }
  assert (∀ dfs2, untouched env hs dfs1 dfs2 → untouched env (h :: hs) dfs dfs2) as Hun.
  { intros dfs2 Hun q [[Hq Hq'] Hqs]%Forall_cons. rewrite Hun by done. by apply Hfr. }
  destruct e as [e|].
  - destruct (IH (join_errors err e) dfs1) as (U & err' & dfs2 & -> & Hsub & He & Hleft & HU & Hu).
    assert (is_Some err') as Herr.
    { apply He. destruct err as [[]|]; by eexists. }
    eexists U, err', dfs2. split_and!; [done|set_solver|done|done|by apply Hlift|by apply Hun].
  - destruct (IH err dfs1) as (U & err' & dfs2 & -> & Hsub & He & Hleft & HU & Hu).
    cbn [mbind outcome_bind fst snd]. eexists (h :: U), err', dfs2.
    split_and!; [done|set_solver|done| | |by apply Hun].
    + intros h' [->|Hin]%elem_of_cons Hni; [set_solver|]. apply (Hleft h'); set_solver.
    + constructor; [|by apply Hlift]. destruct (Hdel eq_refl) as (data & E & Hc).
      exists data. split; [done|]. rewrite (untouched_content env h hs dfs1 dfs2) by done.
      by rewrite contentPath_base.
Qed.

Lemma elem_of_completed d h :
  h ∈ GetCompletedHandleForRetransmission d ↔ handles d !! h = Some true.
Proof.
  unfold GetCompletedHandleForRetransmission. rewrite sort_slice_perm, list_elem_of_fmap. split.
  - intros ([h' b] & -> & [Hb Hin]%list_elem_of_filter). apply elem_of_map_entries in Hin.
    cbn in *. by destruct b.
  - intros Hh. exists (h, true). split; [done|]. apply list_elem_of_filter.
    split; [done|]. by apply elem_of_map_entries.
Qed.

Lemma NoDup_completed d : NoDup (GetCompletedHandleForRetransmission d).
Proof.
  unfold GetCompletedHandleForRetransmission. rewrite sort_slice_perm.
  eapply sublist_NoDup; [apply (NoDup_fst_map_entries (handles d))|].
  apply fmap_sublist, sublist_filter.
Qed.

Lemma Mark_file fl now hs d h :
  handle_ok h → Forall handle_ok hs → h ∉ hs →
  d_files (logDir (MarkHandlesUploaded fl now hs d)) !! logFileName h =
    d_files (logDir d) !! logFileName h.
Proof.
  intros Hh Hhs Hnin. unfold MarkHandlesUploaded. cbn [logDir set_logDir].
  rewrite Recovery.remove_files_other.
  - destruct (logFileName_not_registry h). rewrite saveUploadedHandles_files by done.
    clear. induction hs as [|h' hs IH] using rev_ind; [done|]. by rewrite foldl_snoc.
  - rewrite Forall_forall in Hhs. intros h' Hin E%logFileName_inj; [by subst|done|by apply Hhs].
Qed.

Lemma upload_spec (spin : nat) (fl : Faults) (clock : nat → Z) (now : Z)
    (logPath : string → string) (env at_ : string) (cancelled : Handle → bool)
    (c : Coordinator) (dfs : D) (d1 : DurableBuffer) (e1 : option go_error) :
  TrimSpace (fsServerAddress c) ≠ "" →
  Flush spin fl clock (durableLog c) = Ret (d1, e1) →
  map_Forall (λ h _, handle_ok h) (handles d1) →
  ∃ c' err dfs',
    uploadFileToStorage spin fl clock now logPath env at_ cancelled c dfs = Ret (c', err, dfs') ∧
    let d' := durableLog c' in
    ∀ h,
      if decide (handles d1 !! h = Some true) then
        (uploadedHandles d' !! h = Some now ∧ handles d' !! h = None ∧
         delivered fl env d1 dfs dfs' h) ∨
        (uploadedHandles d' !! h = uploadedHandles d1 !! h ∧ handles d' !! h = Some true ∧
         d_files (logDir d') !! logFileName h = d_files (logDir d1) !! logFileName h ∧ is_Some err)
      else
        uploadedHandles d' !! h = uploadedHandles d1 !! h ∧ handles d' !! h = handles d1 !! h.
Proof.
  intros Hfs Hflush Hok. unfold uploadFileToStorage. rewrite bool_decide_false, Hflush by done.
  cbn [mbind outcome_bind fst snd].
  set (hs := GetCompletedHandleForRetransmission d1).
  assert (Forall handle_ok hs) as Hhs.
  { apply Forall_forall. intros h Hh%elem_of_completed. by apply (Hok h true). }
  destruct (upload_all_spec fl logPath env at_ cancelled d1 hs None dfs (NoDup_completed d1) Hhs)
    as (U & err & dfs' & E & Hsub & _ & Hleft & HU & _).
  assert (∃ c', (match hs with
    | [] => Ret (set_log d1 c, None, dfs)
    | h :: l => r ← upload_all fl logPath env at_ cancelled d1 (h :: l) None dfs;
      Ret (set_log (match r.1.1 with [] => d1 | u => MarkHandlesUploaded fl now u d1 end) c,
           r.1.2, r.2) end) = Ret (c', err, dfs') ∧
      durableLog c' = match U with [] => d1 | _ => MarkHandlesUploaded fl now U d1 end) as Hres.
  { destruct hs as [|h0 hs0].
    - cbn in E. injection E as [= <- <- <-]. by eexists.
    - rewrite E. cbn [mbind outcome_bind fst snd]. eexists. split; [done|]. by destruct U. }
  destruct Hres as (c' & Hrun & Hd'). exists c', err, dfs'. split; [exact Hrun|].
  cbn zeta. rewrite Hd'. clear Hrun Hd' c'. intros h.
  assert (Forall handle_ok U) as HokU.
  { rewrite Forall_forall in *. intros x Hx. apply Hhs. by apply Hsub. }
  destruct U as [|u U'] eqn:EU.
  { case_decide as Hc; [right|done]. split_and!; [done|done|done|].
    apply (Hleft h); [by apply elem_of_completed|by apply not_elem_of_nil]. }
  rewrite <- EU in *. destruct (MarkHandlesUploaded_facts fl now U d1) as (_ & _ & Hu & Hh).
  rewrite Hu, Hh. destruct (decide (h ∈ U)) as [Hin|Hnin].
  - assert (handles d1 !! h = Some true) as Hc by (apply elem_of_completed; by apply Hsub).
    rewrite decide_True by done. left. rewrite Forall_forall in HU. auto.
  - case_decide as Hc; [right|done]. split_and!; [done|done| |].
    + apply Mark_file; [by apply (Hok h true)|done|done].
    + apply (Hleft h); [by apply elem_of_completed|done].
Qed.

(** ** Properties *)

(** C15: an upload loses nothing that its flush has written. The coordinator knows a
    DFS, its ring represents a queue and its handles are well-formed. Whatever the
    DFS and the log files do, the flush and the upload end. The flush changes no registry and
    only adds to the log files: to that of a handle the records of the handle that
    were queued and whose lifetime has not ended, or, when it reports an error, some
    beginning of them (the rest is lost, and the upload goes on with what the file
    holds). Every handle that was completed when the upload began is afterwards
    either registered as uploaded, with the data decoded from its log after the flush
    written to its content file in the DFS, or still completed, with its registration
    as before, its log as the flush left it and an error reported, so that the next
    upload tries it again; handles that were not completed are not uploaded. *)
Theorem upload_loses_nothing (spin : nat) (fl : Faults) (clock : nat → Z) (now : Z)
    (logPath : string → string) (env at_ : string) (cancelled : Handle → bool)
    (c : Coordinator) (dfs : D) (q : list Content) :
  let d := durableLog c in
  TrimSpace (fsServerAddress c) ≠ "" →
  Ring.ring_repr (log d) q → WritePath.handles_ok q →
  map_Forall (λ h _, handle_ok h) (handles d) →
  ∃ d1 e1 c' err dfs',
    Flush (S spin) fl clock d = Ret (d1, e1) ∧
    uploadFileToStorage (S spin) fl clock now logPath env at_ cancelled c dfs =
      Ret (c', err, dfs') ∧
    (∀ h, handle_ok h →
       WritePath.grown e1 (file_content (logDir d) (logFileName h))
         (file_content (logDir d1) (logFileName h))
         (log_bytes (WritePath.of_handle h (WritePath.live_contents clock d 0 q)))) ∧
    let d' := durableLog c' in
    ∀ h,
      if decide (handles d !! h = Some true) then
        (uploadedHandles d' !! h = Some now ∧ handles d' !! h = None ∧
         delivered fl env d1 dfs dfs' h) ∨
        (uploadedHandles d' !! h = uploadedHandles d !! h ∧ handles d' !! h = Some true ∧
         d_files (logDir d') !! logFileName h = d_files (logDir d1) !! logFileName h ∧ is_Some err)
      else
        uploadedHandles d' !! h = uploadedHandles d !! h ∧ handles d' !! h = handles d !! h.
Proof.
  cbv zeta. intros Hfs Hr Hq Hok.
  destruct (WritePath.Flush_grows spin fl clock (durableLog c) q Hr Hq) as (d1 & e1 & E & Hd1 & _ & Hg).
  assert (handles d1 = handles (durableLog c) ∧ uploadedHandles d1 = uploadedHandles (durableLog c))
    as [Eh Eu] by (by rewrite Hd1).
  destruct (upload_spec (S spin) fl clock now logPath env at_ cancelled c dfs d1 e1 Hfs E)
    as (c' & err & dfs' & Eup & Hall); [by rewrite Eh|].
  rewrite Eh, Eu in Hall. exists d1, e1, c', err, dfs'. by split_and!.
Qed.

Lemma ingested_data_ok (spin : nat) (ws : list (Z * Content)) (clock : nat → Z)
    (now : Z) (logPath : string → string) (env at_ : string) (cancelled : Handle → bool)
    (c : Coordinator) (dfs : D) (h : Handle) (q : list Content) :
  let d := durableLog c in
  TrimSpace (fsServerAddress c) ≠ "" →
  Ring.ring_repr (log d) q → WritePath.handles_ok q → WritePath.of_handle h q = [] →
  map_Forall (λ h _, handle_ok h) (handles d) →
  file_content (logDir d) (logFileName h) = [] →
  dfs_content dfs (contentPath (remotePath env h)) = None →
  handle_ok h → Id h ≠ 0 →
  Forall (λ w, CId w.2 = h ∧ Z.of_nat (length (Data w.2)) < 2 ^ 32 ∧
               isHandleExpired w.1 h d = false) ws →
  Exists (λ w, Eof w.2 = true) ws →
  (∀ j, isHandleExpired (clock j) h d = false) →
  Z.of_nat (length q + length ws) <= Ring.Cap (log d) →
  ∃ d1 c' err dfs',
    WritePath.run_writes (S spin) ws d = Ret (None, d1) ∧
    uploadFileToStorage (S spin) no_faults clock now logPath env at_ cancelled (set_log d1 c) dfs =
      Ret (c', err, dfs') ∧
    (err = None →
     dfs_content dfs' (contentPath (remotePath env h)) = Some (ws.*2 ≫= Data) ∧
     uploadedHandles (durableLog c') !! h = Some now).
Proof.
  cbv zeta. intros Hfs Hr Hq Hqh Hok Hfile Hfresh Hh Hid Hws Heof Hclock Hfit.
  destruct (WritePath.written_flushed spin ws clock h (durableLog c) q)
    as (d1 & d2 & E1 & E2 & Hf & Hrec & Hall & Hhs); try done.
  destruct (upload_spec (S spin) no_faults clock now logPath env at_ cancelled (set_log d1 c) dfs
    d2 None Hfs E2) as (c' & err & dfs' & E & Hspec).
  { rewrite Hhs. apply map_Forall_lookup. intros h' b. rewrite Recovery.register_lookup.
    rewrite Forall_forall in Hall.
    case_decide as Hx1; [|case_decide as Hx2].
    - apply Exists_exists in Hx1 as (x & Hx & Hx1 & _). intros _. rewrite <- Hx1. by rewrite (Hall x Hx).
    - apply Exists_exists in Hx2 as (x & Hx & Hx2). intros _. rewrite <- Hx2. by rewrite (Hall x Hx).
    - apply Hok. }
  exists d1, c', err, dfs'. split_and!; [done|done|]. intros ->.
  specialize (Hspec h). rewrite decide_True in Hspec.
  - destruct Hspec as [(Hup & _ & data & Hdec & Hcon)|(_ & _ & _ & [])]; [|done].
    split; [|done]. rewrite Hcon, Hfresh. cbn [default]. rewrite drop_nil, (right_id_L [] (++)).
    f_equal. unfold decodeDlogContent, file_content in *.
    destruct (d_files (logDir d2) !! logFileName h) as [f|]; [|done].
    cbn [f_open no_faults] in Hdec. rewrite Hf, decode_log_bytes in Hdec by done. congruence.
  - rewrite Hhs. apply WritePath.register_complete; [done|]. left. by apply Exists_fmap.
Qed.

(** C11: data a client hands in reaches the DFS. The records of a handle written
    without overflow, the last marked as the end, and uploaded within the
    lifetime of the handle: the upload ends, and unless it reports an error for
    some handle, the content file of this handle in the DFS is the concatenation
    of the data of its records, and the handle is registered as uploaded. *)
Theorem ingested_data_reaches_dfs (spin : nat) (ws : list (Z * Content)) (clock : nat → Z)
    (now : Z) (logPath : string → string) (env at_ : string) (cancelled : Handle → bool)
    (c : Coordinator) (dfs : D) (h : Handle) (q : list Content) :
  let d := durableLog c in
  TrimSpace (fsServerAddress c) ≠ "" →
  Ring.ring_repr (log d) q → WritePath.handles_ok q → WritePath.of_handle h q = [] →
  map_Forall (λ h _, handle_ok h) (handles d) →
  file_content (logDir d) (logFileName h) = [] →
  dfs_content dfs (contentPath (remotePath env h)) = None →
  handle_ok h → Id h ≠ 0 →
  Forall (λ w, CId w.2 = h ∧ Z.of_nat (length (Data w.2)) < 2 ^ 32 ∧
               isHandleExpired w.1 h d = false) ws →
  Exists (λ w, Eof w.2 = true) ws →
  (∀ j, isHandleExpired (clock j) h d = false) →
  Z.of_nat (length q + length ws) <= Ring.Cap (log d) →
  ∃ d1 c' err dfs',
    WritePath.run_writes (S spin) ws d = Ret (None, d1) ∧
    uploadFileToStorage (S spin) no_faults clock now logPath env at_ cancelled (set_log d1 c) dfs =
      Ret (c', err, dfs') ∧
    (err = None →
     dfs_content dfs' (contentPath (remotePath env h)) = Some (ws.*2 ≫= Data) ∧
     uploadedHandles (durableLog c') !! h = Some now).
Proof. apply ingested_data_ok. Qed.

(** A handle whose log is gone blocks triggered processing. When the log
    file of a completed handle is missing (its records expired before they were
    flushed), the metadata step only warns but the decoding step fails: the
    trigger reports an error and dispatches nothing, not even the handles that
    were uploaded, and it leaves the handle completed and its log missing, so
    every later trigger fails in the same way. *)
Theorem missing_log_blocks_processing {W} (spin : nat) (fl : Faults) (clock : nat → Z) (now : Z)
    (logPath : string → string) (env at_ : string) (cancelled : Handle → bool)
    (call : StartMapReduceRequest → W → res StartMapReduceReply * W) (now' : Z) (plugin : string)
    (c : Coordinator) (dfs : D) (w : W) (d1 : DurableBuffer) (e1 : option go_error) (h : Handle) :
  TrimSpace (fsServerAddress c) ≠ "" →
  Flush spin fl clock (durableLog c) = Ret (d1, e1) →
  map_Forall (λ h _, handle_ok h) (handles d1) →
  handles d1 !! h = Some true → d_files (logDir d1) !! logFileName h = None →
  ∃ reply c' dfs',
    RPCTriggerProcessing spin fl clock now logPath env at_ cancelled call now' plugin c dfs w =
      Ret (reply, c', dfs', w) ∧
    tp_Status reply = "error" ∧ handles (durableLog c') !! h = Some true ∧
    d_files (logDir (durableLog c')) !! logFileName h = None.
Proof.
  intros Hfs Hflush Hok Hc Hno. unfold RPCTriggerProcessing.
  destruct (upload_spec spin fl clock now logPath env at_ cancelled c dfs d1 e1 Hfs Hflush Hok)
    as (c' & err & dfs' & E & Hspec). rewrite E. cbn [mbind outcome_bind].
  specialize (Hspec h). rewrite decide_True in Hspec by done.
  destruct Hspec as [(_ & _ & data & Hdec & _)|(_ & Hh & Hf & [e ->])].
  - unfold decodeDlogContent in Hdec. by rewrite Hno in Hdec.
  - eexists _, _, _. split_and!; [done|done|done|]. by rewrite Hf.
Qed.

End upload.

(** ** Dispatch *)

Section dispatch.
Context `{MapOrder} `{SortSlice}.

(** A master that answers by [answer]; the calls it gets are recorded. *)
Definition record_call (answer : StartMapReduceRequest → res StartMapReduceReply)
    (rq : StartMapReduceRequest) (w : list StartMapReduceRequest) :
    res StartMapReduceReply * list StartMapReduceRequest :=
  (answer rq, w ++ [rq]).

Definition refused (answer : StartMapReduceRequest → res StartMapReduceReply) (plugin : string)
    (h : Handle) : bool :=
  match answer (MkStart h plugin) with
  | Err _ => true
  | Ok reply => bool_decide (sp_Status reply = "error")
  end.

Lemma start_handles_spec answer plugin hs c err w :
  TrimSpace (masterAddress c) ≠ "" →
  ∃ c' err', foldl (start_handle (record_call answer) plugin) (c, err, w) hs =
      (c', err', w ++ ((λ h, MkStart h plugin) <$> hs)) ∧
    masterAddress c' = masterAddress c ∧
    durableLog c' = set_processingHandles (processingHandles (durableLog c')) (durableLog c) ∧
    (is_Some err' ↔ is_Some err ∨ Exists (λ h, refused answer plugin h = true) hs) ∧
    (∀ h, processingHandles (durableLog c') !! h =
       if decide (h ∈ hs ∧ refused answer plugin h = true) then None
       else processingHandles (durableLog c) !! h).
Proof.
  intros Hm. revert c err w Hm. induction hs as [|h hs IH]; intros c err w Hm; cbn [foldl].
  { exists c, err. split_and!; [by rewrite fmap_nil, (right_id_L [] (++))|done|by destruct c as [? ? []]| |].
    - rewrite Exists_nil. tauto.
    - intros h. rewrite decide_False; [done|]. intros [Hin _]. inversion Hin. }
  assert (∃ c1 err1, start_handle (record_call answer) plugin (c, err, w) h =
    (c1, err1, w ++ [MkStart h plugin]) ∧ masterAddress c1 = masterAddress c ∧
    durableLog c1 = set_processingHandles (processingHandles (durableLog c1)) (durableLog c) ∧
    (is_Some err1 ↔ is_Some err ∨ refused answer plugin h = true) ∧
    processingHandles (durableLog c1) = if refused answer plugin h
      then delete h (processingHandles (durableLog c)) else processingHandles (durableLog c))
    as (c1 & err1 & -> & Hm1 & Hd1 & He1 & Hp1).
  { unfold start_handle, runMapReduceForHandle, record_call, refused.
    rewrite bool_decide_false by done.
    assert (∀ e : go_error, is_Some (join_errors err e)) as Hj.
    { intros e. destruct err as [[]|]; by eexists. }
    destruct (answer _) as [reply|e]; [case_bool_decide|];
      eexists _, _; (split_and!; [done|done|by destruct c as [? ? []]| |done]); naive_solver. }
  destruct (IH c1 err1 (w ++ [MkStart h plugin])) as (c' & err' & -> & Hm' & Hd' & He' & Hp').
  { by rewrite Hm1. }
  exists c', err'. split_and!.
  - by rewrite fmap_cons, <- (assoc_L (++)).
  - congruence.
  - rewrite Hd', Hd1. done.
  - rewrite He', He1, Exists_cons. tauto.
  - intros h'. rewrite Hp', Hp1.
    destruct (decide (h' = h)) as [->|Hne].
    + destruct (refused answer plugin h) eqn:Er.
      * rewrite lookup_delete_eq, (decide_True (P := h ∈ h :: hs ∧ true = true)) by
          (split; [by left|done]). by case_decide.
      * rewrite !decide_False by (by intros []). done.
    + assert ((if refused answer plugin h then delete h (processingHandles (durableLog c))
        else processingHandles (durableLog c)) !! h' = processingHandles (durableLog c) !! h') as ->.
      { case_match; [by rewrite lookup_delete_ne|done]. }
      apply decide_ext. rewrite elem_of_cons. naive_solver.
Qed.

Lemma startMapReduce_spec answer now plugin c w :
  TrimSpace (masterAddress c) ≠ "" →
  ∃ hs c' err,
    startMapReduce (record_call answer) now plugin c w =
      (c', err, w ++ ((λ h, MkStart h plugin) <$> hs)) ∧
    StronglySorted handle_le hs ∧ NoDup hs ∧
    (∀ h, h ∈ hs ↔ available now (durableLog c) h) ∧
    durableLog c' = set_processingHandles (processingHandles (durableLog c')) (durableLog c) ∧
    (is_Some err ↔ Exists (λ h, refused answer plugin h = true) hs) ∧
    (∀ h, processingHandles (durableLog c') !! h =
       if decide (available now (durableLog c) h) then
         if refused answer plugin h then None else Some now
       else processingHandles (durableLog c) !! h).
Proof.
  intros Hm. unfold startMapReduce.
  destruct (GetUploadedHandles_facts now (durableLog c)) as (E & Hs & Hnd & Hin & Hp).
  set (hs := (GetUploadedHandles now (durableLog c)).1) in *.
  set (d1 := (GetUploadedHandles now (durableLog c)).2) in *.
  destruct (start_handles_spec answer plugin hs (set_log d1 c) None w Hm)
    as (c' & err & Hrun & _ & Hd & He & Hproc).
  cbn [durableLog set_log] in *.
  exists hs, c', err. split_and!; [done|done|done|done| | |].
  - rewrite Hd, E. done.
  - rewrite He. split; [|auto]. intros [[]|?]; done.
  - intros h. rewrite Hproc, Hp. pose proof (Hin h) as Hih.
    destruct (refused answer plugin h); repeat case_decide; intuition congruence.
Qed.

(** ** Properties of the dispatch *)

(** What a dispatch round does. The master is asked to start exactly the
    uploaded handles that nobody holds or whose lease has run out, each once, in
    order of ids and timestamps, with the requested plugin. A handle the master
    refuses, or that does not reach it, is released at once; every other handle
    of the round is leased at the poll's clock reading, no other lease and
    nothing else of the log changes, and the round reports an error exactly when
    the master refused some handle. *)
Theorem startMapReduce_dispatches (answer : StartMapReduceRequest → res StartMapReduceReply)
    (now : Z) (plugin : string) (c : Coordinator) (w : list StartMapReduceRequest) :
  TrimSpace (masterAddress c) ≠ "" →
  ∃ hs c' err,
    startMapReduce (record_call answer) now plugin c w =
      (c', err, w ++ ((λ h, MkStart h plugin) <$> hs)) ∧
    StronglySorted handle_le hs ∧ NoDup hs ∧
    (∀ h, h ∈ hs ↔ available now (durableLog c) h) ∧
    durableLog c' = set_processingHandles (processingHandles (durableLog c')) (durableLog c) ∧
    (is_Some err ↔ Exists (λ h, refused answer plugin h = true) hs) ∧
    (∀ h, processingHandles (durableLog c') !! h =
       if decide (available now (durableLog c) h) then
         if refused answer plugin h then None else Some now
       else processingHandles (durableLog c) !! h).
Proof. apply startMapReduce_spec. Qed.

(** A finished job is started again. When the master notifies the
    coordinator that the job of an uploaded handle is complete, whatever its
    status, the handle is released but stays registered as uploaded: the next
    dispatch round sends it to the master once more. *)
Theorem completed_job_redispatched (answer : StartMapReduceRequest → res StartMapReduceReply)
    (now : Z) (plugin : string) (request : JobCompleteRequest) (c : Coordinator) (t : Z) :
  TrimSpace (masterAddress c) ≠ "" →
  uploadedHandles (durableLog c) !! jr_Handle request = Some t →
  let '(reply, c1) := RPCNotifyJobComplete request c in
  jp_Status reply = "success" ∧
  MkStart (jr_Handle request) plugin ∈ (startMapReduce (record_call answer) now plugin c1 []).2.
Proof.
  intros Hm Hu. cbn [RPCNotifyJobComplete]. split; [done|].
  edestruct (startMapReduce_spec answer now plugin) as (hs & c' & err & -> & _ & _ & Hin & _);
    [|cbn [snd app]; apply list_elem_of_fmap; exists (jr_Handle request); split; [done|];
      apply Hin; split].
  - done.
  - by eexists.
  - unfold claimable. cbn. by rewrite lookup_delete_eq.
Qed.

End dispatch.

(** ** Witnesses *)

(** A DFS in memory: directories are not recorded, creating a file that exists
    is an error that says so. *)
Definition memory_ops : DFSOps (gmap string (list byte)) := {|
  MkDir := λ _ m, (m, None);
  CreateFile := λ p m, match m !! p with
                       | Some _ => (m, Some "file already exists")
                       | None => (<[p := []]> m, None)
                       end;
  WriteAt := λ p bytes m, (<[p := bytes ++ drop (length bytes) (default [] (m !! p))]> m, None)
|}.

#[refine] Instance memory_dfs : DFSClient (gmap string (list byte)) := {|
  ops := memory_ops;
  dfs_content := λ m p, m !! p
|}.
Proof.
  - done.
  - intros m p q. cbn. case_decide as E; [subst q|].
    + destruct (m !! p) eqn:E; cbn; [done|]. by rewrite lookup_insert_eq.
    + destruct (m !! p); cbn; [done|]. by rewrite lookup_insert_ne.
  - intros m p q bytes. cbn. case_decide as E; [subst q|]; cbn.
    + by rewrite lookup_insert_eq.
    + by rewrite lookup_insert_ne.
Defined.

Definition example_coordinator (d : DurableBuffer) : Coordinator :=
  MkCoord "dfs:9000" "master:1235" d.

(** The handle of [WritePath.example_handle] is completed, its log is there, and
    nothing is queued. *)
Definition example_completed : DurableBuffer :=
  set_handles {[WritePath.example_handle := true]}
    (set_logDir (Durable.MkDir true {[logFileName WritePath.example_handle :=
       MkFile (log_bytes WritePath.example_chunks.*2) 55]}) WritePath.example_buffer).

(** As above, with the log gone. *)
Definition example_missing : DurableBuffer :=
  set_handles {[WritePath.example_handle := true]} WritePath.example_buffer.

Lemma example_handles_ok :
  map_Forall (λ h _, handle_ok h) (handles example_completed).
Proof. apply map_Forall_singleton, WritePath.example_handle_ok. Qed.

Lemma example_upload_succeeds :
  match uploadFileToStorage (H := canonical_order) (H0 := merge_sort_slice) (H1 := memory_dfs)
      1 no_faults (λ _, 80) 90 (λ f, f) "" "now" (λ _, false)
      (example_coordinator example_completed) ∅ with
  | Ret (_, None, _) => true
  | _ => false
  end = true.
Proof. vm_compute. reflexivity. Qed.

(** As [WritePath.example_queued], completed, with log files that take two bytes of
    every write and fail. *)
Definition example_waiting : DurableBuffer :=
  set_handles {[WritePath.example_handle := true]} WritePath.example_queued.
Definition short_writes : Faults :=
  MkFaults false false (λ _, false) (λ _, false) (λ _, Some 2%nat) (λ _, false)
    (λ _, false) (λ _, false).

Lemma example_upload_cancelled :
  match uploadFileToStorage (H := canonical_order) (H0 := merge_sort_slice) (H1 := memory_dfs)
      1 short_writes (λ _, 80) 90 (λ f, f) "" "now" (λ _, true)
      (example_coordinator example_waiting) ∅ with
  | Ret (c', _, _) =>
      bool_decide (uploadedHandles (durableLog c') !! WritePath.example_handle = None) &&
      bool_decide (length (file_content (logDir (durableLog c'))
        (logFileName WritePath.example_handle)) = 2%nat)
  | _ => false
  end = true.
Proof. vm_compute. reflexivity. Qed.

(** An upload that succeeds, and one that is cancelled after its flush has failed. *)
Lemma upload_loses_nothing_witness :
  (∃ c' err dfs',
    uploadFileToStorage (H := canonical_order) (H0 := merge_sort_slice) (H1 := memory_dfs)
      1 no_faults (λ _, 80) 90 (λ f, f) "" "now" (λ _, false)
      (example_coordinator example_completed) ∅ = Ret (c', err, dfs') ∧
    uploadedHandles (durableLog c') !! WritePath.example_handle = Some 90) ∧
  (∃ c' err dfs',
    uploadFileToStorage (H := canonical_order) (H0 := merge_sort_slice) (H1 := memory_dfs)
      1 short_writes (λ _, 80) 90 (λ f, f) "" "now" (λ _, true)
      (example_coordinator example_waiting) ∅ = Ret (c', Some err, dfs') ∧
    handles (durableLog c') !! WritePath.example_handle = Some true ∧
    length (file_content (logDir (durableLog c')) (logFileName WritePath.example_handle)) = 2%nat).
Proof.
  split.
  - destruct (upload_loses_nothing (H := canonical_order) (H0 := merge_sort_slice)
      (H1 := memory_dfs) 0 no_faults (λ _, 80) 90 (λ f, f) "" "now" (λ _, false)
      (example_coordinator example_completed) ∅ [])
      as (d1 & e1 & c' & err & dfs' & _ & E & _ & Hall);
      [done|apply WritePath.example_ring|by apply Forall_nil|apply example_handles_ok|].
    exists c', err, dfs'. split; [exact E|].
    specialize (Hall WritePath.example_handle). rewrite decide_True in Hall by done.
    destruct Hall as [(Hu & _)|(_ & _ & _ & Herr)]; [exact Hu|].
    pose proof example_upload_succeeds as Hs. rewrite E in Hs. destruct Herr as [e ->]. done.
  - destruct (upload_loses_nothing (H := canonical_order) (H0 := merge_sort_slice)
      (H1 := memory_dfs) 0 short_writes (λ _, 80) 90 (λ f, f) "" "now" (λ _, true)
      (example_coordinator example_waiting) ∅ WritePath.example_queue)
      as (d1 & e1 & c' & err & dfs' & _ & E & _ & Hall);
      [done|apply WritePath.example_queued_ring|apply WritePath.example_queue_ok|
       apply map_Forall_singleton, WritePath.example_handle_ok|].
    specialize (Hall WritePath.example_handle). rewrite decide_True in Hall by done.
    pose proof example_upload_cancelled as Hs. rewrite E in Hs.
    apply andb_prop in Hs as [Hu%bool_decide_eq_true_1 Hl%bool_decide_eq_true_1].
    destruct Hall as [(Hu' & _)|(_ & Hh & _ & [e ->])]; [by rewrite Hu in Hu'|].
    exists c', e, dfs'. split; [exact E|]. split; [exact Hh|exact Hl].
Defined.

Lemma ingested_data_reaches_dfs_witness :
  ∃ d1 c' err dfs',
    WritePath.run_writes 1 WritePath.example_chunks WritePath.example_buffer = Ret (None, d1) ∧
    uploadFileToStorage (H := canonical_order) (H0 := merge_sort_slice) (H1 := memory_dfs)
      1 no_faults (λ _, 80) 90 (λ f, f) "" "now" (λ _, false)
      (set_log d1 (example_coordinator WritePath.example_buffer)) ∅ = Ret (c', err, dfs') ∧
    (err = None →
     dfs' !! contentPath (remotePath "" WritePath.example_handle) = Some ["h"; "i"; "!"]%char ∧
     uploadedHandles (durableLog c') !! WritePath.example_handle = Some 90).
Proof.
  apply (ingested_data_reaches_dfs (H := canonical_order) (H0 := merge_sort_slice)
    (H1 := memory_dfs) 0 WritePath.example_chunks (λ _, 80) 90 (λ f, f) "" "now" (λ _, false)
    (example_coordinator WritePath.example_buffer) ∅ WritePath.example_handle []).
  - done.
  - apply WritePath.example_ring.
  - constructor.
  - done.
  - apply map_Forall_empty.
  - done.
  - done.
  - apply WritePath.example_handle_ok.
  - done.
  - repeat constructor.
  - right. left. done.
  - done.
  - vm_compute. done.
Defined.

Lemma missing_log_blocks_processing_witness :
  ∃ reply c' dfs',
    RPCTriggerProcessing (H := canonical_order) (H0 := merge_sort_slice) (H1 := memory_dfs)
      1 no_faults (λ _, 80) 90 (λ f, f) "" "now" (λ _, false)
      (record_call (λ _, Err (ErrMsg "down"))) 95 "wc" (example_coordinator example_missing) ∅ [] =
      Ret (reply, c', dfs', []) ∧
    tp_Status reply = "error" ∧
    handles (durableLog c') !! WritePath.example_handle = Some true ∧
    d_files (logDir (durableLog c')) !! logFileName WritePath.example_handle = None.
Proof.
  apply (missing_log_blocks_processing (H := canonical_order) (H0 := merge_sort_slice)
    (H1 := memory_dfs) 1 no_faults (λ _, 80) 90 (λ f, f) "" "now" (λ _, false)
    (record_call (λ _, Err (ErrMsg "down"))) 95 "wc" (example_coordinator example_missing) ∅ []
    example_missing None WritePath.example_handle).
  - done.
  - vm_compute. reflexivity.
  - apply example_handles_ok.
  - done.
  - done.
Defined.

(** A master that refuses the handles with id 2. *)
Definition picky_master (rq : StartMapReduceRequest) : res StartMapReduceReply :=
  if Id (sr_Handle rq) =? 2 then Err (ErrMsg "refused") else Ok (MkStartReply "accepted" 0 "" "").

Definition example_registered : DurableBuffer :=
  set_uploadedHandles {[MkHandle 2 51 := 60; MkHandle 1 50 := 60]} WritePath.example_buffer.

Lemma startMapReduce_dispatches_witness :
  ∃ hs c' err,
    startMapReduce (H := canonical_order) (H0 := merge_sort_slice) (record_call picky_master)
      90 "wc" (example_coordinator example_registered) [] =
      (c', err, (λ h, MkStart h "wc") <$> hs) ∧
    processingHandles (durableLog c') !! MkHandle 1 50 = Some 90 ∧
    processingHandles (durableLog c') !! MkHandle 2 51 = None.
Proof.
  destruct (startMapReduce_dispatches (H := canonical_order) (H0 := merge_sort_slice)
    picky_master 90 "wc" (example_coordinator example_registered) [])
    as (hs & c' & err & E & _ & _ & _ & _ & _ & Hp).
  - done.
  - exists hs, c', err. split; [exact E|]. split.
    + exact (Hp (MkHandle 1 50)).
    + exact (Hp (MkHandle 2 51)).
Defined.

Lemma completed_job_redispatched_witness :
  MkStart (MkHandle 1 50) "wc" ∈
    (startMapReduce (H := canonical_order) (H0 := merge_sort_slice) (record_call picky_master)
       90 "wc" (RPCNotifyJobComplete (MkComplete (MkHandle 1 50) "out.json" "complete" "")
         (example_coordinator example_registered)).2 []).2.
Proof.
  apply (completed_job_redispatched (H := canonical_order) (H0 := merge_sort_slice)
    picky_master 90 "wc" (MkComplete (MkHandle 1 50) "out.json" "complete" "")
    (example_coordinator example_registered) 60).
  - done.
  - vm_compute. reflexivity.
Defined.

End Upload.
