(* ===== verification/System.v ===== *)
(** The parts put together: a job from its start at the master, over the workers,
    to the collated result and the notification of the coordinator, and the way
    of a client's data from the first record to that result. *)

From S2P Require Import Prelude GoStrings Ring Json Codec Types Durable.
From S2P Require Import WritePath Registry Recovery Worker MapReduce Master Jobs.
From S2P Require Import Coordinator Upload.
From Stdlib Require Import Ascii.
From stdpp Require Import functions list.
From stdpp Require Import options.

#[local] Open Scope Z_scope.
#[local] Arguments String.append !_ _ / : simpl nomatch.

Module System.
Import GoStrings Codec Types Master.

(** ** The workers *)

Abbreviation task := (string * MapReduceRequest)%type.

(** What the workers of a job depend on: their configuration by address, the
    DFS's [Read], and per request the order in which the partition writers finish
    and the time of the submission. *)
Record Cluster := MkCluster {
  worker : string → Worker.Worker;
  Read : string → Z → Z → Worker.dfs_read;
  writers : MapReduceRequest → list nat;
  clock : MapReduceRequest → string
}.

Section cluster.
Context `{MapOrder} `{SortSlice}.

(** The tasks in the order in which they finish, each on the disk of its worker:
    the submissions they make and the disks they leave. *)
Fixpoint run_tasks (cl : Cluster) (tasks : list task) (disks : string → Worker.Disk) :
    outcome (list MapReduceResultRequest * (string → Worker.Disk)) :=
  match tasks with
  | [] => Ret ([], disks)
  | q :: tasks =>
      r ← Worker.process_chunk Worker.no_io_faults (Read cl) false (writers cl q.2)
            (clock cl q.2) (worker cl q.1) q.2 (disks q.1);
      rest ← run_tasks cl tasks (<[q.1 := r.2]> disks);
      Ret (match r.1 with Some s => s :: rest.1 | None => rest.1 end, rest.2)
  end.

(** The workers run one plugin, can reach the DFS and the master, and have a
    valid number of partitions. *)
Definition cluster_ok (cl : Cluster) (mapf : string → string → list KeyValue)
    (reducef : string → list string → string) : Prop :=
  ∀ addr,
    Worker.mapf (worker cl addr) = mapf ∧ Worker.reducef (worker cl addr) = reducef ∧
    0 < Worker.nReduce (worker cl addr) ∧
    TrimSpace (Worker.fsServerAddr (worker cl addr)) ≠ "" ∧
    TrimSpace (Worker.masterAddress (worker cl addr)) ≠ "" ∧
    ∀ request, MapReduce.schedule (Worker.nReduce (worker cl addr)) (writers cl request).

(** The reduction of one piece of a file. *)
Definition piece_output (mapf : string → string → list KeyValue)
    (reducef : string → list string → string) (path : string) (piece : list byte) : string :=
  MapReduce.reduce_spec reducef (MapReduce.kv_norm <$> mapf path (Worker.bytes_text piece)).

(** The submission task [q] makes when its piece of the file is [piece]. *)
Definition submission_of (cl : Cluster) (mapf : string → string → list KeyValue)
    (reducef : string → list string → string) (q : task) (piece : list byte) :
    MapReduceResultRequest :=
  Worker.submission (worker cl q.1) (clock cl q.2) q.2
    (Worker.outputFileName (Id (mr_Handle q.2)) (mr_ChunkIndex q.2))
    (piece_output mapf reducef (Path (mr_ChunkInfo q.2)) piece).

Definition task_reads (cl : Cluster) (q : task) (piece : list byte) : Prop :=
  Worker.readChunkData (Read cl) false (worker cl q.1) q.2 = Ret (Ok piece).

Lemma run_tasks_ok cl mapf reducef tasks rs disks :
  cluster_ok cl mapf reducef → MapReduce.order_insensitive reducef →
  Forall2 (λ q r, ∃ piece, task_reads cl q piece ∧ r = submission_of cl mapf reducef q piece)
    tasks rs →
  ∃ disks', run_tasks cl tasks disks = Ret (rs, disks').
Proof.
  intros Hcl Hf Hall. revert disks. induction Hall as [|q r tasks rs (piece & Hr & ->) _ IH];
    intros disks; cbn [run_tasks]; [by eexists|].
  destruct (Hcl q.1) as (<- & <- & Hn & Hfs & Hm & Hs).
  destruct (MapReduce.process_chunk_ok (Read cl) (writers cl q.2) (clock cl q.2) (worker cl q.1)
    q.2 piece (disks q.1) Hn (Hs q.2) Hf Hm Hr) as (d' & -> & _).
  cbn [mbind outcome_bind fst snd]. destruct (IH (<[q.1 := d']> disks)) as [disks' ->].
  by eexists.
Qed.

(** ** The chunks of a finished job *)

(** The entries of the collated result, for the pieces of the file in order. *)
Definition job_chunks (cl : Cluster) (mapf : string → string → list KeyValue)
    (reducef : string → list string → string) (sent : list task) (pieces : list (list byte)) :
    list chunkResult :=
  zip_with (λ q piece, chunkResult_of (submission_of cl mapf reducef q piece)) sent pieces.

Lemma sorted_lt_NoDup l : StronglySorted Jobs.chunk_lt l → NoDup l.
Proof.
  induction 1 as [|x l Hs IH Hx]; constructor; [|done]. intros Hin.
  rewrite Forall_forall in Hx. specialize (Hx x Hin). unfold Jobs.chunk_lt in Hx. lia.
Qed.

Lemma sorted_lt_unique l l' :
  StronglySorted Jobs.chunk_lt l → StronglySorted Jobs.chunk_lt l' →
  (∀ x, x ∈ l ↔ x ∈ l') → l = l'.
Proof.
  intros Hs Hs' Hin. apply (StronglySorted_unique_strong Jobs.chunk_lt); [|done|done|].
  - intros x y _ _. unfold Jobs.chunk_lt. lia.
  - apply NoDup_Permutation; auto using sorted_lt_NoDup.
Qed.

(** With one submission per chunk the last one of a chunk is the only one. *)
Lemma latest_unique rs c r :
  NoDup (rr_ChunkIndex <$> rs) →
  Jobs.latest c rs = Some r ↔ r ∈ rs ∧ rr_ChunkIndex r = c.
Proof.
  intros Hnd. unfold Jobs.latest. induction rs as [|r' rs IH] using rev_ind.
  { split; [done|]. intros [Hin _]. by inversion Hin. }
  rewrite fmap_app in Hnd. apply NoDup_app in Hnd as (Hnd & Hdis & _).
  rewrite filter_app, filter_cons, filter_nil, elem_of_app, list_elem_of_singleton.
  assert (r ∈ rs → rr_ChunkIndex r ≠ rr_ChunkIndex r') as Hne.
  { intros Hin E. apply (Hdis (rr_ChunkIndex r)); [by apply list_elem_of_fmap_2|].
    rewrite E. by left. }
  case_decide as Hc.
  - rewrite last_snoc. split; [intros [= ->]; auto|]. intros [[Hin| ->] E]; [|done].
    exfalso. apply Hne; congruence.
  - rewrite (right_id_L [] (++)), IH by done. split; [tauto|]. intros [[?| ->] ?]; [done|].
    by exfalso.
Qed.

(** Submissions of a permutation of the tasks, each for its own chunk. *)
Lemma Forall2_permutation {A B} (P : A → B → Prop) l l' k :
  Forall2 P l k → l' ≡ₚ l → ∃ k', Forall2 P l' k' ∧ k' ≡ₚ k.
Proof.
  intros Hall Hp. revert k Hall. induction Hp as [|x l' l Hp IH|x y l|l1 l2 l3 H12 IH1 H23 IH2];
    intros k Hall.
  - exists k. inversion Hall. by subst.
  - inversion Hall as [|? b ? k1 Hb Hk]; subst. destruct (IH k1 Hk) as (k' & H1 & H2).
    exists (b :: k'). by split; [constructor|constructor].
  - inversion Hall as [|? b ? k1 Hb Hk]; subst. inversion Hk as [|? b' ? k2 Hb' Hk']; subst.
    exists (b' :: b :: k2). split; [by repeat constructor|constructor].
  - destruct (IH2 k Hall) as (k2 & Hk2 & E2). destruct (IH1 k2 Hk2) as (k1 & Hk1 & E1).
    exists k1. split; [done|]. by rewrite E1.
Qed.

(** A complete set of submissions, in any order of arrival, is collated when the
    last one arrives. *)
Lemma submissions_collated (now : string) (h : Handle) (n : nat)
    (rs expected : list MapReduceResultRequest) (m : Master) :
  Jobs.results_ok m → jobs m !! Id h = Some (Z.of_nat n) → Jobs.received (Id h) m = ∅ →
  Forall (λ r, rr_Handle r = h) expected → (0 < n)%nat →
  rr_ChunkIndex <$> expected = Z.of_nat <$> seq 0 n → rs ≡ₚ expected →
  ∃ m2,
    Jobs.submit_all now rs m =
      (replicate (n - 1) None ++ [notifyCoordinator h (resultFileName (Id h)) m], m2) ∧
    jobs m2 !! Id h = None ∧
    resultDir m2 !! resultFileName (Id h) =
      Some (Json.print_indent 0 (collated_json h (chunkResult_of <$> expected) now) +:+ Json.nl).
Proof.
  intros Hok Hn Hfresh Hh Hpos Hidx Hp.
  assert (length expected = n) as Hlen.
  { rewrite <- (length_fmap rr_ChunkIndex), Hidx, length_fmap. apply length_seq. }
  assert (NoDup (rr_ChunkIndex <$> expected)) as Hnd.
  { rewrite Hidx. apply (NoDup_fmap_2 Z.of_nat), NoDup_seq. }
  assert (NoDup (rr_ChunkIndex <$> rs)) as Hnd' by (by rewrite Hp).
  assert (length rs = n) as Hlen' by (by rewrite Hp).
  destruct rs as [|r0 rs0 _] using rev_ind; [cbn in Hlen'; lia|].
  rename r0 into r, rs0 into rs.
  assert (Jobs.for_handle (Id h) (rs ++ [r])) as Hfor.
  { unfold Jobs.for_handle. rewrite Hp. eapply Forall_impl; [exact Hh|]. by intros ? ->. }
  assert (rr_Handle r = h) as Hr.
  { rewrite Forall_forall in Hh. apply Hh. rewrite <- Hp. apply elem_of_app. right. by left. }
  rewrite length_app in Hlen'. cbn in Hlen'.
  assert (∀ l, NoDup (rr_ChunkIndex <$> l) → size (Jobs.indices l) = length l) as Hsize.
  { intros l Hl. unfold Jobs.indices. rewrite size_list_to_set by done. apply length_fmap. }
  assert (NoDup (rr_ChunkIndex <$> rs)) as Hnd1.
  { rewrite fmap_app in Hnd'. by apply NoDup_app in Hnd' as (? & _). }
  destruct (Jobs.collation_ok now (Id h) (Z.of_nat n) rs r m Hok Hn Hfresh Hfor)
    as (m1 & m2 & chunks & msg & E1 & _ & _ & E2 & Ej & Ed & Hs & Hin & _).
  { rewrite !Hsize by done. rewrite length_app. cbn. lia. }
  rewrite Hr in *. exists m2. split_and!.
  - replace (n - 1)%nat with (length rs) by lia.
    assert (∀ l m0, Jobs.submit_all now (l ++ [r]) m0 =
      let a := Jobs.submit_all now l m0 in
      let b := RPCSubmitMapReduceResult no_result_faults now r a.2 in
      (a.1 ++ [b.1.2], b.2)) as Happ.
    { intros l. induction l as [|x l IH]; intros m0; [done|]. cbn [Jobs.submit_all app].
      rewrite IH. done. }
    rewrite Happ, E1. cbn [fst snd]. by rewrite E2.
  - rewrite Ej. apply lookup_delete_eq.
  - rewrite Ed. do 5 f_equal. apply sorted_lt_unique; [done| |].
    + clear - Hidx. revert Hidx. generalize 0%nat at 1. clear. revert n.
      induction expected as [|x l IH]; intros n k E; [constructor|].
      destruct n as [|n]; [done|]. cbn in E. injection E as [= Ex El]. rewrite fmap_cons.
      constructor; [by apply (IH n (S k))|]. apply Forall_fmap, Forall_forall. intros y Hy.
      unfold Jobs.chunk_lt. cbn. rewrite Ex.
      assert (rr_ChunkIndex y ∈ Z.of_nat <$> seq (S k) n) as Hy'.
      { change (seq (S k) n) with (seq (S k) n) in El. rewrite <- El. by apply list_elem_of_fmap_2. }
      apply list_elem_of_fmap in Hy' as (i & -> & Hi%elem_of_seq). lia.
    + intros x. rewrite Hin, list_elem_of_fmap. split.
      * intros (c & r' & Hl & ->). apply latest_unique in Hl as [Hr' _]; [|done].
        exists r'. split; [done|]. by rewrite <- Hp.
      * intros (r' & -> & Hr'). exists (rr_ChunkIndex r'), r'. split; [|done].
        apply latest_unique; [done|]. split; [by rewrite Hp|done].
Qed.

(** The requests of a job against the pieces of the file its workers read. *)
Lemma job_requests_read cl mapf reducef targets h meta path k chunks pieces :
  cluster_ok cl mapf reducef →
  Forall2 (λ ci piece, Path ci = path ∧
    ∀ w i, TrimSpace (Worker.fsServerAddr w) ≠ "" →
      Worker.readChunkData (Read cl) false w (MkMRRequest h meta i ci) = Ret (Ok piece))
    chunks pieces →
  let sent := imap (λ i ci, (Jobs.assigned targets (k + i),
                MkMRRequest h meta (Z.of_nat (k + i)) ci)) chunks in
  let expected := zip_with (submission_of cl mapf reducef) sent pieces in
  Forall2 (λ q r, ∃ piece, task_reads cl q piece ∧ r = submission_of cl mapf reducef q piece)
    sent expected ∧
  Forall (λ r, rr_Handle r = h) expected ∧
  rr_ChunkIndex <$> expected = Z.of_nat <$> seq k (length chunks) ∧
  rr_OutputData <$> expected = piece_output mapf reducef path <$> pieces.
Proof.
  intros Hcl Hall. cbv zeta. revert k. induction Hall as [|ci piece chunks pieces [Hp Hr] _ IH]; intros k.
  { by repeat constructor. }
  specialize (IH (S k)). rewrite imap_cons.
  assert (imap ((λ i ci, (Jobs.assigned targets (k + i), MkMRRequest h meta (Z.of_nat (k + i)) ci))
      ∘ S) chunks =
    imap (λ i ci, (Jobs.assigned targets (S k + i), MkMRRequest h meta (Z.of_nat (S k + i)) ci))
      chunks) as ->.
  { apply imap_ext. intros i x _. cbn. by rewrite Nat.add_succ_r. }
  destruct IH as (H1 & H2 & H3 & H4). rewrite Nat.add_0_r. cbn [zip_with length seq].
  rewrite !fmap_cons, H3, H4. split_and!.
  - constructor; [|exact H1]. exists piece. split; [|done]. apply Hr. apply Hcl.
  - by constructor.
  - done.
  - cbn. by rewrite Hp.
Qed.

(** A job on the content file [contentFile] of [h] in the state [m] of the master
    gives the result of [file]. *)
Definition job_delivers (dfs : DFS) (cl : Cluster) (prefixEnv contentFile : string)
    (probe : string → option string) (m : Master) (h : Handle)
    (mapf : string → string → list KeyValue) (reducef : string → list string → string)
    (file : list byte) (K : Z) (dispatches : list nat) (now : string) : Prop :=
  ∃ reply sent m1 pieces,
    RPCStartMapReduce dfs prefixEnv probe (λ _ request, Ok (Worker.RPCMapReduce request))
      (λ _, false) dispatches (MkStart h "") m = Ret (reply, sent, m1) ∧
    sp_Status reply = "accepted" ∧ concat pieces = file ∧
    ∀ tasks disks, tasks ≡ₚ sent →
      ∃ rs disks' m2 chunks,
        run_tasks cl tasks disks = Ret (rs, disks') ∧
        Jobs.submit_all now rs m1 =
          (replicate (Z.to_nat K - 1) None ++ [notifyCoordinator h (resultFileName (Id h)) m1], m2) ∧
        jobs m2 !! Id h = None ∧
        RPCGetJobResult None (Id h) m2 =
          MkJobResult "ok" "" true
            (Json.print_indent 0 (collated_json h chunks now) +:+ Json.nl) ∧
        cr_ChunkIndex <$> chunks = Z.of_nat <$> seq 0 (Z.to_nat K) ∧
        cr_OutputData <$> chunks = piece_output mapf reducef contentFile <$> pieces.

Lemma job_ok (dfs : DFS) (cl : Cluster) (prefixEnv prefix : string)
    (prefixes : list string) (probe : string → option string) (m : Master) (h : Handle)
    (mapf : string → string → list KeyValue) (reducef : string → list string → string)
    (file : list byte) (K : Z) (handle : Z → Z) (dispatches : list nat) (now : string) :
  let S := ChunkMaxSizeInByte dfs in
  let L := Z.of_nat (length file) in
  let contentFile := TrimRight prefix ["/"%char] +:+ "/" +:+ "download_log_" +:+ fmt_d (Id h) +:+
                       "-" +:+ fmt_d (TimeStamp h) +:+ ".content" in
  TrimSpace (fsServerAddress m) ≠ "" → resolveUploadPrefixes prefixEnv = prefix :: prefixes →
  GetFile dfs contentFile = Ok (Some (MkInfo L K)) →
  (∀ j, 0 <= j < K → GetChunkHandle dfs contentFile j = Ok (handle j)) →
  0 < S → 0 < L → (K - 1) * S < L <= K * S → K * S <= max_i64 →
  TrimSpace contentFile ≠ "" → Jobs.reads (Read cl) (TrimSpace contentFile) file →
  workerAddresses m ≠ [] → cluster_ok cl mapf reducef → MapReduce.order_insensitive reducef →
  Jobs.results_ok m → Jobs.received (Id h) m = ∅ →
  dispatches ≡ₚ seq 0 (Z.to_nat K) →
  job_delivers dfs cl prefixEnv contentFile probe m h mapf reducef file K dispatches now.
Proof.
  cbv zeta. unfold job_delivers. intros Hfs Hpre Hfile Hch HS HL HK Hmax Hpath Hread Hw Hcl Hf Hok Hfresh Hd.
  destruct (Jobs.fetch_layout dfs (Read cl) prefixEnv prefix prefixes m h file K handle)
    as (meta & pieces & Hmeta & Hlen & Hp & Hcat); [done..|].
  assert (0 < K) as HK0 by nia. assert (length (fm_Chunks meta) = Z.to_nat K) as Hlen' by lia.
  destruct (job_requests_read cl mapf reducef (workerAddresses m) h meta _ 0 _ _ Hcl Hp)
    as (Htasks & Hhandle & Hidx & Hout).
  change (imap _ (fm_Chunks meta)) with (Jobs.job_requests (workerAddresses m) h meta) in *.
  set (sent := Jobs.job_requests _ _ _) in *. set (expected := zip_with _ sent pieces) in *.
  set (accept := λ (_ : string) request, Ok (Worker.RPCMapReduce request)).
  assert (Jobs.failed_calls accept sent = 0%nat) as Hfail.
  { unfold Jobs.failed_calls. by rewrite filter_none by (apply Forall_true; done). }
  destruct (Jobs.dispatch_job_spec accept dispatches (workerAddresses m) h meta m Hw)
    as (reply & m1 & Hrun & _ & Hcase); [by rewrite Hlen'|].
  fold sent in Hrun, Hcase. rewrite Hfail in Hcase.
  rewrite decide_False, decide_True in Hcase by (done || lia). destruct Hcase as [Hst ->].
  eexists reply, sent, _, pieces. split_and!; [|done|done|].
  { rewrite (Jobs.start_dispatches _ _ _ _ _ _ _ meta); [exact Hrun|done| |done|done].
    intros E. rewrite E in Hlen'. cbn in Hlen'. lia. }
  intros tasks disks Hperm.
  destruct (Forall2_permutation _ _ tasks _ Htasks Hperm) as (rs & Hrs & Hrsp).
  destruct (run_tasks_ok cl mapf reducef tasks rs disks Hcl Hf Hrs) as [disks' Hdisks].
  rewrite Hlen' in *.
  destruct (submissions_collated now h (Z.to_nat K) rs expected
    (set_jobs (<[Id h := Z.of_nat (Z.to_nat K)]> (jobs m)) m)) as (m2 & E & Hj & Hres); try done.
  { cbn. by rewrite lookup_insert_eq. }
  { lia. }
  exists rs, disks', m2, (chunkResult_of <$> expected). split_and!; [done|done|done| | |].
  - unfold RPCGetJobResult. by rewrite Hres.
  - rewrite <- list_fmap_compose. exact Hidx.
  - rewrite <- list_fmap_compose. exact Hout.
Qed.

(** C5: a job from start to result, with nothing failing. The DFS holds the content file of a handle, which
    is not empty, in chunks, and the master has received no result for the handle's
    id before; the master starts the job and every worker accepts its requests.
    Whatever the order in which the calls return, the tasks finish, the partition
    writers of a task finish and the submissions arrive, whatever files the
    workers' disks hold, and however the workers partition, the job ends: the
    last submission, and no earlier one, notifies the coordinator, the job is
    forgotten, and the result a client then gets is the collation, in the order of
    the file, of the specified reduction of each piece, where the pieces put
    together are the file byte for byte. *)
Theorem job_end_to_end (dfs : DFS) (cl : Cluster) (prefixEnv prefix : string)
    (prefixes : list string) (probe : string → option string) (m : Master) (h : Handle)
    (mapf : string → string → list KeyValue) (reducef : string → list string → string)
    (file : list byte) (K : Z) (handle : Z → Z) (dispatches : list nat) (now : string) :
  let S := ChunkMaxSizeInByte dfs in
  let L := Z.of_nat (length file) in
  let contentFile := TrimRight prefix ["/"%char] +:+ "/" +:+ "download_log_" +:+ fmt_d (Id h) +:+
                       "-" +:+ fmt_d (TimeStamp h) +:+ ".content" in
  TrimSpace (fsServerAddress m) ≠ "" → resolveUploadPrefixes prefixEnv = prefix :: prefixes →
  GetFile dfs contentFile = Ok (Some (MkInfo L K)) →
  (∀ j, 0 <= j < K → GetChunkHandle dfs contentFile j = Ok (handle j)) →
  0 < S → 0 < L → (K - 1) * S < L <= K * S → K * S <= max_i64 →
  TrimSpace contentFile ≠ "" → Jobs.reads (Read cl) (TrimSpace contentFile) file →
  workerAddresses m ≠ [] → cluster_ok cl mapf reducef → MapReduce.order_insensitive reducef →
  Jobs.results_ok m → Jobs.received (Id h) m = ∅ →
  dispatches ≡ₚ seq 0 (Z.to_nat K) →
  ∃ reply sent m1 pieces,
    RPCStartMapReduce dfs prefixEnv probe (λ _ request, Ok (Worker.RPCMapReduce request))
      (λ _, false) dispatches (MkStart h "") m = Ret (reply, sent, m1) ∧
    sp_Status reply = "accepted" ∧ concat pieces = file ∧
    ∀ tasks disks, tasks ≡ₚ sent →
      ∃ rs disks' m2 chunks,
        run_tasks cl tasks disks = Ret (rs, disks') ∧
        Jobs.submit_all now rs m1 =
          (replicate (Z.to_nat K - 1) None ++ [notifyCoordinator h (resultFileName (Id h)) m1], m2) ∧
        jobs m2 !! Id h = None ∧
        RPCGetJobResult None (Id h) m2 =
          MkJobResult "ok" "" true
            (Json.print_indent 0 (collated_json h chunks now) +:+ Json.nl) ∧
        cr_ChunkIndex <$> chunks = Z.of_nat <$> seq 0 (Z.to_nat K) ∧
        cr_OutputData <$> chunks = piece_output mapf reducef contentFile <$> pieces.
Proof. apply job_ok. Qed.

End cluster.

(** ** From the client to the result *)

(** The number of chunks of [S] bytes a file of [L] bytes takes. *)
Definition chunk_count (S L : Z) : Z := (L + S - 1) / S.

Lemma chunk_count_bounds S L :
  0 < S → 0 < L → (chunk_count S L - 1) * S < L <= chunk_count S L * S.
Proof.
  intros HS HL. unfold chunk_count.
  pose proof (Z.div_mod (L + S - 1) S ltac:(lia)). pose proof (Z.mod_pos_bound (L + S - 1) S HS). nia.
Qed.

(** What the DFS clients of the master and of the workers promise about the files
    the coordinator's client has written. *)
Class DFSReader (D : Type) `{Coordinator.DFSClient D} := {
  view : D → DFS;
  view_read : D → string → Z → Z → Worker.dfs_read;
  chunk_size : Z;
  chunk_size_pos : 0 < chunk_size;
  view_chunk_size d : ChunkMaxSizeInByte (view d) = chunk_size;
  view_file d p bytes : Coordinator.dfs_content d p = Some bytes →
    GetFile (view d) p =
      Ok (Some (MkInfo (Z.of_nat (length bytes)) (chunk_count chunk_size (Z.of_nat (length bytes)))));
  view_chunks d p bytes : Coordinator.dfs_content d p = Some bytes →
    ∃ handle : Z → Z, ∀ j, 0 <= j < chunk_count chunk_size (Z.of_nat (length bytes)) →
      GetChunkHandle (view d) p j = Ok (handle j);
  view_reads d p bytes : Coordinator.dfs_content d p = Some bytes →
    Jobs.reads (view_read d) p bytes
}.

(** The cluster once its DFS clients see the state [d]. *)
Definition reading_from `{DFSReader D} (d : D) (cl : Cluster) : Cluster :=
  MkCluster (worker cl) (view_read d) (writers cl) (clock cl).

Section client.
Context `{MapOrder} `{SortSlice} `{DFSReader D}.
Import Durable Registry.

(** From the client to the result. A client's records of a handle, written
    without overflow and ended by an end-of-file record, are uploaded within the
    lifetime of the handle. Unless the upload reports an error, a job on the handle
    delivers (as in the property of a job from start to result) the reduction of
    the pieces of exactly the data the client sent. Coordinator and master must
    agree on the upload prefix. *)
Lemma client_to_result (spin : nat) (ws : list (Z * Content)) (flush_clock : nat → Z)
    (now : Z) (logPath : string → string) (env at_ : string) (cancelled : Handle → bool)
    (c : Coordinator.Coordinator) (dfs : D) (h : Handle) (q : list Content)
    (cl : Cluster) (prefix : string) (prefixes : list string) (probe : string → option string)
    (m : Master) (mapf : string → string → list KeyValue)
    (reducef : string → list string → string) (dispatches : list nat) (done_at : string) :
  let d := Coordinator.durableLog c in
  let path := Coordinator.contentPath (Coordinator.remotePath env h) in
  let data := ws.*2 ≫= Data in
  let K := chunk_count chunk_size (Z.of_nat (length data)) in
  TrimSpace (Coordinator.fsServerAddress c) ≠ "" →
  Ring.ring_repr (log d) q → WritePath.handles_ok q → WritePath.of_handle h q = [] →
  map_Forall (λ h _, handle_ok h) (handles d) →
  file_content (logDir d) (logFileName h) = [] → Coordinator.dfs_content dfs path = None →
  handle_ok h → Id h ≠ 0 →
  Forall (λ w, CId w.2 = h ∧ Z.of_nat (length (Data w.2)) < 2 ^ 32 ∧
               isHandleExpired w.1 h d = false) ws →
  Exists (λ w, Eof w.2 = true) ws →
  (∀ j, isHandleExpired (flush_clock j) h d = false) →
  Z.of_nat (length q + length ws) <= Ring.Cap (log d) →
  data ≠ [] → K * chunk_size <= max_i64 → TrimSpace path = path →
  TrimSpace (fsServerAddress m) ≠ "" → resolveUploadPrefixes env = prefix :: prefixes →
  TrimRight prefix ["/"%char] = TrimRight (Worker.envOrDefault env "/mapreduce") ["/"%char] →
  workerAddresses m ≠ [] → cluster_ok cl mapf reducef → MapReduce.order_insensitive reducef →
  Jobs.results_ok m → Jobs.received (Id h) m = ∅ → dispatches ≡ₚ seq 0 (Z.to_nat K) →
  ∃ d1 c' err dfs',
    WritePath.run_writes (S spin) ws d = Ret (None, d1) ∧
    Coordinator.uploadFileToStorage (S spin) no_faults flush_clock now logPath env at_ cancelled
      (Coordinator.set_log d1 c) dfs = Ret (c', err, dfs') ∧
    (err = None →
     uploadedHandles (Coordinator.durableLog c') !! h = Some now ∧
     job_delivers (view dfs') (reading_from dfs' cl) env path probe m h mapf reducef data K
       dispatches done_at).
Proof.
  cbv zeta. intros Hfs Hr Hq Hqh Hok Hfile Hfresh Hh Hid Hws Heof Hclock Hfit Hdata HK Htrim
    Hmfs Hpre Hprefix Hw Hcl Hf Hrok Hrecv Hd.
  destruct (Upload.ingested_data_ok spin ws flush_clock now logPath env at_ cancelled c dfs h q)
    as (d1 & c' & err & dfs' & E1 & E2 & Hres); try done.
  exists d1, c', err, dfs'. split_and!; [done|done|]. intros Herr.
  destruct (Hres Herr) as [Hcontent Hup]. split; [done|].
  set (data := ws.*2 ≫= Data) in *. set (path := Coordinator.contentPath _) in *.
  assert (0 < Z.of_nat (length data)) as HL by (destruct data; [done|cbn; lia]).
  pose proof (chunk_count_bounds chunk_size _ chunk_size_pos HL) as Hb.
  destruct (view_chunks dfs' path data Hcontent) as [handle Hhandle].
  assert (path = TrimRight prefix ["/"%char] +:+ "/" +:+ "download_log_" +:+ fmt_d (Id h) +:+
    "-" +:+ fmt_d (TimeStamp h) +:+ ".content") as Epath.
  { unfold path. rewrite Upload.contentPath_base. unfold Upload.remote_base. rewrite Hprefix.
    by rewrite <- !append_assoc. }
  assert (path ≠ "") as Hne.
  { rewrite Epath. intros E. apply (f_equal String.length) in E. rewrite !length_append in E.
    cbn in E. lia. }
  rewrite Epath. apply (job_ok (view dfs') (reading_from dfs' cl) env prefix prefixes probe m h
    mapf reducef data _ handle dispatches done_at); rewrite <- ?Epath, ?view_chunk_size; try done.
  - by apply view_file.
  - apply chunk_size_pos.
  - by rewrite Htrim.
  - rewrite Htrim. by apply view_reads.
Qed.

End client.

(** ** Witnesses *)

(** Workers that count words with two partitions, the second writer first. *)
Definition example_cluster (read : string → Z → Z → Worker.dfs_read) : Cluster :=
  MkCluster (λ addr, Worker.NewWorker addr "" "" "" "2") read (λ _, [1; 0]%nat) (λ _, "t").

Lemma example_cluster_ok read :
  cluster_ok (example_cluster read) Worker.defaultMap Worker.defaultReduce.
Proof. intros addr. split_and!; try done. intros request. apply MapReduce.example_schedule. Qed.

Lemma job_end_to_end_witness :
  ∃ reply sent m1 pieces,
    RPCStartMapReduce Jobs.example_dfs "" (λ _, None)
      (λ _ request, Ok (Worker.RPCMapReduce request)) (λ _, false) [1; 0]%nat
      (MkStart Jobs.example_handle "") Jobs.example_master = Ret (reply, sent, m1) ∧
    sp_Status reply = "accepted" ∧ concat pieces = Jobs.example_file ∧
    ∀ tasks disks, tasks ≡ₚ sent →
      ∃ rs disks' m2 chunks,
        run_tasks (H0 := merge_sort_slice) (example_cluster Jobs.example_read) tasks disks =
          Ret (rs, disks') ∧
        Jobs.submit_all (H := canonical_order) (H0 := merge_sort_slice) "now" rs m1 =
          ([None; notifyCoordinator Jobs.example_handle (resultFileName 1) m1], m2) ∧
        cr_OutputData <$> chunks =
          piece_output Worker.defaultMap Worker.defaultReduce Jobs.example_path <$> pieces.
Proof.
  destruct (job_end_to_end (H := canonical_order) (H0 := merge_sort_slice) Jobs.example_dfs
    (example_cluster Jobs.example_read) "" "/mapreduce" ["/mapreduce/download_logs"] (λ _, None)
    Jobs.example_master Jobs.example_handle Worker.defaultMap Worker.defaultReduce
    Jobs.example_file 2 (λ i, 100 + i) [1; 0]%nat "now")
    as (reply & sent & m1 & pieces & E & Hs & Hc & Hrun).
  1-2, 4-9: by vm_compute.
  - by vm_compute.
  - intros off n _ _. cbn zeta. unfold example_cluster, Jobs.example_read.
    cbn [Read Worker.read_n Worker.read_buffer Worker.read_err].
    split_and!; [done|by rewrite take_ge|done|by left].
  - by vm_compute.
  - apply example_cluster_ok.
  - apply MapReduce.count_order_insensitive.
  - apply map_Forall_empty.
  - by vm_compute.
  - apply Permutation_swap.
  - exists reply, sent, m1, pieces. split_and!; [exact E|exact Hs|exact Hc|].
    intros tasks disks Ht. destruct (Hrun tasks disks Ht)
      as (rs & disks' & m2 & chunks & H1 & H2 & _ & _ & _ & H3).
    exists rs, disks', m2, chunks. split_and!; [exact H1|exact H2|exact H3].
Defined.

(** The files of the DFS in memory, read in chunks of two bytes. *)
Definition memory_view (d : gmap string (list byte)) : DFS :=
  MkDFS (λ p, match d !! p with
              | Some bytes => Ok (Some (MkInfo (Z.of_nat (length bytes))
                                          (chunk_count 2 (Z.of_nat (length bytes)))))
              | None => Err (ErrMsg "not found")
              end) (λ _ i, Ok (100 + i)) 2.
Definition memory_read (d : gmap string (list byte)) (p : string) (off n : Z) : Worker.dfs_read :=
  let data := take (Z.to_nat n) (drop (Z.to_nat off) (default [] (d !! p))) in
  Worker.MkRead (Z.of_nat (length data)) data None.

#[local] Existing Instance Upload.memory_dfs.
#[refine] Instance memory_reader : DFSReader (gmap string (list byte)) := {|
  view := memory_view;
  view_read := memory_read;
  chunk_size := 2
|}.
Proof.
  - done.
  - done.
  - intros d p bytes E. cbn in *. by rewrite E.
  - intros d p bytes _. by exists (λ j, 100 + j).
  - intros d p bytes E off n _ _. cbn zeta. unfold memory_read.
    cbn [Worker.read_n Worker.read_buffer Worker.read_err]. cbn in E. rewrite E. cbn [default].
    split_and!; [done|by rewrite take_ge|done|by left].
Defined.

Lemma client_to_result_witness :
  let data := ["h"; "i"; "!"]%char in
  ∃ d1 c' err dfs',
    WritePath.run_writes 1 WritePath.example_chunks WritePath.example_buffer = Ret (None, d1) ∧
    Coordinator.uploadFileToStorage (H := canonical_order) (H0 := merge_sort_slice)
      (H1 := Upload.memory_dfs) 1 Durable.no_faults (λ _, 80) 90 (λ f, f) "" "now" (λ _, false)
      (Coordinator.set_log d1 (Upload.example_coordinator WritePath.example_buffer)) ∅ =
      Ret (c', err, dfs') ∧
    (err = None →
     Durable.uploadedHandles (Coordinator.durableLog c') !! WritePath.example_handle = Some 90 ∧
     job_delivers (H := canonical_order) (H0 := merge_sort_slice) (memory_view dfs')
       (reading_from dfs' (example_cluster Jobs.example_read)) ""
       (Coordinator.contentPath (Coordinator.remotePath "" WritePath.example_handle)) (λ _, None)
       Jobs.example_master WritePath.example_handle Worker.defaultMap Worker.defaultReduce data 2
       [0; 1]%nat "later").
Proof.
  apply (client_to_result (H := canonical_order) (H0 := merge_sort_slice)
    (H1 := Upload.memory_dfs) (H2 := memory_reader) 0 WritePath.example_chunks (λ _, 80) 90
    (λ f, f) "" "now" (λ _, false) (Upload.example_coordinator WritePath.example_buffer) ∅
    WritePath.example_handle [] (example_cluster Jobs.example_read) "/mapreduce"
    ["/mapreduce/download_logs"] (λ _, None) Jobs.example_master Worker.defaultMap
    Worker.defaultReduce [0; 1]%nat "later").
  - done.
  - apply WritePath.example_ring.
  - constructor.
  - done.
  - apply map_Forall_empty.
  - done.
  - done.
  - apply WritePath.example_handle_ok.
  - done.
  - repeat constructor.
  - right. left. done.
  - done.
  - vm_compute. done.
  - done.
  - by vm_compute.
  - by vm_compute.
  - by vm_compute.
  - by vm_compute.
  - by vm_compute.
  - by vm_compute.
  - apply example_cluster_ok.
  - apply MapReduce.count_order_insensitive.
  - apply map_Forall_empty.
  - by vm_compute.
  - by vm_compute.
Defined.

End System.
