(* ===== verification/Uploader.v ===== *)
(** The command-line uploader of [cmd/uploader/main.go]: which files of a folder
    it collects, and the records it sends for each of them. The connection to the
    coordinator is a record of calls on a state; [Ingest] composes the uploader
    with the coordinator itself. *)

From S2P Require Import Prelude GoStrings Ring Json Codec Types Durable Worker Master.
From S2P Require Import WritePath Coordinator.
From Stdlib Require Import Ascii.
From stdpp Require Import options.

#[local] Arguments String.append !_ _ / : simpl nomatch.

Module Uploader.
Import GoStrings Codec Types.

Definition defaultChunkSize : Z := 64 * 1024.

(** ** Folders

    A node as [os.Lstat] sees it. Reading a directory may fail; a symbolic link
    may point nowhere. [os.ReadDir] lists the entries sorted by name. *)

Inductive node : Type :=
| NFile
| NDir (err : option go_error) (entries : list (string * node))
| NLink (target : option node).

(** [DirEntry.IsDir]: a link is not a directory, whatever it points to. *)
Definition IsDir (n : node) : bool := match n with NDir _ _ => true | _ => false end.

(** [os.Stat] and [os.ReadDir] follow links. *)
Fixpoint follow (n : node) : option node :=
  match n with
  | NLink (Some n) => follow n
  | NLink None => None
  | n => Some n
  end.

(** [filepath.Join] of two elements. *)
Definition path_join (a b : string) : string :=
  if bool_decide (a = "") then Coordinator.path_clean b
  else Coordinator.path_clean (a +:+ "/" +:+ b).

(** [filepath.WalkDir] with the function literal of [collectFiles]: the paths it
    appends, and the error at which it stops. *)
Fixpoint walk_dir (path : string) (n : node) : list string * option go_error :=
  match n with
  | NDir (Some err) _ => ([], Some err)
  | NDir None entries =>
      (fix walk_entries (es : list (string * node)) :=
         match es with
         | [] => ([], None)
         | (name, n) :: es =>
             let r := walk_dir (path_join path name) n in
             match r.2 with
             | Some err => (r.1, Some err)
             | None => let r' := walk_entries es in (r.1 ++ r'.1, r'.2)
             end
         end) entries
  | _ => ([path], None)
  end.

(** What the paths of the files below [path] are. *)
Inductive file_at : string → node → string → Prop :=
| file_here path n : IsDir n = false → file_at path n path
| file_below path entries name n q :
    (name, n) ∈ entries → file_at (path_join path name) n q →
    file_at path (NDir None entries) q.

(** A directory below [n], or [n] itself, that cannot be read. *)
Inductive unreadable : node → Prop :=
| unreadable_here err entries : unreadable (NDir (Some err) entries)
| unreadable_below entries name n :
    (name, n) ∈ entries → unreadable n → unreadable (NDir None entries).

Section collect.
Context `{SortSlice}.

Definition collectFiles (root : string) (n : node) (recursive : bool) : res (list string) :=
  if negb recursive then
    match follow n with
    | Some (NDir None entries) =>
        Ok (sort_slice String.le
          ((λ e, path_join root e.1) <$> filter (λ e, Is_true (negb (IsDir e.2))) entries))
    | Some (NDir (Some err) _) => Err err
    | Some _ => Err (ErrMsg "not a directory")
    | None => Err (ErrMsg "no such file or directory")
    end
  else
    match walk_dir root n with
    | (_, Some err) => Err err
    | (files, None) => Ok (sort_slice String.le files)
    end.

End collect.

(** ** Reading a file

    A file that could be opened is the sequence of the results of the successive
    calls of [Read]. *)

Inductive read_error : Type := EOF | ReadErr (err : go_error).
#[export] Instance is_eof_dec (e : option read_error) : Decision (e = Some EOF).
Proof. destruct e as [[]|]; [left|right|right]; congruence. Defined.

Record read_result := MkRead { rd_data : list byte; rd_err : option read_error }.

(** The contract of [io.Reader], with a buffer of [chunk] bytes: the calls
    deliver [bytes] and end with the end of the file or with an error. *)
Inductive reads_to (chunk : Z) : list byte → read_error → list read_result → Prop :=
| reads_end d : Z.of_nat (length d) <= chunk → reads_to chunk d EOF [MkRead d (Some EOF)]
| reads_fail d err : Z.of_nat (length d) <= chunk →
    reads_to chunk [] (ReadErr err) [MkRead d (Some (ReadErr err))]
| reads_more d bytes e rs : Z.of_nat (length d) <= chunk → reads_to chunk bytes e rs →
    reads_to chunk (d ++ bytes) e (MkRead d None :: rs).

(** A regular file of the operating system: call [i] delivers between one byte and
    the buffer's size, at the end nothing and [io.EOF]. *)
Fixpoint os_reads (fuel : nat) (chunk : nat) (short : nat → nat) (i : nat) (rest : list byte) :
    list read_result :=
  match fuel, rest with
  | O, _ => []
  | S _, [] => [MkRead [] (Some EOF)]
  | S fuel, _ =>
      let n := Nat.max 1 (Nat.min (short i) chunk) in
      MkRead (take n rest) None :: os_reads fuel chunk short (S i) (drop n rest)
  end.

(** ** Sending *)

(** The two calls of the RPC client, each with the connection's error. *)
Record Client (W : Type) := MkClient {
  CallGenerateDownloadHandle : W → outcome (res HandleReply * W);
  CallForwardDownload : DownloadRequest → W → outcome (res DownloadReply * W)
}.
Arguments MkClient {_} _ _.
Arguments CallGenerateDownloadHandle {_} _ _.
Arguments CallForwardDownload {_} _ _ _.

Section upload.
Context {W : Type} (client : Client W).

(** One call and the inspection of its reply: [None] when it succeeded. *)
Definition forward (request : DownloadRequest) (w : W) : outcome (option go_error * W) :=
  r ← CallForwardDownload client request w;
  match r with
  | (Err err, w) => Ret (Some (ErrWrap "forward RPC failed" err), w)
  | (Ok reply, w) =>
      if bool_decide (dp_Status reply = "success") then Ret (None, w)
      else Ret (Some (ErrMsg ("forward failed: " +:+ dp_ErrorMessage reply +:+ " (" +:+
                        fmt_d (dp_ErrorCode reply) +:+ ")")), w)
  end.

(** The loop of [uploadFile]; it has not returned when the reads given are used
    up. *)
Fixpoint upload_loop (handle : Handle) (rs : list read_result) (w : W) :
    outcome (option go_error * W) :=
  match rs with
  | [] => OutOfFuel
  | r :: rs =>
      match rd_err r with
      | Some (ReadErr err) => Ret (Some err, w)
      | readErr =>
          let isEOF := bool_decide (readErr = Some EOF) in
          if bool_decide (rd_data r = []) && negb isEOF then upload_loop handle rs w
          else
            a ← forward (MkDownload handle (rd_data r) isEOF) w;
            match a with
            | (Some err, w) => Ret (Some err, w)
            | (None, w) => if isEOF then Ret (None, w) else upload_loop handle rs w
            end
      end
  end.

Definition uploadFile (file : res (list read_result)) (w : W) : outcome (option go_error * W) :=
  match file with
  | Err err => Ret (Some err, w)
  | Ok rs =>
      r ← CallGenerateDownloadHandle client w;
      match r with
      | (Err err, w) => Ret (Some (ErrWrap "handle RPC failed" err), w)
      | (Ok reply, w) =>
          if bool_decide (hp_Status reply = "success") then upload_loop (hp_Handle reply) rs w
          else Ret (Some (ErrMsg ("handle generation failed: " +:+ hp_ErrorMessage reply)), w)
      end
  end.

(** The loop of [main]: the number of files uploaded. *)
Fixpoint upload_files (open : string → res (list read_result)) (files : list string)
    (uploaded : nat) (w : W) : outcome (nat * W) :=
  match files with
  | [] => Ret (uploaded, w)
  | path :: files =>
      r ← uploadFile (open path) w;
      match r with
      | (Some _, w) => upload_files open files uploaded w
      | (None, w) => upload_files open files (S uploaded) w
      end
  end.

Inductive exit : Type :=
| Fatal (msg : string)
| NoFiles
| Complete (uploaded total : nat).

Definition main `{SortSlice} (folder : string) (chunkSize : Z) (recursive : bool)
    (n : option node) (dial : option go_error)
    (open : string → Z → res (list read_result)) (w : W) : outcome (exit * W) :=
  if bool_decide (TrimSpace folder = "") then Ret (Fatal "-folder is required", w)
  else if chunkSize <=? 0 then Ret (Fatal "-chunk-size must be > 0", w)
  else
    match n ≫= follow, n with
    | Some info, Some n =>
        if negb (IsDir info) then Ret (Fatal "path is not a folder", w)
        else
          match collectFiles folder n recursive with
          | Err _ => Ret (Fatal "failed collecting files", w)
          | Ok [] => Ret (NoFiles, w)
          | Ok files =>
              match dial with
              | Some _ => Ret (Fatal "failed to connect to coordinator", w)
              | None =>
                  r ← upload_files (λ path, open path chunkSize) files 0 w;
                  Ret (Complete r.1 (length files), r.2)
              end
          end
    | _, _ => Ret (Fatal "failed to stat folder", w)
    end.

(** Requests sent in order, up to the first that fails. *)
Fixpoint send_all (requests : list DownloadRequest) (w : W) : outcome (option go_error * W) :=
  match requests with
  | [] => Ret (None, w)
  | request :: requests =>
      r ← forward request w;
      match r with
      | (Some err, w) => Ret (Some err, w)
      | (None, w) => send_all requests w
      end
  end.

End upload.

(** The records of a file whose calls of [Read] gave [rs]. *)
Fixpoint records (handle : Handle) (rs : list read_result) : list DownloadRequest :=
  match rs with
  | [] => []
  | r :: rs =>
      match rd_err r with
      | Some EOF => [MkDownload handle (rd_data r) true]
      | Some (ReadErr _) => []
      | None =>
          match rd_data r with
          | [] => records handle rs
          | d => MkDownload handle d false :: records handle rs
          end
      end
  end.

(** ** What is sent *)

Definition read_failure (e : read_error) : option go_error :=
  match e with EOF => None | ReadErr err => Some err end.

Lemma upload_loop_send_all {W} (client : Client W) handle chunk bytes e rs w :
  reads_to chunk bytes e rs →
  upload_loop client handle rs w =
    r ← send_all client (records handle rs) w;
    Ret (match r.1 with Some err => Some err | None => read_failure e end, r.2).
Proof.
  intros Hrs. revert w. induction Hrs as [d Hd|d err Hd|d bytes e rs Hd Hrs IH]; intros w.
  - cbn [upload_loop rd_err rd_data records].
    rewrite (bool_decide_eq_true_2 (Some EOF = Some EOF)) by done.
    rewrite andb_false_r. cbn [send_all].
    by destruct (forward _ _ _) as [[[err|] w']| |].
  - done.
  - cbn [upload_loop rd_err rd_data records]. rewrite (bool_decide_eq_false_2 (None = Some EOF)) by done.
    destruct d as [|b d]; [apply IH|].
    rewrite bool_decide_eq_false_2 by done. cbn [andb negb send_all].
    destruct (forward _ _ _) as [[[err|] w']| |]; try done. cbn. apply IH.
Qed.

Lemma records_data handle chunk bytes e rs :
  reads_to chunk bytes e rs → records handle rs ≫= dr_Data = bytes.
Proof.
  induction 1 as [d Hd|d err Hd|d bytes e rs Hd Hrs IH]; cbn; [apply (right_id_L [] (++))|done|].
  destruct d as [|b d]; cbn; [done|]. by rewrite IH.
Qed.

Lemma records_shape handle chunk bytes e rs :
  reads_to chunk bytes e rs →
  Forall (λ r, dr_Handle r = handle ∧ Z.of_nat (length (dr_Data r)) <= chunk ∧
               (dr_Data r = [] → dr_Eof r = true)) (records handle rs).
Proof.
  induction 1 as [d Hd|d err Hd|d bytes e rs Hd Hrs IH]; cbn; [by repeat constructor|done|].
  destruct d as [|b d]; [done|]. by constructor.
Qed.

Lemma records_eof handle chunk bytes e rs :
  reads_to chunk bytes e rs →
  dr_Eof <$> records handle rs =
    match e with
    | EOF => replicate (length (records handle rs) - 1) false ++ [true]
    | ReadErr _ => replicate (length (records handle rs)) false
    end.
Proof.
  induction 1 as [d Hd|d err Hd|d bytes e rs Hd Hrs IH]; cbn; [done|done|].
  destruct d as [|b d]; [done|]. rewrite fmap_cons, IH.
  destruct e; [|done]. cbn [length dr_Eof]. rewrite Nat.sub_succ, Nat.sub_0_r.
  destruct (records handle rs) as [|r l]; [|by cbn; rewrite Nat.sub_0_r].
  apply (f_equal length) in IH. by cbn in IH.
Qed.

Lemma records_length handle rs : (length (records handle rs) <= length rs)%nat.
Proof.
  induction rs as [|[d [[]|]] rs IH]; cbn; [lia..|]. destruct d; cbn; lia.
Qed.

Lemma os_reads_reads chunk short fuel i rest :
  (0 < chunk)%nat → (length rest < fuel)%nat →
  reads_to (Z.of_nat chunk) rest EOF (os_reads fuel chunk short i rest) ∧
  (length (os_reads fuel chunk short i rest) <= S (length rest))%nat.
Proof.
  intros Hc. revert i rest. induction fuel as [|fuel IH]; intros i rest Hlen; [lia|].
  cbn [os_reads]. destruct rest as [|b rest]; [split; [constructor; cbn; lia|done]|].
  set (n := Nat.max 1 (Nat.min (short i) chunk)).
  destruct (IH (S i) (drop n (b :: rest))) as [Hr Hl].
  { rewrite length_drop. cbn in *. lia. }
  split.
  - rewrite <- (take_drop n (b :: rest)) at 1. constructor; [|done].
    rewrite length_take. lia.
  - rewrite length_drop in Hl. cbn [length] in *. lia.
Qed.

(** A client whose calls return. *)
Class ReturningClient {W} (client : Client W) := {
  generate_returns w : ∃ r, CallGenerateDownloadHandle client w = Ret r;
  forward_returns q w : ∃ r, CallForwardDownload client q w = Ret r
}.

Lemma send_all_returns {W} (client : Client W) `{!ReturningClient client} requests w :
  ∃ r, send_all client requests w = Ret r.
Proof.
  revert w. induction requests as [|q requests IH]; intros w; cbn; [by eexists|].
  unfold forward. destruct (forward_returns q w) as [[[reply|err] w'] ->]; cbn; [|by eexists].
  case_bool_decide; cbn; [apply IH|by eexists].
Qed.

(** Uploading a file ends. With calls that return, the upload of a regular file
    returns whatever short reads the system makes, after at most one read per byte
    and one for the end. The loop has no other bound: a reader that delivers
    nothing, neither bytes nor an error, keeps it turning without a record sent. *)
Theorem uploadFile_terminates {W} (client : Client W) `{!ReturningClient client} (chunk : nat)
    (short : nat → nat) (bytes : list byte) (w : W) :
  (0 < chunk)%nat →
  let reads := os_reads (S (length bytes)) chunk short 0 bytes in
  (∃ r, uploadFile client (Ok reads) w = Ret r) ∧ (length reads <= S (length bytes))%nat ∧
  ∀ handle n, upload_loop client handle (replicate n (MkRead [] None)) w = OutOfFuel ∧
              records handle (replicate n (MkRead [] None)) = [].
Proof.
  intros Hc reads. destruct (os_reads_reads chunk short (S (length bytes)) 0 bytes Hc) as [Hr Hl];
    [lia|]. fold reads in Hr, Hl. clearbody reads. split_and!; [|done|].
  - unfold uploadFile. destruct (generate_returns w) as [[[reply|err] w'] ->]; cbn; [|by eexists].
    case_bool_decide; [|by eexists]. rewrite (upload_loop_send_all _ _ _ _ _ _ _ Hr).
    destruct (send_all_returns client (records (hp_Handle reply) reads) w') as [[err w2] ->].
    by eexists.
  - intros handle n. by induction n.
Qed.

(** C24: what an upload sends. Once a handle was granted, and whatever the calls
    answer, uploading a file amounts to sending in order, up to the first failing
    call, records of that handle whose data put together is what the reads
    delivered: none longer than the buffer, none empty but possibly the last, and
    exactly the last one marked as the end of the file. After a read error no
    record is marked, so the upload of a partly read file is never completed. *)
Theorem uploadFile_sends {W} (client : Client W) (chunk : Z) (bytes : list byte) (e : read_error)
    (rs : list read_result) (w w' : W) (reply : HandleReply) :
  let sent := records (hp_Handle reply) rs in
  reads_to chunk bytes e rs →
  CallGenerateDownloadHandle client w = Ret (Ok reply, w') → hp_Status reply = "success" →
  uploadFile client (Ok rs) w =
    (r ← send_all client sent w';
     Ret (match r.1 with Some err => Some err | None => read_failure e end, r.2)) ∧
  sent ≫= dr_Data = bytes ∧
  dr_Eof <$> sent = match e with
                    | EOF => replicate (length sent - 1) false ++ [true]
                    | ReadErr _ => replicate (length sent) false
                    end ∧
  Forall (λ r, dr_Handle r = hp_Handle reply ∧ Z.of_nat (length (dr_Data r)) <= chunk ∧
               (dr_Data r = [] → dr_Eof r = true)) sent.
Proof.
  cbv zeta. intros Hrs Hcall Hs. split_and!;
    eauto using records_data, records_eof, records_shape.
  unfold uploadFile. rewrite Hcall. cbn. rewrite bool_decide_eq_true_2 by done.
  by eapply upload_loop_send_all.
Qed.

(** ** What is collected *)

Section collected.
Context `{SortSlice}.

Lemma node_ind' (P : node → Prop) :
  P NFile → (∀ err es, Forall (λ e, P e.2) es → P (NDir err es)) → (∀ t, P (NLink t)) → ∀ n, P n.
Proof.
  intros Hf Hd Hl. fix IH 1. intros [|err es|t]; [done| |apply Hl].
  apply Hd. revert es. fix IHes 1. intros [|[name n] es]; constructor; [apply IH|apply IHes].
Qed.

Lemma walk_dir_spec path n :
  match walk_dir path n with
  | (files, None) => ¬ unreadable n ∧ ∀ p, p ∈ files ↔ file_at path n p
  | (_, Some _) => unreadable n
  end.
Proof.
  revert path. induction n as [|err es IH|t] using node_ind'; intros path.
  - split; [by inversion 1|]. intros p. rewrite list_elem_of_singleton.
    split; [intros ->; by constructor|]. by inversion 1.
  - cbn [walk_dir]. destruct err as [err|]; [constructor|].
    match goal with |- match ?f es with _ => _ end => set (go := f) end.
    enough (match go es with
      | (files, None) => Forall (λ e, ¬ unreadable e.2) es ∧
          ∀ p, p ∈ files ↔ Exists (λ e, file_at (path_join path e.1) e.2 p) es
      | (_, Some _) => Exists (λ e, unreadable e.2) es
      end) as Hgo.
    { destruct (go es) as [files [err|]].
      - apply Exists_exists in Hgo as ([name n] & Hin & Hu). by eapply unreadable_below.
      - destruct Hgo as [Hall Hf]. split.
        + inversion_clear 1 as [|? name n Hin Hu]. rewrite Forall_forall in Hall.
          by apply (Hall _ Hin).
        + intros p. rewrite Hf, Exists_exists. split.
          * intros ([name n] & Hin & Hp). by eapply file_below.
          * inversion_clear 1 as [|? ? name n ? Hin Hp]; [done|]. by exists (name, n). }
    induction IH as [|[name n] es Hn Hes IHes]; cbn [go].
    { split; [done|]. intros p. rewrite Exists_nil. split; [by inversion 1|done]. }
    specialize (Hn (path_join path name)). cbn [snd] in Hn.
    destruct (walk_dir (path_join path name) n) as [f1 [err|]]; cbn [fst snd]; [by left|].
    fold go. destruct (go es) as [f2 [err|]]; cbn [fst snd]; [by right|].
    destruct Hn as [Hu1 Hf1], IHes as [Hu2 Hf2]. split; [by constructor|].
    intros p. rewrite elem_of_app, Exists_cons, Hf1, Hf2. done.
  - split; [by inversion 1|]. intros p. rewrite list_elem_of_singleton.
    split; [intros ->; by constructor|]. by inversion 1.
Qed.

(** The files of a folder. Collecting recursively fails exactly when some
    directory below the folder cannot be read, and otherwise gives in order the
    paths of everything that is not a directory; collecting without recursion
    gives those directly in the folder. The walk does not follow a link, so of a
    folder given as a symbolic link it collects only the link itself. *)
Theorem collectFiles_spec (root : string) (n : node) :
  (match collectFiles root n true with
   | Ok files => StronglySorted String.le files ∧ ¬ unreadable n ∧
       ∀ p, p ∈ files ↔ file_at root n p
   | Err _ => unreadable n
   end) ∧
  (∀ entries, follow n = Some (NDir None entries) →
     ∃ files, collectFiles root n false = Ok files ∧ StronglySorted String.le files ∧
       ∀ p, p ∈ files ↔
         ∃ name n', (name, n') ∈ entries ∧ IsDir n' = false ∧ p = path_join root name) ∧
  (∀ target, n = NLink target → collectFiles root n true = Ok [root]).
Proof.
  unfold collectFiles. cbn [negb]. split_and!.
  - pose proof (walk_dir_spec root n) as Hw.
    destruct (walk_dir root n) as [files [err|]]; [done|]. destruct Hw as [Hu Hf].
    split_and!; [apply sort_slice_sorted; apply _|done|].
    intros p. rewrite <- Hf. by rewrite sort_slice_perm.
  - intros entries ->. eexists. split_and!; [done|apply sort_slice_sorted; apply _|].
    intros p. rewrite sort_slice_perm, list_elem_of_fmap. split.
    + intros ([name n'] & -> & [Hn Hin]%list_elem_of_filter). exists name, n'.
      apply Is_true_true, negb_true_iff in Hn. done.
    + intros (name & n' & Hin & Hn & ->). exists (name, n'). split; [done|].
      apply list_elem_of_filter. split; [|done]. cbn. by rewrite Hn.
  - intros target ->. cbn. f_equal. apply Permutation_singleton_r. by rewrite sort_slice_perm.
Qed.

End collected.

(** ** Witnesses *)

(** A server that grants one handle and counts the records it takes. *)
Definition counting_client : Client nat :=
  MkClient (λ w, Ret (Ok (MkHandleReply "success" 0 "" (MkHandle 1 50)), w))
    (λ _ w, Ret (Ok (MkDownloadReply "success" 0 ""), S w)).

#[refine] Instance counting_returns : ReturningClient counting_client := {}.
Proof. all: by eexists. Defined.

Lemma uploadFile_terminates_witness :
  let reads := os_reads 4 2 (λ _, 2%nat) 0 ["a"; "b"; "c"]%char in
  (∃ r, uploadFile counting_client (Ok reads) 0%nat = Ret r) ∧ (length reads <= 4)%nat ∧
  ∀ handle n, upload_loop counting_client handle (replicate n (MkRead [] None)) 0%nat = OutOfFuel ∧
              records handle (replicate n (MkRead [] None)) = [].
Proof.
  apply (uploadFile_terminates counting_client 2 (λ _, 2%nat)
    ["a"; "b"; "c"]%char 0%nat). lia.
Defined.

Definition example_reads : list read_result :=
  [MkRead ["h"; "i"]%char None; MkRead [] None; MkRead ["!"]%char (Some EOF)].

Lemma example_reads_to : reads_to 2 ["h"; "i"; "!"]%char EOF example_reads.
Proof.
  apply (reads_more 2 ["h"; "i"]%char ["!"]%char); [done|].
  apply (reads_more 2 [] ["!"]%char); [done|]. by apply (reads_end 2).
Qed.

Lemma uploadFile_sends_witness :
  let sent := records (MkHandle 1 50) example_reads in
  uploadFile counting_client (Ok example_reads) 0%nat =
    (r ← send_all counting_client sent 0%nat; Ret (r.1, r.2)) ∧
  sent ≫= dr_Data = ["h"; "i"; "!"]%char ∧ dr_Eof <$> sent = [false; true].
Proof.
  destruct (uploadFile_sends counting_client 2 ["h"; "i"; "!"]%char EOF example_reads 0%nat 0%nat
    (MkHandleReply "success" 0 "" (MkHandle 1 50))) as (E & Hd & He & _);
    [apply example_reads_to|reflexivity|reflexivity|].
  split_and!; [exact E|exact Hd|exact He].
Defined.

End Uploader.
