(* ===== verification/Ingest.v ===== *)
(** The uploader of [Uploader] connected to the coordinator: a file of the client
    on its way into the DFS and through the workers, and what happens to a file
    with more records than the buffer holds. *)

From S2P Require Import Prelude GoStrings Ring Json Codec Types Durable.
From S2P Require Import WritePath Registry Recovery Worker MapReduce Master Jobs.
From S2P Require Import Coordinator Upload Uploader System.
From Stdlib Require Import Ascii.
From stdpp Require Import functions list.
From stdpp Require Import options.

#[local] Open Scope Z_scope.
#[local] Arguments String.append !_ _ / : simpl nomatch.

Module Ingest.
Import GoStrings Codec Types Durable.

(** ** The connection

    The coordinator's handlers as the uploader calls them, call [i] at clock
    reading [clock i]. *)
Definition coordinator_client (spin : nat) (clock : nat → Z) :
    Uploader.Client (nat * Coordinator.Coordinator) :=
  Uploader.MkClient
    (λ w, let r := Coordinator.RPCGenerateDownloadHandle (clock w.1) w.2 in
          Ret (Ok r.1, (S w.1, r.2)))
    (λ request w, r ← Coordinator.RPCForwardDownload spin (clock w.1) request w.2;
                  Ret (Ok r.1, (S w.1, r.2))).

(** The record of the log a request becomes. *)
Definition content_of (r : DownloadRequest) : Content :=
  MkContent (dr_Handle r) (dr_Eof r) (dr_Data r).

(** The writes of requests sent from call [k] on. *)
Definition writes_from (clock : nat → Z) (k : nat) (requests : list DownloadRequest) :
    list (Z * Content) :=
  imap (λ i r, (clock (k + i)%nat, content_of r)) requests.

Lemma writes_from_cons clock k r requests :
  writes_from clock k (r :: requests) =
    (clock k, content_of r) :: writes_from clock (S k) requests.
Proof.
  unfold writes_from. rewrite imap_cons, Nat.add_0_r. f_equal.
  apply imap_ext. intros i x _. cbn. by rewrite Nat.add_succ_r.
Qed.
Lemma writes_from_snd clock k requests :
  (writes_from clock k requests).*2 = content_of <$> requests.
Proof.
  revert k. induction requests as [|r requests IH]; intros k; [done|].
  by rewrite writes_from_cons, !fmap_cons, IH.
Qed.
Lemma writes_from_length clock k requests :
  length (writes_from clock k requests) = length requests.
Proof. unfold writes_from. apply length_imap. Qed.
Lemma writes_from_Forall (P : Z * Content → Prop) clock k requests :
  (∀ j, Forall (λ r, P (clock j, content_of r)) requests) →
  Forall P (writes_from clock k requests).
Proof.
  revert k. induction requests as [|r requests IH]; intros k Hall; [constructor|].
  rewrite writes_from_cons. constructor; [by apply (Forall_inv (Hall k))|].
  apply IH. intros j. by apply (Forall_inv_tail (Hall j)).
Qed.
Lemma writes_from_data clock k requests :
  (writes_from clock k requests).*2 ≫= Data = requests ≫= dr_Data.
Proof. rewrite writes_from_snd. by rewrite bind_fmap_l. Qed.

(** Requests that are all accepted are the writes. *)
Lemma send_all_writes spin clock requests k c d1 :
  WritePath.run_writes spin (writes_from clock k requests) (Coordinator.durableLog c) =
    Ret (None, d1) →
  Uploader.send_all (coordinator_client spin clock) requests (k, c) =
    Ret (None, ((k + length requests)%nat, Coordinator.set_log d1 c)).
Proof.
  revert k c. induction requests as [|r requests IH]; intros k c.
  { cbn. intros [= <-]. rewrite Nat.add_0_r. by destruct c. }
  rewrite writes_from_cons. cbn [WritePath.run_writes Uploader.send_all].
  unfold Uploader.forward. cbn [coordinator_client Uploader.CallForwardDownload fst snd].
  unfold Coordinator.RPCForwardDownload. fold (content_of r).
  destruct (Write spin (clock k) (content_of r) (Coordinator.durableLog c)) as [[[e|] d]| |];
    cbn [mbind outcome_bind fst snd dp_Status]; try done.
  rewrite bool_decide_eq_true_2 by done. cbn [mbind outcome_bind].
  intros E. rewrite (IH (S k) (Coordinator.set_log d c) E). cbn [length].
  by rewrite Nat.add_succ_r.
Qed.

(** The handle the coordinator grants at call 0, and its state afterwards. *)
Definition granted (clock : nat → Z) (c : Coordinator.Coordinator) : Handle :=
  (GenerateHandle (clock 0%nat) (Coordinator.durableLog c)).1.
Definition granted_log (clock : nat → Z) (c : Coordinator.Coordinator) : DurableBuffer :=
  (GenerateHandle (clock 0%nat) (Coordinator.durableLog c)).2.

Lemma uploadFile_writes spin clock chunk bytes rs c d1 :
  Uploader.reads_to chunk bytes Uploader.EOF rs →
  let sent := Uploader.records (granted clock c) rs in
  WritePath.run_writes spin (writes_from clock 1 sent) (granted_log clock c) = Ret (None, d1) →
  Uploader.uploadFile (coordinator_client spin clock) (Ok rs) (0%nat, c) =
    Ret (None, (S (length sent), Coordinator.set_log d1 c)).
Proof.
  intros Hrs sent Hrun. unfold Uploader.uploadFile. cbn [coordinator_client
    Uploader.CallGenerateDownloadHandle Coordinator.RPCGenerateDownloadHandle mbind outcome_bind
    fst snd hp_Status hp_Handle].
  rewrite bool_decide_eq_true_2 by done.
  rewrite (Uploader.upload_loop_send_all _ _ _ _ _ _ _ Hrs).
  change (Uploader.send_all _ _ _) with (Uploader.send_all (coordinator_client spin clock) sent
    (1%nat, Coordinator.set_log (granted_log clock c) c)).
  rewrite (send_all_writes spin clock sent 1 (Coordinator.set_log (granted_log clock c) c) d1 Hrun).
  done.
Qed.

(** ** A granted handle is new *)

(** The buffer has not run out of handles, every queued record is of a handle
    granted before, and the clock reading is a 64-bit integer. *)
Definition before_grant (now : Z) (d : DurableBuffer) (q : list Content) : Prop :=
  0 <= nextHandle d < 2 ^ 64 - 1 ∧ min_i64 <= now <= max_i64 ∧
  Forall (λ e, Id (CId e) <= nextHandle d) q.

Lemma granted_fresh clock c q :
  before_grant (clock 0%nat) (Coordinator.durableLog c) q →
  handle_ok (granted clock c) ∧ Id (granted clock c) ≠ 0 ∧
  WritePath.of_handle (granted clock c) q = [].
Proof.
  intros (Hn & Hnow & Hq). unfold granted, GenerateHandle. cbn [fst Id TimeStamp].
  rewrite u64_small by lia. split_and!.
  - split; cbn [Id TimeStamp]; [lia|]. case_match; [|done].
    pose proof (i64_range (lastTimestamp (Coordinator.durableLog c) + 1)).
    unfold min_i64, max_i64. lia.
  - cbn. lia.
  - unfold WritePath.of_handle. apply filter_none. eapply Forall_impl; [exact Hq|].
    intros e He E. apply (f_equal Id) in E. cbn [Id] in E. cbv beta in He. rewrite E in He. lia.
Qed.

(** The records of a file read to its end, as writes of the granted handle. *)
Lemma sent_writes clock chunk bytes rs h d :
  Uploader.reads_to chunk bytes Uploader.EOF rs → chunk < 2 ^ 32 →
  (∀ j, isHandleExpired (clock j) h d = false) →
  let ws := writes_from clock 1 (Uploader.records h rs) in
  Forall (λ w, CId w.2 = h ∧ Z.of_nat (length (Data w.2)) < 2 ^ 32 ∧
               isHandleExpired w.1 h d = false) ws ∧
  Exists (λ w, Eof w.2 = true) ws ∧ ws.*2 ≫= Data = bytes ∧
  (length ws <= length rs)%nat.
Proof.
  intros Hrs Hchunk Hlive ws. split_and!.
  - apply writes_from_Forall. intros j.
    eapply Forall_impl; [by eapply Uploader.records_shape|].
    intros r (<- & Hr & _). cbn. split_and!; [done|lia|apply Hlive].
  - apply (Exists_fmap snd (λ c, Eof c = true)). unfold ws. rewrite writes_from_snd.
    apply Exists_fmap. pose proof (Uploader.records_eof h _ _ _ _ Hrs) as He. cbn in He.
    apply (Exists_fmap dr_Eof (λ b, b = true)). rewrite He.
    apply Exists_app. right. by left.
  - unfold ws. rewrite writes_from_data. by eapply Uploader.records_data.
  - unfold ws. rewrite writes_from_length. apply Uploader.records_length.
Qed.

(** ** From a file to the result *)

Section ingest.
Context `{MapOrder} `{SortSlice} `{System.DFSReader D}.

(** C6: from a file to the result. The uploader, connected to the coordinator, reads
    a file that is not empty to its end, with whatever short reads, within the
    lifetime of its handle and the room of the buffer. The upload ends and succeeds;
    the coordinator's own upload, no operation on its log files failing, ends, and
    unless it reports an error, a job on the granted handle, for whose id the master
    has received no result before, delivers (as in the property of a job from start
    to result) the reduction of the pieces of exactly the bytes of the file. The
    handle has no log and no file in the DFS before, the services know each other and
    the DFS, and coordinator and master agree on the upload prefix. *)
Theorem file_to_result (spin : nat) (clock : nat → Z) (chunk : Z) (bytes : list byte)
    (rs : list Uploader.read_result) (flush_clock : nat → Z) (now : Z)
    (logPath : string → string) (env at_ : string) (cancelled : Handle → bool)
    (c : Coordinator.Coordinator) (dfs : D) (q : list Content)
    (cl : System.Cluster) (prefix : string) (prefixes : list string)
    (probe : string → option string) (m : Master.Master)
    (mapf : string → string → list KeyValue) (reducef : string → list string → string)
    (dispatches : list nat) (done_at : string) :
  let d := Coordinator.durableLog c in
  let h := granted clock c in
  let path := Coordinator.contentPath (Coordinator.remotePath env h) in
  let K := System.chunk_count System.chunk_size (Z.of_nat (length bytes)) in
  Uploader.reads_to chunk bytes Uploader.EOF rs → chunk < 2 ^ 32 → bytes ≠ [] →
  before_grant (clock 0%nat) d q →
  (∀ j, isHandleExpired (clock j) h (granted_log clock c) = false) →
  (∀ j, isHandleExpired (flush_clock j) h (granted_log clock c) = false) →
  Ring.ring_repr (log d) q → WritePath.handles_ok q →
  Z.of_nat (length q + length rs) <= Ring.Cap (log d) →
  map_Forall (λ h _, handle_ok h) (handles d) →
  file_content (logDir d) (logFileName h) = [] → Coordinator.dfs_content dfs path = None →
  TrimSpace (Coordinator.fsServerAddress c) ≠ "" →
  K * System.chunk_size <= max_i64 → TrimSpace path = path →
  TrimSpace (Master.fsServerAddress m) ≠ "" →
  Master.resolveUploadPrefixes env = prefix :: prefixes →
  TrimRight prefix ["/"%char] = TrimRight (Worker.envOrDefault env "/mapreduce") ["/"%char] →
  Master.workerAddresses m ≠ [] → System.cluster_ok cl mapf reducef →
  MapReduce.order_insensitive reducef →
  Jobs.results_ok m → Jobs.received (Id h) m = ∅ → dispatches ≡ₚ seq 0 (Z.to_nat K) →
  ∃ calls c1 c2 err dfs',
    Uploader.uploadFile (coordinator_client (S spin) clock) (Ok rs) (0%nat, c) =
      Ret (None, (calls, c1)) ∧
    Coordinator.uploadFileToStorage (S spin) no_faults flush_clock now logPath env at_ cancelled
      c1 dfs = Ret (c2, err, dfs') ∧
    (err = None →
     uploadedHandles (Coordinator.durableLog c2) !! h = Some now ∧
     System.job_delivers (System.view dfs') (System.reading_from dfs' cl) env path probe m h mapf
       reducef bytes K dispatches done_at).
Proof.
  cbv zeta. intros Hrs Hchunk Hne Hgrant Hlive Hflush Hr Hq Hfit Hok Hfile Hfresh Hfs HK Htrim Hmfs
    Hpre Hprefix Hw Hcl Hf Hrok Hrecv Hd.
  destruct (granted_fresh clock c q Hgrant) as (Hh & Hid & Hqh).
  destruct (sent_writes clock chunk bytes rs (granted clock c) (granted_log clock c) Hrs Hchunk Hlive)
    as (Hws & Heof & Hdata & Hlen).
  set (h := granted clock c) in *. set (ws := writes_from clock 1 (Uploader.records h rs)) in *.
  destruct (System.client_to_result spin ws flush_clock now logPath env at_ cancelled
    (Coordinator.set_log (granted_log clock c) c) dfs h q cl prefix prefixes probe m mapf reducef
    dispatches done_at) as (d1 & c2 & err & dfs' & E1 & E2 & Hres);
    rewrite ?Hdata; try done.
  { cbn. unfold granted_log, GenerateHandle in *. cbn in *. lia. }
  pose proof (uploadFile_writes (S spin) clock chunk bytes rs c d1 Hrs E1) as Hup.
  rewrite Hdata in Hres.
  exists (S (length (Uploader.records h rs))), (Coordinator.set_log d1 c), c2, err, dfs'.
  split_and!; [exact Hup|exact E2|exact Hres].
Qed.

(** ** A file with more records than the buffer holds *)

(** The newest [n] records. *)
Definition newest (n : Z) (q : list Content) : list Content :=
  drop (length q - Z.to_nat n) q.

Lemma newest_short n q : Z.of_nat (length q) <= n → newest n q = q.
Proof. intros Hn. unfold newest. by replace (length q - Z.to_nat n)%nat with 0%nat by lia. Qed.

Lemma newest_app n q ws :
  newest n (newest n q ++ ws) = newest n (q ++ ws).
Proof.
  unfold newest. rewrite !length_app, length_drop.
  set (k := (length q - Z.to_nat n)%nat).
  replace (length q + length ws - Z.to_nat n)%nat
    with (k + (length q - k + length ws - Z.to_nat n))%nat by lia.
  rewrite <- drop_drop, (drop_app_le q ws k) by lia. done.
Qed.

Lemma accept_newest cap q c :
  0 < cap → Z.of_nat (length q) <= cap →
  WritePath.accept cap OverflowDropOldest q c = (None, newest cap (q ++ [c])).
Proof.
  intros Hcap Hq. unfold WritePath.accept. destruct (Z.ltb_spec (Z.of_nat (length q)) cap).
  - rewrite newest_short; [done|]. rewrite length_app. cbn. lia.
  - cbn. f_equal. unfold newest. rewrite length_app.
    replace (length q + length [c] - Z.to_nat cap)%nat with 1%nat by (cbn; lia).
    destruct q; [cbn in *; lia|done].
Qed.

Lemma run_writes_newest spin ws d q :
  Ring.ring_repr (log d) q → overflowPolicy d = OverflowDropOldest →
  Forall (λ w, isHandleExpired w.1 (CId w.2) d = false) ws →
  ∃ rb', WritePath.run_writes (S spin) ws d =
           Ret (None, set_handles (foldl (λ m c, register c m) (handles d) ws.*2)
                        (set_log rb' d)) ∧
         Ring.ring_repr rb' (newest (Ring.Cap (log d)) (q ++ ws.*2)).
Proof.
  intros Hr Hp Hlive. revert d q Hr Hp Hlive.
  induction ws as [|[now c] ws IH]; intros d q Hr Hp Hlive;
    pose proof (Ring.ring_repr_fit _ _ Hr) as Hfit.
  { exists (log d). rewrite fmap_nil, (right_id_L [] (++)), newest_short by done.
    split; [by destruct d|done]. }
  apply Forall_cons in Hlive as [Hc Hlive].
  destruct (WritePath.Write_live spin now c d q Hr Hc) as (rb1 & Hr1 & Hc1 & E).
  assert (0 < Ring.Cap (log d)) as Hcap.
  { destruct Hr as [? Hinv]. pose proof (Ring.cap_bounds _ _ _ Hinv). unfold Ring.Cap. lia. }
  rewrite Hp, accept_newest in E, Hr1 by done. cbn [fst snd] in E, Hr1.
  cbn [WritePath.run_writes]. rewrite E. cbn [mbind outcome_bind].
  destruct (IH (set_handles (register c (handles d)) (set_log rb1 d))
    (newest (Ring.Cap (log d)) (q ++ [c]))) as (rb2 & -> & Hr2); [done|done|exact Hlive|].
  exists rb2. split; [done|]. cbn [log set_handles set_log] in Hr2.
  rewrite Hc1, newest_app, <- (assoc_L (++)) in Hr2. done.
Qed.

(** Only the last record of a file may be empty. *)
Lemma dropped_data h chunk (sent : list DownloadRequest) (n : nat) :
  Forall (λ r, dr_Handle r = h ∧ Z.of_nat (length (dr_Data r)) <= chunk ∧
               (dr_Data r = [] → dr_Eof r = true)) sent →
  dr_Eof <$> sent = replicate (length sent - 1) false ++ [true] →
  (0 < n < length sent)%nat →
  take (length sent - n) (content_of <$> sent) ≫= Data ≠ [].
Proof.
  intros Hshape Heof Hn. destruct sent as [|r [|r' sent]]; cbn [length] in *; [lia..|].
  destruct (Forall_inv Hshape) as (_ & _ & Hr). rewrite Nat.sub_succ, Nat.sub_0_r in Heof.
  cbn [replicate app] in Heof. rewrite fmap_cons in Heof. injection Heof as Er _.
  replace (S (S (length sent)) - n)%nat with (S (S (length sent) - n)) by lia.
  rewrite fmap_cons. cbn [take]. rewrite bind_cons. cbn [content_of Data].
  destruct (dr_Data r); [|done]. by rewrite Hr in Er.
Qed.

(** C36: a file that outgrows the buffer is truncated in silence. Under the default
    overflow policy, when a file takes more records than the buffer holds and
    nothing is flushed meanwhile, the uploader is told that every record was
    accepted and reports the file as uploaded; the flush reports no error and the
    handle is completed; but what its log decodes to lacks the beginning of the
    file. *)
Theorem oversized_file_truncated (spin : nat) (clock : nat → Z) (chunk : Z) (bytes : list byte)
    (rs : list Uploader.read_result) (flush_clock : nat → Z) (c : Coordinator.Coordinator) :
  let d := Coordinator.durableLog c in
  let h := granted clock c in
  let sent := Uploader.records h rs in
  Uploader.reads_to chunk bytes Uploader.EOF rs → chunk < 2 ^ 32 →
  before_grant (clock 0%nat) d [] →
  (∀ j, isHandleExpired (clock j) h (granted_log clock c) = false) →
  (∀ j, isHandleExpired (flush_clock j) h (granted_log clock c) = false) →
  Ring.ring_repr (log d) [] → overflowPolicy d = OverflowDropOldest →
  file_content (logDir d) (logFileName h) = [] →
  Ring.Cap (log d) < Z.of_nat (length sent) →
  ∃ d1 d2 lost kept,
    Uploader.uploadFile (coordinator_client (S spin) clock) (Ok rs) (0%nat, c) =
      Ret (None, (S (length sent), Coordinator.set_log d1 c)) ∧
    Flush (S spin) no_faults flush_clock d1 = Ret (d2, None) ∧
    handles d2 !! h = Some true ∧
    decodeDlogFileContent (file_content (logDir d2) (logFileName h)) = Ret (Ok kept) ∧
    bytes = lost ++ kept ∧ lost ≠ [].
Proof.
  cbv zeta. intros Hrs Hchunk Hgrant Hlive Hflush Hr Hp Hfile Hbig.
  destruct (granted_fresh clock c [] Hgrant) as (Hh & Hid & _).
  destruct (sent_writes clock chunk bytes rs (granted clock c) (granted_log clock c) Hrs Hchunk Hlive)
    as (Hws & Heof & Hdata & _).
  pose proof (Uploader.records_shape (granted clock c) _ _ _ _ Hrs) as Hshape.
  pose proof (Uploader.records_eof (granted clock c) _ _ _ _ Hrs) as Heofs.
  set (h := granted clock c) in *. set (sent := Uploader.records h rs) in *.
  set (ws := writes_from clock 1 sent) in *. set (dg := granted_log clock c) in *.
  assert (Forall (λ e, CId e = h) ws.*2) as Hall.
  { apply Forall_fmap. eapply Forall_impl; [exact Hws|]. by intros w (? & _). }
  destruct (run_writes_newest spin ws dg [] Hr Hp) as (rb & Hrun & Hr1).
  { eapply Forall_impl; [exact Hws|]. by intros w (-> & _ & ?). }
  set (d1 := set_handles _ _) in Hrun. cbn [app] in Hr1.
  set (kept := newest _ _) in Hr1.
  assert (Forall (λ e, CId e = h) kept) as Hkept by (by apply Forall_drop).
  destruct (WritePath.Flush_ok spin flush_clock d1 kept) as (d2 & Hfl & Hd2 & _ & _ & Hfiles & _).
  { exact Hr1. }
  { eapply Forall_impl; [exact Hkept|]. by intros e ->. }
  exists d1, d2, (take (length ws.*2 - Z.to_nat (Ring.Cap (log dg))) ws.*2 ≫= Data), (kept ≫= Data).
  split_and!; [by apply uploadFile_writes with chunk bytes|exact Hfl| | | |].
  - rewrite Hd2. cbn. apply WritePath.register_complete; [done|]. left. by apply Exists_fmap.
  - rewrite Hfiles by done. change (logDir d1) with (logDir (Coordinator.durableLog c)).
    rewrite Hfile. rewrite WritePath.of_handle_live by done.
    rewrite WritePath.of_handle_all by done. cbn [app]. apply decode_log_bytes.
    apply Forall_drop, Forall_fmap. eapply Forall_impl; [exact Hws|].
    by intros w (E & ? & _); split; [rewrite E|].
  - rewrite <- bind_app. unfold kept, newest. by rewrite take_drop.
  - unfold ws. rewrite length_fmap, writes_from_length, writes_from_snd.
    change (Ring.Cap (log dg)) with (Ring.Cap (log (Coordinator.durableLog c))).
    apply dropped_data with (h := h) (chunk := chunk); [done|done|].
    destruct Hr as [? Hinv]. pose proof (Ring.cap_bounds _ _ _ Hinv). unfold Ring.Cap in *. lia.
Qed.

End ingest.

(** ** Witnesses *)

(** The coordinator whose buffer is [WritePath.example_buffer]; the next handle it
    grants at time 60 is handle 2. *)
Definition example_coordinator : Coordinator.Coordinator :=
  Upload.example_coordinator WritePath.example_buffer.
Definition example_granted : Handle := MkHandle 2 60.

Lemma example_before_grant : before_grant 60 WritePath.example_buffer [].
Proof. by split_and!. Qed.

Lemma file_to_result_witness :
  ∃ calls c1 c2 err dfs',
    Uploader.uploadFile (coordinator_client 1 (λ _, 60)) (Ok Uploader.example_reads)
      (0%nat, example_coordinator) = Ret (None, (calls, c1)) ∧
    Coordinator.uploadFileToStorage (H := canonical_order) (H0 := merge_sort_slice)
      (H1 := Upload.memory_dfs) 1 no_faults (λ _, 80) 90 (λ f, f) "" "now" (λ _, false) c1 ∅ =
      Ret (c2, err, dfs') ∧
    (err = None →
     uploadedHandles (Coordinator.durableLog c2) !! example_granted = Some 90 ∧
     System.job_delivers (H := canonical_order) (H0 := merge_sort_slice) (System.memory_view dfs')
       (System.reading_from (H := Upload.memory_dfs) (H0 := System.memory_reader) dfs'
         (System.example_cluster Jobs.example_read)) ""
       (Coordinator.contentPath (Coordinator.remotePath "" example_granted)) (λ _, None)
       Jobs.example_master example_granted Worker.defaultMap Worker.defaultReduce
       ["h"; "i"; "!"]%char 2 [0; 1]%nat "later").
Proof.
  apply (file_to_result (H := canonical_order) (H0 := merge_sort_slice)
    (H1 := Upload.memory_dfs) (H2 := System.memory_reader) 0 (λ _, 60) 2 ["h"; "i"; "!"]%char
    Uploader.example_reads (λ _, 80) 90 (λ f, f) "" "now" (λ _, false) example_coordinator ∅ []
    (System.example_cluster Jobs.example_read) "/mapreduce" ["/mapreduce/download_logs"] (λ _, None)
    Jobs.example_master Worker.defaultMap Worker.defaultReduce [0; 1]%nat "later").
  - apply Uploader.example_reads_to.
  - done.
  - done.
  - apply example_before_grant.
  - done.
  - done.
  - apply WritePath.example_ring.
  - constructor.
  - vm_compute. done.
  - apply map_Forall_empty.
  - done.
  - done.
  - done.
  - vm_compute. done.
  - by vm_compute.
  - by vm_compute.
  - by vm_compute.
  - by vm_compute.
  - by vm_compute.
  - apply System.example_cluster_ok.
  - apply MapReduce.count_order_insensitive.
  - apply map_Forall_empty.
  - by vm_compute.
  - by vm_compute.
Defined.

(** Five bytes read one by one, for a buffer of four records. *)
Definition example_long : list Uploader.read_result :=
  Uploader.os_reads 6 1 (λ _, 1%nat) 0 ["a"; "b"; "c"; "d"; "e"]%char.

Lemma oversized_file_truncated_witness :
  ∃ d1 d2 lost kept,
    Uploader.uploadFile (coordinator_client 1 (λ _, 60)) (Ok example_long)
      (0%nat, example_coordinator) = Ret (None, (7%nat, Coordinator.set_log d1 example_coordinator)) ∧
    Flush (H := canonical_order) 1 no_faults (λ _, 80) d1 = Ret (d2, None) ∧
    handles d2 !! example_granted = Some true ∧
    decodeDlogFileContent (file_content (logDir d2) (logFileName example_granted)) =
      Ret (Ok kept) ∧
    ["a"; "b"; "c"; "d"; "e"]%char = lost ++ kept ∧ lost ≠ [].
Proof.
  apply (oversized_file_truncated (H := canonical_order) 0 (λ _, 60) 1
    ["a"; "b"; "c"; "d"; "e"]%char example_long (λ _, 80) example_coordinator).
  - apply (Uploader.os_reads_reads 1 (λ _, 1%nat) 6 0 ["a"; "b"; "c"; "d"; "e"]%char); cbn; lia.
  - done.
  - apply example_before_grant.
  - done.
  - done.
  - apply WritePath.example_ring.
  - done.
  - done.
  - by vm_compute.
Defined.

End Ingest.
