(* ===== verification/Plugins.v ===== *)
(** The map and reduce functions of [plugins/], and the loading of a plugin by
    [loadMapReducePlugin] of [worker.go]. Letters, printable characters and lower
    case are exact for ASCII; for longer runes they come from [UnicodeTables]. *)

From S2P Require Import Prelude GoStrings Json Codec Types Worker MapReduce Coordinator Uploader.
From Stdlib Require Import Ascii.
From stdpp Require Import options.

#[local] Arguments String.append !_ _ / : simpl nomatch.

Module Plugins.
Import GoStrings Types.

(** ** Text *)

(** The tables of [unicode] beyond ASCII, on the bytes of a rune; the lower case
    of a rune is a rune. *)
Class UnicodeTables := {
  letter_rune : string → bool;
  print_rune : string → bool;
  lower_rune : string → string;
  lower_rune_valid bs : Json.runes bs = [Json.R bs] →
    ∃ c, Json.runes (lower_rune bs) = [c] ∧ c ≠ Json.Bad
}.

Definition in_range (lo hi : ascii) (c : ascii) : bool :=
  bool_decide (nat_of_ascii lo <= nat_of_ascii c <= nat_of_ascii hi)%nat.
Definition ascii_letter (c : ascii) : bool := in_range "a" "z" c || in_range "A" "Z" c.
Definition ascii_digit (c : ascii) : bool := in_range "0" "9" c.

(** [strings.FieldsFunc] on decoded text: the maximal runs of characters that are
    not separators; [cur] is the field being read. A byte outside a rune is a
    separator for every function the plugins pass. *)
Definition emit (cur : string) : list string := if bool_decide (cur = "") then [] else [cur].
Fixpoint fields_func (sep : Json.ch → bool) (cs : list Json.ch) (cur : string) : list string :=
  match cs with
  | [] => emit cur
  | c :: cs =>
      if sep c then emit cur ++ fields_func sep cs ""
      else fields_func sep cs (cur +:+ Json.ch_text c)
  end.
Definition FieldsFunc (s : string) (sep : Json.ch → bool) : list string :=
  fields_func sep (Json.runes s) "".

Section text.
Context `{UnicodeTables}.

Definition IsLetter (c : Json.ch) : bool :=
  match c with
  | Json.A c => ascii_letter c
  | Json.R bytes => letter_rune bytes
  | Json.Bad => false
  end.
Definition IsPrint (c : Json.ch) : bool :=
  match c with
  | Json.A c => in_range " " "~" c
  | Json.R bytes => print_rune bytes
  | Json.Bad => print_rune Json.replacement
  end.
Definition IsSpace (c : Json.ch) : bool := bool_decide (Json.ch_text c ∈ space_encodings).

(** [strings.ToLower]. *)
Definition lower_ch (c : Json.ch) : string :=
  match c with
  | Json.A c => String (lower_byte c) ""
  | Json.R bytes => lower_rune bytes
  | Json.Bad => Json.replacement
  end.
Definition to_lower (s : string) : string := Json.concat_strings (lower_ch <$> Json.runes s).

(** ** Counting plugins *)

Definition one (k : string) : KeyValue := MkKV k "1".

(** The reducer six of the plugins share: the sum of the values that are
    numbers, as an [int]. *)
Definition sum_step (total : Z) (v : string) : Z :=
  match Atoi v with Some n => i64 (total + n) | None => total end.
Definition sum_values (values : list string) : string := Itoa (foldl sum_step 0 values).

Definition letters_of (s : string) : list string :=
  FieldsFunc s (λ c, negb (IsLetter c)).

(** *** [wc.go] *)
Definition wc_Map (_ contents : string) : list KeyValue := one <$> letters_of contents.
Definition wc_Reduce (_ : string) (values : list string) : string :=
  Itoa (Z.of_nat (length values)).

(** *** [bigram.go]; [tokenize] is the same in three plugins. *)
Definition tokenize (text : string) : list string := letters_of (to_lower text).

Fixpoint pairs (words : list string) : list string :=
  match words with
  | w1 :: (w2 :: _) as rest => (w1 +:+ " " +:+ w2) :: pairs rest
  | _ => []
  end.
Definition bigram_Map (_ contents : string) : list KeyValue := one <$> pairs (tokenize contents).
Definition bigram_Reduce (_ : string) (values : list string) : string := sum_values values.

(** *** [charfreq.go] *)
Definition charfreq_Map (_ contents : string) : list KeyValue :=
  (λ c, one (Json.ch_text c)) <$>
    filter (λ c, Is_true (IsPrint c && negb (IsSpace c))) (Json.runes (to_lower contents)).
Definition charfreq_Reduce (_ : string) (values : list string) : string := sum_values values.

(** *** [topwords.go] *)
Definition stopwords : list string :=
  ["a"; "an"; "the"; "and"; "or"; "but"; "in"; "on"; "at"; "to"; "for"; "of"; "with"; "by";
   "from"; "as"; "into"; "is"; "are"; "was"; "were"; "be"; "been"; "being"; "have"; "has"; "had";
   "do"; "does"; "did"; "will"; "would"; "could"; "should"; "may"; "might"; "must"; "shall"; "can";
   "i"; "me"; "my"; "we"; "our"; "you"; "your"; "he"; "she"; "it"; "they"; "them"; "his"; "her";
   "its"; "their"; "this"; "that"; "these"; "those"; "what"; "which"; "who"; "not"; "no"; "so";
   "if"; "then"; "than"; "up"; "out"; "about"; "all"; "also"; "just"; "more"; "when"; "there";
   "here"; "how"; "s"; "t"; "re"; "ve"; "ll"; "d"].
Definition topwords_Map (_ contents : string) : list KeyValue :=
  one <$> filter (λ w, ¬ ((String.length w < 3)%nat ∨ w ∈ stopwords)) (tokenize contents).
Definition topwords_Reduce (_ : string) (values : list string) : string := sum_values values.

(** *** [sentiment.go] *)
Definition positiveWords : list string :=
  ["good"; "great"; "excellent"; "wonderful"; "amazing"; "fantastic"; "outstanding"; "superb";
   "brilliant"; "love"; "loved"; "happy"; "joy"; "joyful"; "beautiful"; "perfect"; "best";
   "better"; "awesome"; "pleasant"; "positive"; "success"; "successful"; "win"; "winner"; "won";
   "nice"; "helpful"; "hope"; "hopeful"; "thankful"; "grateful"; "kind"; "kindness"; "care";
   "caring"; "bright"; "celebrate"; "celebration"; "enjoy"; "enjoyed"; "impressive"; "innovative";
   "creative"; "proud"; "trust"; "trusted"; "safe"; "secure"; "courage"; "courageous"; "strong";
   "strength"].
Definition negativeWords : list string :=
  ["bad"; "terrible"; "awful"; "horrible"; "dreadful"; "poor"; "worst"; "hate"; "hated"; "fail";
   "failed"; "failure"; "sad"; "unhappy"; "miserable"; "ugly"; "wrong"; "broken"; "corrupt";
   "evil"; "pain"; "painful"; "hurt"; "loss"; "lose"; "lost"; "crisis"; "disaster"; "problem";
   "problems"; "issue"; "issues"; "trouble"; "troubles"; "dangerous"; "damage"; "damaged";
   "destroy"; "destroyed"; "weak"; "weakness"; "fear"; "fearful"; "angry"; "anger"; "rage";
   "violence"; "violent"; "attack"; "attacked"; "threat"; "threatened"].
Definition category (w : string) : string :=
  if bool_decide (w ∈ positiveWords) then "positive"
  else if bool_decide (w ∈ negativeWords) then "negative"
  else "neutral".
Definition sentiment_Map (_ contents : string) : list KeyValue :=
  (λ w, one ("sentiment:" +:+ category w)) <$> tokenize contents.
Definition sentiment_Reduce (_ : string) (values : list string) : string := sum_values values.

(** *** [linestats.go] *)
Fixpoint newlines (s : string) : Z :=
  match s with
  | EmptyString => 0
  | String c s => (if bool_decide (c = "010"%char) then 1 else 0) + newlines s
  end.
Fixpoint last_byte (s : string) : option ascii :=
  match s with
  | EmptyString => None
  | String c EmptyString => Some c
  | String _ s => last_byte s
  end.
Definition lines (s : string) : Z :=
  newlines s + (if bool_decide (last_byte s = None ∨ last_byte s = Some "010"%char) then 0 else 1).
Definition linestats_Map (_ contents : string) : list KeyValue :=
  [MkKV "lines" (Itoa (lines contents));
   MkKV "words" (Itoa (Z.of_nat (length (Fields contents))));
   MkKV "chars" (Itoa (Z.of_nat (length (Json.runes contents))))].
Definition linestats_Reduce (_ : string) (values : list string) : string := sum_values values.

(** *** [indexer.go]; the words are enumerated in the order of a map. *)
Definition word_set (words : list string) : gmap string bool :=
  foldl (λ m w, <[w := true]> m) ∅ words.
Definition indexer_Map `{MapOrder} (document value : string) : list KeyValue :=
  (λ e, MkKV e.1 document) <$> map_entries (word_set (letters_of value)).
Definition indexer_Reduce `{SortSlice} (_ : string) (values : list string) : string :=
  fmt_d (Z.of_nat (length values)) +:+ " " +:+ Join (sort_slice String.le values) ",".

(** *** Matching plugins

    [FindAllString] with the two expressions, whose classes are of ASCII bytes or
    of everything else: at each position a match, if there is one, is determined,
    and the scan goes on behind it. [find_from] gives what is left of the text
    after a match at its beginning. *)
Fixpoint span (p : ascii → bool) (s : string) : string * string :=
  match s with
  | EmptyString => ("", "")
  | String c s' => if p c then let r := span p s' in (String c r.1, r.2) else ("", s)
  end.

Fixpoint find_all (fuel : nat) (match_at : string → option string) (s : string) : list string :=
  match fuel, s with
  | S fuel, String _ s' =>
      match match_at s with
      | Some m => m :: find_all fuel match_at (string_drop (String.length m) s)
      | None => find_all fuel match_at s'
      end
  | _, _ => []
  end.
Definition FindAllString (match_at : string → option string) (s : string) : list string :=
  find_all (String.length s) match_at s.

(** The expression for URLs: [https?://] and a non-empty run without white space,
    quotes, brackets of any kind, comma and semicolon. *)
Definition url_stops : list ascii :=
  (["009"; "010"; "012"; "013"; " "; Json.dq; "'"; "<"; ">"; "["; "]"; "("; ")"; "{"; "}"; ","; ";"]%char).
Definition match_url (s : string) : option string :=
  if negb (HasPrefix s "http") then None else
  let r := string_drop 4 s in
  let scheme := if HasPrefix r "s" then "https" else "http" in
  let r := if HasPrefix r "s" then string_drop 1 r else r in
  if negb (HasPrefix r "://") then None else
  let body := (span (λ c, bool_decide (c ∉ url_stops)) (string_drop 3 r)).1 in
  if bool_decide (body = "") then None else Some (scheme +:+ "://" +:+ body).

Definition urlextract_Map (_ contents : string) : list KeyValue :=
  (λ m, one (to_lower (TrimRight m ["."; ","; "!"; "?"; ":"]%char))) <$>
    FindAllString match_url contents.
Definition urlextract_Reduce (_ : string) (values : list string) : string := sum_values values.

(** [[a-zA-Z0-9._%+\-]+@[a-zA-Z0-9.\-]+\.[a-zA-Z]{2,}]: neither class holds the
    at sign, so only the domain backtracks, to its last dot that has something
    before it and two letters behind it. *)
Definition local_char (c : ascii) : bool :=
  ascii_letter c || ascii_digit c || bool_decide (c ∈ ["."; "_"; "%"; "+"; "-"]%char).
Definition domain_char (c : ascii) : bool :=
  ascii_letter c || ascii_digit c || bool_decide (c ∈ ["."; "-"]%char).
Fixpoint match_domain (started : bool) (s : string) : option string :=
  match s with
  | EmptyString => None
  | String c s =>
      match match_domain true s with
      | Some m => Some (String c m)
      | None =>
          let tld := (span ascii_letter s).1 in
          if started && bool_decide (c = "."%char) && bool_decide (2 <= String.length tld)%nat
          then Some (String c tld) else None
      end
  end.
Definition match_email (s : string) : option string :=
  let l := span local_char s in
  match l with
  | (String _ _ as name, String "@" rest) =>
      domain ← match_domain false (span domain_char rest).1;
      Some (name +:+ "@" +:+ domain)
  | _ => None
  end.

Definition emailextract_Map (_ contents : string) : list KeyValue :=
  (λ m, one (to_lower m)) <$> FindAllString match_email contents.
Definition emailextract_Reduce (_ : string) (values : list string) : string := sum_values values.

End text.

(** ** Plugins that test the service *)

(** *** [crash.go] and [nocrash.go]; [rr] is the random number, [None] the end of
    the process. *)
Definition maybeCrash (rr : Z) : option () := if rr <? 330 then None else Some ().
Definition crash_pairs (filename contents : string) : list KeyValue :=
  [MkKV "a" filename; MkKV "b" (Itoa (Z.of_nat (String.length filename)));
   MkKV "c" (Itoa (Z.of_nat (String.length contents))); MkKV "d" "xyzzy"].
Definition crash_Map (rr : Z) (filename contents : string) : option (list KeyValue) :=
  _ ← maybeCrash rr; Some (crash_pairs filename contents).
Definition crash_Reduce `{SortSlice} (rr : Z) (_ : string) (values : list string) :
    option string :=
  _ ← maybeCrash rr; Some (Join (sort_slice String.le values) " ").

Definition nocrash_Map (filename contents : string) : list KeyValue :=
  crash_pairs filename contents.
Definition nocrash_Reduce `{SortSlice} (_ : string) (values : list string) : string :=
  Join (sort_slice String.le values) " ".

(** *** [early_exit.go]; the delay of some reductions is not a result. *)
Definition early_exit_Map (filename _ : string) : list KeyValue := [one filename].
Definition early_exit_Reduce (_ : string) (values : list string) : string :=
  Itoa (Z.of_nat (length values)).

(** *** [jobcount.go]: a counter in the process and one file per call of [Map] in
    the working directory. *)
Record JobCount := MkJobCount { jc_count : Z; jc_files : gmap string string }.
Definition jobcount_Map (pid : Z) (write_fails : bool) (s : JobCount) :
    outcome (list KeyValue * JobCount) :=
  let f := "mrp-worker-jobcount-" +:+ fmt_d pid +:+ "-" +:+ fmt_d (jc_count s) in
  if write_fails then Panic
  else Ret ([MkKV "a" "x"], MkJobCount (i64 (jc_count s + 1)) (<[f := "x"]> (jc_files s))).
Definition jobcount_Reduce (read_fails : bool) (s : JobCount) : outcome string :=
  if read_fails then Panic
  else Ret (Itoa (Z.of_nat (length (filter (λ e, Is_true (HasPrefix e.1 "mrp-worker-jobcount"))
                                      (map_to_list (jc_files s)))))).

(** *** [mtiming.go] and [rtiming.go]: the worker files of living processes in the
    working directory. [scan_int] is the verb [%d] of [Sscanf]. *)
Definition nparallel (phase : string) (pid : Z) (fails : bool) (alive : Z → bool)
    (dir : gmap string string) : outcome (Z * gmap string string) :=
  let prefix := "mrp-worker-" +:+ phase +:+ "-" in
  let myfilename := prefix +:+ fmt_d pid in
  if fails then Panic else
  let dir := <[myfilename := "x"]> dir in
  let pids := omap (λ e, if HasPrefix e.1 prefix
                         then fst <$> Codec.scan_int (TrimPrefix e.1 prefix) else None)
                (map_to_list dir) in
  Ret (Z.of_nat (length (filter (λ p, Is_true (alive p)) pids)), delete myfilename dir).

Definition mtiming_Map (ts : string) (pid : Z) (fails : bool) (alive : Z → bool)
    (dir : gmap string string) : outcome (list KeyValue * gmap string string) :=
  r ← nparallel "map" pid fails alive dir;
  Ret ([MkKV ("times-" +:+ fmt_d pid) ts; MkKV ("parallel-" +:+ fmt_d pid) (fmt_d r.1)], r.2).
Definition mtiming_Reduce `{SortSlice} (_ : string) (values : list string) : string :=
  Join (sort_slice String.le values) " ".

Definition rtiming_Map (_ _ : string) : list KeyValue :=
  one <$> ["a"; "b"; "c"; "d"; "e"; "f"; "g"; "h"; "i"; "j"].
Definition rtiming_Reduce (pid : Z) (fails : bool) (alive : Z → bool)
    (dir : gmap string string) : outcome (string * gmap string string) :=
  r ← nparallel "reduce" pid fails alive dir;
  Ret (fmt_d r.1, r.2).

(** ** Loading a plugin

    A shared object has symbols; the two that are looked up must have the right
    types. *)
Inductive symbol : Type :=
| MapSymbol (f : string → string → list KeyValue)
| ReduceSymbol (f : string → list string → string)
| OtherSymbol.

Definition resolvePluginPath (pluginDirEnv pluginPath pluginName : string) : string :=
  let path := TrimSpace pluginPath in
  if negb (bool_decide (path = "")) then path else
  let name := TrimSpace pluginName in
  if bool_decide (name = "") then "" else
  let baseName := TrimSuffix name ".so" in
  Uploader.path_join
    (Uploader.path_join (Worker.envOrDefault pluginDirEnv "./plugins") baseName) (baseName +:+ ".so").

(** [filepath.Base]: trailing slashes are dropped first. *)
Definition path_base (p : string) : string :=
  if bool_decide (p = "") then "." else
  let q := TrimRight p ["/"%char] in
  if bool_decide (q = "") then "/" else default "" (last (Split q "/")).

Definition set_plugin (name : string) (mapf : string → string → list KeyValue)
    (reducef : string → list string → string) (w : Worker.Worker) : Worker.Worker :=
  Worker.MkWorker (Worker.serverAddress w) (Worker.masterAddress w) (Worker.fsServerAddr w)
    name (Worker.nReduce w) mapf reducef.

(** The worker and its new [pluginPath]. *)
Definition loadMapReducePlugin (pluginDirEnv pluginPath : string)
    (open : string → res (string → option symbol)) (w : Worker.Worker) :
    res (Worker.Worker * string) :=
  let resolvedPath := resolvePluginPath pluginDirEnv pluginPath (Worker.pluginName w) in
  if bool_decide (resolvedPath = "") then Ok (w, pluginPath) else
  match open resolvedPath with
  | Err e => Err (ErrWrap ("failed to open plugin " +:+ resolvedPath) e)
  | Ok lookup =>
      match lookup "Map", lookup "Reduce" with
      | None, _ => Err (ErrMsg ("plugin " +:+ resolvedPath +:+ " missing Map symbol"))
      | _, None => Err (ErrMsg ("plugin " +:+ resolvedPath +:+ " missing Reduce symbol"))
      | Some (MapSymbol mapf), Some (ReduceSymbol reducef) =>
          let name := if bool_decide (Worker.pluginName w = "")
                      then TrimSuffix (path_base resolvedPath) ".so" else Worker.pluginName w in
          Ok (set_plugin name mapf reducef w, resolvedPath)
      | Some (MapSymbol _), _ =>
          Err (ErrMsg ("plugin " +:+ resolvedPath +:+ " Reduce has invalid signature"))
      | _, _ => Err (ErrMsg ("plugin " +:+ resolvedPath +:+ " Map has invalid signature"))
      end
  end.

End Plugins.
