(* ===== verification/PluginLaws.v ===== *)
(** Theorems about the plugins of [Plugins]: what the pipeline needs of a reducer,
    what the counting plugins compute, and what becomes of their counts when a
    file is cut into chunks. *)

From S2P Require Import Prelude GoStrings Json Codec Types Worker MapReduce Coordinator Uploader.
From S2P Require Import Plugins.
From Stdlib Require Import Ascii.
From stdpp Require Import options.

#[local] Arguments String.append !_ _ / : simpl nomatch.

Module PluginLaws.
Import GoStrings Types Plugins.

(** ** Reducers *)

Definition sum_reducers : list (string → list string → string) :=
  [bigram_Reduce; charfreq_Reduce; topwords_Reduce; sentiment_Reduce; linestats_Reduce;
   urlextract_Reduce; emailextract_Reduce].
Definition length_reducers : list (string → list string → string) :=
  [wc_Reduce; early_exit_Reduce; Worker.defaultReduce].
Definition sorting_reducers `{SortSlice} : list (string → list string → string) :=
  [indexer_Reduce; nocrash_Reduce; mtiming_Reduce].

Lemma sum_step_range total v : min_i64 <= total <= max_i64 → min_i64 <= sum_step total v <= max_i64.
Proof.
  unfold sum_step. destruct (Atoi v); [|done]. intros _. pose proof (i64_range (total + z)).
  unfold min_i64, max_i64. lia.
Qed.
Lemma sum_range acc vs :
  min_i64 <= acc <= max_i64 → min_i64 <= foldl sum_step acc vs <= max_i64.
Proof. revert acc. induction vs as [|v vs IH]; intros acc Ha; [done|]. apply IH. by apply sum_step_range. Qed.

(** Adding up wraps around, so only the sum modulo [2 ^ 64] counts. *)
Definition value_of (v : string) : Z := default 0 (Atoi v).
Definition total_of (vs : list string) : Z := foldr (λ v t, value_of v + t) 0 vs.

Lemma sum_step_value acc v :
  min_i64 <= acc <= max_i64 → sum_step acc v = i64 (acc + value_of v).
Proof.
  intros Ha. unfold sum_step, value_of. destruct (Atoi v); [done|]. cbn.
  rewrite Z.add_0_r, i64_small; unfold min_i64, max_i64 in *; lia.
Qed.
Lemma sum_total acc vs :
  min_i64 <= acc <= max_i64 → foldl sum_step acc vs = i64 (acc + total_of vs).
Proof.
  revert acc. induction vs as [|v vs IH]; intros acc Ha; cbn.
  - rewrite Z.add_0_r, i64_small; unfold min_i64, max_i64 in *; lia.
  - rewrite IH by (by apply sum_step_range). rewrite sum_step_value, i64_add_l by done.
    f_equal. unfold total_of. lia.
Qed.
Lemma sum_values_total vs : sum_values vs = Itoa (i64 (total_of vs)).
Proof. unfold sum_values. rewrite sum_total by (unfold min_i64, max_i64; lia). done. Qed.

Lemma total_of_app vs vs' : total_of (vs ++ vs') = total_of vs + total_of vs'.
Proof. induction vs as [|v vs IH]; cbn; [done|]. unfold total_of in *. lia. Qed.
#[export] Instance total_of_perm : Proper ((≡ₚ) ==> (=)) total_of.
Proof. intros vs vs'. unfold total_of. induction 1; cbn in *; lia. Qed.

Lemma value_of_sum vs : value_of (sum_values vs) = i64 (total_of vs).
Proof.
  rewrite sum_values_total. unfold value_of. rewrite Atoi_Itoa; [done|].
  pose proof (i64_range (total_of vs)). unfold min_i64, max_i64. lia.
Qed.

Lemma sum_values_concat vss : sum_values (sum_values <$> vss) = sum_values (concat vss).
Proof.
  rewrite !sum_values_total. f_equal. induction vss as [|vs vss IH]; [done|].
  cbn [fmap list_fmap concat]. rewrite total_of_app. unfold total_of in *. cbn [foldr].
  fold (total_of (sum_values <$> vss)) in *. fold (total_of vs) in *. rewrite value_of_sum, i64_add_l.
  rewrite (Z.add_comm (total_of vs)), (Z.add_comm (total_of vs)). rewrite <- (i64_add_l (total_of _)).
  rewrite IH. by rewrite i64_add_l.
Qed.

(** Two sorted permutations of each other are equal. *)
Lemma sort_strings_perm `{SortSlice} vs vs' :
  vs ≡ₚ vs' → sort_slice String.le vs = sort_slice String.le vs'.
Proof.
  intros Hp. apply (StronglySorted_unique String.le).
  1,2: apply sort_slice_sorted; apply _.
  by rewrite !sort_slice_perm.
Qed.

(** The reducers. The result of every reducer that depends on its values alone
    does not depend on their order, which is what the pipeline asks of a plugin.
    The summing reducers can also reduce partial results (with the wrap-around of
    [int], and ignoring what is not a number); the length reducers cannot: they
    count the partial results. *)
Theorem reducers_spec `{SortSlice} :
  (∀ f, f ∈ sum_reducers ++ length_reducers ++ sorting_reducers → MapReduce.order_insensitive f) ∧
  (∀ f k vss, f ∈ sum_reducers → f k (f k <$> vss) = f k (concat vss)) ∧
  (∀ f k vss, f ∈ length_reducers → f k (f k <$> vss) = Itoa (Z.of_nat (length vss))).
Proof.
  split_and!.
  - intros f Hf k vs vs' Hp.
    assert (sum_values vs = sum_values vs') as Hs by (by rewrite !sum_values_total, Hp).
    pose proof (sort_strings_perm vs vs' Hp) as Ho.
    repeat (apply elem_of_cons in Hf as [-> |Hf];
      [first [exact Hs | unfold wc_Reduce, early_exit_Reduce, Worker.defaultReduce; by rewrite Hp
             | unfold indexer_Reduce, nocrash_Reduce, mtiming_Reduce; by rewrite Ho, ?Hp]|]).
    by inversion Hf.
  - intros f k vss Hf.
    repeat (apply elem_of_cons in Hf as [-> |Hf]; [apply sum_values_concat|]). by inversion Hf.
  - intros f k vss Hf.
    repeat (apply elem_of_cons in Hf as [-> |Hf];
      [unfold wc_Reduce, early_exit_Reduce, Worker.defaultReduce; by rewrite length_fmap|]).
    by inversion Hf.
Qed.

(** ** Counting *)

Lemma value_of_one : value_of "1" = 1.
Proof. reflexivity. Qed.
Lemma total_of_ones n : total_of (replicate n "1") = Z.of_nat n.
Proof.
  induction n as [|n IH]; [done|]. cbn [replicate]. unfold total_of in *. cbn [foldr].
  rewrite IH, value_of_one. lia.
Qed.
Lemma sum_values_ones n : Z.of_nat n <= max_i64 → sum_values (replicate n "1") = Itoa (Z.of_nat n).
Proof.
  intros Hn. rewrite sum_values_total, total_of_ones, i64_small; [done|]. unfold max_i64 in Hn. lia.
Qed.

(** The histogram of words: one line per distinct word, in order. *)
Definition histogram (words : list string) : string :=
  Json.concat_strings
    ((λ k, Worker.output_line k (Itoa (Z.of_nat (MapReduce.count k words)))) <$>
       merge_sort String.le (remove_dups words)).

Lemma values_of_ones k words :
  MapReduce.values_of k (MapReduce.kv_norm <$> (one <$> words)) =
    replicate (MapReduce.count k (Json.to_valid <$> words)) "1".
Proof.
  unfold MapReduce.values_of, MapReduce.count. induction words as [|w words IH]; [done|].
  rewrite !fmap_cons, !filter_cons. cbn [Key MapReduce.kv_norm one].
  repeat case_decide; cbn [length replicate]; by rewrite ?fmap_cons, ?IH.
Qed.

(** A reducer that counts the ones it is given. *)
Definition counts (f : string → list string → string) : Prop :=
  ∀ k n, Z.of_nat n <= max_i64 → f k (replicate n "1") = Itoa (Z.of_nat n).

Lemma reduce_spec_counts f ws :
  counts f → Z.of_nat (length ws) <= max_i64 →
  MapReduce.reduce_spec f (MapReduce.kv_norm <$> (one <$> ws)) = histogram (Json.to_valid <$> ws).
Proof.
  intros Hf Hlen. unfold MapReduce.reduce_spec, MapReduce.reduce_lines, MapReduce.sorted_keys, histogram.
  replace (Key <$> (MapReduce.kv_norm <$> (one <$> ws))) with (Json.to_valid <$> ws)
    by (by rewrite <- !list_fmap_compose).
  f_equal. apply list_fmap_ext. intros i k _. rewrite values_of_ones, Hf; [done|].
  unfold MapReduce.count. pose proof (length_filter (λ w, w = k) (Json.to_valid <$> ws)) as Hle.
  rewrite length_fmap in Hle. lia.
Qed.

Section counting.
Context `{UnicodeTables}.

(** What the counting plugins count: with their functions, the words of a text. *)
Record counter := MkCounter {
  c_Map : string → string → list KeyValue;
  c_Reduce : string → list string → string;
  c_words : string → list string
}.
Definition counters : list counter :=
  [MkCounter wc_Map wc_Reduce letters_of;
   MkCounter bigram_Map bigram_Reduce (λ s, pairs (tokenize s));
   MkCounter charfreq_Map charfreq_Reduce
     (λ s, Json.ch_text <$> filter (λ c, Is_true (IsPrint c && negb (IsSpace c)))
             (Json.runes (to_lower s)));
   MkCounter topwords_Map topwords_Reduce
     (λ s, filter (λ w, ¬ ((String.length w < 3)%nat ∨ w ∈ stopwords)) (tokenize s));
   MkCounter sentiment_Map sentiment_Reduce
     (λ s, (λ w, "sentiment:" +:+ category w) <$> tokenize s);
   MkCounter urlextract_Map urlextract_Reduce
     (λ s, (λ m, to_lower (TrimRight m ["."; ","; "!"; "?"; ":"]%char)) <$>
             FindAllString match_url s);
   MkCounter emailextract_Map emailextract_Reduce
     (λ s, to_lower <$> FindAllString match_email s)].

Lemma counters_ok c :
  c ∈ counters →
  (∀ file s, c_Map c file s = one <$> c_words c s) ∧ counts (c_Reduce c) ∧
  MapReduce.order_insensitive (c_Reduce c).
Proof.
  assert (∀ vs vs', vs ≡ₚ vs' → sum_values vs = sum_values vs') as Hs.
  { intros vs vs' Hp. by rewrite !sum_values_total, Hp. }
  assert (∀ file s, charfreq_Map file s = one <$> (Json.ch_text <$> filter
    (λ c, Is_true (IsPrint c && negb (IsSpace c))) (Json.runes (to_lower s)))) as Hch.
  { intros file s. unfold charfreq_Map. by rewrite <- list_fmap_compose. }
  intros Hc. unfold counters in Hc.
  repeat (apply elem_of_cons in Hc as [-> |Hc]; [split_and!; cbn;
    [try done; intros file s; try apply Hch; unfold sentiment_Map, urlextract_Map, emailextract_Map;
       by rewrite <- list_fmap_compose
    |intros k n Hn; first [by apply sum_values_ones|unfold wc_Reduce; by rewrite length_replicate]
    |intros k vs vs' Hp; first [by apply Hs|unfold wc_Reduce; by rewrite Hp]]|]).
  by inversion Hc.
Qed.

(** A shared object with the two functions. *)
Definition plugin_symbols (c : counter) (name : string) : option symbol :=
  if bool_decide (name = "Map") then Some (MapSymbol (c_Map c))
  else if bool_decide (name = "Reduce") then Some (ReduceSymbol (c_Reduce c))
  else None.

(** Where a plugin that is only named is looked for: its folder below the plugin
    directory. *)
Definition plugin_file (dirEnv name : string) : string :=
  let base := TrimSuffix (TrimSpace name) ".so" in
  Uploader.path_join
    (Uploader.path_join (Worker.envOrDefault dirEnv "./plugins") base) (base +:+ ".so").

Lemma path_clean_not_empty p : Coordinator.path_clean p ≠ "".
Proof. unfold Coordinator.path_clean. cbv zeta. by case_bool_decide. Qed.

Lemma path_join_not_empty a b : Uploader.path_join a b ≠ "".
Proof. unfold Uploader.path_join. case_bool_decide; apply path_clean_not_empty. Qed.

Lemma named_plugin_resolved dirEnv path name :
  TrimSpace path = "" → TrimSpace name ≠ "" →
  resolvePluginPath dirEnv path name = plugin_file dirEnv name ∧ plugin_file dirEnv name ≠ "".
Proof.
  intros Hp Hn. split; [|apply path_join_not_empty]. unfold resolvePluginPath. cbv zeta.
  rewrite Hp, (bool_decide_eq_true_2 ("" = "")) by done. cbn [negb].
  by rewrite bool_decide_eq_false_2 by done.
Qed.

(** C34: a worker that is named a plugin and given no path. It opens exactly one file,
    the one of that name in the plugin's folder below the plugin directory. If it
    cannot be opened, or lacks a symbol, loading ends with an error. If it is one of
    the seven counting plugins, loading succeeds, keeps the name, and then, for every
    number of partitions and every scheduling, the worker's output for a chunk, in
    its reply and in its output file, is the histogram of what the plugin counts in
    that chunk: letter runs, pairs of words, characters, words that are no stopwords,
    sentiments, URLs or addresses. *)
Theorem counting_plugin_outputs `{SortSlice} (dirEnv path : string)
    (open : string → res (string → option symbol)) (c : counter) (w : Worker.Worker)
    (sched : list nat) (request : MapReduceRequest) (data : list byte) (d : Worker.Disk) :
  TrimSpace path = "" → TrimSpace (Worker.pluginName w) ≠ "" →
  c ∈ counters → 0 < Worker.nReduce w → MapReduce.schedule (Worker.nReduce w) sched →
  let file := plugin_file dirEnv (Worker.pluginName w) in
  let words := c_words c (Worker.bytes_text data) in
  let name := Worker.outputFileName (Codec.Id (Types.mr_Handle request)) (Types.mr_ChunkIndex request) in
  Z.of_nat (length words) <= max_i64 →
  (∀ e, open file = Err e → ∃ e', loadMapReducePlugin dirEnv path open w = Err e') ∧
  (∀ lookup, open file = Ok lookup → lookup "Map" = None ∨ lookup "Reduce" = None →
     ∃ e', loadMapReducePlugin dirEnv path open w = Err e') ∧
  (open file = Ok (plugin_symbols c) →
     ∃ w' d', loadMapReducePlugin dirEnv path open w = Ok (w', file) ∧
       Worker.pluginName w' = Worker.pluginName w ∧
       Worker.runMapReducePipeline Worker.no_io_faults sched w' request data d =
         Ret (Ok (name, histogram (Json.to_valid <$> words)), d') ∧
       Worker.output d' !! name = Some (histogram (Json.to_valid <$> words))).
Proof.
  intros Hp Hname Hc Hn Hs file words name Hlen.
  destruct (named_plugin_resolved dirEnv path _ Hp Hname) as [Hres Hne]. fold file in Hres, Hne.
  unfold loadMapReducePlugin. rewrite Hres. rewrite bool_decide_eq_false_2 by done. split_and!.
  - intros e ->. by eexists.
  - intros lookup -> [-> | ->]; [by eexists|]. destruct (lookup "Map") as [[]|]; by eexists.
  - intros ->. cbn [plugin_symbols].
    rewrite bool_decide_eq_false_2 by (intros E; rewrite E in Hname; done).
    destruct (counters_ok c Hc) as (Hmap & Hcount & Horder).
    destruct (MapReduce.pipeline_ok sched (set_plugin (Worker.pluginName w) (c_Map c) (c_Reduce c) w)
      request data d Hn Hs Horder) as (d' & E & Ho & _).
    assert (MapReduce.reduce_spec (c_Reduce c) (MapReduce.kv_norm <$> MapReduce.map_output
      (set_plugin (Worker.pluginName w) (c_Map c) (c_Reduce c) w) request data) =
      histogram (Json.to_valid <$> words)) as Ew.
    { unfold MapReduce.map_output. cbn [set_plugin Worker.mapf]. rewrite Hmap.
      by rewrite reduce_spec_counts. }
    cbn [set_plugin Worker.reducef] in E, Ho. rewrite Ew in E, Ho.
    eexists _, d'. split_and!; [done|done|exact E|]. rewrite Ho. by rewrite lookup_insert_eq.
Qed.

(** ** Chunks

    A worker sees one chunk, and the DFS cuts a file at multiples of the chunk
    size, whatever is there. *)

Lemma fields_func_sep sep cs1 c cs2 cur :
  sep c = true → fields_func sep (cs1 ++ c :: cs2) cur = fields_func sep cs1 cur ++ fields_func sep cs2 "".
Proof.
  intros Hc. revert cur. induction cs1 as [|c1 cs1 IH]; intros cur; cbn.
  - by rewrite Hc.
  - destruct (sep c1); rewrite IH; [by rewrite (assoc_L (++))|done].
Qed.

Definition separator (c : ascii) : Prop := Json.is_ascii c = true ∧ ascii_letter c = false.

Lemma letters_of_sep a c b :
  separator c → letters_of (a +:+ String c b) = letters_of a ++ letters_of b.
Proof.
  intros [Ha Hc]. unfold letters_of, FieldsFunc. rewrite Json.runes_sep by done.
  apply fields_func_sep. cbn. by rewrite Hc.
Qed.

(** The piece ends where no word does. *)
Definition cut_outside (piece : string) : Prop :=
  ∃ s c, piece = s +:+ String c "" ∧ separator c.

Lemma letters_of_cut piece rest :
  cut_outside piece → letters_of (piece +:+ rest) = letters_of piece ++ letters_of rest.
Proof.
  intros (s & c & -> & Hc). rewrite <- append_assoc. cbn [String.append].
  rewrite !letters_of_sep by done. change (letters_of "") with (@nil string).
  by rewrite (right_id_L [] (++)).
Qed.

Definition letter_word (s : string) : Prop :=
  s ≠ "" ∧ string_forall (λ c, Json.is_ascii c && ascii_letter c) s = true.

Lemma letters_of_word s : letter_word s → letters_of s = [s].
Proof.
  intros [Hne Hs]. unfold letters_of, FieldsFunc.
  assert (∀ cur, cur +:+ s ≠ "" → fields_func (λ c, negb (IsLetter c)) (Json.runes s) cur = [cur +:+ s])
    as Hgo.
  { clear Hne. induction s as [|c s IH]; intros cur Hne; cbn.
    - rewrite append_nil_r in Hne |- *. unfold emit. by rewrite bool_decide_eq_false_2.
    - cbn in Hs. apply andb_prop in Hs as [[Ha Hc]%andb_prop Hs]. rewrite Ha. cbn. rewrite Hc. cbn.
      assert ((cur +:+ String c "") +:+ s = cur +:+ String c s) as E by (by rewrite <- append_assoc).
      rewrite IH; rewrite ?E; done. }
  by rewrite Hgo.
Qed.

Lemma letter_word_app x y : letter_word x → letter_word y → letter_word (x +:+ y).
Proof.
  intros [Hx Fx] [Hy Fy]. split; [by destruct x|]. clear Hx. revert Fx.
  induction x as [|c x IH]; [done|]. cbn. rewrite !andb_true_iff. naive_solver.
Qed.

(** The number of pieces but the last that do not end a line. *)
Fixpoint open_lines (pieces : list string) : Z :=
  match pieces with
  | p :: (_ :: _) as rest =>
      (if bool_decide (last_byte p = Some "010"%char) then 0 else 1) + open_lines rest
  | _ => 0
  end.

Lemma last_byte_app a b : b ≠ "" → last_byte (a +:+ b) = last_byte b.
Proof.
  intros Hb. induction a as [|c a IH]; [done|]. cbn. destruct (a +:+ b) eqn:E.
  - destruct a; [by destruct b|done].
  - exact IH.
Qed.
Lemma last_byte_none s : last_byte s = None ↔ s = "".
Proof.
  split; [|by intros ->]. induction s as [|c [|c' s] IH]; [done..|]. intros E.
  by specialize (IH E).
Qed.
Lemma newlines_app a b : newlines (a +:+ b) = newlines a + newlines b.
Proof. induction a as [|c a IH]; cbn; [done|]. rewrite IH. lia. Qed.

Lemma lines_app a b :
  a ≠ "" → b ≠ "" →
  lines a + lines b =
    lines (a +:+ b) + (if bool_decide (last_byte a = Some "010"%char) then 0 else 1).
Proof.
  intros Ha Hb. unfold lines. rewrite newlines_app, last_byte_app by done.
  pose proof (last_byte_none a). pose proof (last_byte_none b).
  repeat case_bool_decide; try lia; naive_solver.
Qed.

Lemma lines_pieces pieces :
  Forall (λ p, p ≠ "") pieces →
  foldr (λ p t, lines p + t) 0 pieces =
    lines (Json.concat_strings pieces) + open_lines pieces.
Proof.
  induction 1 as [|p pieces Hp Hps IH]; [done|]. cbn [foldr Json.concat_strings]. rewrite IH.
  destruct pieces as [|p' pieces]; cbn [Json.concat_strings open_lines].
  - rewrite append_nil_r. unfold lines at 2. cbn. lia.
  - pose proof (lines_app p (Json.concat_strings (p' :: pieces)) Hp) as E.
    cbn [Json.concat_strings] in E. cbn [open_lines] in *.
    rewrite Z.add_assoc, E; [lia|]. apply Forall_inv in Hps. by destruct p'.
Qed.

(** C35: what cutting a file into chunks does to the counts. If every chunk but the
    last ends outside a word, the words of the chunks are the words of the file. A
    cut inside a word replaces it by its two parts, which are counted as words of
    their own. The line counts of the chunks add up to that of the file plus one
    for every cut inside a line. *)
Theorem chunk_boundaries :
  (∀ pieces last, Forall cut_outside pieces →
     letters_of (Json.concat_strings (pieces ++ [last])) = (pieces ++ [last]) ≫= letters_of) ∧
  (∀ before x y after c1 c2, separator c1 → separator c2 → letter_word x → letter_word y →
     let a := before +:+ String c1 x in
     let b := y +:+ String c2 after in
     letters_of (a +:+ b) = letters_of before ++ [x +:+ y] ++ letters_of after ∧
     letters_of a ++ letters_of b = letters_of before ++ [x; y] ++ letters_of after) ∧
  (∀ pieces, Forall (λ p, p ≠ "") pieces →
     foldr (λ p t, lines p + t) 0 pieces =
       lines (Json.concat_strings pieces) + open_lines pieces).
Proof.
  split_and!.
  - intros pieces last Hall. induction Hall as [|p pieces Hp Hall IH]; cbn [app Json.concat_strings].
    + rewrite append_nil_r. symmetry. apply (right_id_L [] (++)).
    + rewrite letters_of_cut, IH by done. symmetry. apply bind_cons.
  - intros before x y after c1 c2 Hc1 Hc2 Hx Hy a b. unfold a, b. split.
    + rewrite <- append_assoc. cbn [String.append]. rewrite letters_of_sep by done. f_equal.
      rewrite append_assoc, (letters_of_sep (x +:+ y) c2) by done.
      by rewrite (letters_of_word (x +:+ y)) by (by apply letter_word_app).
    + rewrite (letters_of_sep before c1 x), (letters_of_sep y c2 after) by done.
      rewrite (letters_of_word x), (letters_of_word y) by done. by rewrite <- (assoc_L (++)).
  - apply lines_pieces.
Qed.

End counting.

(** ** Witnesses *)

(** Tables that know no letter beyond ASCII. *)
#[refine] Definition ascii_tables : UnicodeTables := {|
  letter_rune := λ _, false;
  print_rune := λ _, false;
  lower_rune := λ bs, bs
|}.
Proof. intros bs E. by exists (Json.R bs). Defined.

Definition example_worker : Worker.Worker := Worker.NewWorker "w:1" "" "" "topwords" "2".
Definition example_plugin : counter := MkCounter (topwords_Map (H := ascii_tables)) topwords_Reduce
  (λ s, filter (λ w, ¬ ((String.length w < 3)%nat ∨ w ∈ stopwords)) (tokenize (H := ascii_tables) s)).
Definition example_text : list byte := MapReduce.text_bytes "The cat saw the CAT".

Definition example_open (file : string) : res (string → option symbol) :=
  if bool_decide (file = "plugins/topwords/topwords.so") then Ok (plugin_symbols example_plugin)
  else Err (ErrMsg "no such file").
Lemma example_words :
  Json.to_valid <$> c_words example_plugin (Worker.bytes_text example_text) = ["cat"; "saw"; "cat"].
Proof. vm_compute. reflexivity. Qed.

Lemma counting_plugin_outputs_witness :
  ∃ w' d',
    loadMapReducePlugin "" " " example_open example_worker = Ok (w', "plugins/topwords/topwords.so") ∧
    Worker.runMapReducePipeline (H := merge_sort_slice) Worker.no_io_faults [1; 0]%nat w'
      (MapReduce.with_inline example_text 0 0) example_text (Worker.MkDisk ∅ ∅) =
      Ret (Ok ("mr-out-1-0", histogram ["cat"; "saw"; "cat"]), d').
Proof.
  rewrite <- example_words.
  destruct (counting_plugin_outputs (H := ascii_tables) (H0 := merge_sort_slice) "" " " example_open
    example_plugin example_worker [1; 0]%nat (MapReduce.with_inline example_text 0 0) example_text
    (Worker.MkDisk ∅ ∅)) as (_ & _ & Hload).
  - by vm_compute.
  - by vm_compute.
  - do 3 right. left.
  - reflexivity.
  - apply MapReduce.example_schedule.
  - by vm_compute.
  - destruct Hload as (w' & d' & El & _ & E & _).
    + unfold example_open. by rewrite bool_decide_eq_true_2 by (by vm_compute).
    + exists w', d'. split; [exact El|exact E].
Defined.

Lemma chunk_boundaries_witness :
  letters_of (H := ascii_tables) ("a cat" +:+ "alog b") = ["a"] ++ ["catalog"] ++ ["b"] ∧
  letters_of (H := ascii_tables) "a cat" ++ letters_of (H := ascii_tables) "alog b" =
    ["a"] ++ ["cat"; "alog"] ++ ["b"].
Proof.
  destruct (chunk_boundaries (H := ascii_tables)) as (_ & Hcut & _).
  by apply (Hcut "a" "cat" "alog" "b" " "%char " "%char).
Defined.

End PluginLaws.
