(* ===== verification/Utils.v ===== *)
(** The generic helpers on slices and maps of [utils.go] ([Ihash] and
    [envOrDefault] are in [Worker]). A loop over a slice is a fold over it, a loop
    over a map a fold over its entries in some order; callbacks are functions. The
    zero value of a type is an argument. *)

From S2P Require Import Prelude Worker MapReduce.
From stdpp Require Import options.

Module Utils.

(** ** Slices *)

Section slices.
Context {T U : Type}.
Implicit Types s : list T.

Definition Map s (fn : T → U) : list U := fn <$> s.

Definition Filter s (fn : T → bool) : list T :=
  foldl (λ result v, if fn v then result ++ [v] else result) [] s.

Definition Reduce s (initial : U) (fn : U → T → U) : U := foldl fn initial s.

Fixpoint Find (zero : T) s (fn : T → bool) : T * bool :=
  match s with
  | [] => (zero, false)
  | v :: s => if fn v then (v, true) else Find zero s fn
  end.

Fixpoint find_index (i : Z) s (fn : T → bool) : Z :=
  match s with
  | [] => -1
  | v :: s => if fn v then i else find_index (i + 1) s fn
  end.
Definition FindIndex s (fn : T → bool) : Z := find_index 0 s fn.

(** [slices.ContainsFunc]. *)
Fixpoint Some_ s (fn : T → bool) : bool :=
  match s with
  | [] => false
  | v :: s => if fn v then true else Some_ s fn
  end.

Fixpoint Every s (fn : T → bool) : bool :=
  match s with
  | [] => true
  | v :: s => if negb (fn v) then false else Every s fn
  end.

(** [slices.Contains]. *)
Definition Contains `{EqDecision T} s (val : T) : bool := Some_ s (λ v, bool_decide (val = v)).

Definition Partition s (fn : T → bool) : list T * list T :=
  foldl (λ r v, if fn v then (r.1 ++ [v], r.2) else (r.1, r.2 ++ [v])) ([], []) s.

Definition Flatten (s : list (list T)) : list T := foldl (λ result inner, result ++ inner) [] s.

Definition FlatMap s (fn : T → list U) : list U := foldl (λ result v, result ++ fn v) [] s.

Definition CountBy s (fn : T → bool) : Z :=
  foldl (λ count v, if fn v then count + 1 else count) 0 s.

(** The calls of a callback on a state. *)
Fixpoint for_each {S : Type} (i : Z) s (fn : Z → T → S → S) (st : S) : S :=
  match s with
  | [] => st
  | v :: s => for_each (i + 1) s fn (fn i v st)
  end.
Definition ForEach {S : Type} s (fn : Z → T → S → S) (st : S) : S := for_each 0 s fn st.

Definition Compact `{EqDecision T} (zero : T) s : list T :=
  foldl (λ result v, if bool_decide (v ≠ zero) then result ++ [v] else result) [] s.

(** The loop of [Chunk]; the index and the end are [int]s. *)
Fixpoint chunk_loop (fuel : nat) s (size i : Z) (chunks : list (list T)) : outcome (list (list T)) :=
  match fuel with
  | O => OutOfFuel
  | S fuel =>
      let len := Z.of_nat (length s) in
      if i <? len then
        let end_ := i64 (i + size) in
        let end_ := if len <? end_ then len else end_ in
        c ← Worker.slice s i end_;
        chunk_loop fuel s size (i64 (i + size)) (chunks ++ [c])
      else Ret chunks
  end.

(** The capacity handed to [make] panics when it is negative. *)
Definition Chunk (fuel : nat) s (size : Z) : outcome (list (list T)) :=
  if size <=? 0 then Ret []
  else if Z.quot (i64 (Z.of_nat (length s) + size - 1)) size <? 0 then Panic
  else chunk_loop fuel s size 0 [].

End slices.

(** ** Keys of elements *)

Section keyed.
Context {T K : Type} `{Countable K}.
Implicit Types s : list T.

Definition GroupBy s (keyFn : T → K) : gmap K (list T) :=
  foldl (λ result v, <[keyFn v := default [] (result !! keyFn v) ++ [v]]> result) ∅ s.

Definition UniqBy s (keyFn : T → K) : list T :=
  (foldl (λ (r : gset K * list T) v,
            if bool_decide (keyFn v ∉ r.1) then ({[keyFn v]} ∪ r.1, r.2 ++ [v]) else r)
     (∅, []) s).2.

Definition KeyBy s (keyFn : T → K) : gmap K T :=
  foldl (λ result v, <[keyFn v := v]> result) ∅ s.

End keyed.

Definition Uniq {T : Type} `{Countable T} (s : list T) : list T :=
  (foldl (λ (r : gset T * list T) v,
            if bool_decide (v ∉ r.1) then ({[v]} ∪ r.1, r.2 ++ [v]) else r) (∅, []) s).2.

(** ** Maps *)

Record Entry (K V : Type) := MkEntry { Key : K; Value : V }.
Arguments MkEntry {_ _} _ _.
Arguments Key {_ _} _.
Arguments Value {_ _} _.

Section maps.
Context `{MapOrder} {K V : Type} `{Countable K}.
Implicit Types m : gmap K V.

Definition Keys m : list K := foldl (λ result e, result ++ [e.1]) [] (map_entries m).
Definition Values m : list V := foldl (λ result e, result ++ [e.2]) [] (map_entries m).

Definition MapValues {U : Type} m (fn : V → U) : gmap K U :=
  foldl (λ result e, <[e.1 := fn e.2]> result) ∅ (map_entries m).

Definition Pick m (keys : list K) : gmap K V :=
  foldl (λ result k, match m !! k with Some v => <[k := v]> result | None => result end) ∅ keys.

Definition Omit m (keys : list K) : gmap K V :=
  let exclude : gset K := foldl (λ ex k, {[k]} ∪ ex) ∅ keys in
  foldl (λ result e, if bool_decide (e.1 ∈ exclude) then result else <[e.1 := e.2]> result)
    ∅ (map_entries m).

(** [maps.Copy]. *)
Definition copy (dst src : gmap K V) : gmap K V :=
  foldl (λ dst e, <[e.1 := e.2]> dst) dst (map_entries src).
Definition Merge (ms : list (gmap K V)) : gmap K V := foldl copy ∅ ms.

Definition Invert `{Countable V} m : gmap V K :=
  foldl (λ result e, <[e.2 := e.1]> result) ∅ (map_entries m).

Definition Entries m : list (Entry K V) :=
  foldl (λ result e, result ++ [MkEntry e.1 e.2]) [] (map_entries m).

Definition FromEntries (entries : list (Entry K V)) : gmap K V :=
  foldl (λ result e, <[Key e := Value e]> result) ∅ entries.

Definition FilterMap m (fn : K → V → bool) : gmap K V :=
  foldl (λ result e, if fn e.1 e.2 then <[e.1 := e.2]> result else result) ∅ (map_entries m).

End maps.

(** ** Slices: theorems *)

Section slices_facts.
Context {T : Type}.
Implicit Types s : list T.

(** Every chunk has [size] elements but the last, which has at least one. *)
Fixpoint full_chunks (size : Z) (cs : list (list T)) : Prop :=
  match cs with
  | [] => True
  | [c] => 1 <= Z.of_nat (length c) <= size
  | c :: cs => Z.of_nat (length c) = size ∧ full_chunks size cs
  end.

Lemma full_chunks_cons size c cs :
  Z.of_nat (length c) = size → 0 < size → full_chunks size cs → full_chunks size (c :: cs).
Proof. intros Hc Hs Hcs. destruct cs; cbn; [lia|done]. Qed.

Lemma full_chunks_count size cs :
  0 < size → full_chunks size cs →
  Z.of_nat (length cs) = (Z.of_nat (length (concat cs)) + size - 1) / size.
Proof.
  intros Hs. induction cs as [|c [|c' cs] IH]; intros Hcs.
  - symmetry. apply Z.div_small. cbn. lia.
  - cbn [full_chunks concat] in *. rewrite (right_id_L [] (++)).
    apply Z.div_unique with (r := Z.of_nat (length c) - 1); cbn; lia.
  - destruct Hcs as [Hc Hcs]. specialize (IH Hcs). cbn [concat] in *. cbn [length] in *.
    rewrite length_app. rewrite Nat2Z.inj_succ, IH, Nat2Z.inj_add, Hc.
    set (n := Z.of_nat _). replace (size + n + size - 1) with (n + size - 1 + 1 * size) by lia.
    rewrite Z.div_add by lia. lia.
Qed.

Lemma chunk_loop_ok s size i fuel chunks :
  0 < size <= max_i64 → Z.of_nat (length s) < 2 ^ 62 →
  i = 0 ∨ size <= i < 2 ^ 63 → Z.of_nat (length s) - i < Z.of_nat fuel → (0 < fuel)%nat →
  ∃ rest, chunk_loop fuel s size i chunks = Ret (chunks ++ rest) ∧
    concat rest = drop (Z.to_nat i) s ∧ full_chunks size rest.
Proof.
  intros Hsize Hlen. revert i chunks.
  induction fuel as [|fuel IH]; intros i chunks Hi Hfuel Hpos; [lia|]. cbn [chunk_loop].
  destruct (Z.ltb_spec i (Z.of_nat (length s))) as [Hlt|Hge].
  2: { exists []. rewrite (right_id_L [] (++)), drop_ge by lia. done. }
  assert (i64 (i + size) = i + size) as -> by (apply i64_small; unfold max_i64 in *; lia).
  set (e := if _ <? _ then _ else _).
  assert (e = Z.min (Z.of_nat (length s)) (i + size)) as He.
  { unfold e. destruct (Z.ltb_spec (Z.of_nat (length s)) (i + size)); lia. }
  rewrite MapReduce.slice_ok by lia. cbn [mbind outcome_bind].
  set (c := take _ _). assert (Z.of_nat (length c) = e - i) as Hc.
  { unfold c. rewrite length_take, length_drop. lia. }
  destruct (IH (i + size) (chunks ++ [c])) as (rest & -> & Hrest & Hfull).
  { right. unfold max_i64 in *. lia. }
  { lia. }
  { lia. }
  exists (c :: rest). rewrite <- (assoc_L (++)). split_and!; [done| |].
  - cbn [concat]. rewrite Hrest. unfold c. rewrite <- (take_drop (Z.to_nat (e - i)) (drop _ s)) at 2.
    f_equal. rewrite drop_drop.
    destruct (Z.le_gt_cases (i + size) (Z.of_nat (length s))).
    + f_equal. lia.
    + rewrite !drop_ge by lia. done.
  - destruct (Z.le_gt_cases (i + size) (Z.of_nat (length s))).
    + apply full_chunks_cons; [lia|lia|done].
    + assert (rest = []) as ->; [|cbn; lia].
      rewrite drop_ge in Hrest by lia. destruct rest as [|c' rest]; [done|].
      destruct c'; [|done]. destruct rest; cbn in Hfull; lia.
Qed.

Lemma i64_wrap_once z : 2 ^ 63 <= z < 2 ^ 64 + 2 ^ 63 → i64 z = z - 2 ^ 64.
Proof.
  intros Hz. rewrite (i64_proper z (z - 2 ^ 64)); [apply i64_small; lia|].
  rewrite <- (Z.mul_1_l (2 ^ 64)) at 2. rewrite Zminus_mod, Z.mod_mul, Z.sub_0_r by lia.
  by rewrite Z.mod_mod.
Qed.

(** When the capacity computed for [make] is negative. *)
Lemma negative_capacity len size :
  0 <= len < 2 ^ 62 → 0 < size <= max_i64 →
  (Z.quot (i64 (len + size - 1)) size <? 0) =
    bool_decide (max_i64 - size + 2 <= len <= 2 * (max_i64 - size) + 3).
Proof.
  unfold max_i64. intros Hlen Hsize.
  destruct (Z.le_gt_cases (len + size - 1) (2 ^ 63 - 1)).
  { rewrite bool_decide_eq_false_2, i64_small by lia. apply Z.ltb_ge, Z.quot_pos; lia. }
  rewrite i64_wrap_once by lia.
  rewrite <- (Z.opp_involutive (len + size - 1 - 2 ^ 64)), Z.quot_opp_l by lia.
  case_bool_decide.
  - apply Z.ltb_lt. rewrite Z.quot_div_nonneg by lia.
    pose proof (Z.div_le_lower_bound (- (len + size - 1 - 2 ^ 64)) size 1). lia.
  - apply Z.ltb_ge. rewrite Z.quot_small by lia. lia.
Qed.

(** C37: [Chunk] cuts a slice into consecutive pieces of the given size, the last one
    possibly shorter, as many as the length divided by the size and rounded up; its
    loop ends after one turn per piece. For no positive size does it lose an
    element; but the capacity it computes wraps around for sizes close to the
    largest [int], and then it panics for a slice of certain lengths instead of
    returning the slice in one piece. *)
Theorem Chunk_spec s (size : Z) (fuel : nat) :
  Z.of_nat (length s) < 2 ^ 62 → size <= max_i64 → (length s < fuel)%nat →
  let len := Z.of_nat (length s) in
  if bool_decide (size <= 0) then Chunk fuel s size = Ret []
  else if bool_decide (max_i64 - size + 2 <= len <= 2 * (max_i64 - size) + 3) then
    Chunk fuel s size = Panic
  else
    ∃ chunks, Chunk fuel s size = Ret chunks ∧ concat chunks = s ∧ full_chunks size chunks ∧
      Z.of_nat (length chunks) = (len + size - 1) / size.
Proof.
  intros Hlen Hsize Hfuel len. unfold Chunk.
  case_bool_decide as Hpos; [by rewrite (proj2 (Z.leb_le _ _))|].
  destruct (Z.leb_spec size 0); [lia|]. fold len.
  assert (0 <= len) as Hlen0 by lia. fold len in Hlen.
  rewrite negative_capacity by lia.
  case_bool_decide; [done|].
  destruct (chunk_loop_ok s size 0 fuel []) as (rest & -> & Hc & Hf);
    [lia|done|by left|lia|lia|].
  exists rest. rewrite drop_0 in Hc. split_and!; [done|done|done|].
  rewrite (full_chunks_count size) by (done || lia). by rewrite Hc.
Qed.

(** Folds that collect. *)
Lemma collect_filter (P : T → bool) s acc :
  foldl (λ result v, if P v then result ++ [v] else result) acc s =
    acc ++ filter (λ v, Is_true (P v)) s.
Proof.
  revert acc. induction s as [|v s IH]; intros acc; cbn [foldl].
  { symmetry. apply (right_id_L [] (++)). }
  rewrite IH, filter_cons. destruct (P v); cbn; [|done].
  by rewrite <- (assoc_L (++)).
Qed.

Lemma collect_map {U} (f : T → list U) s acc :
  foldl (λ result v, result ++ f v) acc s = acc ++ (s ≫= f).
Proof.
  revert acc. induction s as [|v s IH]; intros acc; cbn [foldl].
  { symmetry. apply (right_id_L [] (++)). }
  by rewrite IH, bind_cons, (assoc_L (++)).
Qed.

End slices_facts.

(** ** Grouping: theorems *)

Section keyed_facts.
Context {T K : Type} `{Countable K} (keyFn : T → K).
Implicit Types s : list T.

Definition has_key (k : K) s : list T := filter (λ v, keyFn v = k) s.

Lemma GroupBy_from s acc k :
  foldl (λ (r : gmap K (list T)) v, <[keyFn v := default [] (r !! keyFn v) ++ [v]]> r) acc s !! k =
    match acc !! k, has_key k s with
    | None, [] => None
    | o, l => Some (default [] o ++ l)
    end.
Proof.
  revert acc. induction s as [|v s IH]; intros acc; cbn [foldl].
  { cbn. destruct (acc !! k); [|done]. cbn. by rewrite (right_id_L [] (++)). }
  rewrite IH. unfold has_key. rewrite filter_cons. destruct (decide (keyFn v = k)) as [<-|Hne].
  - rewrite lookup_insert_eq. destruct (acc !! keyFn v); cbn; by rewrite <- ?(assoc_L (++)).
  - by rewrite lookup_insert_ne.
Qed.

Lemma GroupBy_lookup s k :
  GroupBy s keyFn !! k = match has_key k s with [] => None | l => Some l end.
Proof. unfold GroupBy. rewrite GroupBy_from, lookup_empty. by destruct (has_key k s). Qed.

(** The first element of every key, in order. *)
Fixpoint firsts s : list T :=
  match s with
  | [] => []
  | v :: s => v :: filter (λ x, keyFn x ≠ keyFn v) (firsts s)
  end.

Lemma UniqBy_from s (seen : gset K) acc :
  (foldl (λ (r : gset K * list T) v,
     if bool_decide (keyFn v ∉ r.1) then ({[keyFn v]} ∪ r.1, r.2 ++ [v]) else r) (seen, acc) s).2 =
    acc ++ filter (λ x, keyFn x ∉ seen) (firsts s).
Proof.
  revert seen acc. induction s as [|v s IH]; intros seen acc; cbn [foldl firsts fst snd].
  { symmetry. apply (right_id_L [] (++)). }
  rewrite filter_cons, list_filter_filter. case_bool_decide as Hv.
  - rewrite decide_True, IH by done. cbn [fst snd]. rewrite <- (assoc_L (++)). cbn. do 2 f_equal.
    apply list_filter_iff. set_solver.
  - rewrite decide_False by (cbn in Hv; tauto). rewrite IH. f_equal. apply list_filter_iff.
    intros x. destruct (decide (keyFn x = keyFn v)) as [E|]; [rewrite E|]; tauto.
Qed.

Lemma UniqBy_firsts s : UniqBy s keyFn = firsts s.
Proof.
  unfold UniqBy. rewrite UniqBy_from. apply filter_all, Forall_true. set_solver.
Qed.

Lemma firsts_keys s k : k ∈ keyFn <$> firsts s ↔ k ∈ keyFn <$> s.
Proof.
  induction s as [|v s IH]; [done|]. cbn [firsts]. rewrite !fmap_cons, !elem_of_cons, <- IH.
  rewrite !list_elem_of_fmap. destruct (decide (k = keyFn v)) as [->|Hne]; [tauto|].
  apply or_iff_compat_l, exist_proper. intros x. rewrite list_elem_of_filter.
  split; [tauto|]. intros [-> Hx]. done.
Qed.
Lemma firsts_NoDup s : NoDup (keyFn <$> firsts s).
Proof.
  induction s as [|v s IH]; [constructor|]. cbn [firsts]. rewrite fmap_cons. constructor.
  - intros Hin. apply list_elem_of_fmap in Hin as (x & E & [Hx _]%list_elem_of_filter). by apply Hx.
  - clear -IH. induction (firsts s) as [|x l IHl]; [constructor|].
    rewrite fmap_cons in IH. apply NoDup_cons in IH as [Hx IH]. rewrite filter_cons.
    case_decide; [|by apply IHl]. rewrite fmap_cons. constructor; [|by apply IHl].
    intros Hin. apply Hx. apply list_elem_of_fmap in Hin as (y & -> & [_ Hy]%list_elem_of_filter).
    by apply list_elem_of_fmap_2.
Qed.

(** Grouping by a key. [GroupBy] puts every element, once and in order, into the
    group of its key, and only keys that occur have a group; [UniqBy] keeps of every
    key that occurs the first element, in the order of the slice, so the keys of its
    result are the keys of the groups, without repetition. *)
Theorem grouping_spec s :
  (∀ k, GroupBy s keyFn !! k = match has_key k s with [] => None | l => Some l end) ∧
  NoDup (keyFn <$> UniqBy s keyFn) ∧
  (∀ k, k ∈ keyFn <$> UniqBy s keyFn ↔ is_Some (GroupBy s keyFn !! k)) ∧
  (∀ v, v ∈ UniqBy s keyFn → head (has_key (keyFn v) s) = Some v).
Proof.
  split_and!; [apply GroupBy_lookup|..]; rewrite UniqBy_firsts.
  - apply firsts_NoDup.
  - intros k. rewrite firsts_keys, GroupBy_lookup. unfold has_key.
    rewrite list_elem_of_fmap. split.
    + intros (v & -> & Hv). assert (v ∈ filter (λ x, keyFn x = keyFn v) s) as Hin
        by (by apply list_elem_of_filter).
      destruct (filter _ s); [by inversion Hin|by eexists].
    + destruct (filter (λ v, keyFn v = k) s) as [|v l] eqn:E; [by intros []|]. intros _.
      exists v. assert (v ∈ filter (λ v, keyFn v = k) s) as Hv by (rewrite E; by left).
      apply list_elem_of_filter in Hv as [<- Hv]. done.
  - induction s as [|x s IH]; intros v; cbn [firsts]; [by inversion 1|].
    unfold has_key in *. rewrite filter_cons. intros [-> |[Hne Hv]%list_elem_of_filter]%elem_of_cons.
    + by rewrite decide_True.
    + rewrite decide_False by congruence. by apply IH.
Qed.

End keyed_facts.

(** ** Maps: theorems, for every order of iteration *)

Section maps_facts.
Context `{MapOrder} {K V : Type} `{Countable K}.
Implicit Types m : gmap K V.

(** A loop over the entries of a map that stores at most one entry per key. *)
Lemma range_insert {U} (step : gmap K U → K * V → gmap K U) (h : K → V → option U) m acc k :
  (∀ r e, step r e = match h e.1 e.2 with Some u => <[e.1 := u]> r | None => r end) →
  foldl step acc (map_entries m) !! k =
    match m !! k ≫= h k with Some u => Some u | None => acc !! k end.
Proof.
  intros Hstep. rewrite <- (list_to_map_map_entries m) at 2.
  pose proof (NoDup_fst_map_entries m) as Hnd. revert acc.
  induction (map_entries m) as [|[k' v'] l IH]; intros acc; [done|].
  rewrite fmap_cons in Hnd. apply NoDup_cons in Hnd as [Hk' Hnd]. cbn [foldl list_to_map fst snd].
  rewrite (IH Hnd), Hstep. cbn [fst snd list_to_map foldr uncurry].
  destruct (decide (k' = k)) as [->|Hne].
  - rewrite lookup_insert_eq, not_elem_of_list_to_map_1 by done. cbn.
    destruct (h k v'); [by rewrite lookup_insert_eq|done].
  - rewrite lookup_insert_ne by done. destruct (h k' v'); [|done]. by rewrite lookup_insert_ne.
Qed.

Lemma Entries_entries m : Entries m = (λ e, MkEntry e.1 e.2) <$> map_entries m.
Proof.
  unfold Entries. rewrite (collect_map (λ e, [MkEntry e.1 e.2])). cbn.
  induction (map_entries m) as [|e l IH]; cbn; by rewrite ?IH.
Qed.

Lemma FromEntries_Entries m : FromEntries (Entries m) = m.
Proof.
  rewrite Entries_entries. unfold FromEntries. rewrite foldl_fmap. apply map_eq. intros k.
  rewrite (range_insert _ (λ _ v, Some v)) by done. rewrite lookup_empty. by destruct (m !! k).
Qed.

Lemma Omit_lookup m keys k : Omit m keys !! k = if decide (k ∈ keys) then None else m !! k.
Proof.
  unfold Omit. set (ex := foldl (λ (ex : gset K) k, {[k]} ∪ ex) ∅ keys).
  assert (∀ k, k ∈ ex ↔ k ∈ keys) as Hex.
  { intros x. unfold ex. transitivity (x ∈ (∅ : gset K) ∨ x ∈ keys); [|set_solver].
    generalize (∅ : gset K). clear ex. induction keys as [|k' keys IH]; intros e; cbn; [set_solver|].
    rewrite IH. set_solver. }
  rewrite (range_insert _ (λ k v, if decide (k ∈ ex) then None else Some v)).
  - rewrite lookup_empty. destruct (m !! k); cbn; repeat case_decide; naive_solver.
  - intros r e. case_bool_decide; by case_decide.
Qed.

Lemma Pick_lookup m keys k : Pick m keys !! k = if decide (k ∈ keys) then m !! k else None.
Proof.
  unfold Pick. transitivity (if decide (k ∈ keys) then match m !! k with Some v => Some v | None => (∅ : gmap K V) !! k end
    else (∅ : gmap K V) !! k).
  - generalize (∅ : gmap K V). induction keys as [|k' keys IH]; intros acc; cbn [foldl]; [done|].
    rewrite IH. destruct (decide (k' = k)) as [->|Hne].
    + rewrite (decide_True (P := k ∈ k :: keys)) by (by left).
      destruct (m !! k) as [v|] eqn:E; case_decide; by rewrite ?lookup_insert_eq.
    + destruct (m !! k'); rewrite ?lookup_insert_ne by done; apply decide_ext; set_solver.
  - rewrite lookup_empty. case_decide; [|done]. by destruct (m !! k).
Qed.

Lemma copy_lookup (dst src : gmap K V) k :
  copy dst src !! k = match src !! k with Some v => Some v | None => dst !! k end.
Proof.
  unfold copy. rewrite (range_insert _ (λ _ v, Some v)) by done. by destruct (src !! k).
Qed.

Lemma Merge_lookup (ms : list (gmap K V)) k :
  Merge ms !! k = last (omap (λ m, m !! k) ms).
Proof.
  unfold Merge. induction ms as [|m ms IH] using rev_ind; [done|].
  rewrite foldl_app, omap_app. cbn [foldl]. rewrite copy_lookup, IH. cbn.
  destruct (m !! k); cbn; [by rewrite last_snoc|by rewrite (right_id_L [] (++))].
Qed.

(** The map helpers, key by key and whatever the order of iteration: [MapValues]
    maps, [Pick], [Omit] and [FilterMap] restrict, [Merge] lets the last map win. *)
Theorem map_helpers_spec m (ms : list (gmap K V)) (keys : list K) (p : K → V → bool)
    (fn : V → V) (k : K) :
  MapValues m fn !! k = fn <$> m !! k ∧
  Pick m keys !! k = (if decide (k ∈ keys) then m !! k else None) ∧
  Omit m keys !! k = (if decide (k ∈ keys) then None else m !! k) ∧
  FilterMap m p !! k = (v ← m !! k; if p k v then Some v else None) ∧
  Merge ms !! k = last (omap (λ m, m !! k) ms).
Proof.
  split_and!; [|apply Pick_lookup|apply Omit_lookup| |apply Merge_lookup].
  - unfold MapValues. rewrite (range_insert _ (λ _ v, Some (fn v))), lookup_empty by done.
    by destruct (m !! k).
  - unfold FilterMap. rewrite (range_insert _ (λ k v, if p k v then Some v else None)), lookup_empty.
    + by destruct (m !! k ≫= _).
    + intros r e. by destruct (p e.1 e.2).
Qed.

Context `{Countable V}.

Lemma Invert_from (l : list (K * V)) (acc : gmap V K) v k :
  foldl (λ (result : gmap V K) e, <[e.2 := e.1]> result) acc l !! v = Some k →
  (k, v) ∈ l ∨ acc !! v = Some k.
Proof.
  revert acc. induction l as [|[k' v'] l IH]; intros acc; cbn [foldl fst snd]; [by right|].
  intros [Hin|Hin]%IH; [left; by right|].
  destruct (decide (v' = v)) as [->|Hne].
  - rewrite lookup_insert_eq in Hin. injection Hin as ->. left. by left.
  - rewrite lookup_insert_ne in Hin by done. by right.
Qed.
Lemma Invert_present (l : list (K * V)) (acc : gmap V K) k v :
  (k, v) ∈ l ∨ is_Some (acc !! v) →
  is_Some (foldl (λ (result : gmap V K) e, <[e.2 := e.1]> result) acc l !! v).
Proof.
  revert acc. induction l as [|[k' v'] l IH]; intros acc; cbn [foldl fst snd].
  { intros [Hin|]; [by inversion Hin|done]. }
  intros Hin. apply IH. destruct (decide (v' = v)) as [->|Hne].
  - right. rewrite lookup_insert_eq. by eexists.
  - rewrite lookup_insert_ne by done. destruct Hin as [[[= ]|Hin]%elem_of_cons|]; [done|by left|by right].
Qed.

Lemma Invert_sound m v k : Invert m !! v = Some k → m !! k = Some v.
Proof.
  intros [Hin|Hin]%Invert_from; [by apply elem_of_map_entries in Hin|by rewrite lookup_empty in Hin].
Qed.
Lemma Invert_complete m k v : m !! k = Some v → is_Some (Invert m !! v).
Proof. intros Hk. apply Invert_present with k. left. by apply elem_of_map_entries. Qed.

End maps_facts.

Section roundtrip.
Context `{MapOrder} {K V : Type} `{Countable K} `{Countable V}.

(** From a map to its entries, and from keys to values, and back. The entries of a
    map give the map back, whatever the order in which they are listed; every value
    of a map is inverted to a key that has it, an arbitrary one when there are
    several; if no two keys share a value, inverting twice gives the map back. *)
Theorem map_roundtrips (m : gmap K V) :
  FromEntries (Entries m) = m ∧
  (∀ v, match Invert m !! v with
        | Some k => m !! k = Some v
        | None => ∀ k, m !! k ≠ Some v
        end) ∧
  ((∀ k k' v, m !! k = Some v → m !! k' = Some v → k = k') → Invert (Invert m) = m).
Proof.
  split_and!; [apply FromEntries_Entries| |].
  - intros v. destruct (Invert m !! v) as [k|] eqn:E; [by apply Invert_sound|].
    intros k Hk. apply Invert_complete in Hk as [? Hk]. congruence.
  - intros Hinj. apply map_eq. intros k. apply option_eq. intros v. split.
    + intros Hv%Invert_sound. by apply Invert_sound.
    + intros Hk. destruct (Invert_complete m k v Hk) as [k' Hk'].
      pose proof (Invert_sound m v k' Hk') as E. assert (k = k') as <- by eauto.
      destruct (Invert_complete (Invert m) v k Hk') as [v' Hv']. rewrite Hv'. f_equal.
      apply Invert_sound, Invert_sound in Hv'. congruence.
Qed.

End roundtrip.

(** ** Witnesses *)

Lemma Chunk_spec_witness :
  ∃ chunks, Chunk 6 [1; 2; 3; 4; 5] 2 = Ret chunks ∧ concat chunks = [1; 2; 3; 4; 5] ∧
    full_chunks 2 chunks ∧ Z.of_nat (length chunks) = (5 + 2 - 1) / 2.
Proof.
  apply (Chunk_spec [1; 2; 3; 4; 5] 2 6); [done|done|]. cbn. lia.
Defined.

End Utils.
