(* ===== verification/Listener.v ===== *)
(** The listener of [rpc_listener.go] as a state machine: its methods, the turns of
    its accept loops and the ends of its connection handlers, in any order. *)

From S2P Require Import Prelude GoStrings.
From Stdlib Require Import Ascii.
From stdpp Require Import options.

#[local] Arguments String.append !_ _ / : simpl nomatch.

Module Listener.
Import GoStrings.

(** ** State

    [errChan] is nil or holds the errors not yet received; network listeners are
    numbered. [opened] are the listeners of the network that are open, [loops] the
    listeners whose accept loop is running, [handlers] counts the connections being
    served. *)

Record RPCListener := MkListener {
  address : string;
  errChan : option (list go_error);
  listener : option nat;
  waitGroup : Z;
  closed : bool;
  acceptHandler : bool
}.
Record Net := MkNet { opened : gset nat; loops : gset nat; handlers : nat }.

Definition set_errChan (q : option (list go_error)) (r : RPCListener) : RPCListener :=
  MkListener (address r) q (listener r) (waitGroup r) (closed r) (acceptHandler r).
Definition set_listener (l : option nat) (r : RPCListener) : RPCListener :=
  MkListener (address r) (errChan r) l (waitGroup r) (closed r) (acceptHandler r).
Definition add_wait (d : Z) (r : RPCListener) : RPCListener :=
  MkListener (address r) (errChan r) (listener r) (waitGroup r + d) (closed r) (acceptHandler r).
Definition set_closed (r : RPCListener) : RPCListener :=
  MkListener (address r) (errChan r) (listener r) (waitGroup r) true (acceptHandler r).

Definition NewRPCListener (address : string) (acceptHandler : bool) : RPCListener :=
  MkListener address None None 0 false acceptHandler.

(** ** Methods *)

(** A send that would block is dropped. *)
Definition errCapacity : nat := 16.
Definition reportErr (err : option go_error) (r : RPCListener) : RPCListener :=
  match err, errChan r with
  | Some err, Some q =>
      if bool_decide (length q < errCapacity)%nat then set_errChan (Some (q ++ [err])) r else r
  | _, _ => r
  end.

Definition normalizeAddress (r : RPCListener) : string :=
  let addr := TrimSpace (address r) in
  if bool_decide (addr = "") then ""
  else if Contains addr ":" then addr
  else ":" +:+ addr.

Definition make_errChan (r : RPCListener) : RPCListener :=
  match errChan r with None => set_errChan (Some []) r | Some _ => r end.

(** [bind] is [net.Listen]. *)
Definition Listen (bind : string → res nat) (r : RPCListener) (n : Net) :
    option go_error * RPCListener * Net :=
  if closed r then (Some (ErrMsg "listener is closed"), r, n)
  else if negb (acceptHandler r) then (Some (ErrMsg "accept handler is required"), r, n)
  else
    let r := make_errChan r in
    let bindAddress := normalizeAddress r in
    if bool_decide (bindAddress = "") then (Some (ErrMsg "address is required"), r, n)
    else
      match bind bindAddress with
      | Err err => (Some err, r, n)
      | Ok l =>
          (None, add_wait 1 (set_listener (Some l) r),
           MkNet ({[l]} ∪ opened n) ({[l]} ∪ loops n) (handlers n))
      end.

(** One turn of the accept loop of [l]. A loop that ends closes its listener. *)
Inductive accept_result := Conn | AcceptErr (err : go_error) (isErrClosed : bool).
Definition accept_turn (l : nat) (a : accept_result) (r : RPCListener) (n : Net) :
    RPCListener * Net :=
  match a with
  | Conn => (add_wait 1 r, MkNet (opened n) (loops n) (S (handlers n)))
  | AcceptErr err isErrClosed =>
      if closed r || isErrClosed then
        (add_wait (-1) r, MkNet (opened n ∖ {[l]}) (loops n ∖ {[l]}) (handlers n))
      else (reportErr (Some err) r, n)
  end.

(** The end of a connection's handler. *)
Definition handler_done (r : RPCListener) (n : Net) : RPCListener * Net :=
  (add_wait (-1) r, MkNet (opened n) (loops n) (pred (handlers n))).

(** The channel [Errors] returns, and a receive from it. *)
Definition Errors (r : RPCListener) : list go_error * RPCListener :=
  let r := make_errChan r in (default [] (errChan r), r).
Definition receive (r : RPCListener) : option go_error * RPCListener :=
  match errChan r with
  | Some (err :: q) => (Some err, set_errChan (Some q) r)
  | _ => (None, r)
  end.

(** [Close] up to its [Wait]; [fails] is an error of closing the listener other
    than that it is closed already. Its first call returns when [waited] holds, a
    later one at once. *)
Definition Close (fails : option go_error) (r : RPCListener) (n : Net) : RPCListener * Net :=
  if closed r then (r, n)
  else
    let r := set_closed r in
    match listener r with
    | None => (r, n)
    | Some l => (reportErr fails r, MkNet (opened n ∖ {[l]}) (loops n) (handlers n))
    end.
Definition waited (r : RPCListener) : Prop := waitGroup r = 0.

(** ** Steps

    An open listener accepts connections or fails for other reasons; one that has
    been closed fails with [net.ErrClosed]. *)

Inductive event := Listened | FailedAccept (l : nat) | Other.

Abbreviation state := (RPCListener * Net)%type.

Inductive step : state → event → state → Prop :=
| step_listen bind r n r' n' :
    (∀ a l, bind a = Ok l → l ∉ opened n ∪ loops n) →
    Listen bind r n = (None, r', n') → step (r, n) Listened (r', n')
| step_listen_error bind r n err r' n' :
    Listen bind r n = (Some err, r', n') → step (r, n) Other (r', n')
| step_accept r n l : l ∈ loops n → l ∈ opened n → step (r, n) Other (accept_turn l Conn r n)
| step_accept_error r n l err :
    l ∈ loops n → l ∈ opened n →
    step (r, n) (FailedAccept l) (accept_turn l (AcceptErr err false) r n)
| step_accept_closed r n l err :
    l ∈ loops n → l ∉ opened n → step (r, n) Other (accept_turn l (AcceptErr err true) r n)
| step_handler_done r n : (0 < handlers n)%nat → step (r, n) Other (handler_done r n)
| step_errors r n : step (r, n) Other ((Errors r).2, n)
| step_receive r n : step (r, n) Other ((receive r).2, n)
| step_close fails r n : step (r, n) Other (Close fails r n).

(** The states of a listener after [k] successful calls of [Listen]. *)
Inductive reachable (addr : string) (h : bool) : nat → state → Prop :=
| reach_new : reachable addr h 0 (NewRPCListener addr h, MkNet ∅ ∅ 0)
| reach_step k s e s' :
    reachable addr h k s → step s e s' →
    reachable addr h (match e with Listened => S k | _ => k end) s'.

(** ** Invariant *)

(** The listeners [Close] knows of. *)
Definition known (r : RPCListener) : gset nat :=
  match listener r with Some l => {[l]} | None => ∅ end.

Record invariant (k : nat) (s : state) : Prop := {
  inv_errs q : errChan s.1 = Some q → (length q <= errCapacity)%nat;
  inv_wait : waitGroup s.1 = Z.of_nat (size (loops s.2) + handlers s.2);
  inv_opened : opened s.2 ⊆ loops s.2;
  inv_known : (k <= 1)%nat → loops s.2 ⊆ known s.1;
  inv_fresh : k = 0%nat → listener s.1 = None;
  inv_closed : (k <= 1)%nat → closed s.1 = true → opened s.2 = ∅
}.

Lemma reportErr_errs err r q :
  (∀ q, errChan r = Some q → (length q <= errCapacity)%nat) →
  errChan (reportErr err r) = Some q → (length q <= errCapacity)%nat.
Proof.
  intros Hr. unfold reportErr. destruct err as [err|]; [|apply Hr].
  destruct (errChan r) as [q'|] eqn:E; [|by rewrite E].
  case_bool_decide; [|rewrite E; apply Hr]. cbn. intros [= <-]. rewrite length_app. cbn. lia.
Qed.
Lemma reportErr_fields err r :
  listener (reportErr err r) = listener r ∧ waitGroup (reportErr err r) = waitGroup r ∧
  closed (reportErr err r) = closed r.
Proof. unfold reportErr. repeat case_match; done. Qed.
Lemma make_errChan_fields r :
  listener (make_errChan r) = listener r ∧ waitGroup (make_errChan r) = waitGroup r ∧
  closed (make_errChan r) = closed r.
Proof. unfold make_errChan. by case_match. Qed.
Lemma make_errChan_errs r q :
  (∀ q, errChan r = Some q → (length q <= errCapacity)%nat) →
  errChan (make_errChan r) = Some q → (length q <= errCapacity)%nat.
Proof.
  intros Hr. unfold make_errChan. destruct (errChan r) eqn:E; [rewrite E; apply Hr|].
  intros [= <-]. cbn. lia.
Qed.

(** What [Listen] does on each branch. *)
Lemma Listen_cases bind r n :
  match Listen bind r n with
  | (None, r', n') =>
      ∃ l, bind (normalizeAddress r) = Ok l ∧ closed r = false ∧
        r' = add_wait 1 (set_listener (Some l) (make_errChan r)) ∧
        n' = MkNet ({[l]} ∪ opened n) ({[l]} ∪ loops n) (handlers n)
  | (Some _, r', n') => (r' = r ∨ r' = make_errChan r) ∧ n' = n
  end.
Proof.
  unfold Listen. destruct (closed r) eqn:Hc; [by auto|]. destruct (acceptHandler r);
    cbn [negb]; [|by auto].
  assert (normalizeAddress (make_errChan r) = normalizeAddress r) as ->.
  { unfold normalizeAddress, make_errChan. by destruct (errChan r). }
  case_bool_decide; [by auto|]. destruct (bind (normalizeAddress r)) as [l|err]; [|by auto].
  by exists l.
Qed.

Lemma size_remove (X : gset nat) l : l ∈ X → size X = S (size (X ∖ {[l]})).
Proof.
  intros Hl. rewrite (union_difference_L {[l]} X) at 1 by set_solver.
  rewrite size_union, size_singleton by set_solver. done.
Qed.

Lemma invariant_step k s e s' :
  invariant k s → step s e s' → invariant (match e with Listened => S k | _ => k end) s'.
Proof.
  intros [Herrs Hwait Hopened Hknown Hfresh Hclosed]. inversion 1; subst; cbn [fst snd] in *.
  - pose proof (Listen_cases bind r n) as Hl. rewrite H1 in Hl.
    destruct Hl as (l & Hb & Hc & -> & ->). specialize (H0 _ _ Hb).
    pose proof (make_errChan_fields r) as (El & Ew & Ec).
    split; cbn [fst snd add_wait set_listener errChan waitGroup listener closed opened loops handlers].
    + intros q. by apply make_errChan_errs.
    + rewrite Ew, Hwait, size_union, size_singleton by set_solver. lia.
    + set_solver.
    + intros Hk. unfold known. cbn. assert (loops n ⊆ known r) as Hkn by (apply Hknown; lia).
      unfold known in Hkn. rewrite Hfresh in Hkn by lia. set_solver.
    + done.
    + rewrite Ec, Hc. done.
  - pose proof (Listen_cases bind r n) as Hl. rewrite H0 in Hl. destruct Hl as [[-> | ->] ->]; [done|].
    pose proof (make_errChan_fields r) as (El & Ew & Ec).
    split; cbn [fst snd]; unfold known; rewrite ?El, ?Ew, ?Ec; try done.
    intros q. by apply make_errChan_errs.
  - split; cbn; try done. lia.
  - unfold accept_turn. rewrite orb_false_r. destruct (closed r) eqn:Hc.
    + split; cbn; try done.
      * rewrite Hwait, (size_remove _ l) by done. lia.
      * set_solver.
      * set_solver.
      * intros Hk _. rewrite Hclosed by done. set_solver.
    + pose proof (reportErr_fields (Some err) r) as (El & Ew & Ec).
      split; cbn [fst snd]; unfold known; rewrite ?El, ?Ew, ?Ec, ?Hc; try done.
      intros q. by apply reportErr_errs.
  - unfold accept_turn. rewrite orb_true_r. split; cbn; try done.
    + rewrite Hwait, (size_remove _ l) by done. lia.
    + set_solver.
    + set_solver.
    + intros Hk Hc. rewrite Hclosed by done. set_solver.
  - split; cbn; try done. lia.
  - pose proof (make_errChan_fields r) as (El & Ew & Ec).
    split; cbn [fst snd Errors]; unfold known; rewrite ?El, ?Ew, ?Ec; try done.
    intros q. by apply make_errChan_errs.
  - unfold receive. destruct (errChan r) as [[|err q]|] eqn:E; [split; cbn; by rewrite ?E| |split; cbn; by rewrite ?E].
    split; cbn; try done. intros q' [= <-]. specialize (Herrs _ eq_refl). cbn in Herrs. lia.
  - unfold Close. destruct (closed r) eqn:Hc; [by split; cbn; rewrite ?Hc|].
    cbn [listener set_closed]. unfold known in Hknown. destruct (listener r) as [l|] eqn:El.
    + pose proof (reportErr_fields fails (set_closed r)) as (El' & Ew & Ec).
      split; cbn [fst snd opened loops handlers]; unfold known; rewrite ?El', ?Ew, ?Ec; cbn;
        rewrite ?El; [intros q; by apply reportErr_errs|done|set_solver|done| |].
      * intros Hk. by apply Hfresh in Hk.
      * intros Hk _. specialize (Hknown Hk). set_solver.
    + split; cbn; unfold known; cbn; rewrite ?El; try done.
      intros Hk _. specialize (Hknown Hk). set_solver.
Qed.

Lemma reachable_invariant addr h k s : reachable addr h k s → invariant k s.
Proof.
  induction 1 as [|k s e s' _ IH Hs]; [|by eapply invariant_step].
  by split; cbn.
Qed.

(** ** Closing *)

(** The steps left to a closed listener: a loop meets its closed listener, a
    connection ends. *)
Inductive drain : state → state → Prop :=
| drain_loop r n l err :
    l ∈ loops n → l ∉ opened n → drain (r, n) (accept_turn l (AcceptErr err true) r n)
| drain_handler r n : (0 < handlers n)%nat → drain (r, n) (handler_done r n).

Lemma drain_step s s' : drain s s' → step s Other s'.
Proof. inversion_clear 1; by constructor. Qed.

Lemma drains r n :
  opened n = ∅ → waitGroup r = Z.of_nat (size (loops n) + handlers n) →
  ∃ r' n', nsteps drain (size (loops n) + handlers n) (r, n) (r', n') ∧ waited r'.
Proof.
  remember (size (loops n) + handlers n)%nat as k eqn:Hk. revert r n Hk.
  induction k as [|k IH]; intros r n Hk Ho Hw; [by exists r, n; split; [constructor|]|].
  destruct (handlers n) as [|m] eqn:Hm.
  - destruct (set_choose_L (loops n)) as [l Hl].
    { intros E. rewrite E, size_empty in Hk. lia. }
    pose proof (size_remove _ l Hl) as Hs.
    destruct (IH (add_wait (-1) r) (MkNet (opened n ∖ {[l]}) (loops n ∖ {[l]}) (handlers n)))
      as (r' & n' & Hr & Hz); cbn; [lia|set_solver|lia|].
    exists r', n'. split; [|done]. econstructor; [|exact Hr].
    pose proof (drain_loop r n l (ErrMsg "use of closed network connection") Hl) as Hd.
    unfold accept_turn in Hd. rewrite orb_true_r in Hd. apply Hd. rewrite Ho. set_solver.
  - destruct (IH (add_wait (-1) r) (MkNet (opened n) (loops n) m)) as (r' & n' & Hr & Hz); cbn;
      [lia|done|lia|].
    exists r', n'. split; [|done]. econstructor; [|exact Hr].
    pose proof (drain_handler r n) as Hd. unfold handler_done in Hd. rewrite Hm in Hd. apply Hd. lia.
Qed.

(** The listener used as the program uses it. In every reachable state the error
    channel holds at most sixteen errors and the wait group counts exactly the
    running loops and the connections being served, so [Close] returns when the last
    of them ends and not before. After at most one successful [Listen], once [Close]
    has been called no listener is open, so nothing new is accepted, and the loops
    and connections that are left take one step each until [Close] returns. It does
    not end the connections itself: while a client keeps one open, it waits. *)
Theorem close_completes (addr : string) (h : bool) (k : nat) (r : RPCListener) (n : Net) :
  reachable addr h k (r, n) →
  (∀ q, errChan r = Some q → (length q <= errCapacity)%nat) ∧
  (waited r ↔ loops n = ∅ ∧ handlers n = 0%nat) ∧
  ((k <= 1)%nat → closed r = true →
   opened n = ∅ ∧
   ∃ r' n', nsteps drain (size (loops n) + handlers n) (r, n) (r', n') ∧ waited r').
Proof.
  intros [Herrs Hwait Hopened Hknown Hfresh Hclosed]%reachable_invariant. cbn [fst snd] in *.
  split_and!; [done| |].
  - unfold waited. rewrite Hwait. split.
    + intros E. split; [|lia]. apply size_empty_inv_L || apply leibniz_equiv, size_empty_inv. lia.
    + intros [-> ->]. by rewrite size_empty.
  - intros Hk Hc. split; [auto|]. apply drains; auto.
Qed.

(** ** Listening twice *)

Lemma step_keeps l s e s' :
  l ∈ loops s.2 ∧ l ∈ opened s.2 ∧ listener s.1 ≠ Some l →
  step s e s' → e ≠ FailedAccept l →
  l ∈ loops s'.2 ∧ l ∈ opened s'.2 ∧ listener s'.1 ≠ Some l.
Proof.
  intros (Hl & Ho & Hn). inversion 1 as [bind r n r' n' Hfresh E|bind r n err r' n' E|r n l' Hl' Ho'
    |r n l' err Hl' Ho'|r n l' err Hl' Ho'|r n Hh|r n|r n|fails r n]; subst; cbn [fst snd] in *; intros He.
  - pose proof (Listen_cases bind r n) as Hc. rewrite E in Hc. destruct Hc as (b & Hb & _ & -> & ->).
    specialize (Hfresh _ _ Hb). cbn. split_and!; [set_solver..|]. intros [= ->]. set_solver.
  - pose proof (Listen_cases bind r n) as Hc. rewrite E in Hc. destruct Hc as [[-> | ->] ->]; [done|].
    by destruct (make_errChan_fields r) as (-> & _).
  - done.
  - assert (l ≠ l') by congruence. unfold accept_turn. case_match; cbn [fst snd]; [cbn; set_solver|].
    by destruct (reportErr_fields (Some err) r) as (-> & _).
  - assert (l ≠ l') by congruence. unfold accept_turn. rewrite orb_true_r. cbn. set_solver.
  - done.
  - cbn. by destruct (make_errChan_fields r) as (-> & _).
  - unfold receive. by repeat case_match.
  - unfold Close. destruct (closed r); [done|]. cbn [listener set_closed].
    destruct (listener r) as [b|] eqn:E; cbn [fst snd opened loops]; [|cbn; by rewrite E].
    destruct (reportErr_fields fails (set_closed r)) as (-> & _). cbn. rewrite E. set_solver.
Qed.

(** Runs in which accepting on [l] never fails. *)
Inductive run_without_failure (l : nat) : state → state → Prop :=
| run_done s : run_without_failure l s s
| run_step s e s' s'' :
    step s e s' → e ≠ FailedAccept l → run_without_failure l s' s'' → run_without_failure l s s''.

(** A second [Listen] loses the first listener. [Listen] accepts being called on a
    listener that listens already; the field then holds the second network listener
    only. From then on, whatever happens, calls of [Close] included, the first one
    stays open and its loop keeps accepting, and [Close] does not return, as long as
    accepting on it does not fail by itself. *)
Theorem second_listen_leaks (addr : string) (h : bool) (k : nat) (bind : string → res nat)
    (r r1 : RPCListener) (n n1 : Net) (l : nat) (s : state) :
  reachable addr h k (r, n) → listener r = Some l → l ∈ loops n → l ∈ opened n →
  (∀ a l, bind a = Ok l → l ∉ opened n ∪ loops n) →
  Listen bind r n = (None, r1, n1) →
  run_without_failure l (r1, n1) s →
  l ∈ loops s.2 ∧ l ∈ opened s.2 ∧ ¬ waited s.1.
Proof.
  intros Hreach Hl Hloop Hopen Hfresh E Hrun.
  assert (reachable addr h (S k) (r1, n1)) as Hreach1.
  { apply (reach_step addr h k (r, n) Listened); [done|]. by econstructor. }
  assert (l ∈ loops n1 ∧ l ∈ opened n1 ∧ listener r1 ≠ Some l) as Hinv.
  { pose proof (Listen_cases bind r n) as Hc. rewrite E in Hc. destruct Hc as (b & Hb & _ & -> & ->).
    specialize (Hfresh _ _ Hb). cbn. split_and!; [set_solver..|]. intros [= ->]. set_solver. }
  change (l ∈ loops (r1, n1).2 ∧ l ∈ opened (r1, n1).2 ∧ listener (r1, n1).1 ≠ Some l) in Hinv.
  clear E Hreach Hfresh. revert k Hreach1 Hinv.
  induction Hrun as [s|s e s' s'' Hs He _ IH]; intros k Hreach1 Hinv.
  - split_and!; [apply Hinv..|]. intros Hw.
    destruct (reachable_invariant _ _ _ _ Hreach1) as [_ Hwait _ _ _ _].
    unfold waited in Hw. rewrite Hw, (size_remove _ l) in Hwait by apply Hinv. lia.
  - pose proof (reach_step _ _ _ _ _ _ Hreach1 Hs) as Hreach2.
    destruct e; (eapply IH; [exact Hreach2|]); by eapply step_keeps.
Qed.

(** ** Witnesses *)

Definition bind_to (l : nat) (_ : string) : res nat := Ok l.
Definition new_listener : RPCListener := NewRPCListener "1234" true.
Definition listening : state :=
  ((Listen (bind_to 7) new_listener (MkNet ∅ ∅ 0)).1.2,
   (Listen (bind_to 7) new_listener (MkNet ∅ ∅ 0)).2).
Definition listening_twice : state :=
  ((Listen (bind_to 8) listening.1 listening.2).1.2, (Listen (bind_to 8) listening.1 listening.2).2).

Lemma reach_listening : reachable "1234" true 1 listening.
Proof.
  apply (reach_step _ _ 0 (new_listener, MkNet ∅ ∅ 0) Listened); [constructor|].
  apply (step_listen (bind_to 7)); [|reflexivity]. set_solver.
Qed.
Lemma reach_closed : reachable "1234" true 1 (Close None listening.1 listening.2).
Proof. apply (reach_step _ _ 1 listening Other); [apply reach_listening|]. apply step_close. Qed.

Lemma close_completes_witness :
  let s := Close None listening.1 listening.2 in
  opened s.2 = ∅ ∧
  ∃ r' n', nsteps drain (size (loops s.2) + handlers s.2) s (r', n') ∧ waited r'.
Proof.
  apply (close_completes "1234" true 1 (Close None listening.1 listening.2).1
    (Close None listening.1 listening.2).2); [apply reach_closed|done|reflexivity].
Defined.

Lemma second_listen_leaks_witness :
  let s := Close None listening_twice.1 listening_twice.2 in
  7%nat ∈ loops s.2 ∧ 7%nat ∈ opened s.2 ∧ ¬ waited s.1.
Proof.
  apply (second_listen_leaks "1234" true 1 (bind_to 8) listening.1 listening_twice.1 listening.2
    listening_twice.2 7).
  - apply reach_listening.
  - reflexivity.
  - by vm_compute.
  - by vm_compute.
  - intros a l [= <-]. by vm_compute.
  - reflexivity.
  - eapply run_step; [apply step_close|done|]. constructor.
Defined.

End Listener.
