(* ===== verification/Lifecycle.v ===== *)
(** The life of the durable buffer and of the coordinator that owns it: the monitor
    goroutine from recovery to its last cleanup ([monitor] and [Close] of
    [durable_buffer.go]), the order in which [Close] of [coordinator.go] shuts its
    parts down, and what a restart does to handle ids. *)

From S2P Require Import Prelude GoStrings Ring Json Codec Types Durable WritePath Registry Recovery.
From S2P Require Import Worker Master Jobs Coordinator Upload.
From Stdlib Require Import Ascii.
From stdpp Require Import options.

Module Lifecycle.
Import Codec Types Durable.

(** ** The monitor *)

Inductive event := CleanupTick | DeletionTick | Shutdown.

Section monitor.
Context `{MapOrder} `{SortSlice}.

(** One turn of the loop of [monitor], which goes on unless it was the shutdown. *)
Definition monitor_turn (spin : nat) (fl : Faults) (clock : nat → Z) (now : Z) (e : event)
    (d : DurableBuffer) : outcome (DurableBuffer * bool) :=
  match e with
  | CleanupTick => d ← cleanup spin fl clock now d; Ret (d, true)
  | DeletionTick => Ret (performLogDeletion fl now d, true)
  | Shutdown => d ← cleanup spin fl clock now d; Ret (d, false)
  end.

(** The loop on its own, for the events given with their times; it has not ended
    when they are used up. *)
Fixpoint monitor_loop (spin : nat) (fl : Faults) (events : list ((nat → Z) * Z * event))
    (d : DurableBuffer) : outcome DurableBuffer :=
  match events with
  | [] => OutOfFuel
  | (clock, now, e) :: events =>
      r ← monitor_turn spin fl clock now e d;
      match r with
      | (d, true) => monitor_loop spin fl events d
      | (d, false) => Ret d
      end
  end.
Definition monitor (spin : nat) (fl : Faults) (events : list ((nat → Z) * Z * event))
    (d : DurableBuffer) : outcome DurableBuffer :=
  d ← recover spin fl d; monitor_loop spin fl events d.

(** [DurableBuffer.Close], from the moment the monitor waits for its next event:
    the first call ends the monitor. *)
Definition Close (spin : nat) (fl : Faults) (clock : nat → Z) (now : Z) (closed : bool)
    (d : DurableBuffer) : outcome DurableBuffer :=
  if closed then Ret d else monitor_loop spin fl [(clock, now, Shutdown)] d.

(** ** The coordinator *)

(** A tick of the upload timer: the dispatch follows even when the upload fails. *)
Definition tick `{Coordinator.DFSClient D} {W} (spin : nat) (fl : Faults) (clock : nat → Z) (now : Z)
    (logPath : string → string) (prefixEnv uploadedAt : string)
    (call : StartMapReduceRequest → W → res StartMapReduceReply * W) (now' : Z)
    (c : Coordinator.Coordinator) (dfs : D) (w : W) :
    outcome (Coordinator.Coordinator * D * W) :=
  u ← Coordinator.uploadFileToStorage spin fl clock now logPath prefixEnv uploadedAt
        (λ _, false) c dfs;
  let s := Coordinator.startMapReduce call now' "" u.1.1 w in
  Ret (s.1.1, u.2, s.2).

(** Records that clients send while the listener accepts, with their times. *)
Fixpoint serve (spin : nat) (requests : list (Z * DownloadRequest)) (c : Coordinator.Coordinator) :
    outcome (list DownloadReply * Coordinator.Coordinator) :=
  match requests with
  | [] => Ret ([], c)
  | (now, q) :: requests =>
      r ← Coordinator.RPCForwardDownload spin now q c;
      r' ← serve spin requests r.2;
      Ret (r.1 :: r'.1, r'.2)
  end.

(** The two entries of the map [closer]. Closing the listener returns when the
    connections have ended, so records are served until then. *)
Inductive part := ListenerPart | LogPart.
Definition close_part (spin : nat) (clock : nat → Z) (now : Z) (p : part)
    (c : Coordinator.Coordinator) : outcome Coordinator.Coordinator :=
  match p with
  | ListenerPart => Ret c
  | LogPart =>
      d ← Close spin no_faults clock now false (Coordinator.durableLog c);
      Ret (Coordinator.set_log d c)
  end.

(** The loop over the map: [order] is the order of its enumeration, and the
    [i]-th list of [requests] is served before the [i]-th part is closed, if the
    listener is still open then. *)
Fixpoint close_parts (spin : nat) (clock : nat → Z) (now : Z) (accepting : bool)
    (order : list part) (requests : list (list (Z * DownloadRequest)))
    (c : Coordinator.Coordinator) : outcome (list DownloadReply * Coordinator.Coordinator) :=
  match order, requests with
  | p :: order, qs :: requests =>
      r ← (if accepting then serve spin qs c else Ret ([], c));
      c ← close_part spin clock now p r.2;
      r' ← close_parts spin clock now
             (accepting && match p with ListenerPart => false | LogPart => true end)
             order requests c;
      Ret (r.1 ++ r'.1, r'.2)
  | _, _ => Ret ([], c)
  end.

(** [Coordinator.Close] after its loops have ended: the last upload, whose error is
    only logged, at time [now], then the parts at [now']. *)
Definition CloseCoordinator `{Coordinator.DFSClient D} (spin : nat) (clock : nat → Z) (now : Z)
    (logPath : string → string) (prefixEnv uploadedAt : string) (cancelled : Handle → bool)
    (clock' : nat → Z) (now' : Z) (order : list part)
    (requests : list (list (Z * DownloadRequest))) (c : Coordinator.Coordinator) (dfs : D) :
    outcome (list DownloadReply * Coordinator.Coordinator * D) :=
  u ← Coordinator.uploadFileToStorage spin no_faults clock now logPath prefixEnv uploadedAt
        cancelled c dfs;
  r ← close_parts spin clock' now' true order requests u.1.1;
  Ret (r.1, r.2, u.2).

(** ** The order of closing *)

Definition content_of (q : DownloadRequest) : Content :=
  MkContent (dr_Handle q) (dr_Eof q) (dr_Data q).
Definition writes_of (requests : list (Z * DownloadRequest)) : list (Z * Content) :=
  prod_map id content_of <$> requests.
Definition success : DownloadReply := MkDownloadReply "success" 0 "".

Lemma serve_writes spin requests c d1 :
  WritePath.run_writes spin (writes_of requests) (Coordinator.durableLog c) = Ret (None, d1) →
  serve spin requests c = Ret (replicate (length requests) success, Coordinator.set_log d1 c).
Proof.
  revert c. induction requests as [|[now q] requests IH]; intros c; cbn.
  { intros [= <-]. by destruct c. }
  unfold Coordinator.RPCForwardDownload. fold (content_of q).
  destruct (Write spin now (content_of q) (Coordinator.durableLog c)) as [[[e|] d]| |];
    cbn [mbind outcome_bind fst snd]; try done.
  intros E. by rewrite (IH (Coordinator.set_log d c) E).
Qed.

Lemma live_contents_frame clock d d' i cs :
  (∀ now h, isHandleExpired now h d' = isHandleExpired now h d) →
  WritePath.live_contents clock d' i cs = WritePath.live_contents clock d i cs.
Proof.
  intros Hd. revert i. induction cs as [|e cs IH]; intros i; [done|].
  cbn [WritePath.live_contents]. by rewrite Hd, IH.
Qed.

(** The cleanup of the shutdown. *)
Lemma Close_saves spin clock now d q :
  Ring.ring_repr (log d) q → WritePath.handles_ok q →
  ∃ d', Close (S spin) no_faults clock now false d = Ret d' ∧
    Ring.ring_repr (log d') [] ∧ Ring.Cap (log d') = Ring.Cap (log d) ∧
    (∀ t h, isHandleExpired t h d' = isHandleExpired t h d) ∧
    ∀ h, handle_ok h →
      file_content (logDir d') (logFileName h) =
        file_content (logDir d) (logFileName h) ++
        log_bytes (WritePath.of_handle h (WritePath.live_contents clock d 0 q)).
Proof.
  intros Hr Hq. destruct (WritePath.Flush_ok spin clock d q Hr Hq)
    as (d1 & E & Hd1 & Hr1 & Hc1 & Hfiles & _).
  unfold Close. cbn [monitor_loop monitor_turn]. unfold cleanup. unfold Flush in E. rewrite E.
  cbn [mbind outcome_bind fst].
  set (d2 := pruneProcessingHandles now d1).
  assert (log d2 = log d1 ∧ logDir d2 = logDir d1 ∧
    ∀ t h, isHandleExpired t h d2 = isHandleExpired t h d1) as (El & Ed & Ex) by done.
  clearbody d2. pose proof (Registry.saveUploadedHandles_frame no_faults now d2) as Hs.
  assert (log (saveUploadedHandles no_faults now d2) = log d1) as El'.
  { rewrite Hs. cbn. exact El. }
  exists (saveUploadedHandles no_faults now d2). rewrite El'. split_and!; [done..| |].
  - intros t h. rewrite Hs. change (isHandleExpired t h d2 = isHandleExpired t h d).
    rewrite Ex, Hd1. done.
  - intros h Hh. rewrite <- Hfiles by done. unfold file_content.
    destruct (Registry.logFileName_not_registry h).
    rewrite Registry.saveUploadedHandles_files by done. by rewrite Ed.
Qed.

Lemma serve_ok spin requests c q :
  Ring.ring_repr (log (Coordinator.durableLog c)) q →
  Z.of_nat (length q + length requests) <= Ring.Cap (log (Coordinator.durableLog c)) →
  Forall (λ r, isHandleExpired r.1 (dr_Handle r.2) (Coordinator.durableLog c) = false) requests →
  ∃ d', serve (S spin) requests c =
      Ret (replicate (length requests) success, Coordinator.set_log d' c) ∧
    Ring.ring_repr (log d') (q ++ (content_of <$> requests.*2)) ∧
    logDir d' = logDir (Coordinator.durableLog c) ∧
    ∀ t h, isHandleExpired t h d' = isHandleExpired t h (Coordinator.durableLog c).
Proof.
  intros Hr Hfit Hlive.
  destruct (WritePath.run_writes_ok spin (writes_of requests) (Coordinator.durableLog c) q Hr)
    as (rb & E & Hr' & _).
  - unfold writes_of. by rewrite length_fmap.
  - unfold writes_of. rewrite Forall_fmap. eapply Forall_impl; [exact Hlive|]. by intros [t r].
  - apply serve_writes in E. eexists. split; [exact E|]. split_and!; [|done|done].
    assert ((writes_of requests).*2 = content_of <$> requests.*2) as <-; [|exact Hr'].
    unfold writes_of. rewrite <- !list_fmap_compose. apply list_fmap_ext. by intros ? [].
Qed.

Lemma close_parts_order (spin : nat) (clock : nat → Z) (now : Z)
    (requests : list (Z * DownloadRequest)) (c : Coordinator.Coordinator) (q : list Content) :
  let d := Coordinator.durableLog c in
  let n := length requests in
  Ring.ring_repr (log d) q → WritePath.handles_ok (q ++ (content_of <$> requests.*2)) →
  Z.of_nat (length q + n) <= Ring.Cap (log d) →
  Forall (λ r, isHandleExpired r.1 (dr_Handle r.2) d = false) requests →
  ∃ c1 c2,
    close_parts (S spin) clock now true [ListenerPart; LogPart] [requests; []] c =
      Ret (replicate n success, c1) ∧
    close_parts (S spin) clock now true [LogPart; ListenerPart] [[]; requests] c =
      Ret (replicate n success, c2) ∧
    ∀ h, handle_ok h →
      file_content (logDir (Coordinator.durableLog c1)) (logFileName h) =
        file_content (logDir d) (logFileName h) ++
        log_bytes (WritePath.of_handle h
          (WritePath.live_contents clock d 0 (q ++ (content_of <$> requests.*2)))) ∧
      file_content (logDir (Coordinator.durableLog c2)) (logFileName h) =
        file_content (logDir d) (logFileName h) ++
        log_bytes (WritePath.of_handle h (WritePath.live_contents clock d 0 q)).
Proof.
  intros d n Hr Hok Hfit Hlive.
  destruct (serve_ok spin requests c q Hr Hfit Hlive) as (d1 & E1 & Hr1 & Hdir1 & Hx1).
  destruct (Close_saves spin clock now d1 _ Hr1 Hok) as (d1' & C1 & _ & _ & _ & Hf1).
  apply Forall_app in Hok as [Hq _].
  destruct (Close_saves spin clock now d q Hr Hq) as (d2 & C2 & Hr2 & Hc2 & Hx2 & Hf2).
  destruct (serve_ok spin requests (Coordinator.set_log d2 c) [] Hr2) as (d2' & E2 & _ & Hdir2 & _).
  { cbn [Coordinator.durableLog Coordinator.set_log length]. rewrite Hc2. unfold d, n in *. lia. }
  { eapply Forall_impl; [exact Hlive|]. intros r. cbn. by rewrite Hx2. }
  exists (Coordinator.set_log d1' c), (Coordinator.set_log d2' c). split_and!.
  - cbn [close_parts]. rewrite E1. cbn [mbind outcome_bind close_part fst snd andb serve].
    cbn [Coordinator.durableLog Coordinator.set_log]. rewrite C1. cbn.
    by rewrite !(right_id_L [] (++)).
  - cbn [close_parts serve mbind outcome_bind close_part fst snd andb]. fold d. rewrite C2.
    cbn [mbind outcome_bind fst snd andb]. rewrite E2. cbn. by rewrite !(right_id_L [] (++)).
  - intros h Hh. cbn [Coordinator.durableLog Coordinator.set_log] in *. split.
    + rewrite Hf1, Hdir1 by done. by rewrite (live_contents_frame _ d).
    + rewrite Hdir2. by apply Hf2.
Qed.

(** C20: the order in which the coordinator closes its parts, which is that of a map,
    decides over acknowledged data. The records that clients send while the
    coordinator shuts down are all answered with success. When the listener is
    closed first, they are in the log files at the end, up to handles that expire.
    When the log is closed first, they are not: the files hold what was queued
    before, and nobody flushes the rest. *)
Theorem close_order_decides `{Coordinator.DFSClient D} (spin : nat) (flush_clock : nat → Z)
    (flush_now : Z) (logPath : string → string) (prefixEnv uploadedAt : string)
    (cancelled : Handle → bool) (clock : nat → Z) (now : Z)
    (requests : list (Z * DownloadRequest)) (c0 c : Coordinator.Coordinator)
    (err : option go_error) (dfs dfs' : D) (q : list Content) :
  let close := CloseCoordinator (S spin) flush_clock flush_now logPath prefixEnv uploadedAt
                 cancelled clock now in
  let d := Coordinator.durableLog c in
  let n := length requests in
  Coordinator.uploadFileToStorage (S spin) no_faults flush_clock flush_now logPath prefixEnv
    uploadedAt cancelled c0 dfs = Ret (c, err, dfs') →
  Ring.ring_repr (log d) q → WritePath.handles_ok (q ++ (content_of <$> requests.*2)) →
  Z.of_nat (length q + n) <= Ring.Cap (log d) →
  Forall (λ r, isHandleExpired r.1 (dr_Handle r.2) d = false) requests →
  ∃ c1 c2,
    close [ListenerPart; LogPart] [requests; []] c0 dfs = Ret (replicate n success, c1, dfs') ∧
    close [LogPart; ListenerPart] [[]; requests] c0 dfs = Ret (replicate n success, c2, dfs') ∧
    ∀ h, handle_ok h →
      file_content (logDir (Coordinator.durableLog c1)) (logFileName h) =
        file_content (logDir d) (logFileName h) ++
        log_bytes (WritePath.of_handle h
          (WritePath.live_contents clock d 0 (q ++ (content_of <$> requests.*2)))) ∧
      file_content (logDir (Coordinator.durableLog c2)) (logFileName h) =
        file_content (logDir d) (logFileName h) ++
        log_bytes (WritePath.of_handle h (WritePath.live_contents clock d 0 q)).
Proof.
  cbv zeta. intros Eu Hr Hok Hfit Hlive.
  destruct (close_parts_order spin clock now requests c q Hr Hok Hfit Hlive)
    as (c1 & c2 & E1 & E2 & Hf).
  exists c1, c2. unfold CloseCoordinator. rewrite Eu. cbn [mbind outcome_bind fst snd].
  rewrite E1, E2. by split_and!.
Qed.

(** ** Restarts *)

Lemma no_logs_no_replay d :
  d_exists (logDir d) = true →
  (∀ name, is_Some (d_files (logDir d) !! name) → isDownloadLogFile name = false) →
  replay_contents no_faults d = [].
Proof.
  intros Hex Hno. unfold replay_contents, read_dir. rewrite Hex. cbn [f_readdir negb orb no_faults].
  set (names := sort_slice _ _).
  assert (Forall (λ name, isDownloadLogFile name = false) names) as Hn.
  { apply Forall_forall. intros name. unfold names.
    rewrite sort_slice_perm, merge_sort_Permutation, elem_of_elements, elem_of_dom. apply Hno. }
  clearbody names. assert ((names ≫= λ name,
    if negb (isDownloadLogFile name) || f_info no_faults name || f_open no_faults name then []
    else file_records (file_content (logDir d) name)) = []) as ->; [|done].
  induction Hn as [|name names Hname Hn IH]; [done|]. cbn [mbind list_bind]. by rewrite Hname, IH.
Qed.

Lemma NewDurableBuffer_fields now cap rec expiry clean deletion dir :
  let d := NewDurableBuffer now cap rec expiry clean deletion dir in
  nextHandle d = 0 ∧ logDir d = dir.
Proof. cbn. unfold NewDurableBuffer, loadUploadedHandles. by case_match. Qed.

Lemma first_id now d : nextHandle d = 0 → Id (GenerateHandle now d).1 = 1.
Proof. intros E. unfold GenerateHandle. by rewrite E. Qed.

Lemma recover_no_logs spin d :
  d_exists (logDir d) = true → replay_contents no_faults d = [] →
  ∃ d', recover spin no_faults d = Ret d' ∧ nextHandle d' = nextHandle d.
Proof.
  intros Hex Hnil. unfold recover. destruct (recoveryMode (config d)); [|by eexists].
  assert (replay_contents no_faults (set_inRecovery true d) = []) as ->.
  { rewrite <- Hnil. done. }
  cbn [visit mbind outcome_bind]. eexists. split; [done|].
  unfold replay_dir, read_dir. cbn. by rewrite Hex.
Qed.

(** C19: handle ids start again. A buffer is created with its counter at zero, and the
    coordinator serves before its monitor has recovered, so the first handle granted
    in that time has id 1 whatever is in the logs. It also has id 1 after recovery
    when the logs of the earlier run are gone, which is what a confirmed upload does
    to them. The master, which lives on, keys its results by id: if it holds as many
    results of an earlier handle 1 as the new file has chunks, the first chunk of
    the new job completes it, with the old handle's output for all other chunks. *)
Theorem restart_reuses_ids (spin : nat) (now cap : Z) (rec : bool) (expiry clean deletion : Z)
    (dir : Dir) (granted_at : Z) :
  let d := NewDurableBuffer now cap rec expiry clean deletion dir in
  Id (GenerateHandle granted_at d).1 = 1 ∧
  (d_exists dir = true →
   (∀ name, is_Some (d_files dir !! name) → isDownloadLogFile name = false) →
   ∃ d', recover spin no_faults d = Ret d' ∧
     let h := (GenerateHandle granted_at d').1 in
     Id h = 1 ∧
     ∀ (m : Master.Master) (n : Z) (done_at : string) (r : MapReduceResultRequest),
       Jobs.results_ok m → n <= Z.of_nat (size (Jobs.received 1 m)) → rr_Handle r = h →
       let m1 := Master.set_jobs (<[Id h := n]> (Master.jobs m)) m in
       ∃ msg chunks,
         Master.RPCSubmitMapReduceResult Master.no_result_faults done_at r m1 =
           (Master.result_success msg,
            Master.notifyCoordinator h (Master.resultFileName 1) m1,
            Jobs.finished done_at h chunks (Jobs.store r m1)) ∧
         ∀ c old, c ≠ rr_ChunkIndex r →
           Master.results m !! Master.resultKey 1 c = Some old →
           Master.chunkResult_of old ∈ chunks).
Proof.
  cbv zeta. destruct (NewDurableBuffer_fields now cap rec expiry clean deletion dir) as [Hn Hdir].
  set (d := NewDurableBuffer _ _ _ _ _ _ _) in *. clearbody d. split; [by apply first_id|].
  intros Hex Hno.
  destruct (recover_no_logs spin d) as (d' & E & Hn'); [by rewrite Hdir|apply no_logs_no_replay|].
  { by rewrite Hdir. }
  { by rewrite Hdir. }
  exists d'. split; [done|]. assert (Id (GenerateHandle granted_at d').1 = 1) as Hid.
  { apply first_id. by rewrite Hn', Hn. }
  split; [done|]. set (h := (GenerateHandle granted_at d').1) in *. clearbody h.
  intros m n done_at r Hok Hle Hr.
  destruct (Jobs.submit_stale done_at 1 n r
    (Master.set_jobs (<[Id h := n]> (Master.jobs m)) m)) as (msg & chunks & Es & _ & Hold).
  - exact Hok.
  - cbn. by rewrite Hid, lookup_insert_eq.
  - exact Hle.
  - by rewrite Hr.
  - rewrite Hr in Es. exists msg, chunks. split; [exact Es|exact Hold].
Qed.

End monitor.

(** ** Witness: a record that arrives while the coordinator of [Upload] shuts down *)

#[local] Existing Instance canonical_order.
#[local] Existing Instance merge_sort_slice.
#[local] Existing Instance Upload.memory_dfs.

Definition example_coordinator : Coordinator.Coordinator :=
  Upload.example_coordinator WritePath.example_buffer.
Definition example_requests : list (Z * DownloadRequest) :=
  [(70, MkDownload WritePath.example_handle ["h"; "i"]%char true)].

(** What the two orders leave in the log: the record, or nothing. *)
Lemma example_log :
  log_bytes (WritePath.of_handle WritePath.example_handle
    (WritePath.live_contents (λ _, 80) WritePath.example_buffer 0
       (content_of <$> example_requests.*2))) ≠ [].
Proof. vm_compute. done. Qed.

Lemma close_order_decides_witness :
  let close := CloseCoordinator (D := gmap string (list byte)) 1 (λ _, 60) 60 (λ f, f) "" "now"
                 (λ _, false) (λ _, 80) 80 in
  ∃ c1 c2,
    close [ListenerPart; LogPart] [example_requests; []] example_coordinator ∅ =
      Ret ([success], c1, ∅) ∧
    close [LogPart; ListenerPart] [[]; example_requests] example_coordinator ∅ =
      Ret ([success], c2, ∅) ∧
    file_content (logDir (Coordinator.durableLog c1)) (logFileName WritePath.example_handle) ≠ [] ∧
    file_content (logDir (Coordinator.durableLog c2)) (logFileName WritePath.example_handle) = [].
Proof.
  cbv zeta.
  destruct (close_order_decides (D := gmap string (list byte)) 0 (λ _, 60) 60 (λ f, f) "" "now"
    (λ _, false) (λ _, 80) 80 example_requests example_coordinator example_coordinator None ∅ ∅ [])
    as (c1 & c2 & E1 & E2 & Hf).
  - vm_compute. reflexivity.
  - apply WritePath.example_ring.
  - repeat constructor; cbn; unfold min_i64, max_i64; lia.
  - vm_compute. discriminate.
  - repeat constructor.
  - exists c1, c2. destruct (Hf WritePath.example_handle WritePath.example_handle_ok) as [F1 F2].
    split; [exact E1|]. split; [exact E2|]. split.
    + rewrite F1. apply example_log.
    + rewrite F2. vm_compute. reflexivity.
Defined.

End Lifecycle.
