(* ===== verification/Service.v ===== *)
(** Start and shutdown of a service: [Start] and [Close] of [worker.go],
    [master.go] and [coordinator.go], with the goroutines they start and wait for
    and the background tasks of a worker. The listener they use is the one of
    [Listener]; what happens in its [Accept] loop and its connections is a step of
    the network. [Close] is a goroutine of its own: it takes its steps one by one,
    and the rest of the process goes on between them. *)

From S2P Require Import Prelude GoStrings Listener Lifecycle.
From stdpp Require Import relations.
From stdpp Require Import options.

#[local] Open Scope Z_scope.

Module Service.
Import Listener.
Import Lifecycle (part, ListenerPart, LogPart).

Inductive role := Worker | Master | Coordinator.
#[export] Instance role_eq_dec : EqDecision role.
Proof. solve_decision. Defined.

(** What [Close] does, one action after the other: a call of the listener's
    [Close] up to its [Wait], that wait, the wait for the service's own wait group,
    the coordinator's last upload and the [Close] of its log. The last two change
    nothing of the state kept here; they are [Lifecycle.CloseCoordinator]. *)
Inductive action := CloseListener | AwaitListener | AwaitGroup | FinalUpload | CloseLog.
#[export] Instance action_eq_dec : EqDecision action.
Proof. solve_decision. Defined.

Definition close_actions (p : part) : list action :=
  match p with ListenerPart => [CloseListener; AwaitListener] | LogPart => [CloseLog] end.

(** The body of [Close] after it has closed the stop channel. [order] is the order
    in which the coordinator enumerates its map of parts. *)
Definition close_script (r : role) (order : list part) : list action :=
  match r with
  | Worker | Master => [CloseListener; AwaitListener; AwaitGroup]
  | Coordinator => [AwaitGroup; FinalUpload] ++ (order ≫= close_actions)
  end.

(** ** State

    The fields [startOnce], [stopOnce], [startErr], [stopCh] (closed or not),
    [listener] and the wait group [wg], with what runs: the loop that logs the
    listener's errors, the coordinator's upload timer, a worker's background tasks,
    and what [Close] has left to do if it has been called. *)
Record Service := MkService {
  startOnce : bool; stopOnce : bool; startErr : option go_error; stopCh : bool;
  lst : RPCListener; net : Net; wg : Z; watching : bool; polling : bool; tasks : nat;
  closing : option (list action) }.

Definition set_lst (l : RPCListener) (n : Net) (s : Service) : Service :=
  MkService (startOnce s) (stopOnce s) (startErr s) (stopCh s) l n (wg s) (watching s)
    (polling s) (tasks s) (closing s).
Definition set_closing (todo : list action) (s : Service) : Service :=
  MkService (startOnce s) (stopOnce s) (startErr s) (stopCh s) (lst s) (net s) (wg s)
    (watching s) (polling s) (tasks s) (Some todo).

Definition NewService (address : string) : Service :=
  MkService false false None false (NewRPCListener address true) (MkNet ∅ ∅ 0) 0 false false 0 None.

(** [Start]. [load] is the error of loading the plugin, which only a worker does;
    the coordinator also starts the upload timer. *)
Definition Start (r : role) (load : option go_error) (bind : string → res nat) (s : Service) :
    option go_error * Service :=
  if startOnce s then (startErr s, s)
  else
    let done_ e l n g w p :=
      MkService true (stopOnce s) e (stopCh s) l n g w p (tasks s) (closing s) in
    match (if decide (r = Worker) then load else None) with
    | Some e => (Some e, done_ (Some e) (lst s) (net s) (wg s) (watching s) (polling s))
    | None =>
        match Listen bind (lst s) (net s) with
        | (Some e, l, n) => (Some e, done_ (Some e) l n (wg s) (watching s) (polling s))
        | (None, l, n) =>
            let polls := bool_decide (r = Coordinator) in
            (None, done_ (startErr s) (Errors l).2 n (wg s + (if polls then 2 else 1)) true polls)
        end
    end.

(** The three services. *)
Definition worker_Start (load : option go_error) := Start Worker load.
Definition master_Start := Start Master None.
Definition coordinator_Start := Start Coordinator None.

(** The call of [Close]: the first one closes the stop channel and goes on with its
    script; a later one waits for the first. *)
Definition Close (r : role) (order : list part) (s : Service) : Service :=
  if stopOnce s then s
  else
    MkService (startOnce s) true (startErr s) true (lst s) (net s) (wg s) (watching s)
      (polling s) (tasks s) (Some (close_script r order)).

(** The three services; only the coordinator enumerates parts. *)
Definition worker_Close := Close Worker [ListenerPart; LogPart].
Definition master_Close := Close Master [ListenerPart; LogPart].
Definition coordinator_Close := Close Coordinator.

(** The next action of [Close], [None] while it waits. [fails] is an error of
    closing the listener other than that it is closed. *)
Definition close_turn (fails : option go_error) (s : Service) : option Service :=
  match closing s with
  | Some (a :: todo) =>
      match a with
      | CloseListener =>
          let l := Listener.Close fails (lst s) (net s) in
          Some (set_closing todo (set_lst l.1 l.2 s))
      | AwaitListener =>
          if bool_decide (waited (lst s)) then Some (set_closing todo s) else None
      | AwaitGroup => if bool_decide (wg s = 0) then Some (set_closing todo s) else None
      | FinalUpload | CloseLog => Some (set_closing todo s)
      end
  | _ => None
  end.

(** One turn of the loop that logs errors: the stop channel or an error. *)
Definition watch_stop (s : Service) : Service :=
  MkService (startOnce s) (stopOnce s) (startErr s) (stopCh s) (lst s) (net s) (wg s - 1) false
    (polling s) (tasks s) (closing s).
Definition watch_error (s : Service) : Service := set_lst (receive (lst s)).2 (net s) s.
(** The end of the timer loop. *)
Definition poll_stop (s : Service) : Service :=
  MkService (startOnce s) (stopOnce s) (startErr s) (stopCh s) (lst s) (net s) (wg s - 1)
    (watching s) false (tasks s) (closing s).
(** [RPCMapReduce] answers its caller after it has started a background task,
    which counts in the wait group until it ends. *)
Definition task_begin (s : Service) : Service :=
  MkService (startOnce s) (stopOnce s) (startErr s) (stopCh s) (lst s) (net s) (wg s + 1)
    (watching s) (polling s) (S (tasks s)) (closing s).
Definition task_end (s : Service) : Service :=
  MkService (startOnce s) (stopOnce s) (startErr s) (stopCh s) (lst s) (net s) (wg s - 1)
    (watching s) (polling s) (pred (tasks s)) (closing s).

(** ** Steps *)

(** What clients and the network do to a listener. *)
Inductive network : state → state → Prop :=
| net_accept r n l : l ∈ loops n → l ∈ opened n → network (r, n) (accept_turn l Conn r n)
| net_accept_error r n l err :
    l ∈ loops n → l ∈ opened n → network (r, n) (accept_turn l (AcceptErr err false) r n)
| net_accept_closed r n l err :
    l ∈ loops n → l ∉ opened n → network (r, n) (accept_turn l (AcceptErr err true) r n)
| net_handler_done r n : (0 < handlers n)%nat → network (r, n) (handler_done r n).

(** A request arrives on a connection, so a task begins while one is served: the
    connection counts until its requests have been answered. *)
Inductive service_step (r : role) : Service → Service → Prop :=
| svc_start load bind s :
    (∀ a l, bind a = Ok l → l ∉ opened (net s) ∪ loops (net s)) →
    service_step r s (Start r load bind s).2
| svc_close order s :
    order ≡ₚ [ListenerPart; LogPart] → service_step r s (Close r order s)
| svc_close_turn fails s s' : close_turn fails s = Some s' → service_step r s s'
| svc_network s l n :
    network (lst s, net s) (l, n) → service_step r s (set_lst l n s)
| svc_watch_stop s :
    watching s = true → stopCh s = true → service_step r s (watch_stop s)
| svc_watch_error s : watching s = true → service_step r s (watch_error s)
| svc_poll_stop s :
    polling s = true → stopCh s = true → service_step r s (poll_stop s)
| svc_task_begin s :
    r = Worker → (0 < handlers (net s))%nat → service_step r s (task_begin s)
| svc_task_end s : (0 < tasks s)%nat → service_step r s (task_end s).

Definition started_from (r : role) (address : string) (s : Service) : Prop :=
  rtc (service_step r) (NewService address) s.

(** ** Invariant *)

(** What is left of a script. *)
Definition left_of (r : role) (todo : list action) : Prop :=
  ∃ order pre, order ≡ₚ [ListenerPart; LogPart] ∧ close_script r order = pre ++ todo.

(** The parts of the state that [Close] has dealt with once an action is no longer
    ahead of it. *)
Record close_ok (r : role) (todo : list action) (s : Service) : Prop := {
  ok_left : left_of r todo;
  ok_listener_closed : closed (lst s) = true ↔ CloseListener ∉ todo;
  ok_drained : AwaitListener ∉ todo → loops (net s) = ∅ ∧ handlers (net s) = 0%nat;
  ok_group : r ≠ Coordinator → AwaitGroup ∉ todo → wg s = 0
}.

(** The service calls [Listen] at most once, because [Start] is run once. *)
Record service_ok (r : role) (address : string) (s : Service) : Prop := {
  ok_listener : ∃ k, reachable address true k (lst s, net s) ∧
    (k <= 1)%nat ∧ (startOnce s = false → k = 0%nat);
  ok_wg : wg s = Z.of_nat (tasks s + Nat.b2n (watching s) + Nat.b2n (polling s));
  ok_tasks : r ≠ Worker → tasks s = 0%nat;
  ok_loops : startOnce s = false → watching s = false ∧ polling s = false ∧ startErr s = None;
  ok_closing :
    match closing s with
    | None => stopOnce s = false ∧ closed (lst s) = false
    | Some todo => stopOnce s = true ∧ stopCh s = true ∧ close_ok r todo s
    end
}.

(** *** The script *)

Ltac pick_orders :=
  repeat match goal with
  | H : _ ≡ₚ [ListenerPart; LogPart] |- _ =>
      apply Permutation_sym, Permutation_length_2_inv in H as [-> | ->]
  end.
Ltac script_cases pre E :=
  destruct pre as [|? [|? [|? [|? [|? [|? ?]]]]]]; cbn in E; simplify_eq.

Lemma left_of_script r order :
  order ≡ₚ [ListenerPart; LogPart] → left_of r (close_script r order).
Proof. intros Ho. by exists order, []. Qed.

Lemma left_of_tail r a todo : left_of r (a :: todo) → left_of r todo.
Proof.
  intros (order & pre & Ho & E). exists order, (pre ++ [a]). split; [done|].
  by rewrite E, <- app_assoc.
Qed.

(** The order of the actions, and that none of them comes twice. *)
Lemma left_of_facts r todo :
  left_of r todo →
  (AwaitListener ∉ todo → CloseListener ∉ todo) ∧
  (r ≠ Coordinator → AwaitGroup ∉ todo → AwaitListener ∉ todo) ∧
  (r = Coordinator → CloseListener ∉ todo → AwaitGroup ∉ todo ∧ FinalUpload ∉ todo) ∧
  match todo with a :: rest => a ∉ rest | [] => True end.
Proof.
  intros (order & pre & Ho & E).
  destruct r; cbn [close_script] in E; pick_orders; script_cases pre E;
    (split_and!; intros; first [done | set_solver]).
Qed.
Lemma close_ok_frame r todo s s' :
  close_ok r todo s → closed (lst s') = closed (lst s) →
  (AwaitListener ∉ todo → loops (net s') = loops (net s) ∧ handlers (net s') = handlers (net s)) →
  (r ≠ Coordinator → AwaitGroup ∉ todo → wg s' = wg s) → close_ok r todo s'.
Proof.
  intros [Hl Hc Hd Hg] Ec En Eg. split; [done|by rewrite Ec| |].
  - intros Ha. destruct (En Ha) as [-> ->]. auto.
  - intros Hr Ha. rewrite (Eg Hr Ha). auto.
Qed.

(** While the wait group counts something, [Close] of a worker or a master has not
    passed its wait. *)
Lemma close_ok_busy r todo s :
  close_ok r todo s → 0 < wg s → r ≠ Coordinator → AwaitGroup ∉ todo → False.
Proof. intros [_ _ _ Hg] Hw Hr Ha. rewrite (Hg Hr Ha) in Hw. lia. Qed.

Lemma network_step s s' : network s s' → ∃ e, step s e s' ∧ e ≠ Listened.
Proof.
  inversion_clear 1.
  - exists Other. split; [by apply step_accept|done].
  - exists (FailedAccept l). split; [by apply step_accept_error|done].
  - exists Other. split; [by apply step_accept_closed|done].
  - exists Other. split; [by apply step_handler_done|done].
Qed.

Lemma reach_other address k s e s' :
  reachable address true k s → step s e s' → e ≠ Listened → reachable address true k s'.
Proof. intros Hr Hs He. pose proof (reach_step _ _ _ _ _ _ Hr Hs) as H. by destruct e. Qed.

Lemma reach_errors address k r n :
  reachable address true k (r, n) → reachable address true k ((Errors r).2, n).
Proof. intros Hr. eapply reach_other; [exact Hr|constructor|done]. Qed.

Lemma network_closed s s' : network s s' → closed s'.1 = closed s.1.
Proof.
  inversion_clear 1; try done; unfold accept_turn.
  - rewrite orb_false_r. destruct (closed r) eqn:Hc; [done|]. cbn [fst].
    by destruct (reportErr_fields (Some err) r) as (_ & _ & ->).
  - by rewrite orb_true_r.
Qed.

(** Nothing happens on a listener without loops and connections. *)
Lemma network_quiet s s' : network s s' → loops s.2 = ∅ → handlers s.2 = 0%nat → False.
Proof. inversion_clear 1; cbn; intros El Eh; [set_solver..|lia]. Qed.

Lemma Close_closed fails r n : closed (Listener.Close fails r n).1 = true.
Proof.
  unfold Listener.Close. destruct (closed r) eqn:E; [done|].
  destruct (listener (set_closed r)); [|done]. cbn [fst].
  by destruct (reportErr_fields fails (set_closed r)) as (_ & _ & ->).
Qed.
Lemma Close_runs fails r n :
  loops (Listener.Close fails r n).2 = loops n ∧ handlers (Listener.Close fails r n).2 = handlers n.
Proof. unfold Listener.Close. by repeat case_match. Qed.
Lemma receive_closed r : closed (receive r).2 = closed r.
Proof. unfold receive. by repeat case_match. Qed.

(** *** Every step preserves it *)

Lemma Start_ok r address load bind s :
  (∀ a l, bind a = Ok l → l ∉ opened (net s) ∪ loops (net s)) →
  service_ok r address s → service_ok r address (Start r load bind s).2.
Proof.
  intros Hfresh Hok. unfold Start. destruct (startOnce s) eqn:Es; [done|].
  destruct Hok as [(k & Hr & Hk & Hk0) Hwg Ht Hl Hc]. rewrite Es in Hk0, Hl.
  rewrite (Hk0 eq_refl) in Hr. clear Hk Hk0. destruct (Hl eq_refl) as (Ew & Ep & Ee).
  destruct (if decide (r = Worker) then load else None) as [e|].
  { split; cbn; [exists 0%nat; auto|done..|].
    destruct (closing s); [|done]. destruct Hc as (? & ? & Hc). split_and!; [done..|].
    by eapply close_ok_frame. }
  pose proof (Listen_cases bind (lst s) (net s)) as Hcases.
  destruct (Listen bind (lst s) (net s)) as [[[e|] l] n] eqn:El.
  - destruct Hcases as [Hcases ->].
    assert (closed l = closed (lst s)) as Ecl.
    { destruct Hcases as [-> | ->]; [done|]. by destruct (make_errChan_fields (lst s)) as (_ & _ & ->). }
    split; cbn; [exists 0%nat|done..|].
    + split; [|auto]. eapply reach_other; [exact Hr|by eapply step_listen_error|done].
    + rewrite Ecl. destruct (closing s); [|done]. destruct Hc as (? & ? & Hc).
      split_and!; [done..|]. by eapply close_ok_frame.
  - destruct Hcases as (l0 & Hb & Hcl & -> & ->).
    assert (∀ todo, close_ok r todo s → CloseListener ∈ todo) as Hopen.
    { intros todo [_ Hcc _ _]. destruct (decide (CloseListener ∈ todo)) as [|Hn]; [done|].
      apply Hcc in Hn. congruence. }
    split; cbn [Errors snd startOnce stopOnce lst net wg watching polling stopCh tasks closing];
      [exists 1%nat| |done|done|].
    + split; [|split; [lia|done]]. apply reach_errors.
      exact (reach_step _ _ _ _ _ _ Hr (step_listen _ _ _ _ _ Hfresh El)).
    + rewrite Ew, Ep in Hwg. cbn in Hwg. rewrite Hwg. case_bool_decide; cbn; lia.
    + assert (closed (make_errChan (add_wait 1 (set_listener (Some l0) (make_errChan (lst s)))))
        = false) as Ec.
      { destruct (make_errChan_fields (add_wait 1 (set_listener (Some l0) (make_errChan (lst s)))))
          as (_ & _ & ->). cbn. by destruct (make_errChan_fields (lst s)) as (_ & _ & ->). }
      destruct (closing s) as [todo|]; [|by destruct Hc]. destruct Hc as (? & ? & Hc).
      split_and!; [done..|]. specialize (Hopen todo Hc). destruct Hc as [Hleft Hcc _ _].
      destruct (left_of_facts r todo Hleft) as (H1 & H2 & _).
      split; cbn [lst net wg]; [done|rewrite Ec; naive_solver|naive_solver|naive_solver].
Qed.

Lemma Close_ok r address order s :
  order ≡ₚ [ListenerPart; LogPart] → service_ok r address s → service_ok r address (Close r order s).
Proof.
  intros Ho Hok. unfold Close. destruct (stopOnce s) eqn:Es; [done|].
  destruct Hok as [Hr Hwg Ht Hl Hc]. split; cbn; [done..|]. split_and!; [done..|].
  assert (closed (lst s) = false) as Ec.
  { destruct (closing s); [|by destruct Hc]. destruct Hc as [? _]. congruence. }
  assert (CloseListener ∈ close_script r order ∧ AwaitListener ∈ close_script r order ∧
    AwaitGroup ∈ close_script r order) as (H1 & H2 & H3).
  { clear -Ho. destruct r; cbn; pick_orders; cbn; set_solver. }
  split; cbn [lst net wg]; [by apply left_of_script|rewrite Ec; naive_solver|naive_solver..].
Qed.

Lemma not_next (a b : action) todo : a ≠ b → b ∉ todo → b ∉ a :: todo.
Proof. intros Hab Hb [->|]%elem_of_cons; done. Qed.

(** [Close] has taken its action [a]. *)
Lemma close_ok_next r a todo s s' :
  close_ok r (a :: todo) s → wg s' = wg s →
  closed (lst s') = (if decide (a = CloseListener) then true else closed (lst s)) →
  loops (net s') = loops (net s) ∧ handlers (net s') = handlers (net s) →
  (a = AwaitListener → loops (net s) = ∅ ∧ handlers (net s) = 0%nat) →
  (a = AwaitGroup → wg s = 0) →
  close_ok r todo s'.
Proof.
  intros [Hleft Hcc Hd Hg] Ew Ec [El Eh] Hal Hag.
  destruct (left_of_facts _ _ Hleft) as (_ & _ & _ & Ha).
  split; [by eapply left_of_tail| | |]; rewrite ?Ew, ?Ec, ?El, ?Eh.
  - case_decide as E; [by subst a|]. rewrite Hcc. split; [intros H; contradict H; by right|].
    by apply not_next.
  - intros Hn. destruct (decide (a = AwaitListener)) as [|Hne]; [auto|]. by apply Hd, not_next.
  - intros Hr Hn. destruct (decide (a = AwaitGroup)) as [|Hne]; [auto|]. by apply Hg, not_next.
Qed.

Lemma close_turn_ok r address fails s s' :
  service_ok r address s → close_turn fails s = Some s' → service_ok r address s'.
Proof.
  intros [(k & Hr & Hk & Hk0) Hwg Ht Hl Hc]. unfold close_turn.
  destruct (closing s) as [[|a todo]|]; [done| |done]. destruct Hc as (Hs & Hch & Hc).
  pose proof (reachable_invariant _ _ _ _ Hr) as [_ Hw _ _ _ _]. cbn [fst snd] in Hw.
  destruct a; intros E; try (case_bool_decide as Hwait; [|done]); simplify_eq;
    (split; cbn; [|done..|split_and!; [done..|]; eapply close_ok_next; cbn; eauto using Close_closed, Close_runs]);
    try (by exists k); try done.
  - exists k. split; [|done]. rewrite <- surjective_pairing.
    eapply reach_other; [exact Hr|apply step_close|done].
  - intros _. unfold waited in Hwait. rewrite Hw in Hwait. split; [|lia].
    apply leibniz_equiv, size_empty_inv. lia.
Qed.

Lemma network_ok r address s l n :
  service_ok r address s → network (lst s, net s) (l, n) → service_ok r address (set_lst l n s).
Proof.
  intros [(k & Hr & Hk & Hk0) Hwg Ht Hl Hc] Hn. split; cbn; [exists k|done..|].
  - split; [|done]. destruct (network_step _ _ Hn) as (e & He & Hne). by eapply reach_other.
  - pose proof (network_closed _ _ Hn) as Ec. cbn in Ec. rewrite Ec. destruct (closing s); [|done].
    destruct Hc as (? & ? & Hc). split_and!; [done..|]. eapply close_ok_frame; [done|done| |done].
    intros Ha. destruct (ok_drained _ _ _ Hc Ha). by destruct (network_quiet _ _ Hn).
Qed.

(** The steps that only change what the wait group counts. *)
Lemma counted_ok r address s s' :
  service_ok r address s →
  startOnce s' = startOnce s → startErr s' = startErr s → stopOnce s' = stopOnce s →
  stopCh s' = stopCh s → lst s' = lst s → net s' = net s → closing s' = closing s →
  wg s' = Z.of_nat (tasks s' + Nat.b2n (watching s') + Nat.b2n (polling s')) →
  (r ≠ Worker → tasks s' = 0%nat) →
  (startOnce s = false → watching s' = false ∧ polling s' = false) →
  (∀ todo, closing s = Some todo → close_ok r todo s → r ≠ Coordinator → AwaitGroup ∉ todo → False) →
  service_ok r address s'.
Proof.
  intros [Hr Hwg Ht Hl Hc] E1 E2 E3 E4 E5 E6 E7 Hw' Ht' Hl' Hb.
  split; rewrite ?E1, ?E2, ?E5, ?E6, ?E7; [done|done|done| |].
  - intros Hs. destruct (Hl Hs) as (_ & _ & ?). destruct (Hl' Hs). done.
  - destruct (closing s) as [todo|]; [|by rewrite E3]. rewrite E3, E4.
    destruct Hc as (? & ? & Hc). split_and!; [done..|].
    eapply close_ok_frame; [done|by rewrite E5|by rewrite E6|]. intros Hr' Ha. by destruct (Hb todo).
Qed.

Lemma service_step_ok r address s s' :
  service_ok r address s → service_step r s s' → service_ok r address s'.
Proof.
  intros Hok. pose proof (ok_wg _ _ _ Hok) as Hwg. pose proof (ok_loops _ _ _ Hok) as Hl.
  inversion 1; subst.
  - by apply Start_ok.
  - by apply Close_ok.
  - by eapply close_turn_ok.
  - by apply network_ok.
  - rewrite H0 in Hwg. eapply counted_ok; eauto; cbn in *; [lia|apply Hok|naive_solver|].
    intros todo _ Hc. apply (close_ok_busy _ _ _ Hc). lia.
  - destruct Hok as [(k & Hr & Hk & Hk0) _ Ht _ Hc]. unfold watch_error.
    split; cbn; [exists k|done..|].
    + split; [|done]. eapply reach_other; [exact Hr|apply step_receive|done].
    + rewrite receive_closed. destruct (closing s); [|done]. destruct Hc as (? & ? & Hc).
      split_and!; [done..|]. eapply close_ok_frame; [done|cbn; by rewrite receive_closed|done..].
  - rewrite H0 in Hwg. eapply counted_ok; eauto; cbn in *; [lia|apply Hok|naive_solver|].
    intros todo _ Hc. apply (close_ok_busy _ _ _ Hc). lia.
  - eapply counted_ok; eauto; cbn in *; [lia|done|naive_solver|].
    intros todo _ [Hleft _ Hd _] Hr Ha. destruct (left_of_facts _ _ Hleft) as (_ & H2 & _).
    destruct (Hd (H2 Hr Ha)). lia.
  - eapply counted_ok; eauto; cbn in *; [lia| |naive_solver|].
    + intros Hr. rewrite (ok_tasks _ _ _ Hok Hr) in H0. lia.
    + intros todo _ Hc. apply (close_ok_busy _ _ _ Hc). lia.
Qed.

Lemma started_from_ok r address s : started_from r address s → service_ok r address s.
Proof.
  intros Hs. apply (rtc_ind_r (service_ok r address) (NewService address)) in Hs; [done| |].
  - split; cbn; [|done..]. exists 0%nat. split; [constructor|auto].
  - intros x y _ Hstep Hok. by eapply service_step_ok.
Qed.

(** ** Shutdown *)

(** The steps left to a service that [Close] has been called on: the loops see the
    closed stop channel, the tasks and connections end, the accept loop meets its
    closed listener, and [Close] goes on. *)
Inductive wind_down : Service → Service → Prop :=
| wind_watch s : watching s = true → stopCh s = true → wind_down s (watch_stop s)
| wind_poll s : polling s = true → stopCh s = true → wind_down s (poll_stop s)
| wind_task s : (0 < tasks s)%nat → wind_down s (task_end s)
| wind_drain s l n : drain (lst s, net s) (l, n) → wind_down s (set_lst l n s)
| wind_close s s' : close_turn None s = Some s' → wind_down s s'.

Lemma wind_down_step r s s' : wind_down s s' → service_step r s s'.
Proof.
  inversion_clear 1; [by constructor..| |by econstructor]. constructor.
  by inversion_clear H0; constructor.
Qed.

(** What is still running or to be done. *)
Definition pending (s : Service) : nat :=
  (size (loops (net s)) + handlers (net s) + tasks s + Nat.b2n (watching s) +
   Nat.b2n (polling s) + length (default [] (closing s)))%nat.
Definition returned (s : Service) : Prop := closing s = Some [].
Definition quiet (s : Service) : Prop :=
  opened (net s) = ∅ ∧ loops (net s) = ∅ ∧ handlers (net s) = 0%nat ∧ tasks s = 0%nat.

Lemma close_goes_on s a todo :
  closing s = Some (a :: todo) → wg s = 0 → (a = AwaitListener → waited (lst s)) →
  ∃ s', close_turn None s = Some s' ∧ S (pending s') = pending s.
Proof.
  intros Et Hw Ha. unfold close_turn. rewrite Et.
  destruct (Close_runs None (lst s) (net s)) as [El Eh].
  assert (pending s = S (size (loops (net s)) + handlers (net s) + tasks s + Nat.b2n (watching s) +
    Nat.b2n (polling s) + length todo)) as -> by (unfold pending; rewrite Et; cbn; lia).
  destruct a; rewrite ?bool_decide_eq_true_2 by auto; (eexists; split; [done|]);
    unfold pending; cbn; rewrite ?El, ?Eh; lia.
Qed.

(** A service that [Close] has been called on and that is not done can go on. *)
Lemma winds_on r address s :
  service_ok r address s → stopOnce s = true → (0 < pending s)%nat →
  ∃ s', wind_down s s' ∧ S (pending s') = pending s.
Proof.
  intros [(k & Hr & Hk & Hk0) Hwg _ _ Hc] Hs Hp.
  pose proof (reachable_invariant _ _ _ _ Hr) as [_ Hw _ _ _ Hcl]. cbn [fst snd] in Hw, Hcl.
  destruct (closing s) as [todo|] eqn:Et; [|by destruct Hc as [? _]; congruence].
  destruct Hc as (_ & Hch & [Hleft Hcc _ _]).
  destruct (watching s) eqn:Ew; [exists (watch_stop s); split; [by constructor|unfold pending; cbn; rewrite Ew; cbn; lia]|].
  destruct (polling s) eqn:Ep; [exists (poll_stop s); split; [by constructor|unfold pending; cbn; rewrite Ep; cbn; lia]|].
  destruct (tasks s) as [|t] eqn:Ek;
    [|exists (task_end s); split; [constructor; lia|unfold pending; cbn; rewrite Ek; cbn; lia]].
  destruct (handlers (net s)) as [|m] eqn:Eh.
  2: { eexists. split; [apply wind_drain, drain_handler; lia|unfold pending; cbn; rewrite Eh; cbn; lia]. }
  cbn in Hwg. assert (∀ a rest, todo = a :: rest → (a = AwaitListener → waited (lst s)) →
    ∃ s', wind_down s s' ∧ S (pending s') = pending s) as Hgo.
  { intros a rest -> Ha. destruct (close_goes_on s a rest Et Hwg Ha) as (s' & H1 & H2).
    exists s'. split; [by constructor|done]. }
  destruct (decide (loops (net s) = ∅)) as [El|El].
  - unfold pending in Hp. rewrite Et, Ew, Ep, Ek, Eh, El, size_empty in Hp.
    rewrite El, size_empty in Hw. destruct todo as [|a rest]; [cbn in Hp; lia|]. by eapply Hgo.
  - destruct (closed (lst s)) eqn:Ec.
    + apply set_choose_L in El as [l Hl].
      pose proof (drain_loop (lst s) (net s) l (ErrMsg "use of closed network connection") Hl) as Hd.
      unfold accept_turn in Hd. rewrite orb_true_r in Hd.
      eexists. split; [apply wind_drain, Hd; rewrite (Hcl Hk eq_refl); set_solver|].
      unfold pending. cbn. rewrite (size_remove _ l Hl). lia.
    + destruct todo as [|a rest]; [by discriminate (proj2 Hcc (not_elem_of_nil _))|].
      eapply Hgo; [done|]. intros ->. exfalso.
      destruct (left_of_facts _ _ Hleft) as (_ & _ & _ & Hn).
      apply left_of_tail in Hleft. destruct (left_of_facts _ _ Hleft) as (Hn' & _).
      by discriminate (proj2 Hcc (not_next AwaitListener CloseListener rest ltac:(done) (Hn' Hn))).
Qed.

Lemma winds_down r address s n :
  service_ok r address s → stopOnce s = true → pending s = n →
  ∃ s', nsteps wind_down n s s' ∧ pending s' = 0%nat ∧ stopOnce s' = true ∧ service_ok r address s'.
Proof.
  revert s. induction n as [|n IH]; intros s Hok Hs Hp; [exists s; split; [constructor|done]|].
  destruct (winds_on r address s Hok Hs) as (s1 & Hw & Hp1); [lia|].
  pose proof (service_step_ok _ _ _ _ Hok (wind_down_step r _ _ Hw)) as Hok1.
  assert (stopOnce s1 = true) as Hs1.
  { destruct Hw; try done. unfold close_turn in H.
    repeat (case_match; try done); by simplify_eq. }
  destruct (IH s1 Hok1 Hs1) as (s' & Hn & Hp'); [lia|]. exists s'. split; [|done].
  by econstructor.
Qed.

(** Nothing runs any more once [Close] has returned. *)
Lemma returned_quiet r address s :
  service_ok r address s → returned s →
  quiet s ∧ (r ≠ Coordinator → watching s = false ∧ polling s = false).
Proof.
  intros [(k & Hr & Hk & Hk0) Hwg Ht _ Hc] Hret. unfold returned in Hret. rewrite Hret in Hc.
  destruct Hc as (_ & _ & [_ Hcc Hd Hg]).
  pose proof (reachable_invariant _ _ _ _ Hr) as [_ _ _ _ _ Hcl]. cbn [fst snd] in Hcl.
  destruct Hd as [El Eh]; [apply not_elem_of_nil|].
  assert (opened (net s) = ∅) as Ho by (apply Hcl; [done|apply Hcc, not_elem_of_nil]).
  destruct (decide (r = Coordinator)) as [->|Hnr].
  - split; [|done]. split_and!; [done..|]. by apply Ht.
  - specialize (Hg Hnr (not_elem_of_nil _)). rewrite Hg in Hwg.
    destruct (tasks s) eqn:Ek, (watching s), (polling s); cbn in Hwg; try lia. by split; [split_and!|].
Qed.

(** C21: the life of a service. Whatever calls of [Start] and [Close] its owner makes,
    in any order and any number, and whatever its clients do meanwhile: [Start] takes
    effect once, so the listener listens at most once and a [Start] that failed is
    never tried again, every later call returning the same error; once its listener
    is closed a service cannot be started and accepts nothing new. A worker or a
    master that is closed closes its listener first. The coordinator closes its
    listener only after its loops have ended and the last upload is done; until then
    it is not closed. When [Close] has returned no connection is
    served, no accept loop and no background task of a worker runs, and, of a worker
    or a master, no loop. And from any moment after the call of [Close] what is left
    (loops, connections, tasks and the actions of [Close] itself) can go one step
    after the other, each finishing one of them, until [Close] returns: nothing
    waits in a circle. It does wait for the clients to end their connections and for
    the tasks to end. *)
Theorem service_lifecycle (r : role) (address : string) (s : Service) :
  started_from r address s →
  (∃ k, reachable address true k (lst s, net s) ∧ (k <= 1)%nat) ∧
  (startOnce s = true → ∀ load bind, Start r load bind s = (startErr s, s)) ∧
  (closed (lst s) = true →
     opened (net s) = ∅ ∧
     (startOnce s = false → ∀ bind,
        (Start r None bind s).1 = Some (ErrMsg "listener is closed"))) ∧
  (closing s = None → closed (lst s) = false) ∧
  (∀ todo, closing s = Some todo →
     (closed (lst s) = true ↔ CloseListener ∉ todo) ∧
     (r ≠ Coordinator → CloseListener ∈ todo → ∀ order, todo = close_script r order) ∧
     (r = Coordinator → closed (lst s) = true → AwaitGroup ∉ todo ∧ FinalUpload ∉ todo)) ∧
  (returned s → quiet s ∧ (r ≠ Coordinator → watching s = false ∧ polling s = false)) ∧
  (stopOnce s = true →
     ∃ s', nsteps wind_down (pending s) s s' ∧ returned s' ∧ quiet s' ∧
       watching s' = false ∧ polling s' = false).
Proof.
  intros Hok%started_from_ok. pose proof Hok as [(k & Hr & Hk & Hk0) Hwg Ht Hl Hc].
  pose proof (reachable_invariant _ _ _ _ Hr) as [_ _ _ _ _ Hcl]. cbn [fst snd] in Hcl. split_and!.
  - by exists k.
  - intros Hs load bind. unfold Start. by rewrite Hs.
  - intros Hcd. split; [auto|]. intros Hs bind. unfold Start, Listen. rewrite Hs, Hcd.
    by case_decide.
  - intros E. rewrite E in Hc. by destruct Hc.
  - intros todo E. rewrite E in Hc. destruct Hc as (_ & _ & [Hleft Hcc _ _]).
    destruct (left_of_facts _ _ Hleft) as (_ & _ & H3 & _). split_and!; [done| |naive_solver].
    intros Hnr Hin order. destruct Hleft as (o & pre & _ & E'). clear -Hnr Hin E'.
    destruct r; [..|done]; cbn in *; script_cases pre E'; try done; set_solver.
  - by eapply returned_quiet.
  - intros Hs. destruct (winds_down r address s _ Hok Hs eq_refl) as (s' & Hn & Hp & Hs' & Hok').
    exists s'. split; [done|]. unfold pending in Hp.
    assert (returned s') as Hret.
    { unfold returned. pose proof (ok_closing _ _ _ Hok') as Hc'.
      destruct (closing s') as [[|]|]; [done|cbn in Hp; lia|].
      destruct Hc' as [? _]. congruence. }
    split; [done|]. split; [by apply (returned_quiet r address)|].
    destruct (watching s'), (polling s'); cbn in Hp; try lia.
Qed.

(** ** Witness: a worker that takes a task on a connection that was open when it was
    closed, and a coordinator that has been closed and still accepts *)

Definition example_bind (_ : string) : res nat := Ok 7%nat.
Definition example_running (r : role) : Service := (Start r None example_bind (NewService "1235")).2.
Definition example_accept (s : Service) : Service :=
  let x := accept_turn 7 Conn (lst s) (net s) in set_lst x.1 x.2 s.
Definition example_order : list part := [ListenerPart; LogPart].
Definition example_closing : Service :=
  default (NewService "") (close_turn None (Close Worker example_order
    (example_accept (example_running Worker)))).
Definition example_worker : Service := task_begin example_closing.
Definition example_coordinator : Service :=
  example_accept (Close Coordinator example_order (example_running Coordinator)).

Lemma example_started r s : service_step r (example_running r) s → started_from r "1235" s.
Proof.
  intros Hs. eapply rtc_l; [apply (svc_start r None example_bind); intros a l _; cbn; set_solver|].
  by apply rtc_once.
Qed.
Lemma example_accepted r s :
  7%nat ∈ loops (net s) → 7%nat ∈ opened (net s) → service_step r s (example_accept s).
Proof. intros H1 H2. eapply svc_network. by apply (net_accept _ _ 7). Qed.

Lemma example_worker_reached : started_from Worker "1235" example_worker.
Proof.
  unfold started_from. etrans; [apply example_started, example_accepted; vm_compute; reflexivity|].
  eapply rtc_l; [by apply (svc_close Worker example_order)|].
  eapply rtc_l; [apply (svc_close_turn Worker None _ example_closing); reflexivity|].
  apply rtc_once, svc_task_begin; [done|vm_compute; lia].
Qed.
Lemma example_coordinator_reached : started_from Coordinator "1235" example_coordinator.
Proof.
  unfold started_from. etrans; [apply example_started; by apply (svc_close Coordinator example_order)|].
  apply rtc_once, example_accepted; vm_compute; reflexivity.
Qed.

Lemma service_lifecycle_witness :
  (opened (net example_worker) = ∅ ∧ pending example_worker = 6%nat ∧
   ∃ s', nsteps wind_down (pending example_worker) example_worker s' ∧ returned s' ∧ quiet s' ∧
     watching s' = false ∧ polling s' = false) ∧
  (closed (lst example_coordinator) = false ∧ pending example_coordinator = 9%nat ∧
   ∃ s', nsteps wind_down (pending example_coordinator) example_coordinator s' ∧ returned s' ∧
     quiet s' ∧ watching s' = false ∧ polling s' = false).
Proof.
  destruct (service_lifecycle Worker "1235" example_worker example_worker_reached)
    as (_ & _ & Hc & _ & _ & _ & Hs).
  destruct (service_lifecycle Coordinator "1235" example_coordinator example_coordinator_reached)
    as (_ & _ & _ & _ & _ & _ & Hs').
  split; (split; [|split; [vm_compute; reflexivity|]]).
  - by apply Hc.
  - by apply Hs.
  - vm_compute. reflexivity.
  - by apply Hs'.
Defined.

End Service.
