(* ===== verification/TaskFaults.v ===== *)
(** A worker's task when file-system calls fail: what it submits is right
    whatever fails, and it touches no file of another task. *)

From S2P Require Import Prelude GoStrings Json Codec Types Worker MapReduce.
From Stdlib Require Import Ascii.
From stdpp Require Import options.

#[local] Arguments String.append !_ _ / : simpl nomatch.

Module TaskFaults.
Import GoStrings Codec Types Worker MapReduce.

(** ** Files of other tasks *)

(** The file names a task on chunk [c] of handle [h] may write. *)
Definition own_intermediate (h c : Z) (name : string) : bool := matches_chunk h c name.
Definition own_output (h c : Z) (name : string) : bool :=
  bool_decide (name = outputFileName h c) || bool_decide (name = outputFileName h c +:+ ".tmp").

(** Two disks that differ only in files of the task. *)
Definition same_elsewhere (h c : Z) (d d' : Disk) : Prop :=
  (∀ name, own_intermediate h c name = false → intermediate d' !! name = intermediate d !! name) ∧
  (∀ name, own_output h c name = false → output d' !! name = output d !! name).

#[export] Instance same_elsewhere_preorder h c : PreOrder (same_elsewhere h c).
Proof.
  split.
  - by intros d.
  - intros d1 d2 d3 [H1 H2] [H3 H4]. split; intros name Hn.
    + by rewrite H3, H1.
    + by rewrite H4, H2.
Qed.

Lemma cleanup_elsewhere fl h c d : same_elsewhere h c d (cleanupIntermediateFiles fl h c d).
Proof.
  split; [|done]. intros name Hn. unfold own_intermediate in Hn. cbn. rewrite map_lookup_filter.
  destruct (intermediate d !! name); [|done]. cbn. rewrite Hn. by case_guard.
Qed.

Lemma write_partition_elsewhere fl h c i kvs d :
  same_elsewhere h c d (writeIntermediatePartition fl (chunk_file h c i) kvs d).1.
Proof.
  assert (∀ name, own_intermediate h c name = false → chunk_file h c i ≠ name) as Hne.
  { intros name Hn <-. unfold own_intermediate in Hn. by rewrite matches_chunk_file in Hn. }
  unfold writeIntermediatePartition. destruct (io_create _ _); [done|].
  destruct (io_write _ _); (split; [|done]); intros name Hn%Hne; cbn;
    by rewrite lookup_insert_ne.
Qed.

Lemma run_writers_elsewhere fl h c parts sched err d :
  same_elsewhere h c d (run_writers fl h c parts sched err d).2.
Proof.
  revert err d. induction sched as [|i sched IH]; intros err d; cbn [run_writers]; [done|].
  fold (chunk_file h c i).
  pose proof (write_partition_elsewhere fl h c i (default [] (parts !! i)) d) as Hw.
  destruct (writeIntermediatePartition _ _ _ _) as [d1 [e|]]; cbn [fst snd] in *;
    etransitivity; [exact Hw|apply IH|exact Hw|apply IH].
Qed.

Section task.
Context `{SortSlice}.

Lemma reduce_elsewhere fl w request files d r d' :
  runReduceFromChannel fl w request files d = Ret (r, d') →
  same_elsewhere (Id (mr_Handle request)) (mr_ChunkIndex request) d d'.
Proof.
  unfold runReduceFromChannel. destruct (read_partitions _ _ _) as [all|e];
    [|by intros [= _ ->]].
  destruct (reduce_loop _ _ _) as [text| |]; [|done..]. cbn [mbind outcome_bind].
  assert (∀ name, own_output (Id (mr_Handle request)) (mr_ChunkIndex request) name = false →
    outputFileName (Id (mr_Handle request)) (mr_ChunkIndex request) ≠ name ∧
    outputFileName (Id (mr_Handle request)) (mr_ChunkIndex request) +:+ ".tmp" ≠ name) as Hne.
  { intros name [H1 H2]%orb_false_iff. by apply bool_decide_eq_false in H1, H2. }
  destruct (io_write_output fl); [|destruct (io_rename_output fl)]; intros [= _ <-];
    (split; [done|]); intros name [H1 H2]%Hne; cbn;
    rewrite ?lookup_insert_ne, ?lookup_delete_ne by done; done.
Qed.

(** ** The pipeline either fails or is unaffected *)

Lemma run_writers_clean fl h c parts sched d :
  (run_writers fl h c parts sched None d).1.2 = None →
  run_writers fl h c parts sched None d = run_writers no_io_faults h c parts sched None d.
Proof.
  revert d. induction sched as [|i sched IH]; intros d; cbn [run_writers]; [done|].
  fold (chunk_file h c i). unfold writeIntermediatePartition. cbn [io_create io_write no_io_faults].
  destruct (io_create fl (chunk_file h c i)).
  { intros E. destruct (run_writers_error fl h c parts sched (join_errors None
      (ErrMsg ("create " +:+ chunk_file h c i))) d) as [? E']; [by left|]. by rewrite E in E'. }
  destruct (io_write fl (chunk_file h c i)) as [k|].
  { intros E. match type of E with (run_writers _ _ _ _ _ ?err ?d0).1.2 = _ =>
      destruct (run_writers_error fl h c parts sched err d0) as [? E'] end; [by left|].
    by rewrite E in E'. }
  cbn [fst snd]. intros E. by rewrite IH.
Qed.

Lemma read_partitions_clean fl d files all :
  read_partitions fl d files = Ok all → read_partitions no_io_faults d files = Ok all.
Proof.
  revert all. induction files as [|file files IH]; intros all; cbn [read_partitions]; [done|].
  destruct (io_open fl file); [done|]. cbn [io_open no_io_faults].
  destruct (intermediate d !! file) as [text|]; [|done]. destruct (decode_kvs text); [|done].
  destruct (read_partitions fl d files) as [rest|]; [|done]. by rewrite (IH rest).
Qed.

Lemma reduce_clean fl w request files d name text d' :
  runReduceFromChannel fl w request files d = Ret (Ok (name, text), d') →
  runReduceFromChannel no_io_faults w request files d = Ret (Ok (name, text), d').
Proof.
  unfold runReduceFromChannel. destruct (read_partitions fl d files) as [all|] eqn:E; [|done].
  rewrite (read_partitions_clean _ _ _ _ E).
  destruct (reduce_loop _ _ _) as [out| |]; [|done..]. cbn [mbind outcome_bind].
  destruct (io_write_output fl); [done|]. by destruct (io_rename_output fl).
Qed.

Lemma pipeline_clean fl sched w request data d :
  0 < nReduce w →
  ∃ r d', runMapReducePipeline fl sched w request data d = Ret (r, d') ∧
    same_elsewhere (Id (mr_Handle request)) (mr_ChunkIndex request) d d' ∧
    (∀ x, r = Ok x → runMapReducePipeline no_io_faults sched w request data d = Ret (Ok x, d')).
Proof.
  intros Hn. unfold runMapReducePipeline at 1.
  destruct (io_mkdir_intermediate fl); [by eexists _, _|].
  destruct (io_mkdir_output fl); [by eexists _, _|].
  destruct (arrangeImmediate_spec (mapf w (Path (mr_ChunkInfo request)) (bytes_text data))
    (nReduce w) Hn) as (parts & Eparts & _). rewrite Eparts. cbn [mbind outcome_bind].
  set (ws := run_writers fl _ _ _ _ _ _).
  pose proof (run_writers_elsewhere fl (Id (mr_Handle request)) (mr_ChunkIndex request) parts sched
    None d) as Hws. fold ws in Hws.
  destruct (reduce_total fl w request ws.1.1 ws.2) as (r & d' & E). rewrite E.
  cbn [mbind outcome_bind]. pose proof (reduce_elsewhere _ _ _ _ _ _ _ E) as Hd.
  destruct ws.1.2 as [e|] eqn:Ee.
  { destruct r; eexists _, _; (split_and!; [done|by etransitivity|done]). }
  exists r, d'. split_and!; [done|by etransitivity|]. intros [name text] ->.
  unfold runMapReducePipeline. cbn [io_mkdir_intermediate io_mkdir_output no_io_faults].
  rewrite Eparts. cbn [mbind outcome_bind]. unfold ws in *.
  rewrite <- (run_writers_clean fl) by done. rewrite (reduce_clean _ _ _ _ _ _ _ _ E).
  cbn [mbind outcome_bind]. by rewrite Ee.
Qed.

(** ** The task *)

Lemma task_faults_ok (fl : IoFaults) (Read : string → Z → Z → dfs_read) (cancelled : bool)
    (sched : list nat) (now : string) (w : Worker) (request : MapReduceRequest)
    (r : res (list byte)) (d : Disk) :
  0 < nReduce w → schedule (nReduce w) sched → order_insensitive (reducef w) →
  readChunkData Read cancelled w request = Ret r →
  let h := Id (mr_Handle request) in
  let c := mr_ChunkIndex request in
  ∃ s d', process_chunk fl Read cancelled sched now w request d = Ret (s, d') ∧
    same_elsewhere h c d d' ∧
    (∀ sub, s = Some sub → ∃ data, r = Ok data ∧
       sub = submission w now request (outputFileName h c)
               (reduce_spec (reducef w) (kv_norm <$> map_output w request data))).
Proof.
  intros Hn Hs Hf Hread. cbn zeta. unfold process_chunk. rewrite Hread. cbn [mbind outcome_bind].
  set (d1 := cleanupIntermediateFiles _ _ _ _).
  assert (same_elsewhere (Id (mr_Handle request)) (mr_ChunkIndex request) d d1) as Hd1
    by apply cleanup_elsewhere.
  destruct r as [data|e]; [|by eexists _, _].
  destruct (pipeline_clean fl sched w request data d1 Hn) as (r & d2 & -> & Hd2 & Hclean).
  cbn [mbind outcome_bind]. destruct r as [[name text]|e];
    [|eexists _, _; (split_and!; [done|by etransitivity|done])].
  specialize (Hclean _ eq_refl).
  destruct (pipeline_ok sched w request data d1 Hn Hs Hf) as (d3 & E & _).
  rewrite E in Hclean. injection Hclean as <- <- _.
  eexists _, _. split_and!; [done| |].
  - etransitivity; [exact Hd1|]. etransitivity; [exact Hd2|]. apply cleanup_elsewhere.
  - intros sub. case_bool_decide; [done|]. intros [= <-]. by exists data.
Qed.

(** ** Reading does not panic *)

(** The convention of Go's readers: at most the buffer is filled. *)
Definition reads_fit (Read : string → Z → Z → dfs_read) : Prop :=
  ∀ path off size, 0 <= size →
    Z.of_nat (length (read_buffer (Read path off size))) = size ∧ read_n (Read path off size) <= size.

(** The sum and the difference [readChunkData] computes are 64-bit numbers. *)
Definition chunk_in_range (request : MapReduceRequest) : Prop :=
  let ci := mr_ChunkInfo request in
  Z.max (Offset ci) 0 + Size ci <= max_i64 ∧
  fm_SizeBytes (mr_File request) - Offset ci <= max_i64.

Lemma slice_inside {A} (l : list A) i j :
  0 <= i <= j → j <= Z.of_nat (length l) → ∃ x, slice l i j = Ret x.
Proof.
  intros Hij Hj. unfold slice. eexists.
  destruct (Z.leb_spec 0 i), (Z.leb_spec i j), (Z.leb_spec j (Z.of_nat (length l))); try lia. done.
Qed.

Lemma readChunkData_returns Read cancelled w request :
  reads_fit Read → chunk_in_range request →
  ∃ r, readChunkData Read cancelled w request = Ret r.
Proof.
  intros Hread [Hsum Hdiff]. unfold readChunkData.
  set (raw := fm_RawContent _). set (ci := mr_ChunkInfo request) in *. cbv zeta.
  destruct (Z.ltb_spec 0 (Z.of_nat (length raw))).
  - destruct (Z.leb_spec (Z.of_nat (length raw)) (Z.max (Offset ci) 0)); [by eexists|].
    assert (∃ e, (if 0 <? Size ci then
        if i64 (Z.max (Offset ci) 0 + Size ci) <? Z.of_nat (length raw)
        then i64 (Z.max (Offset ci) 0 + Size ci) else Z.of_nat (length raw)
      else Z.of_nat (length raw)) = e ∧ Z.max (Offset ci) 0 <= e <= Z.of_nat (length raw))
      as (e & -> & He).
    { eexists. split; [done|]. destruct (Z.ltb_spec 0 (Size ci)); [|lia].
      rewrite i64_small by (unfold min_i64, max_i64 in *; lia). case_match eqn:E; lia. }
    destruct (slice_inside raw (Z.max (Offset ci) 0) e) as [x ->]; [lia..|]. by eexists.
  - case_bool_decide; [by eexists|]. case_bool_decide; [by eexists|].
    destruct cancelled; [by eexists|].
    set (size := if Size ci <=? 0 then _ else _).
    assert (0 <= size) as Hsize.
    { unfold size. destruct (Z.leb_spec (Size ci) 0); [|lia].
      destruct (Z.ltb_spec (Offset ci) (fm_SizeBytes (mr_File request))); [|done].
      rewrite i64_small; unfold min_i64, max_i64 in *; lia. }
    destruct (Z.ltb_spec size 0); [lia|].
    match goal with |- context[Read ?p ?o size] => destruct (Hread p o size Hsize) as [Hb Hn];
      set (x := Read p o size) in * end.
    assert (∃ r, (if read_n x <? 0 then
        Ret (Err (ErrMsg ("invalid bytes read: " +:+ fmt_d (read_n x))))
      else if read_n x =? 0 then Ret (Ok [])
      else data ← slice (read_buffer x) 0 (read_n x); Ret (Ok data)) = Ret r) as Hx.
    { destruct (Z.ltb_spec (read_n x) 0); [by eexists|].
      destruct (Z.eqb_spec (read_n x) 0); [by eexists|].
      destruct (slice_inside (read_buffer x) 0 (read_n x)) as [y ->]; [lia..|]. by eexists. }
    destruct (read_err x) as [[]|]; [done|by eexists|done].
Qed.

(** ** Property *)

(** C28: a failing task does no harm. Whichever directories, files, writes,
    renames or removals fail, whatever the DFS answers that fits the buffer it is
    given, and whether or not the worker is stopped: if the bounds of the chunk do
    not overflow 64 bits (and memory suffices, which is not modelled), the reading of
    the chunk and the whole background task end without a panic, the task changes no
    intermediate or output file but those of its own handle and chunk, and if it
    submits anything, it is the specified output for the data it read. *)
Theorem task_faults_safe (fl : IoFaults) (Read : string → Z → Z → dfs_read) (cancelled : bool)
    (sched : list nat) (now : string) (w : Worker) (request : MapReduceRequest) (d : Disk) :
  0 < nReduce w → schedule (nReduce w) sched → order_insensitive (reducef w) →
  reads_fit Read → chunk_in_range request →
  let h := Id (mr_Handle request) in
  let c := mr_ChunkIndex request in
  ∃ r s d', readChunkData Read cancelled w request = Ret r ∧
    process_chunk fl Read cancelled sched now w request d = Ret (s, d') ∧
    (∀ name, own_intermediate h c name = false → intermediate d' !! name = intermediate d !! name) ∧
    (∀ name, own_output h c name = false → output d' !! name = output d !! name) ∧
    (∀ sub, s = Some sub → ∃ data, r = Ok data ∧
       sub = submission w now request (outputFileName h c)
               (reduce_spec (reducef w) (kv_norm <$> map_output w request data))).
Proof.
  cbv zeta. intros Hn Hs Hf Hfit Hrange.
  destruct (readChunkData_returns Read cancelled w request Hfit Hrange) as [r Hread].
  destruct (task_faults_ok fl Read cancelled sched now w request r d Hn Hs Hf Hread)
    as (s & d' & E & [Hi Ho] & Hsub). by exists r, s, d'.
Qed.

End task.

(** ** Witness *)

(** A DFS that answers every read with a buffer half filled. *)
Definition half_read (_ : string) (_ size : Z) : dfs_read :=
  MkRead (size / 2) (replicate (Z.to_nat size) "a"%char) None.

Lemma half_read_fits : reads_fit half_read.
Proof.
  intros path off size Hs. cbn [half_read read_buffer read_n]. rewrite length_replicate.
  split; [lia|]. apply Z.div_le_upper_bound; lia.
Qed.

(** A chunk without inline data, of four bytes. *)
Definition example_request : MapReduceRequest :=
  MkMRRequest (MkHandle 1 50) (mr_File (with_inline [] 0 0)) 0 (MkChunk 0 0 4 "/logs/a.content" 0).

(** The output file cannot be renamed and old files cannot be removed; the disk
    has a file of another chunk. *)
Lemma task_faults_safe_witness :
  let fl := MkIo false false (λ _, false) (λ _, None) (λ _, false) None true (λ _, true) in
  let d := MkDisk {[partitionFile 1 7 0 := "old"]} ∅ in
  own_intermediate 1 0 (partitionFile 1 7 0) = false ∧
  ∃ r s d', readChunkData half_read false example_worker example_request = Ret r ∧
    process_chunk (H := merge_sort_slice) fl half_read false [1; 0]%nat "now" example_worker
      example_request d = Ret (s, d') ∧
    intermediate d' !! partitionFile 1 7 0 = Some "old".
Proof.
  intros fl d. assert (own_intermediate 1 0 (partitionFile 1 7 0) = false) as Hown by by vm_compute.
  split; [exact Hown|].
  destruct (task_faults_safe (H := merge_sort_slice) fl half_read false [1; 0]%nat "now"
    example_worker example_request d) as (r & s & d' & Er & E & Hi & _);
    [done|apply example_schedule|apply count_order_insensitive|apply half_read_fits|
     split; vm_compute; discriminate|].
  exists r, s, d'. split; [exact Er|]. split; [exact E|]. rewrite (Hi _ Hown). by vm_compute.
Defined.

End TaskFaults.
