(* ===== verification/Network.v ===== *)
(** The whole system as a transition system: clients, coordinator, DFS, master
    and workers, with the messages between them in flight. A transition is what a
    handler or goroutine does between two points where others can come between;
    messages can be lost, calls can fail before or after they took effect, files
    can fail, workers can lose tasks and the master can be restarted. *)

From S2P Require Import Prelude GoStrings Ring Json Codec Types Durable.
From S2P Require Import WritePath Registry Recovery Worker MapReduce Master Jobs.
From S2P Require Import Coordinator Upload System Lifecycle.
From stdpp Require Import options.

#[local] Arguments String.append !_ _ / : simpl nomatch.

Module Network.
Import GoStrings Codec Types Master System.

(** ** The deployment

    What does not change while the system runs: the environment of the
    processes and the workers by address. *)

Record Deployment := MkDeployment {
  uploadPrefix : string;
  workersEnv : string;
  dfsEnv : string;
  coordinatorEnv : string;
  fileServer : string;
  masterEnv : string;
  logPath : string → string;
  worker : string → Worker.Worker
}.

(** ** What a client has done with its handle *)

(** The records the coordinator took, in order, and whether the client has
    stopped: it stops after an end-of-file record and after an error. *)
Record ClientState := MkClient { accepted : list Content; closed : bool }.

(** ** The goroutines of the coordinator

    What they hold between two steps that other goroutines and handlers can come
    between. *)

(** The monitor of the durable buffer: a flush takes the records out of the ring
    under a lock and writes them to the log files after it has released it. *)
Inductive monitor_phase := MonitorIdle | MonitorDrained (cs : list Content).

(** [uploadFileToStorage], which runs once at a time: its flush in the same two
    steps, the list of completed handles, then one handle after the other. *)
Inductive upload_phase :=
| UploadIdle
| UploadDrained (cs : list Content)
| UploadFlushed
| Uploading (todo uploaded : list Handle).

(** A call of [RPCStartMapReduce] whose chunks have been sent: the reports of the
    dispatch goroutines, whether the coordinator will get the answer, and whether
    the master still runs it. *)
Record Round := MkRound {
  rd_handle : Handle;
  rd_total : Z;
  rd_reports : list report;
  rd_answered : bool;
  rd_running : bool
}.

(** [claimed] are the handles [startMapReduce] has leased and not yet started. *)
Record Goroutines := MkGoroutines {
  monitor : monitor_phase;
  uploader : upload_phase;
  claimed : list (string * Handle);
  rounds : list Round
}.

Definition set_monitor p (g : Goroutines) := MkGoroutines p (uploader g) (claimed g) (rounds g).
Definition set_uploader p (g : Goroutines) := MkGoroutines (monitor g) p (claimed g) (rounds g).
Definition set_claimed hs (g : Goroutines) := MkGoroutines (monitor g) (uploader g) hs (rounds g).
Definition set_rounds rs (g : Goroutines) := MkGoroutines (monitor g) (uploader g) (claimed g) rs.

(** ** The world

    Besides what the processes hold: the tasks the workers have accepted and not
    begun, the submissions and notices under way, and the collations, the calls of
    [RPCSubmitMapReduceResult] that have left the result lock with all chunks of a job
    and have not written the result. *)

Record World (D : Type) := MkWorld {
  coordinator : Coordinator.Coordinator;
  goroutines : Goroutines;
  storage : D;
  master : Master;
  disks : string → Worker.Disk;
  tasks : list task;
  submissions : list MapReduceResultRequest;
  collations : list (MapReduceResultRequest * list chunkResult);
  notices : list JobCompleteRequest;
  clients : gmap Handle ClientState
}.
Arguments MkWorld {_} _ _ _ _ _ _ _ _ _ _.
Arguments coordinator {_} _.
Arguments goroutines {_} _.
Arguments storage {_} _.
Arguments master {_} _.
Arguments disks {_} _.
Arguments tasks {_} _.
Arguments submissions {_} _.
Arguments collations {_} _.
Arguments notices {_} _.
Arguments clients {_} _.

Section setters.
Context {D : Type}.
Implicit Types w : World D.

Definition set_coordinator x w : World D :=
  MkWorld x (goroutines w) (storage w) (master w) (disks w) (tasks w)
    (submissions w) (collations w) (notices w) (clients w).
Definition set_goroutines x w : World D :=
  MkWorld (coordinator w) x (storage w) (master w) (disks w) (tasks w)
    (submissions w) (collations w) (notices w) (clients w).
Definition set_storage x w : World D :=
  MkWorld (coordinator w) (goroutines w) x (master w) (disks w) (tasks w)
    (submissions w) (collations w) (notices w) (clients w).
Definition set_master x w : World D :=
  MkWorld (coordinator w) (goroutines w) (storage w) x (disks w) (tasks w)
    (submissions w) (collations w) (notices w) (clients w).
Definition set_disks x w : World D :=
  MkWorld (coordinator w) (goroutines w) (storage w) (master w) x (tasks w)
    (submissions w) (collations w) (notices w) (clients w).
Definition set_tasks x w : World D :=
  MkWorld (coordinator w) (goroutines w) (storage w) (master w) (disks w) x
    (submissions w) (collations w) (notices w) (clients w).
Definition set_submissions x w : World D :=
  MkWorld (coordinator w) (goroutines w) (storage w) (master w) (disks w) (tasks w)
    x (collations w) (notices w) (clients w).
Definition set_collations x w : World D :=
  MkWorld (coordinator w) (goroutines w) (storage w) (master w) (disks w) (tasks w)
    (submissions w) x (notices w) (clients w).
Definition set_notices x w : World D :=
  MkWorld (coordinator w) (goroutines w) (storage w) (master w) (disks w) (tasks w)
    (submissions w) (collations w) x (clients w).
Definition set_clients x w : World D :=
  MkWorld (coordinator w) (goroutines w) (storage w) (master w) (disks w) (tasks w)
    (submissions w) (collations w) (notices w) x.

End setters.

(** ** The network between coordinator, master and workers *)

(** What happens to a call: it never arrives, its reply is lost, or it is
    answered. *)
Inductive delivery := CallLost | ReplyLost | Answered.

(** What happens while one handle is started: to the start request of the
    coordinator, to the requests of the master to the workers and to its probes;
    whether the DFS tells the master about files, and about which chunks; the
    chunks whose dispatch is cancelled. *)
Record Connections := MkConnections {
  start_call : delivery;
  task_call : string → MapReduceRequest → delivery;
  reachable_worker : string → bool;
  file_answers : bool;
  chunk_answers : string → Z → bool;
  dispatch_cancelled : nat → bool
}.

(** What happens to one task: the file operations that fail, whether the worker
    is stopped, whether the DFS can be read, the order in which the partition
    writers finish and the time of the submission. *)
Record TaskRun := MkRun {
  run_faults : Worker.IoFaults;
  run_cancelled : bool;
  run_dfs_fails : bool;
  run_writers : list nat;
  run_submitted : string
}.

Inductive event :=
| GrantHandle (now : Z)
| Forward (now : Z) (request : DownloadRequest) (reply_lost : bool)
| MonitorDrain
| MonitorWrite (fl : Durable.Faults) (clock : nat → Z) (now : Z)
| Sweep (fl : Durable.Faults) (now : Z)
| UploadDrain
| UploadWrite (fl : Durable.Faults) (clock : nat → Z)
| UploadList
| UploadNext (fl : Durable.Faults) (uploadedAt : string) (cancelled : bool)
| UploadMark (fl : Durable.Faults) (now : Z)
| Claim (now : Z) (plugin : string)
| StartJob (i : nat) (net : Connections)
| Conclude (i : nat) (sched : list nat)
| RunTask (i : nat) (run : TaskRun)
| LoseTask (i : nat)
| Submit (i : nat)
| Collate (i : nat) (fl : ResultFaults) (now : string)
| LoseSubmission (i : nat)
| Notify (i : nat)
| LoseNotice (i : nat)
| RestartMaster.

Section network.
Context `{MapOrder} `{SortSlice} `{DFSReader D} (dep : Deployment) (spin : nat).
Implicit Types w : World D.

(** *** Flushing in two steps *)

Definition drain (d : Durable.DurableBuffer) : outcome (list Content * Durable.DurableBuffer) :=
  r ← Ring.Drain spin (Durable.log d) (Z.to_nat (Ring.Cap (Durable.log d)));
  Ret (r.1, Durable.set_log r.2 d).

(** Callers of a flush only log its error. *)
Definition write_snapshot (fl : Durable.Faults) (clock : nat → Z) (cs : list Content)
    (d : Durable.DurableBuffer) : Durable.DurableBuffer :=
  match cs with
  | [] => d
  | _ => (Durable.syncContentsToFile fl clock cs d).1
  end.

(** *** Starting a job *)

Definition probe_worker_at (net : Connections) (addr : string) : option string :=
  if reachable_worker net addr then Some (Worker.RPCGetPluginInfo (worker dep addr)) else None.

Definition call_worker (net : Connections) (addr : string) (request : MapReduceRequest) :
    res MapReduceReply :=
  match task_call net addr request with
  | Answered => Ok (Worker.RPCMapReduce request)
  | _ => Err (ErrMsg "connection is shut down")
  end.

(** The DFS as the master sees it while it starts a job. A DFS that answers for
    some files only is not among these: see the last theorem of [Chunks]. *)
Definition master_dfs (net : Connections) (dfs : D) : DFS :=
  MkDFS
    (λ p, if file_answers net then GetFile (view dfs) p else Err (ErrMsg "i/o timeout"))
    (λ p i, if chunk_answers net p i then GetChunkHandle (view dfs) p i
            else Err (ErrMsg "i/o timeout"))
    (ChunkMaxSizeInByte (view dfs)).

(** A request whose reply is lost has started its task all the same. *)
Definition arrives (net : Connections) (q : task) : bool :=
  match task_call net q.1 q.2 with CallLost => false | _ => true end.

(** *** Events *)

(** What the client knows after the reply to a record. *)
Definition record_answered (c : Content) (ok reply_lost : bool) (st : ClientState) : ClientState :=
  if ok then MkClient (accepted st ++ [c]) (closed st || Eof c || reply_lost)
  else MkClient (accepted st) true.

Definition content_of (r : DownloadRequest) : Content :=
  MkContent (dr_Handle r) (dr_Eof r) (dr_Data r).

(** What a worker reads from the DFS. *)
Definition dfs_reads (run : TaskRun) (dfs : D) : string → Z → Z → Worker.dfs_read :=
  if run_dfs_fails run then λ _ _ _, Worker.MkRead 0 [] (Some (Worker.DfsFailed (ErrMsg "i/o timeout")))
  else view_read dfs.

Definition set_durable (d : Durable.DurableBuffer) (w : World D) : World D :=
  set_coordinator (Coordinator.set_log d (coordinator w)) w.

(** After a failed call the coordinator gives the lease of the handle back. *)
Definition release (h : Handle) (w : World D) : World D :=
  set_durable (Durable.ReleaseProcessingHandle h (Coordinator.durableLog (coordinator w))) w.

(** The answer of the master to a start request. *)
Definition start_answered (h : Handle) (answered : bool) (reply : StartMapReduceReply)
    (w : World D) : World D :=
  if answered && negb (bool_decide (sp_Status reply = "error")) then w else release h w.

Definition handle_event (e : event) (w : World D) : outcome (World D) :=
  let d := Coordinator.durableLog (coordinator w) in
  let g := goroutines w in
  match e with
  | GrantHandle now =>
      let r := Coordinator.RPCGenerateDownloadHandle now (coordinator w) in
      Ret (set_clients (<[hp_Handle r.1 := MkClient [] false]> (clients w))
             (set_coordinator r.2 w))
  | Forward now request reply_lost =>
      r ← Coordinator.RPCForwardDownload spin now request (coordinator w);
      let ok := bool_decide (dp_Status r.1 = "success") in
      Ret (set_clients
             (alter (record_answered (content_of request) ok reply_lost) (dr_Handle request) (clients w))
             (set_coordinator r.2 w))
  | MonitorDrain =>
      match monitor g with
      | MonitorIdle =>
          r ← drain d;
          Ret (set_goroutines (set_monitor (MonitorDrained r.1) g) (set_durable r.2 w))
      | MonitorDrained _ => Ret w
      end
  | MonitorWrite fl clock now =>
      match monitor g with
      | MonitorIdle => Ret w
      | MonitorDrained cs =>
          Ret (set_goroutines (set_monitor MonitorIdle g)
                 (set_durable (Durable.saveUploadedHandles fl now
                    (Durable.pruneProcessingHandles now (write_snapshot fl clock cs d))) w))
      end
  | Sweep fl now =>
      match monitor g with
      | MonitorIdle => Ret (set_durable (Durable.performLogDeletion fl now d) w)
      | MonitorDrained _ => Ret w
      end
  | UploadDrain =>
      match uploader g with
      | UploadIdle =>
          if bool_decide (TrimSpace (Coordinator.fsServerAddress (coordinator w)) = "") then Ret w
          else
            r ← drain d;
            Ret (set_goroutines (set_uploader (UploadDrained r.1) g) (set_durable r.2 w))
      | _ => Ret w
      end
  | UploadWrite fl clock =>
      match uploader g with
      | UploadDrained cs =>
          Ret (set_goroutines (set_uploader UploadFlushed g)
                 (set_durable (write_snapshot fl clock cs d) w))
      | _ => Ret w
      end
  | UploadList =>
      match uploader g with
      | UploadFlushed =>
          Ret (set_goroutines (set_uploader
                 (match Durable.GetCompletedHandleForRetransmission d with
                  | [] => UploadIdle
                  | hs => Uploading hs []
                  end) g) w)
      | _ => Ret w
      end
  | UploadNext fl uploadedAt cancelled =>
      match uploader g with
      | Uploading (h :: todo) uploaded =>
          r ← Coordinator.upload_handle fl (logPath dep) (uploadPrefix dep) uploadedAt
                (λ _, cancelled) d h (storage w);
          Ret (set_goroutines (set_uploader (Uploading todo
                 (match r.2 with None => uploaded ++ [h] | Some _ => uploaded end)) g)
                 (set_storage r.1 w))
      | _ => Ret w
      end
  | UploadMark fl now =>
      match uploader g with
      | Uploading [] uploaded =>
          Ret (set_goroutines (set_uploader UploadIdle g)
                 (set_durable (match uploaded with
                               | [] => d
                               | _ => Durable.MarkHandlesUploaded fl now uploaded d
                               end) w))
      | _ => Ret w
      end
  | Claim now plugin =>
      let r := Durable.GetUploadedHandles now d in
      Ret (set_goroutines (set_claimed (claimed g ++ (pair plugin <$> r.1)) g) (set_durable r.2 w))
  | StartJob i net =>
      match claimed g !! i with
      | None => Ret w
      | Some (plugin, h) =>
          let g := set_claimed (delete i (claimed g)) g in
          let w := set_goroutines g w in
          if bool_decide (TrimSpace (Coordinator.masterAddress (coordinator w)) = "") then
            Ret (release h w)
          else
            match start_call net with
            | CallLost => Ret (release h w)
            | called =>
                let answered := match called with Answered => true | _ => false end in
                r ← start_job (master_dfs net (storage w)) (uploadPrefix dep) (probe_worker_at net)
                      (call_worker net) (dispatch_cancelled net) (MkStart h plugin) (master w);
                let w := set_master r.2 w in
                match r.1 with
                | inl reply => Ret (start_answered h answered reply w)
                | inr (total, rs) =>
                    Ret (set_goroutines
                           (set_rounds (rounds g ++ [MkRound h total rs answered true]) g)
                           (set_tasks (tasks w ++
                              filter (λ q, Is_true (arrives net q)) (omap fst rs)) w))
                end
            end
      end
  | Conclude i sched =>
      match rounds g !! i with
      | None => Ret w
      | Some rd =>
          let h := rd_handle rd in
          let w := set_goroutines (set_rounds (delete i (rounds g)) g) w in
          if rd_running rd then
            let r := conclude_dispatch sched h (rd_total rd) (rd_reports rd) (master w) in
            Ret (start_answered h (rd_answered rd) r.1.1 (set_master r.2 w))
          else Ret (release h w)
      end
  | RunTask i run =>
      match tasks w !! i with
      | None => Ret w
      | Some q =>
          r ← Worker.process_chunk (run_faults run) (dfs_reads run (storage w)) (run_cancelled run)
                (run_writers run) (run_submitted run) (worker dep q.1) q.2 (disks w q.1);
          Ret (set_submissions (submissions w ++ option_list r.1)
                 (set_disks (<[q.1 := r.2]> (disks w)) (set_tasks (delete i (tasks w)) w)))
      end
  | LoseTask i => Ret (set_tasks (delete i (tasks w)) w)
  | Submit i =>
      match submissions w !! i with
      | None => Ret w
      | Some s =>
          let r := submit_locked s (master w) in
          let w := set_master r.2 (set_submissions (delete i (submissions w)) w) in
          Ret (match r.1 with
               | Complete chunks => set_collations (collations w ++ [(s, chunks)]) w
               | _ => w
               end)
      end
  | Collate i fl now =>
      match collations w !! i with
      | None => Ret w
      | Some (s, chunks) =>
          let r := submit_finish fl now s chunks (master w) in
          Ret (set_notices (notices w ++ option_list r.1.2)
                 (set_master r.2 (set_collations (delete i (collations w)) w)))
      end
  | LoseSubmission i => Ret (set_submissions (delete i (submissions w)) w)
  | Notify i =>
      match notices w !! i with
      | None => Ret w
      | Some n =>
          Ret (set_coordinator (Coordinator.RPCNotifyJobComplete n (coordinator w)).2
                 (set_notices (delete i (notices w)) w))
      end
  | LoseNotice i => Ret (set_notices (delete i (notices w)) w)
  | RestartMaster =>
      Ret (set_goroutines (set_rounds ((λ rd, MkRound (rd_handle rd) (rd_total rd) (rd_reports rd)
                                          (rd_answered rd) false) <$> rounds g) g)
             (set_collations []
                (set_master (NewMaster (workersEnv dep) (dfsEnv dep) (coordinatorEnv dep)
                   (resultDir (master w))) w)))
  end.

(** The system on an empty log directory: the coordinator has replayed it and
    nobody has asked for anything. *)
Definition start (now : Z) (dfs : D) (disks : string → Worker.Disk) : outcome (World D) :=
  let c := Coordinator.NewCoordinator now (fileServer dep) (masterEnv dep) (Durable.MkDir false ∅) in
  d ← Durable.recover spin Durable.no_faults (Coordinator.durableLog c);
  Ret (MkWorld (Coordinator.set_log d c) (MkGoroutines MonitorIdle UploadIdle [] []) dfs
         (NewMaster (workersEnv dep) (dfsEnv dep) (coordinatorEnv dep) ∅) disks [] [] [] [] ∅).

Fixpoint run_events (es : list event) (w : World D) : outcome (World D) :=
  match es with
  | [] => Ret w
  | e :: es => w ← handle_event e w; run_events es w
  end.

(** *** Runs *)

(** The files of the DFS have lengths that an [int64] holds, rounded up to whole
    chunks. *)
Definition files_fit (dfs : D) : Prop :=
  ∀ p bytes, Coordinator.dfs_content dfs p = Some bytes →
    chunk_count chunk_size (Z.of_nat (length bytes)) * chunk_size <= max_i64.

(** What the environment keeps to: clocks are 64-bit integers and the id counter
    does not wrap around; only the holder of a handle sends records for it, and
    not after it has stopped; the report of every dispatched chunk arrives once;
    every partition writer finishes once. *)
Definition allowed (w : World D) (e : event) : Prop :=
  match e with
  | GrantHandle now =>
      min_i64 <= now <= max_i64 ∧
      Durable.nextHandle (Coordinator.durableLog (coordinator w)) + 1 < 2 ^ 64
  | Forward _ request _ =>
      ∃ st, clients w !! dr_Handle request = Some st ∧ closed st = false
  | StartJob _ _ => files_fit (storage w)
  | Conclude i sched =>
      ∀ rd, rounds (goroutines w) !! i = Some rd → sched ≡ₚ seq 0 (length (rd_reports rd))
  | RunTask i run =>
      ∀ q, tasks w !! i = Some q →
        MapReduce.schedule (Worker.nReduce (worker dep q.1)) (run_writers run)
  | _ => True
  end.

(** A transition by an event that satisfies [P]. *)
Definition transition (P : World D → event → Prop) (w w' : World D) : Prop :=
  ∃ e, P w e ∧ handle_event e w = Ret w'.

(** The worlds the system reaches from a DFS that satisfies [I] while every event
    satisfies [P]. *)
Definition reachable (I : D → Prop) (P : World D → event → Prop) (w : World D) : Prop :=
  ∃ now dfs disks w0, I dfs ∧ start now dfs disks = Ret w0 ∧ rtc (transition P) w0 w.

Lemma transition_mono (P Q : World D → event → Prop) w w' :
  (∀ w e, P w e → Q w e) → transition P w w' → transition Q w w'.
Proof. intros HPQ (e & He & E). exists e. auto. Qed.

Lemma reachable_mono (I J : D → Prop) (P Q : World D → event → Prop) w :
  (∀ dfs, I dfs → J dfs) → (∀ w e, P w e → Q w e) → reachable I P w → reachable J Q w.
Proof.
  intros HIJ HPQ (now & dfs & ds & w0 & Hd & E & Hs). exists now, dfs, ds, w0.
  split_and!; [auto|done|]. clear E.
  induction Hs as [|w1 w2 w3 H12 _ IH]; [done|]. eapply rtc_l; [|exact IH].
  by eapply transition_mono.
Qed.

Lemma reachable_step (I : D → Prop) (P : World D → event → Prop) w e w' :
  reachable I P w → P w e → handle_event e w = Ret w' → reachable I P w'.
Proof.
  intros (now & dfs & ds & w0 & Hd & E0 & Hs) He E. exists now, dfs, ds, w0.
  split_and!; [done|done|]. eapply rtc_r; [exact Hs|]. by exists e.
Qed.

(** Proofs about runs go by induction over them. *)
Lemma reachable_ind' (I : D → Prop) (P : World D → event → Prop) (Q : World D → Prop) w :
  (∀ now dfs disks w0, I dfs → start now dfs disks = Ret w0 → Q w0) →
  (∀ w1 e w2, Q w1 → P w1 e → handle_event e w1 = Ret w2 → Q w2) →
  reachable I P w → Q w.
Proof.
  intros Hstart Hstep (now & dfs & ds & w0 & Hd & E & Hs). pose proof (Hstart _ _ _ _ Hd E) as Hw.
  clear E. induction Hs as [|w1 w2 w3 (e & He & E) _ IH]; [done|]. apply IH. by eapply Hstep.
Qed.

End network.

End Network.
