(* ===== verification/Frames.v ===== *)
(** What the operations of the durable buffer and of the coordinator leave
    alone, whatever fails while they run: the frame conditions the system's
    invariants rest on. *)

From S2P Require Import Prelude GoStrings Ring Json Codec Types Durable.
From S2P Require Import WritePath Registry Recovery Worker Master Coordinator Upload Lifecycle.
From stdpp Require Import options.

#[local] Arguments String.append !_ _ / : simpl nomatch.

Module Frames.
Import GoStrings Codec Types Durable Registry.

(** ** The durable buffer *)

(** Configuration, recovery flag, counters and overflow policy are the same. *)
Definition frame (d d' : DurableBuffer) : Prop :=
  d' = MkDB (config d) (inRecovery d) (nextHandle d) (lastTimestamp d) (overflowPolicy d)
         (log d') (handles d') (uploadedHandles d') (processingHandles d') (logDir d').

#[export] Instance frame_preorder : PreOrder frame.
Proof.
  split.
  - by intros [].
  - unfold frame. intros d1 d2 d3 -> ->. done.
Qed.

Lemma frame_nextHandle d d' : frame d d' → nextHandle d' = nextHandle d.
Proof. by intros ->. Qed.
Lemma frame_lastTimestamp d d' : frame d d' → lastTimestamp d' = lastTimestamp d.
Proof. by intros ->. Qed.
Lemma frame_config d d' : frame d d' → config d' = config d.
Proof. by intros ->. Qed.
Lemma frame_inRecovery d d' : frame d d' → inRecovery d' = inRecovery d.
Proof. by intros ->. Qed.
Lemma frame_overflowPolicy d d' : frame d d' → overflowPolicy d' = overflowPolicy d.
Proof. by intros ->. Qed.

Lemma frame_set_log rb d : frame d (set_log rb d).
Proof. done. Qed.
Lemma frame_set_handles m d : frame d (set_handles m d).
Proof. done. Qed.
Lemma frame_set_uploaded m d : frame d (set_uploadedHandles m d).
Proof. done. Qed.
Lemma frame_set_processing m d : frame d (set_processingHandles m d).
Proof. done. Qed.
Lemma frame_set_logDir dir d : frame d (set_logDir dir d).
Proof. done. Qed.
#[export] Hint Resolve frame_set_log frame_set_handles frame_set_uploaded frame_set_processing
  frame_set_logDir : mrp.

Lemma frame_foldl {A} (f : DurableBuffer → A → DurableBuffer) l d :
  (∀ d x, frame d (f d x)) → frame d (foldl f d l).
Proof.
  intros Hf. revert d. induction l as [|x l IH]; intros d; cbn; [done|].
  etransitivity; [apply Hf|apply IH].
Qed.

(** Both registries of handles and the ring are the same. *)
Definition same_registries (d d' : DurableBuffer) : Prop :=
  handles d' = handles d ∧ uploadedHandles d' = uploadedHandles d ∧
  processingHandles d' = processingHandles d.

Section durable.
Context `{MapOrder} `{SortSlice}.

(** A flush drains the ring, whatever becomes of the records. *)
Lemma Flush_frame spin fl clock d q :
  Ring.ring_repr (log d) q →
  ∃ d' e, Flush (S spin) fl clock d = Ret (d', e) ∧ frame d d' ∧ same_registries d d' ∧
    Ring.ring_repr (log d') [] ∧ Ring.Cap (log d') = Ring.Cap (log d).
Proof.
  intros Hr. unfold Flush, syncLogToFile. pose proof (Ring.ring_repr_fit _ _ Hr) as Hfit.
  destruct (Ring.Drain_spec spin (log d) q (Z.to_nat (Ring.Cap (log d))) Hr)
    as (rb & -> & Hr' & Hc).
  rewrite drop_ge in Hr' by lia. cbn [mbind outcome_bind fst snd].
  destruct (take _ q) as [|c cs]; [by eexists _, _|].
  unfold syncContentsToFile. destruct (mkdir_all _ _) as [dir [e|]]; by eexists _, _.
Qed.

Lemma save_frame fl now d : frame d (saveUploadedHandles fl now d).
Proof. rewrite saveUploadedHandles_frame. done. Qed.

Lemma Mark_frame fl now hs d :
  frame d (MarkHandlesUploaded fl now hs d) ∧ log (MarkHandlesUploaded fl now hs d) = log d.
Proof.
  unfold MarkHandlesUploaded.
  set (d1 := foldl (λ d h, set_handles (delete h (handles d))
    (set_uploadedHandles (<[h := now]> (uploadedHandles d)) d)) d hs).
  assert (frame d d1 ∧ log d1 = log d) as [Hf Hl].
  { unfold d1. clear. induction hs as [|h hs IH] using rev_ind; [done|]. rewrite foldl_snoc.
    destruct IH as [IH <-]. split; [|done]. etransitivity; [exact IH|]. done. }
  split.
  - etransitivity; [exact Hf|]. etransitivity; [apply (save_frame fl now)|]. done.
  - cbn. rewrite saveUploadedHandles_frame. exact Hl.
Qed.

Lemma cleanup_frame spin fl clock now d q :
  Ring.ring_repr (log d) q →
  ∃ d', cleanup (S spin) fl clock now d = Ret d' ∧ frame d d' ∧
    handles d' = handles d ∧ uploadedHandles d' = uploadedHandles d ∧
    Ring.ring_repr (log d') [] ∧ Ring.Cap (log d') = Ring.Cap (log d).
Proof.
  intros Hr. unfold cleanup. destruct (Flush_frame spin fl clock d q Hr)
    as (d1 & e & E & Hf & (Hh & Hu & _) & Hr1 & Hc1). unfold Flush in E. rewrite E.
  cbn [mbind outcome_bind fst]. eexists. split; [done|]. rewrite saveUploadedHandles_frame.
  split_and!; [|done..]. etransitivity; [exact Hf|]. done.
Qed.

Lemma delete_log_frame fl now d name :
  frame d (delete_log fl now d name) ∧ log (delete_log fl now d name) = log d.
Proof. by destruct (delete_log_cases fl now d name) as [(h & f & _ & _ & _ & _ & ->)| ->]. Qed.

Lemma performLogDeletion_frame fl now d :
  let d' := performLogDeletion fl now d in
  frame d d' ∧ log d' = log d ∧ handles d' = handles d ∧
  (∀ h, is_Some (uploadedHandles d' !! h) → uploadedHandles d' !! h = uploadedHandles d !! h).
Proof.
  cbn zeta. destruct (performLogDeletion_eq fl now d) as [(names & _ & ->)|(e & _ & ->)]; [|done].
  pose proof (swept_foldl fl now d names) as Hs.
  assert (frame d (foldl (delete_log fl now) d names) ∧
    log (foldl (delete_log fl now) d names) = log d) as [Hf Hl].
  { clear. induction names as [|name names IH] using rev_ind; [done|]. rewrite foldl_snoc.
    destruct IH as [IH <-]. destruct (delete_log_frame fl now (foldl (delete_log fl now) d names) name).
    split; [by etransitivity|done]. }
  set (d1 := foldl _ _ _) in *.
  destruct (pruneUploadedHandles_facts fl now d1) as (_ & Hh & Hu & _).
  assert (frame d1 (pruneUploadedHandles fl now d1) ∧
    log (pruneUploadedHandles fl now d1) = log d1) as [Hf1 Hl1].
  { unfold pruneUploadedHandles. rewrite saveUploadedHandles_frame, prune_fold. done. }
  split_and!.
  - by etransitivity.
  - by rewrite Hl1.
  - rewrite Hh. apply Hs.
  - intros h. rewrite Hu. destruct (lapsed now d1 h); [by intros []|]. intros [t E].
    destruct (swept_uploaded _ _ _ Hs h) as [E'|E']; [|done]. by rewrite E' in E.
Qed.

Lemma monitor_frame spin fl clock now e d q :
  Ring.ring_repr (log d) q →
  ∃ d' b, Lifecycle.monitor_turn (S spin) fl clock now e d = Ret (d', b) ∧ frame d d' ∧
    handles d' = handles d ∧
    (∀ h, is_Some (uploadedHandles d' !! h) → uploadedHandles d' !! h = uploadedHandles d !! h) ∧
    (∃ q', Ring.ring_repr (log d') q' ∧ (q' = q ∨ q' = [])) ∧
    Ring.Cap (log d') = Ring.Cap (log d).
Proof.
  intros Hr. destruct (cleanup_frame spin fl clock now d q Hr)
    as (d1 & E & Hf & Hh & Hu & Hr1 & Hc1).
  destruct e; cbn [Lifecycle.monitor_turn]; rewrite ?E; cbn [mbind outcome_bind].
  - eexists _, _. split_and!; [done|done|done|by rewrite Hu|by exists []; auto|done].
  - destruct (performLogDeletion_frame fl now d) as (Hf' & Hl' & Hh' & Hu').
    eexists _, _. rewrite Hl'. split_and!; [done|done|done|done|by exists q; auto|done].
  - eexists _, _. split_and!; [done|done|done|by rewrite Hu|by exists []; auto|done].
Qed.

Lemma GetUploadedHandles_frame now d :
  let r := GetUploadedHandles now d in
  frame d r.2 ∧ log r.2 = log d ∧ handles r.2 = handles d ∧ uploadedHandles r.2 = uploadedHandles d ∧
  logDir r.2 = logDir d.
Proof. done. Qed.

End durable.

(** ** The upload *)

Section upload.
Context `{MapOrder} `{SortSlice} `{Coordinator.DFSClient D}.
Import Coordinator Upload.
Implicit Types (dfs : D) (d : DurableBuffer).

(** The two files of an uploaded handle are in the DFS. *)
Definition has_files (env : string) (dfs : D) (h : Handle) : Prop :=
  is_Some (dfs_content dfs (contentPath (remotePath env h))) ∧
  is_Some (dfs_content dfs (remotePath env h)).

Lemma upload_handle_files fl logPath env at_ cancelled d h dfs dfs' :
  upload_handle fl logPath env at_ cancelled d h dfs = Ret (dfs', None) → has_files env dfs' h.
Proof.
  unfold upload_handle. destruct (cancelled h); [done|].
  unfold buildHandleMetadataPayload. destruct (f_info fl _); [done|]. cbv zeta.
  destruct (ensureRemoteDirectoryExists _ dfs) as [dfs1 [e|]]; [done|].
  destruct (create_file _ dfs1) as [dfs2 [e|]]; [done|].
  destruct (decodeDlogContent_total fl h d) as [[data|e] E]; rewrite E; cbn [mbind outcome_bind]; [|done].
  pose proof (write_content dfs2 (contentPath (remotePath env h)) (contentPath (remotePath env h)) data)
    as F3. rewrite decide_True in F3 by done.
  destruct (WriteAt ops _ data dfs2) as [dfs3 [e|]]; cbn in F3; [done|].
  assert (remotePath env h ≠ contentPath (remotePath env h)) as Hne.
  { rewrite contentPath_base, remotePath_base. apply not_eq_sym, content_not_json. }
  pose proof (proj1 (create_file_content (remotePath env h) (contentPath (remotePath env h)) dfs3) Hne)
    as F4.
  destruct (create_file (remotePath env h) dfs3) as [dfs4 [e|]]; cbn in F4; [done|].
  match goal with |- context [WriteAt ops (remotePath env h) ?b dfs4] => set (payload := b) end.
  pose proof (write_content_other (remotePath env h) (contentPath (remotePath env h)) payload dfs4
    Hne) as F5.
  pose proof (write_content dfs4 (remotePath env h) (remotePath env h) payload) as F6.
  rewrite decide_True in F6 by done.
  destruct (WriteAt ops (remotePath env h) _ dfs4) as [dfs5 [e|]]; [done|]; cbn [fst snd] in *.
  intros [= <-]. split; [rewrite F5, F4, F3|rewrite F6]; by eexists.
Qed.

(** A file of a handle is not touched by the upload of others. *)
Lemma untouched_files env h hs dfs dfs' :
  untouched env hs dfs dfs' → handle_ok h → Forall handle_ok hs → h ∉ hs →
  dfs_content dfs' (contentPath (remotePath env h)) = dfs_content dfs (contentPath (remotePath env h)) ∧
  dfs_content dfs' (remotePath env h) = dfs_content dfs (remotePath env h).
Proof.
  intros Hun Hh Hhs Hnin. split; [by eapply untouched_content|]. apply Hun. rewrite remotePath_base.
  rewrite Forall_forall in *. intros h' Hin. split; [apply not_eq_sym, content_not_json|].
  intros E%remote_base_inj; [by subst|done|by apply Hhs].
Qed.

Lemma has_files_untouched env h hs dfs dfs' :
  untouched env hs dfs dfs' → handle_ok h → Forall handle_ok hs → h ∉ hs →
  has_files env dfs h → has_files env dfs' h.
Proof.
  intros Hun Hh Hhs Hnin [Hc Hj]. destruct (untouched_files env h hs dfs dfs') as [E1 E2]; [done..|].
  unfold has_files. by rewrite E1, E2.
Qed.

Lemma upload_all_files fl logPath env at_ cancelled d hs err dfs U err' dfs' :
  NoDup hs → Forall handle_ok hs →
  upload_all fl logPath env at_ cancelled d hs err dfs = Ret (U, err', dfs') →
  Forall (has_files env dfs') U.
Proof.
  intros Hnd. revert err dfs U err' dfs'.
  induction Hnd as [|h hs Hnin Hnd IH]; intros err dfs U err' dfs' Hok; cbn [upload_all].
  { intros [= <- _ _]. constructor. }
  apply Forall_cons in Hok as [Hh Hok].
  destruct (upload_handle fl logPath env at_ cancelled d h dfs) as [[dfs1 [e|]]| |] eqn:E1; [| |done..];
    cbn [mbind outcome_bind].
  - intros E. by eapply IH.
  - destruct (upload_all_spec fl logPath env at_ cancelled d hs err dfs1 Hnd Hok)
      as (U1 & err1 & dfs2 & E & Hsub & _ & _ & _ & Hun). rewrite E. cbn [mbind outcome_bind fst snd].
    intros [= <- _ <-]. constructor; [|by eapply IH].
    eapply has_files_untouched; [exact Hun|done..|]. by eapply upload_handle_files.
Qed.

(** The upload, step by step: flush, upload of the completed handles, marking of
    those that got through. *)
Definition marked (fl : Faults) (now : Z) (U : list Handle) d : DurableBuffer :=
  match U with [] => d | _ => MarkHandlesUploaded fl now U d end.

Lemma upload_run spin fl clock now logPath env at_ cancelled c dfs d1 e1 U err dfs' :
  TrimSpace (fsServerAddress c) ≠ "" →
  Flush spin fl clock (durableLog c) = Ret (d1, e1) →
  upload_all fl logPath env at_ cancelled d1 (GetCompletedHandleForRetransmission d1) None dfs =
    Ret (U, err, dfs') →
  uploadFileToStorage spin fl clock now logPath env at_ cancelled c dfs =
    Ret (set_log (marked fl now U d1) c, err, dfs').
Proof.
  intros Hfs Hfl E. unfold uploadFileToStorage. rewrite bool_decide_false, Hfl by done.
  cbn [mbind outcome_bind fst].
  destruct (GetCompletedHandleForRetransmission d1) as [|h0 hs0].
  - cbn in E. by injection E as [= <- <- <-].
  - rewrite E. cbn [mbind outcome_bind fst snd]. by destruct U.
Qed.

Lemma marked_effects fl now U d :
  frame d (marked fl now U d) ∧ log (marked fl now U d) = log d ∧
  (∀ h, handles (marked fl now U d) !! h = if decide (h ∈ U) then None else handles d !! h) ∧
  (∀ h, uploadedHandles (marked fl now U d) !! h =
     if decide (h ∈ U) then Some now else uploadedHandles d !! h).
Proof.
  unfold marked. destruct U as [|u U].
  { split_and!; [done|done|..]; intros h; by rewrite decide_False by apply not_elem_of_nil. }
  destruct (MarkHandlesUploaded_facts fl now (u :: U) d) as (_ & _ & Hu' & Hh').
  by destruct (Mark_frame fl now (u :: U) d).
Qed.

(** The handles an upload tries are exactly the completed ones. *)
Lemma completed_of d d1 :
  handles d1 = handles d → map_Forall (λ h _, handle_ok h) (handles d) →
  let hs := GetCompletedHandleForRetransmission d1 in
  NoDup hs ∧ Forall handle_ok hs ∧ ∀ h, h ∈ hs ↔ handles d !! h = Some true.
Proof.
  intros E Hok. cbn zeta. pose proof (elem_of_completed d1) as Hin. rewrite E in Hin.
  split_and!; [apply NoDup_completed| |done]. apply Forall_forall. intros h Hh%Hin.
  by apply (Hok h true).
Qed.

(** What an upload does to the coordinator and the DFS: the handles in [U], all
    completed before, move from one registry to the other and have their files;
    no file of another handle is touched. *)
Lemma upload_effects (spin : nat) (fl : Faults) (clock : nat → Z) (now : Z)
    (logPath : string → string) (env at_ : string) (cancelled : Handle → bool)
    (c : Coordinator) (dfs : D) (q : list Content) :
  let d := durableLog c in
  Ring.ring_repr (log d) q → map_Forall (λ h _, handle_ok h) (handles d) →
  ∃ d' err dfs' U q',
    uploadFileToStorage (S spin) fl clock now logPath env at_ cancelled c dfs =
      Ret (set_log d' c, err, dfs') ∧
    frame d d' ∧ (Ring.ring_repr (log d') q' ∧ (q' = q ∨ q' = [])) ∧
    Ring.Cap (log d') = Ring.Cap (log d) ∧
    Forall (λ h, handles d !! h = Some true) U ∧ Forall (has_files env dfs') U ∧
    (∀ h, handles d' !! h = if decide (h ∈ U) then None else handles d !! h) ∧
    (∀ h, uploadedHandles d' !! h = if decide (h ∈ U) then Some now else uploadedHandles d !! h) ∧
    (∀ h, handle_ok h → handles d !! h ≠ Some true →
       dfs_content dfs' (contentPath (remotePath env h)) =
         dfs_content dfs (contentPath (remotePath env h)) ∧
       dfs_content dfs' (remotePath env h) = dfs_content dfs (remotePath env h)).
Proof.
  cbv zeta. intros Hr Hok. unfold uploadFileToStorage.
  case_bool_decide as Hfs.
  { exists (durableLog c), None, dfs, [], q. destruct c as [a b d]. cbn in *.
    split_and!; [done|done|done|by left|done|constructor|constructor|done|done|done]. }
  destruct (Flush_frame spin fl clock (durableLog c) q Hr)
    as (d1 & e & Efl & Hf & (Hh & Hu & _) & Hr1 & Hc1).
  destruct (completed_of (durableLog c) d1 Hh Hok) as (Hnd & Hhs & Hin).
  destruct (upload_all_spec fl logPath env at_ cancelled d1 _ None dfs Hnd Hhs)
    as (U & err & dfs' & E & Hsub & _ & _ & _ & Hun).
  pose proof (upload_all_files _ _ _ _ _ _ _ _ _ _ _ _ Hnd Hhs E) as HU.
  destruct (marked_effects fl now U d1) as (Hf' & Hl' & Hh' & Hu').
  pose proof (upload_run (S spin) fl clock now logPath env at_ cancelled c dfs d1 e U err dfs'
    Hfs Efl E) as Erun. unfold uploadFileToStorage in Erun. rewrite bool_decide_false in Erun by done.
  exists (marked fl now U d1), err, dfs', U, []. rewrite Hl'. split_and!.
  - exact Erun.
  - by etransitivity.
  - done.
  - by right.
  - done.
  - apply Forall_forall. intros h Hh1%Hsub. by apply Hin.
  - done.
  - intros h. by rewrite Hh', Hh.
  - intros h. by rewrite Hu', Hu.
  - intros h Hh1 Hne. apply (untouched_files env h (GetCompletedHandleForRetransmission d1));
      [done..|]. by rewrite Hin.
Qed.

End upload.

End Frames.
