(* ===== verification/Chunks.v ===== *)
(** The chunks of an uploaded file as master and workers see them: which
    metadata the master fetches for a handle, what a worker reads for one of its
    chunks, and when a set of results is the result of the whole file. *)

From S2P Require Import Prelude GoStrings Ring Json Codec Types Durable.
From S2P Require Import WritePath Registry Recovery Worker MapReduce Master Jobs.
From S2P Require Import Coordinator Upload System Lifecycle Network.
From Stdlib Require Import Ascii.
From stdpp Require Import options.

#[local] Arguments String.append !_ _ / : simpl nomatch.

Module Chunks.
Import GoStrings Codec Types Master System Network.

Section chunks.
Context `{MapOrder} `{SortSlice} `{DFSReader D} (dep : Deployment).
Context (mapf : string → string → list KeyValue) (reducef : string → list string → string).
Implicit Types (dfs : D) (h : Handle) (data : list byte).

(** ** Paths *)

Definition content_path h : string :=
  Coordinator.contentPath (Coordinator.remotePath (uploadPrefix dep) h).
Definition metadata_path h : string := Coordinator.remotePath (uploadPrefix dep) h.

(** What the theorems ask of a deployment: coordinator and master agree on the
    upload prefix, which does not begin with white space, and the workers run one
    plugin with a valid configuration. *)
Record deployment_ok : Prop := {
  dep_prefix : ∃ prefix prefixes,
    resolveUploadPrefixes (uploadPrefix dep) = prefix :: prefixes ∧
    TrimRight prefix ["/"%char] =
      TrimRight (Worker.envOrDefault (uploadPrefix dep) "/mapreduce") ["/"%char];
  dep_content_path h : TrimSpace (content_path h) = content_path h;
  dep_metadata_path h : TrimSpace (metadata_path h) = metadata_path h;
  dep_worker addr :
    Worker.mapf (worker dep addr) = mapf ∧ Worker.reducef (worker dep addr) = reducef ∧
    0 < Worker.nReduce (worker dep addr) ∧
    TrimSpace (Worker.fsServerAddr (worker dep addr)) ≠ "" ∧
    TrimSpace (Worker.masterAddress (worker dep addr)) ≠ "";
  dep_reduce : MapReduce.order_insensitive reducef
}.

Lemma content_path_not_empty h : content_path h ≠ "".
Proof.
  unfold content_path. rewrite Upload.contentPath_base. intros E%(f_equal String.length).
  rewrite length_append in E. cbn in E. lia.
Qed.
Lemma metadata_path_not_empty h : metadata_path h ≠ "".
Proof.
  unfold metadata_path. rewrite Upload.remotePath_base. intros E%(f_equal String.length).
  rewrite length_append in E. cbn in E. lia.
Qed.

(** The prefix the master tries first gives the coordinator's paths. *)
Lemma master_base prefix h :
  TrimRight prefix ["/"%char] =
    TrimRight (Worker.envOrDefault (uploadPrefix dep) "/mapreduce") ["/"%char] →
  TrimRight prefix ["/"%char] +:+ "/" +:+
    ("download_log_" +:+ fmt_d (Id h) +:+ "-" +:+ fmt_d (TimeStamp h)) =
    Upload.remote_base (uploadPrefix dep) h.
Proof. intros ->. done. Qed.

(** ** Chunks *)

Definition chunk_number data : nat := Z.to_nat (chunk_count chunk_size (Z.of_nat (length data))).
Definition piece data (i : nat) : list byte :=
  take (Z.to_nat (Z.min chunk_size (Z.of_nat (length data) - Z.of_nat i * chunk_size)))
    (drop (Z.to_nat (Z.of_nat i * chunk_size)) data).
Definition pieces data : list (list byte) := piece data <$> seq 0 (chunk_number data).

Definition chunk_of h data (i : nat) (c : Z) : ChunkInfo :=
  Jobs.layout (content_path h) (Z.of_nat (length data)) chunk_size (Z.of_nat i) c.

Lemma data_positive data : data ≠ [] → 0 < Z.of_nat (length data).
Proof. destruct data; cbn; [done|lia]. Qed.

Lemma chunk_number_bounds data :
  data ≠ [] →
  (Z.of_nat (chunk_number data) - 1) * chunk_size < Z.of_nat (length data) <=
    Z.of_nat (chunk_number data) * chunk_size ∧ (0 < chunk_number data)%nat.
Proof.
  intros Hd%data_positive. pose proof (chunk_count_bounds chunk_size _ chunk_size_pos Hd).
  pose proof chunk_size_pos. unfold chunk_number. rewrite Z2Nat.id by nia. split; [done|]. nia.
Qed.

Lemma concat_pieces data : data ≠ [] → concat (pieces data) = data.
Proof.
  intros Hd. destruct (chunk_number_bounds data Hd) as [Hb _].
  rewrite <- (Jobs.layout_covers data chunk_size (Z.of_nat (chunk_number data)) chunk_size_pos Hb)
    at 2. rewrite Nat2Z.id. unfold pieces. generalize (seq 0 (chunk_number data)).
  intros l. induction l as [|i l IH]; [done|]. rewrite fmap_cons, bind_cons. cbn. by rewrite IH.
Qed.

Lemma length_pieces data : length (pieces data) = chunk_number data.
Proof. unfold pieces. by rewrite length_fmap, length_seq. Qed.

(** ** Metadata *)

(** The metadata of a handle whose files are in the DFS: the chunks of its
    content, or, when the content is empty, the metadata file as one chunk. *)
Definition metadata_right h data (file : FileMetadata) : Prop :=
  fm_RawContent file = [] ∧
  if decide (data = []) then
    ∃ n, 0 <= n ∧ fm_SizeBytes file = n ∧ fm_Chunks file = [MkChunk 0 0 n (metadata_path h) 0]
  else ∃ handle, fm_Chunks file = (λ i, chunk_of h data i (handle i)) <$> seq 0 (chunk_number data).

(** The DFS the master sees answers for files as [dfs] does, or not at all, and
    for each chunk as [dfs] does or not at all. *)
Definition seen_by_master (v : DFS) dfs : Prop :=
  ((∀ p, GetFile v p = GetFile (view dfs) p) ∨ ∀ p, ∃ e, GetFile v p = Err e) ∧
  (∀ p i, GetChunkHandle v p i = GetChunkHandle (view dfs) p i ∨ ∃ e, GetChunkHandle v p i = Err e) ∧
  ChunkMaxSizeInByte v = chunk_size.

Lemma master_dfs_seen net dfs : seen_by_master (master_dfs net dfs) dfs.
Proof.
  split_and!; [|intros p i|apply view_chunk_size]; cbn.
  - destruct (file_answers net); [by left|right; by eexists].
  - destruct (chunk_answers net p i); [by left|right; by eexists].
Qed.

Lemma fetch_unanswered v h logFile prefixes err :
  (∀ p, ∃ e, GetFile v p = Err e) → ∃ e, try_prefixes v h logFile prefixes err = Err e.
Proof.
  intros Hv. revert err. induction prefixes as [|p ps IH]; intros err; cbn [try_prefixes].
  { destruct err; by eexists. }
  set (base := TrimRight p ["/"%char] +:+ "/" +:+ logFile).
  destruct (Hv (base +:+ ".content")) as [e ->]. destruct (Hv (base +:+ ".json")) as [e' ->]. apply IH.
Qed.

(** Fetching chunk by chunk ends with all chunks or with an error. *)
Lemma fetch_chunks_seen v dfs p n length i :
  seen_by_master v dfs →
  (fetch_chunks v p length i n = fetch_chunks (view dfs) p length i n ∨
   ∃ e, fetch_chunks v p length i n = Err e) ∧
  ((∀ p i, GetChunkHandle v p i = GetChunkHandle (view dfs) p i) →
   fetch_chunks v p length i n = fetch_chunks (view dfs) p length i n).
Proof.
  intros (_ & Hv & HS). revert i. induction n as [|n IH]; intros i; cbn [fetch_chunks]; [by split; [left|]|].
  assert (∀ c, chunk_at v p length i c = chunk_at (view dfs) p length i c) as Ec.
  { intros c. unfold chunk_at. by rewrite HS, view_chunk_size. }
  destruct (IH (i + 1)) as [IH1 IH2]. split.
  - destruct (Hv p i) as [->|[e ->]]; [|right; by eexists].
    destruct (GetChunkHandle (view dfs) p i) as [c|e]; [|right; by eexists].
    destruct IH1 as [->|[e ->]]; [left|right; by eexists]. by rewrite Ec.
  - intros Hsame. rewrite Hsame, IH2 by done. destruct (GetChunkHandle _ _ _); [|done]. by rewrite Ec.
Qed.

(** What the master fetches for an uploaded handle is right, or an error; it is
    no error when the DFS answers. *)
Lemma fetch_right v dfs m h data :
  deployment_ok → files_fit dfs → seen_by_master v dfs → TrimSpace (fsServerAddress m) ≠ "" →
  Coordinator.dfs_content dfs (content_path h) = Some data →
  is_Some (Coordinator.dfs_content dfs (metadata_path h)) →
  (∀ file, fetchFileMetadataFromDFS v (uploadPrefix dep) m h = Ok file → metadata_right h data file) ∧
  ((∀ p, GetFile v p = GetFile (view dfs) p) →
   (∀ p i, GetChunkHandle v p i = GetChunkHandle (view dfs) p i) →
   ∃ file, fetchFileMetadataFromDFS v (uploadPrefix dep) m h = Ok file).
Proof.
  intros Hdep Hfit Hv Hfs Hc [meta Hm]. destruct (dep_prefix Hdep) as (prefix & prefixes & Hp & Hprefix).
  pose proof Hv as ([Hfile|Hnone] & _); unfold fetchFileMetadataFromDFS;
    rewrite bool_decide_false by done; cbv zeta; cycle 1.
  { destruct (fetch_unanswered v h ("download_log_" +:+ fmt_d (Id h) +:+ "-" +:+ fmt_d (TimeStamp h))
      (resolveUploadPrefixes (uploadPrefix dep)) None Hnone) as [e E]. rewrite E. split; [done|].
    intros Hf _. destruct (Hnone (content_path h)) as [e' E']. rewrite Hf, (view_file dfs _ _ Hc) in E'. done. }
  rewrite Hp. cbn [try_prefixes]. rewrite (master_base prefix h Hprefix).
  rewrite <- Upload.contentPath_base, <- Upload.remotePath_base. fold (content_path h) (metadata_path h).
  rewrite !Hfile, (view_file dfs _ _ Hc), (view_file dfs _ _ Hm). cbn [Length Chunks].
  destruct (decide (data = [])) as [->|Hd].
  - cbn [length Z.of_nat Z.eqb]. split; [|by eexists]. intros file [= <-]. split; [done|].
    rewrite decide_True by done. exists (Z.of_nat (length meta)). split_and!; [lia|done|done].
  - pose proof (data_positive data Hd) as HL. destruct (chunk_number_bounds data Hd) as [Hb Hpos].
    destruct (view_chunks dfs _ _ Hc) as [handle Hh]. pose proof (Hfit _ _ Hc) as Hmax.
    assert (chunk_count chunk_size (Z.of_nat (length data)) = Z.of_nat (chunk_number data)) as EK.
    { unfold chunk_number in *. lia. }
    rewrite EK in *. rewrite (proj2 (Z.eqb_neq _ 0)) by lia. rewrite (proj2 (Z.leb_gt _ 0)) by lia.
    cbn [orb]. rewrite Nat2Z.id.
    destruct (fetch_chunks_seen v dfs (content_path h) (chunk_number data) (Z.of_nat (length data)) 0 Hv)
      as [Hcase Hsame].
    rewrite (Jobs.fetch_chunks_layout (view dfs) (content_path h) (Z.of_nat (length data)) chunk_size
      (Z.of_nat (chunk_number data)) chunk_size_pos Hb Hmax (view_chunk_size dfs) handle 0)
      in Hcase, Hsame by (done || lia).
    split.
    + destruct Hcase as [->|[e ->]]; [|done]. cbn [mbind res_bind]. intros file [= <-].
      split; [done|]. rewrite decide_False by done. by exists (λ i, handle (0 + Z.of_nat i)).
    + intros _ Hch. rewrite (Hsame Hch). cbn [mbind res_bind]. by eexists.
Qed.

(** ** Tasks *)

(** A request of a job on the handle. *)
Definition request_right h data (q : MapReduceRequest) : Prop :=
  mr_Handle q = h ∧ fm_RawContent (mr_File q) = [] ∧
  if decide (data = []) then
    ∃ n, 0 <= n ∧ fm_SizeBytes (mr_File q) = n ∧ mr_ChunkInfo q = MkChunk 0 0 n (metadata_path h) 0
  else ∃ i c, (i < chunk_number data)%nat ∧ mr_ChunkIndex q = Z.of_nat i ∧
         mr_ChunkInfo q = chunk_of h data i c.

Lemma metadata_request h data file i ci :
  metadata_right h data file → fm_Chunks file !! i = Some ci →
  request_right h data (MkMRRequest h file (Z.of_nat i) ci).
Proof.
  intros [Hraw Hc] Hi. split_and!; [done|done|]. case_decide.
  - destruct Hc as (n & Hn & Hs & E). rewrite E in Hi. exists n.
    destruct i; [|done]. injection Hi as <-. done.
  - destruct Hc as [handle E]. rewrite E, list_lookup_fmap in Hi.
    destruct (seq 0 (chunk_number data) !! i) as [j|] eqn:Ej; [|done].
    apply lookup_seq in Ej as [-> Hlt]. injection Hi as <-. exists i, (handle i). done.
Qed.

(** Reading for a request ends without a panic, and what it reads of a content
    file is the piece. *)
Lemma request_reads dfs run w h data q :
  deployment_ok → TrimSpace (Worker.fsServerAddr w) ≠ "" → request_right h data q →
  Coordinator.dfs_content dfs (content_path h) = Some data →
  is_Some (Coordinator.dfs_content dfs (metadata_path h)) →
  ∃ r, Worker.readChunkData (dfs_reads run dfs) (run_cancelled run) w q = Ret r ∧
    (data ≠ [] → ∀ bytes, r = Ok bytes → ∃ i, (i < chunk_number data)%nat ∧
       mr_ChunkIndex q = Z.of_nat i ∧ bytes = piece data i) ∧
    (data ≠ [] → run_dfs_fails run = false → run_cancelled run = false → ∃ bytes, r = Ok bytes).
Proof.
  intros Hdep Hw (Hh & Hraw & Hq) Hc [meta Hm].
  assert (∃ file, Jobs.reads (view_read dfs) (TrimSpace (Path (mr_ChunkInfo q))) file ∧
    TrimSpace (Path (mr_ChunkInfo q)) ≠ "" ∧ 0 <= Offset (mr_ChunkInfo q) ∧
    (0 < Size (mr_ChunkInfo q) ∨ Size (mr_ChunkInfo q) = 0 ∧ Offset (mr_ChunkInfo q) = 0 ∧
       fm_SizeBytes (mr_File q) = 0) ∧
    (data ≠ [] → file = data ∧ 0 < Size (mr_ChunkInfo q) ∧ ∃ i, (i < chunk_number data)%nat ∧
       mr_ChunkIndex q = Z.of_nat i ∧
       take (Z.to_nat (Size (mr_ChunkInfo q))) (drop (Z.to_nat (Offset (mr_ChunkInfo q))) data) =
         piece data i)) as (file & Hread & Hpath & Hoff & Hsize & Hpiece).
  { pose proof chunk_size_pos as HS. case_decide as Hd.
    - destruct Hq as (n & Hn & Hs & ->). cbn [Path Offset Size]. rewrite (dep_metadata_path Hdep). exists meta.
      split_and!; [by apply view_reads|apply metadata_path_not_empty|done|lia|done].
    - destruct Hq as (i & c & Hi & Hidx & ->). unfold chunk_of, Jobs.layout. cbn [Path Offset Size]. rewrite (dep_content_path Hdep). exists data.
      destruct (chunk_number_bounds data Hd) as [Hb _].
      assert (0 < Z.min chunk_size (Z.of_nat (length data) - Z.of_nat i * chunk_size)) by nia.
      split_and!; [by apply view_reads|apply content_path_not_empty|nia|by left|].
      intros _. split_and!; [done|done|]. by exists i. }
  unfold Worker.readChunkData. rewrite Hraw. cbn [length Z.of_nat Z.ltb Z.compare].
  rewrite (bool_decide_false _ Hw). cbv zeta. rewrite !(bool_decide_false _ Hpath).
  set (readSize := if Size (mr_ChunkInfo q) <=? 0 then _ else _).
  assert (0 < readSize ∧ (0 < Size (mr_ChunkInfo q) → readSize = Size (mr_ChunkInfo q))) as [Hrs HrsE].
  { unfold readSize. destruct (Z.leb_spec (Size (mr_ChunkInfo q)) 0) as [Hle|]; [|lia].
    destruct Hsize as [|(_ & -> & ->)]; [lia|]. cbn. split; [done|lia]. }
  destruct (run_cancelled run); [by eexists|].
  rewrite (proj2 (Z.ltb_ge readSize 0)) by lia. unfold dfs_reads.
  destruct (run_dfs_fails run); [by eexists|].
  destruct (Hread _ _ Hoff Hrs) as (En & Eb & Hlen & Herr). set (r := view_read dfs _ _ _) in *.
  set (bytes := take (Z.to_nat readSize) (drop _ file)) in *.
  assert (∃ x, (match Worker.read_err r with
    | Some (Worker.DfsFailed e) => Ret (Err e)
    | _ => if Worker.read_n r <? 0 then Ret (Err (ErrMsg ("invalid bytes read: " +:+ fmt_d (Worker.read_n r))))
           else if Worker.read_n r =? 0 then Ret (Ok [])
           else data ← Worker.slice (Worker.read_buffer r) 0 (Worker.read_n r); Ret (Ok data)
    end) = Ret (Ok x) ∧ x = bytes) as (x & -> & ->).
  { rewrite (proj2 (Z.ltb_ge (Worker.read_n r) 0)) by lia.
    assert (Worker.slice (Worker.read_buffer r) 0 (Worker.read_n r) = Ret bytes) as Hs.
    { rewrite MapReduce.slice_ok by lia. rewrite Z.sub_0_r, En, Nat2Z.id. by rewrite drop_0, Eb. }
    rewrite Hs. destruct (Z.eqb_spec (Worker.read_n r) 0).
    - assert (bytes = []) as -> by (destruct bytes; cbn in *; [done|lia]).
      destruct Herr as [-> | ->]; by eexists.
    - destruct Herr as [-> | ->]; by eexists. }
  eexists. split_and!; [done| |by eexists].
  intros Hd b [= <-]. destruct (Hpiece Hd) as (-> & Hpos & i & Hi & Hidx & E). exists i.
  split_and!; [done|done|]. rewrite <- E. unfold bytes. by rewrite HrsE.
Qed.

End chunks.

(** ** Property *)

(** C26: without its content the metadata is processed instead. When the DFS
    does not answer for the content file of a handle, whatever the reason, or the
    file is empty, but answers for the metadata file beside it, the master starts a
    job of one task over the JSON text of the metadata: what a client gets is a
    reduction of bytes nobody sent. *)
Theorem missing_content_uses_metadata (v : DFS) (env prefix : string) (prefixes : list string)
    (probe : string → option string) (call : string → MapReduceRequest → res MapReduceReply)
    (h : Handle) (m : Master) (info : FileInfo) (addr : string) (addrs : list string) :
  TrimSpace (fsServerAddress m) ≠ "" → workerAddresses m = addr :: addrs →
  resolveUploadPrefixes env = prefix :: prefixes →
  let base := TrimRight prefix ["/"%char] +:+ "/" +:+
    ("download_log_" +:+ fmt_d (Id h) +:+ "-" +:+ fmt_d (TimeStamp h)) in
  (∀ info', GetFile v (base +:+ ".content") = Ok (Some info') → Length info' = 0) →
  GetFile v (base +:+ ".json") = Ok (Some info) →
  ∃ reply file m', RPCStartMapReduce v env probe call (λ _, false) [0%nat] (MkStart h "") m =
    Ret (reply, [(addr, MkMRRequest h file 0 (MkChunk 0 0 (Length info) (base +:+ ".json") 0))], m').
Proof.
  cbv zeta. intros Hfs Hw Hp Hcontent Hjson.
  set (base := TrimRight prefix ["/"%char] +:+ "/" +:+ _) in *.
  set (c := MkChunk 0 0 (Length info) (base +:+ ".json") 0).
  assert (∃ file, fetchFileMetadataFromDFS v env m h = Ok file ∧ fm_Chunks file = [c])
    as (file & Ef & Ec).
  { unfold fetchFileMetadataFromDFS. rewrite bool_decide_false, Hp by done. cbn [try_prefixes].
    fold base. rewrite Hjson.
    destruct (GetFile v (base +:+ ".content")) as [[info'|]|e] eqn:E; [|by eexists..].
    rewrite (proj2 (Z.eqb_eq _ _) (Hcontent info' eq_refl)). by eexists. }
  rewrite (Jobs.start_dispatches v env probe call [0%nat] (MkStart h "") m file);
    [|done|by rewrite Ec|by rewrite Hw|done].
  destruct (Jobs.dispatch_job_spec call [0%nat] (workerAddresses m) h file m)
    as (reply & m' & E & _); [by rewrite Hw|by rewrite Ec|].
  exists reply, file, m'. cbn [sr_Handle]. rewrite E. unfold Jobs.job_requests. rewrite Ec, Hw.
  cbn [imap]. unfold Jobs.assigned. by rewrite Nat.Div0.mod_0_l.
Qed.

(** ** Witness *)

(** A DFS that answers for metadata files only. *)
Definition flaky_dfs : DFS :=
  MkDFS (λ p, if HasSuffix p ".content" then Err (ErrMsg "i/o timeout") else Ok (Some (MkInfo 7 1)))
    (λ _ i, Ok i) 2.

Lemma missing_content_uses_metadata_witness :
  ∃ reply file m', RPCStartMapReduce flaky_dfs "" (λ _, None)
      (λ _ request, Ok (Worker.RPCMapReduce request)) (λ _, false) [0%nat]
      (MkStart Jobs.example_handle "") Jobs.example_master =
    Ret (reply, [("w1:1", MkMRRequest Jobs.example_handle file 0
      (MkChunk 0 0 7 "/mapreduce/download_log_1-50.json" 0))], m').
Proof.
  apply (missing_content_uses_metadata flaky_dfs "" "/mapreduce" ["/mapreduce/download_logs"]
    (λ _, None) (λ _ request, Ok (Worker.RPCMapReduce request)) Jobs.example_handle
    Jobs.example_master (MkInfo 7 1) "w1:1" ["w2:1"]); [done|by vm_compute..| |by vm_compute].
  intros info' E. vm_compute in E. discriminate E.
Defined.

End Chunks.
