(* ===== verification/Results.v ===== *)
(** The master's invariant against the files in the DFS: every task it hands
    out, every result it holds, every job it counts and every file it has written
    belongs to an uploaded handle and is right for that handle's data. *)

From S2P Require Import Prelude GoStrings Ring Json Codec Types Durable.
From S2P Require Import WritePath Registry Recovery Worker MapReduce Master Jobs.
From S2P Require Import Coordinator Upload System Lifecycle Network Chunks TaskFaults.
From stdpp Require Import options.

#[local] Arguments String.append !_ _ / : simpl nomatch.

Module Results.
Import GoStrings Codec Types Master Jobs System Network Chunks.

(** ** Counting *)

(** A strictly increasing list of [n] or more numbers below [n] has them all. *)
Lemma sorted_below_complete (l : list Z) (n : nat) :
  StronglySorted Z.lt l → Forall (λ x, 0 <= x < Z.of_nat n) l → (n ≤ length l)%nat →
  l = Z.of_nat <$> seq 0 n.
Proof.
  intros Hs Hr Hl.
  assert (∀ m k, StronglySorted Z.lt (Z.of_nat <$> seq k m)) as Hseq.
  { intros m. induction m as [|m IH]; intros k; cbn; constructor; [apply IH|].
    apply Forall_fmap, Forall_forall. intros i Hi%elem_of_seq. cbn. lia. }
  assert (∀ l, StronglySorted Z.lt l → NoDup l) as Hnd.
  { clear. induction 1 as [|x l Hs IH Hx]; constructor; [|done]. intros Hin.
    rewrite Forall_forall in Hx. specialize (Hx x Hin). lia. }
  apply (StronglySorted_unique_strong Z.lt); [intros; lia|done|apply Hseq|].
  apply submseteq_length_Permutation.
  - apply NoDup_submseteq; [auto|]. intros x Hx. rewrite Forall_forall in Hr.
    apply list_elem_of_fmap. exists (Z.to_nat x). specialize (Hr x Hx).
    rewrite elem_of_seq. split; lia.
  - by rewrite length_fmap, length_seq.
Qed.

(** Outputs that are determined by the indices come in their order. *)
Lemma outputs_in_order (f : nat → string) (l : list chunkResult) k n :
  Forall (λ c, ∃ i, cr_ChunkIndex c = Z.of_nat i ∧ cr_OutputData c = f i) l →
  cr_ChunkIndex <$> l = Z.of_nat <$> seq k n → cr_OutputData <$> l = f <$> seq k n.
Proof.
  intros Hall. revert k n. induction Hall as [|c l (i & Ei & Eo) _ IH]; intros k [|n]; cbn; try done.
  intros [= Ek El]. f_equal; [|by apply IH]. rewrite Eo. f_equal. lia.
Qed.

Section results.
Context `{MapOrder} `{SortSlice} `{DFSReader D} (dep : Deployment).
Context (mapf : string → string → list KeyValue) (reducef : string → list string → string).
Implicit Types (dfs : D) (h : Handle) (data : list byte) (m : Master).

(** The output of the [i]-th chunk. *)
Definition chunk_output h data (i : nat) : string :=
  piece_output mapf reducef (content_path dep h) (piece data i).

Definition result_output h data (r : MapReduceResultRequest) : Prop :=
  data ≠ [] → ∃ i, (i < chunk_number data)%nat ∧ rr_ChunkIndex r = Z.of_nat i ∧
    rr_OutputData r = chunk_output h data i.

(** One result for every chunk of the file, in order, each the reduction of its
    piece. *)
Definition collated h data (chunks : list chunkResult) : Prop :=
  data ≠ [] → cr_ChunkIndex <$> chunks = Z.of_nat <$> seq 0 (chunk_number data) ∧
    cr_OutputData <$> chunks =
      piece_output mapf reducef (content_path dep h) <$> pieces data.

Lemma collated_complete h data (chunks : list chunkResult) :
  NoDup (cr_ChunkIndex <$> chunks) →
  Forall (λ c, ∃ r, c = chunkResult_of r ∧ result_output h data r) chunks →
  (chunk_number data ≤ length chunks)%nat →
  collated h data (sort_slice chunk_le chunks).
Proof.
  intros Hnd Hall Hlen Hd.
  assert (StronglySorted chunk_le (sort_slice chunk_le chunks)) as Hsort
    by (apply sort_slice_sorted; apply _).
  apply Jobs.sorted_strict in Hsort; [|by rewrite sort_slice_perm].
  rewrite <- (sort_slice_perm chunk_le chunks) in Hall, Hlen.
  set (l := sort_slice chunk_le chunks) in *. clearbody l.
  assert (Forall (λ c, ∃ i, (i < chunk_number data)%nat ∧ cr_ChunkIndex c = Z.of_nat i ∧
    cr_OutputData c = chunk_output h data i) l) as Hall'.
  { eapply Forall_impl; [exact Hall|]. intros c (r & -> & Hr). destruct (Hr Hd) as (i & Hi & E1 & E2).
    exists i. done. }
  assert (cr_ChunkIndex <$> l = Z.of_nat <$> seq 0 (chunk_number data)) as E.
  { apply sorted_below_complete.
    - clear - Hsort. induction Hsort as [|c l Hs IH Hc]; cbn; constructor; [done|].
      apply Forall_fmap. eapply Forall_impl; [exact Hc|]. done.
    - apply Forall_fmap. eapply Forall_impl; [exact Hall'|]. intros c (i & Hi & E & _). cbn. lia.
    - by rewrite length_fmap. }
  split; [done|]. unfold pieces. rewrite <- list_fmap_compose.
  apply (outputs_in_order (chunk_output h data)); [|done]. eapply Forall_impl; [exact Hall'|].
  intros c (i & _ & Ei & Eo). by exists i.
Qed.

(** ** The invariant

    [stored h data] says that [h] has been uploaded with [data]. *)

Context (stored : Handle → list byte → Prop).

Definition task_right (q : task) : Prop :=
  ∃ h data, stored h data ∧ request_right dep h data q.2.
Definition result_right (r : MapReduceResultRequest) : Prop :=
  ∃ data, stored (rr_Handle r) data ∧ result_output (rr_Handle r) data r.
Definition job_right (id n : Z) : Prop :=
  ∃ h data, stored h data ∧ Id h = id ∧ (data ≠ [] → n = Z.of_nat (chunk_number data)).
Definition file_right (name text : string) : Prop :=
  ∃ h data chunks now, stored h data ∧ name = resultFileName (Id h) ∧ collated h data chunks ∧
    text = Json.print_indent 0 (collated_json h chunks now) +:+ Json.nl.

Record master_ok m : Prop := {
  ok_keys : Jobs.results_ok m;
  ok_results k r : results m !! k = Some r → result_right r;
  ok_jobs id n : jobs m !! id = Some n → job_right id n;
  ok_files name text : resultDir m !! name = Some text → file_right name text;
  ok_dfs_address : fsServerAddress m = Worker.envOrDefault (dfsEnv dep) "localhost:8089";
  ok_workers : workerAddresses m =
    parseWorkerAddresses (Worker.envOrDefault (workersEnv dep) "")
}.

(** An id belongs to one handle, a handle to one file. *)
Hypothesis stored_unique : ∀ h h' data data',
  stored h data → stored h' data' → Id h = Id h' → h = h' ∧ data = data'.

(** *** Start of a job *)

Lemma dispatch_all_requests call cancelled targets h file k chunks :
  targets ≠ [] →
  ∃ rs, dispatch_all call cancelled targets h file k chunks = Ret rs ∧
    length rs = length chunks ∧
    Forall (λ x : report, ∀ q, x.1 = Some q → ∃ i ci, chunks !! i = Some ci ∧
       q.2 = MkMRRequest h file (Z.of_nat (k + i)) ci) rs.
Proof.
  intros Ht. revert k. induction chunks as [|ci chunks IH]; intros k; cbn [dispatch_all].
  { exists []. by split_and!. }
  destruct (IH (S k)) as (rs & E & Hlen & Hrs).
  assert (∃ x, dispatch_chunk call cancelled targets h file k ci = Ret x ∧
    ∀ q, x.1 = Some q → q.2 = MkMRRequest h file (Z.of_nat k) ci) as (x & -> & Hx).
  { unfold dispatch_chunk. destruct (cancelled k); [by eexists|].
    destruct (lookup_lt_is_Some_2 targets (k `mod` length targets)) as [addr Ha].
    { apply Nat.mod_upper_bound. by destruct targets. }
    unfold index. rewrite bool_decide_eq_true_2 by lia. rewrite Nat2Z.id, Ha.
    cbn [mbind outcome_bind]. eexists. split; [done|]. intros q [= <-]. done. }
  cbn [mbind outcome_bind]. rewrite E. cbn [mbind outcome_bind]. eexists. split; [done|].
  split; [cbn; by rewrite Hlen|]. constructor.
  - intros q Hq. exists 0%nat, ci. rewrite Nat.add_0_r. auto.
  - eapply Forall_impl; [exact Hrs|]. intros y Hy q Hq. destruct (Hy q Hq) as (i & c & Hi & Eq).
    exists (S i), c. split; [done|]. rewrite Eq. f_equal. lia.
Qed.

Lemma master_ok_jobs m j :
  master_ok m → (∀ id n, j !! id = Some n → job_right id n) → master_ok (set_jobs j m).
Proof. intros [] Hj. by split. Qed.

Lemma begin_ok call cancelled targets h data file m :
  master_ok m → stored h data → targets ≠ [] → metadata_right dep h data file →
  ∃ total rs m', begin_dispatch call cancelled targets h file m = Ret (inr (total, rs), m') ∧
    master_ok m' ∧ Forall task_right (omap fst rs).
Proof.
  intros Hm Hst Ht Hfile. unfold begin_dispatch.
  destruct (dispatch_all_requests call cancelled targets h file 0 (fm_Chunks file) Ht)
    as (rs & -> & _ & Hrs). eexists _, rs, _. split_and!; [done| |].
  - apply master_ok_jobs; [done|]. intros id n. destruct (decide (Id h = id)) as [<-|Hne].
    + rewrite lookup_insert_eq. intros [= <-]. exists h, data. split_and!; [done|done|].
      intros Hd. destruct Hfile as [_ Hc]. rewrite decide_False in Hc by done.
      destruct Hc as [handle ->]. by rewrite length_fmap, length_seq.
    + rewrite lookup_insert_ne by done. apply (ok_jobs _ Hm).
  - apply Forall_forall. intros q Hq. apply list_elem_of_omap in Hq as (x & Hx & Ex).
    rewrite Forall_forall in Hrs. destruct (Hrs x Hx q Ex) as (i & ci & Hi & E).
    exists h, data. split; [done|]. rewrite E. by apply metadata_request.
Qed.

Lemma start_ok v dfs probe call cancelled plugin h data m :
  deployment_ok dep mapf reducef → files_fit dfs → seen_by_master v dfs → master_ok m →
  stored h data →
  Coordinator.dfs_content dfs (content_path dep h) = Some data →
  is_Some (Coordinator.dfs_content dfs (metadata_path dep h)) →
  ∃ r m',
    start_job v (uploadPrefix dep) probe call cancelled (MkStart h plugin) m = Ret (r, m') ∧
    master_ok m' ∧
    match r with inl _ => True | inr (_, rs) => Forall task_right (omap fst rs) end.
Proof.
  intros Hdep Hfit Hv Hm Hst Hc Hmeta. unfold start_job. cbn [sr_Handle sr_Plugin].
  destruct (decide (TrimSpace (fsServerAddress m) = "")) as [Hfs|Hfs].
  { unfold fetchFileMetadataFromDFS. rewrite bool_decide_true by done. by eexists _, _. }
  destruct (fetch_right dep mapf reducef v dfs m h data Hdep Hfit Hv Hfs Hc Hmeta) as [Hfile _].
  destruct (fetchFileMetadataFromDFS v (uploadPrefix dep) m h) as [file|e]; [|by eexists _, _].
  specialize (Hfile file eq_refl).
  case_bool_decide; [by eexists _, _|]. case_bool_decide as Hw; [by eexists _, _|].
  case_bool_decide.
  - destruct (begin_ok call cancelled (workerAddresses m) h data file m) as (total & rs & m' & -> & ? & ?);
      [done..|]. by eexists _, _.
  - destruct (getWorkersForPlugin probe (TrimSpace plugin) m) as [targets m1] eqn:Eg.
    assert (master_ok m1) as Hm1.
    { injection Eg as _ <-. by destruct Hm; split. }
    destruct targets as [|t targets]; [by eexists _, _|].
    destruct (begin_ok call cancelled (t :: targets) h data file m1) as (total & rs & m' & -> & ? & ?);
      [done..|]. by eexists _, _.
Qed.

(** The end of a start request may only forget the job. *)
Lemma conclude_ok sched h total rs m :
  master_ok m → master_ok (conclude_dispatch sched h total rs m).2.
Proof.
  intros Hm. unfold conclude_dispatch. case_match; [|by case_match]. apply master_ok_jobs; [done|].
  intros id n [_ Hn]%lookup_delete_Some. by apply (ok_jobs _ Hm).
Qed.

(** *** Submission of a result *)

Lemma store_right r m : master_ok m → result_right r → master_ok (Jobs.store r m).
Proof.
  intros Hm Hr. split; [apply Jobs.store_ok, Hm| |apply Hm..].
  intros k r'. cbn. rewrite lookup_insert_Some. intros [[_ <-]|[_ E]]; [done|]. by eapply ok_results.
Qed.

Lemma submit_locked_cases r m :
  master_ok m →
  submit_locked r m = (NotTracked, Jobs.store r m) ∨
  (∃ k n, submit_locked r m = (Waiting k n, Jobs.store r m)) ∨
  (∃ n, jobs m !! Id (rr_Handle r) = Some n ∧
     n <= Z.of_nat (length (collect (Id (rr_Handle r)) (Jobs.store r m))) ∧
     submit_locked r m =
       (Complete (collect (Id (rr_Handle r)) (Jobs.store r m)), Jobs.store r m)).
Proof.
  intros Hm. unfold submit_locked. fold (Jobs.store r m). cbv zeta.
  destruct (jobs (Jobs.store r m) !! Id (rr_Handle r)) as [n|] eqn:E; [|by left].
  destruct (Z.ltb_spec (Z.of_nat (length (collect (Id (rr_Handle r)) (Jobs.store r m)))) n);
    [right; left; by eexists _, _|]. right; right. by exists n.
Qed.

Lemma collected_right r m :
  master_ok m → result_right r →
  Forall (λ c, ∃ data r', stored (rr_Handle r) data ∧ c = chunkResult_of r' ∧
    result_output (rr_Handle r) data r') (collect (Id (rr_Handle r)) (Jobs.store r m)).
Proof using All.
  intros Hm Hr. pose proof (store_right r m Hm Hr) as Hm'. apply Forall_forall. intros c Hc.
  apply Jobs.elem_of_collect in Hc as (r' & E & ->); [|apply Hm'].
  destruct (ok_results _ Hm' _ _ E) as (data & Hst & Hout).
  pose proof (ok_keys _ Hm' _ _ E) as Hkey. apply Jobs.resultKey_inj in Hkey as [Hid _].
  destruct Hr as (data0 & Hst0 & _). destruct (stored_unique _ _ _ _ Hst0 Hst Hid) as [-> ->].
  by exists data, r'.
Qed.

Lemma submit_finish_master_ok fl now r chunks m data :
  master_ok m → stored (rr_Handle r) data →
  collated (rr_Handle r) data (sort_slice chunk_le chunks) →
  master_ok (submit_finish fl now r chunks m).2.
Proof.
  intros Hm Hst Hc. unfold submit_finish.
  assert (∀ name text, delete (resultFileName (Id (rr_Handle r)) +:+ ".tmp") (resultDir m) !! name =
    Some text → file_right name text) as Hd.
  { intros name text [_ E]%lookup_delete_Some. by eapply ok_files. }
  destruct (rf_mkdir fl); [done|]. destruct (rf_create fl); [done|].
  destruct (rf_encode fl); [by destruct Hm; split|]. destruct (rf_rename fl); [by destruct Hm; split|].
  cbn [snd]. split; [apply Hm|apply Hm| | |apply Hm..].
  - intros id n. cbn [jobs set_jobs set_resultDir]. intros [_ E]%lookup_delete_Some.
    by eapply ok_jobs.
  - intros name text. cbn [resultDir set_jobs set_resultDir]. rewrite lookup_insert_Some. intros [[<- <-]|[_ E]]; [|by apply Hd].
    by exists (rr_Handle r), data, (sort_slice chunk_le chunks), now.
Qed.

(** The locked section stores the result; what it hands on for collation has
    every chunk. *)
Lemma submit_locked_ok r m :
  master_ok m → result_right r →
  let x := submit_locked r m in
  master_ok x.2 ∧
  ∀ chunks, x.1 = Complete chunks →
    ∃ data, stored (rr_Handle r) data ∧ collated (rr_Handle r) data (sort_slice chunk_le chunks).
Proof using All.
  intros Hm Hr. cbn zeta. pose proof (store_right r m Hm Hr) as Hm'.
  destruct (submit_locked_cases r m Hm) as [-> | [(k & n & ->)|(n & Hn & Hle & ->)]]; [done|done|].
  split; [done|]. intros chunks [= <-]. pose proof (collected_right r m Hm Hr) as Hall.
  destruct Hr as (data & Hst & _). exists data. split; [done|].
  destruct (decide (data = [])) as [->|Hd]; [by intros []|].
  apply collated_complete.
  - apply Jobs.NoDup_collect, Hm'.
  - eapply Forall_impl; [exact Hall|]. intros c (data' & r' & Hst' & -> & Hr').
    destruct (stored_unique _ _ _ _ Hst Hst' eq_refl) as [_ ->]. by exists r'.
  - destruct (ok_jobs _ Hm _ _ Hn) as (h' & data' & Hst' & Hid & HK).
    destruct (stored_unique _ _ _ _ Hst Hst' (eq_sym Hid)) as [_ <-]. specialize (HK Hd). lia.
Qed.

Lemma new_master_ok dir :
  (∀ name text, dir !! name = Some text → file_right name text) →
  master_ok (NewMaster (workersEnv dep) (dfsEnv dep) (coordinatorEnv dep) dir).
Proof. intros Hdir. by split; [apply map_Forall_empty|..]. Qed.

(** *** A task *)

Lemma task_submission fl dfs run sched now q d h data :
  deployment_ok dep mapf reducef → stored h data → request_right dep h data q.2 →
  MapReduce.schedule (Worker.nReduce (worker dep q.1)) sched →
  Coordinator.dfs_content dfs (content_path dep h) = Some data →
  is_Some (Coordinator.dfs_content dfs (metadata_path dep h)) →
  ∃ s d', Worker.process_chunk fl (dfs_reads run dfs) (run_cancelled run) sched now
      (worker dep q.1) q.2 d = Ret (s, d') ∧ (∀ r, s = Some r → result_right r).
Proof.
  intros Hdep Hst Hq Hs Hc Hm.
  destruct (dep_worker _ _ _ Hdep q.1) as (Hmf & Hrf & Hn & Hfs & _).
  destruct (request_reads dep mapf reducef dfs run (worker dep q.1) h data q.2 Hdep Hfs Hq Hc Hm)
    as (rd & Hread & Hpiece & _).
  destruct (TaskFaults.task_faults_ok fl (dfs_reads run dfs) (run_cancelled run) sched now
    (worker dep q.1) q.2 rd d Hn Hs) as (s & d' & E & _ & Hsub);
    [rewrite Hrf; apply (dep_reduce _ _ _ Hdep)|done|].
  exists s, d'. split; [done|]. intros r Hr. destruct (Hsub r Hr) as (bytes & -> & ->).
  destruct Hq as (Hh & _ & Hq). exists data. cbn [rr_Handle Worker.submission]. rewrite Hh.
  split; [done|]. intros Hd. destruct (Hpiece Hd bytes eq_refl) as (i & Hi & Hidx & ->).
  exists i. split_and!; [done|done|]. rewrite decide_False in Hq by done.
  destruct Hq as (j & c & _ & _ & Hci). cbn [rr_OutputData Worker.submission].
  unfold chunk_output, piece_output, MapReduce.map_output. by rewrite Hmf, Hrf, Hci.
Qed.

End results.

(** The invariant only depends on which files are stored. *)
Lemma master_ok_mono `{DFSReader D} dep mapf reducef
    (stored stored' : Handle → list byte → Prop) m :
  (∀ h data, stored h data → stored' h data) →
  master_ok dep mapf reducef stored m → master_ok dep mapf reducef stored' m.
Proof.
  intros Hmono [Hk Hr Hj Hf Hd Hw]. split; [done|..|done|done].
  - intros k r E. destruct (Hr k r E) as (data & Hs & Ho). exists data. auto.
  - intros id n E. destruct (Hj id n E) as (h & data & Hs & Ho). exists h, data. auto.
  - intros name text E. destruct (Hf name text E) as (h & data & chunks & now & Hs & Ho).
    exists h, data, chunks, now. auto.
Qed.

End Results.
