(* ===== verification/NetworkInv.v ===== *)
(** The invariant of the whole system and its preservation by every event,
    which also shows that no handler panics. *)

From S2P Require Import Prelude GoStrings Ring Json Codec Types Durable.
From S2P Require Import WritePath Registry Recovery Worker MapReduce Master Jobs.
From S2P Require Import Coordinator Upload System Lifecycle Network Frames Chunks Results.
From stdpp Require Import functions list.
From stdpp Require Import options.

#[local] Open Scope Z_scope.
#[local] Arguments String.append !_ _ / : simpl nomatch.

Module NetworkInv.
Import GoStrings Codec Types Master System Network Chunks Results Frames.

Section invariant.
Context `{MapOrder} `{SortSlice} `{DFSReader D} (dep : Deployment) (spin : nat).
Context (mapf : string → string → list KeyValue) (reducef : string → list string → string).
Implicit Types (w : World D) (h : Handle) (data : list byte).

Definition durable w : Durable.DurableBuffer := Coordinator.durableLog (coordinator w).

(** [h] has been uploaded with [data]: nobody writes to it any more, it is no
    longer registered as received, so that no upload touches its files. *)
Definition stored w h data : Prop :=
  (∃ st, clients w !! h = Some st ∧ closed st = true) ∧
  Durable.handles (durable w) !! h = None ∧
  Coordinator.dfs_content (storage w) (content_path dep h) = Some data ∧
  is_Some (Coordinator.dfs_content (storage w) (metadata_path dep h)).

(** The coordinator: the ring represents a queue; handles have been given out by
    the counter, each id once; what is registered belongs to a client, a completed
    handle to one that has stopped; what is registered as uploaded is stored. *)
Record coordinator_ok w : Prop := {
  ok_ring : ∃ q, Ring.ring_repr (Durable.log (durable w)) q;
  ok_next : 0 <= Durable.nextHandle (durable w);
  ok_clients h : is_Some (clients w !! h) →
    handle_ok h ∧ 1 <= Id h <= Durable.nextHandle (durable w);
  ok_unique h h' : is_Some (clients w !! h) → is_Some (clients w !! h') → Id h = Id h' → h = h';
  ok_handles h b : Durable.handles (durable w) !! h = Some b →
    ∃ st, clients w !! h = Some st ∧ (b = true → closed st = true);
  ok_uploaded h : is_Some (Durable.uploadedHandles (durable w) !! h) → ∃ data, stored w h data;
  ok_master_address : Coordinator.masterAddress (coordinator w) =
    Worker.envOrDefault (masterEnv dep) Coordinator.defaultMasterAddress
}.

(** What an upload still has to do and what it has done are different handles, all
    registered as completed; those done have their files. *)
Definition uploader_ok w : Prop :=
  match uploader (goroutines w) with
  | Uploading todo uploaded =>
      NoDup (todo ++ uploaded) ∧
      Forall (λ h, Durable.handles (durable w) !! h = Some true) (todo ++ uploaded) ∧
      Forall (has_files (uploadPrefix dep) (storage w)) uploaded
  | _ => True
  end.

Definition claim_right w (x : string * Handle) : Prop := ∃ data, stored w x.2 data.
Definition collation_right w (x : MapReduceResultRequest * list chunkResult) : Prop :=
  ∃ data, stored w (rr_Handle x.1) data ∧
    collated dep mapf reducef (rr_Handle x.1) data (sort_slice chunk_le x.2).

(** The system: also, handles claimed, tasks, submissions and collations under
    way and everything the master holds are right for the stored files. *)
Record world_ok w : Prop := {
  ok_coordinator : coordinator_ok w;
  ok_uploader : uploader_ok w;
  ok_claimed : Forall (claim_right w) (claimed (goroutines w));
  ok_master : master_ok dep mapf reducef (stored w) (master w);
  ok_tasks : Forall (task_right dep (stored w)) (tasks w);
  ok_submissions : Forall (result_right dep mapf reducef (stored w)) (submissions w);
  ok_collations : Forall (collation_right w) (collations w)
}.

Lemma stored_unique w h h' data data' :
  coordinator_ok w → stored w h data → stored w h' data' → Id h = Id h' → h = h' ∧ data = data'.
Proof.
  intros Hc ((st & Hst & _) & _ & E & _) ((st' & Hst' & _) & _ & E' & _) Hid.
  assert (h = h') as -> by (apply (ok_unique _ Hc); [by eexists|by eexists|done]).
  rewrite E in E'. by injection E'.
Qed.

(** ** Stored files stay as they are *)

Definition keeps w w' : Prop := ∀ h data, stored w h data → stored w' h data.

#[export] Instance keeps_preorder : PreOrder keeps.
Proof. split; [by intros w h data|intros w1 w2 w3 H12 H23 h data Hs; auto]. Qed.

Lemma task_right_mono w w' q : keeps w w' → task_right dep (stored w) q → task_right dep (stored w') q.
Proof. intros Hk (h & data & Hs & Hq). exists h, data. auto. Qed.
Lemma result_right_mono w w' r :
  keeps w w' → result_right dep mapf reducef (stored w) r → result_right dep mapf reducef (stored w') r.
Proof. intros Hk (data & Hs & Hq). exists data. auto. Qed.

Lemma collation_right_mono w w' x : keeps w w' → collation_right w x → collation_right w' x.
Proof. intros Hk (data & Hs & Hc). exists data. auto. Qed.
Lemma claim_right_mono w w' x : keeps w w' → claim_right w x → claim_right w' x.
Proof. intros Hk (data & Hs). exists data. auto. Qed.

(** After a step, everything that was there before is still right. *)
Lemma world_ok_step w w' :
  world_ok w → keeps w w' → coordinator_ok w' → uploader_ok w' →
  (∀ x, x ∈ claimed (goroutines w') → x ∈ claimed (goroutines w) ∨ claim_right w x) →
  (master_ok dep mapf reducef (stored w') (master w) → master_ok dep mapf reducef (stored w') (master w')) →
  (∀ q, q ∈ tasks w' → q ∈ tasks w ∨ task_right dep (stored w) q) →
  (∀ r, r ∈ submissions w' → r ∈ submissions w ∨ result_right dep mapf reducef (stored w) r) →
  (∀ x, x ∈ collations w' → x ∈ collations w ∨ collation_right w x) →
  world_ok w'.
Proof.
  intros [Hc Hu Hcl Hm Ht Hs Hco] Hk Hc' Hu' Hcl' Hm' Ht' Hs' Hco'.
  rewrite Forall_forall in Hcl. rewrite Forall_forall in Ht. rewrite Forall_forall in Hs.
  rewrite Forall_forall in Hco. split; [done|done|..]; rewrite ?Forall_forall.
  - intros x Hx%Hcl'. eapply claim_right_mono; [exact Hk|]. destruct Hx; auto.
  - apply Hm'. by eapply master_ok_mono.
  - intros q Hq%Ht'. eapply task_right_mono; [exact Hk|]. destruct Hq; auto.
  - intros r Hr%Hs'. eapply result_right_mono; [exact Hk|]. destruct Hr; auto.
  - intros x Hx%Hco'. eapply collation_right_mono; [exact Hk|]. destruct Hx; auto.
Qed.

(** A step of the coordinator, which touches nothing else. *)
Lemma world_ok_coordinator w w' :
  world_ok w → keeps w w' → coordinator_ok w' → uploader_ok w' →
  claimed (goroutines w') = claimed (goroutines w) →
  master w' = master w → tasks w' = tasks w → submissions w' = submissions w →
  collations w' = collations w → world_ok w'.
Proof.
  intros Hw Hk Hc' Hu' Ecl Em Et Es Eco.
  apply (world_ok_step w); rewrite ?Ecl, ?Em, ?Et, ?Es, ?Eco; auto.
Qed.

(** The uploader is undisturbed as long as completed handles stay registered and
    files stay. *)
Lemma uploader_ok_mono w w' :
  uploader (goroutines w') = uploader (goroutines w) →
  (∀ h, Durable.handles (durable w) !! h = Some true → Durable.handles (durable w') !! h = Some true) →
  storage w' = storage w → uploader_ok w → uploader_ok w'.
Proof.
  unfold uploader_ok. intros -> Hh ->. destruct (uploader (goroutines w)); try done.
  intros (Hnd & Hc & Hf). split_and!; [done| |done]. eapply Forall_impl; [exact Hc|]. auto.
Qed.

(** A step that leaves clients, coordinator and DFS alone keeps everything
    stored. *)
Lemma keeps_same w w' :
  clients w' = clients w → coordinator w' = coordinator w → storage w' = storage w → keeps w w'.
Proof. unfold keeps, stored, durable. by intros -> -> ->. Qed.

Lemma coordinator_ok_same w w' :
  clients w' = clients w → coordinator w' = coordinator w → storage w' = storage w →
  coordinator_ok w → coordinator_ok w'.
Proof.
  intros Ec Eo Es [Hr Hn Hcl Hu Hh Hup Ha]. unfold durable in *.
  split; unfold durable; rewrite ?Ec, ?Eo; try done.
  intros h Hs. destruct (Hup h Hs) as [data Hst]. exists data. by eapply keeps_same.
Qed.

Definition event_ok (e : event) w : Prop :=
  ∃ w', handle_event dep (S spin) e w = Ret w' ∧ world_ok w' ∧ keeps w w'.

(** A step of the coordinator that changes only its ring, its log directory and
    its leases and may forget uploaded handles. *)
Lemma coordinator_frame w w' :
  coordinator_ok w → clients w' = clients w → storage w' = storage w →
  Coordinator.masterAddress (coordinator w') = Coordinator.masterAddress (coordinator w) →
  frame (durable w) (durable w') → (∃ q, Ring.ring_repr (Durable.log (durable w')) q) →
  Durable.handles (durable w') = Durable.handles (durable w) →
  (∀ h, is_Some (Durable.uploadedHandles (durable w') !! h) →
        is_Some (Durable.uploadedHandles (durable w) !! h)) →
  coordinator_ok w' ∧ keeps w w'.
Proof.
  intros [Hr Hn Hcl Hu Hh Hup Ha] Ec Es Ea Hf Hr' Hh' Hup'.
  assert (keeps w w') as Hk.
  { intros h data. unfold stored. by rewrite Ec, Es, Hh'. }
  split; [|done]. split; rewrite ?Ec; try done.
  - by rewrite (frame_nextHandle _ _ Hf).
  - rewrite (frame_nextHandle _ _ Hf). done.
  - rewrite Hh'. done.
  - intros h Hs%Hup'. destruct (Hup h Hs) as [data Hst]. exists data. by apply Hk.
  - by rewrite Ea.
Qed.

(** ... is harmless when the goroutines but for their phases are as before. *)
Lemma durable_step w w' :
  world_ok w → clients w' = clients w → storage w' = storage w →
  Coordinator.masterAddress (coordinator w') = Coordinator.masterAddress (coordinator w) →
  frame (durable w) (durable w') → (∃ q, Ring.ring_repr (Durable.log (durable w')) q) →
  Durable.handles (durable w') = Durable.handles (durable w) →
  (∀ h, is_Some (Durable.uploadedHandles (durable w') !! h) →
        is_Some (Durable.uploadedHandles (durable w) !! h)) →
  (uploader_ok w → uploader_ok w') →
  claimed (goroutines w') = claimed (goroutines w) →
  master w' = master w → tasks w' = tasks w → submissions w' = submissions w →
  collations w' = collations w → world_ok w' ∧ keeps w w'.
Proof.
  intros Hw Ec Es Ea Hf Hr Hh Hup Hu Ecl Em Et Esub Eco.
  destruct (coordinator_frame w w' (ok_coordinator _ Hw) Ec Es Ea Hf Hr Hh Hup) as [Hc Hk].
  split; [|done]. apply (world_ok_coordinator w w'); auto using ok_uploader.
Qed.

(** ** Events of clients *)

(** The handle granted next has a new id. *)
Lemma granted_handle now w :
  coordinator_ok w → allowed dep w (GrantHandle now) →
  let r := Durable.GenerateHandle now (durable w) in
  handle_ok r.1 ∧ Id r.1 = Durable.nextHandle (durable w) + 1 ∧ clients w !! r.1 = None ∧
  Durable.nextHandle r.2 = Id r.1.
Proof.
  intros Hc [Hnow Hid]. fold (durable w) in Hid. pose proof (ok_next _ Hc) as Hn. cbn zeta.
  unfold Durable.GenerateHandle. cbn [fst snd]. rewrite u64_small by lia.
  set (ts := if now <=? Durable.lastTimestamp (durable w) then _ else _). cbn [Id].
  split_and!; [|done| |done].
  - split; cbn; [lia|]. unfold ts. destruct (_ <=? _); [|lia].
    pose proof (i64_range (Durable.lastTimestamp (durable w) + 1)). unfold min_i64, max_i64. lia.
  - apply eq_None_not_Some. intros [_ Hs]%(ok_clients _ Hc). cbn in Hs. lia.
Qed.

Lemma grant_ok now w : world_ok w → allowed dep w (GrantHandle now) → event_ok (GrantHandle now) w.
Proof.
  intros Hw Hg. pose proof (ok_coordinator _ Hw) as Hc. pose proof Hc as [Hr Hn Hcl Hu Hh Hup Ha].
  destruct (granted_handle now w Hc Hg) as (Hhok & Hid & Hfresh & Enext). pose proof (proj2 Hg) as Hmax.
  eexists. split; [done|]. unfold Coordinator.RPCGenerateDownloadHandle. cbn [fst snd hp_Handle].
  fold (durable w) in *. set (h := (Durable.GenerateHandle now (durable w)).1) in *.
  match goal with |- world_ok ?x ∧ _ => set (w' := x) end.
  assert (keeps w w') as Hk.
  { intros h' data ((st & Hst & Hclosed) & Hnone & Hrest). split; [|exact (conj Hnone Hrest)].
    exists st. split; [|done]. cbn [w' clients set_clients]. by rewrite lookup_insert_ne by congruence. }
  split; [|done]. eapply world_ok_coordinator;
    [exact Hw|exact Hk| |by apply (uploader_ok_mono w), Hw|done..].
  split; unfold w', durable;
    cbn [coordinator clients set_coordinator set_clients Coordinator.durableLog Coordinator.set_log];
    fold (durable w) h; rewrite ?Enext.
  - done.
  - lia.
  - intros h' [st Hs]. apply lookup_insert_Some in Hs as [[<- _]|[_ Hs]].
    + split; [done|]. lia.
    + destruct (Hcl h') as [? ?]; [by eexists|]. split; [done|lia].
  - assert (∀ h', is_Some (<[h := MkClient [] false]> (clients w) !! h') →
      h' = h ∨ is_Some (clients w !! h') ∧ Id h' ≠ Id h) as Hcase.
    { intros h' [st Hs]. apply lookup_insert_Some in Hs as [[<- _]|[_ Hs]]; [by left|right].
      assert (is_Some (clients w !! h')) as Hs' by by eexists.
      split; [done|]. apply Hcl in Hs' as [_ ?]. lia. }
    intros h1 h2 [->|[H1' H1'']]%Hcase [->|[H2' H2'']]%Hcase Hid'; [done|congruence|congruence|].
    by apply Hu.
  - intros h' b Hb. destruct (Hh h' b Hb) as (st & Hst & Hb'). exists st. split; [|done].
    by rewrite lookup_insert_ne by congruence.
  - intros h' Hs. destruct (Hup h' Hs) as [data Hst]. exists data. by apply Hk.
  - done.
Qed.

Lemma forward_ok now request lost w :
  world_ok w → allowed dep w (Forward now request lost) → event_ok (Forward now request lost) w.
Proof.
  intros Hw (st & Hst & Hopen). pose proof (ok_coordinator _ Hw) as Hc.
  pose proof Hc as [[q Hr] Hn Hcl Hu Hh Hup Ha]. unfold event_ok. cbn [handle_event].
  unfold Coordinator.RPCForwardDownload. fold (content_of request) (durable w).
  set (c := content_of request). set (h := dr_Handle request) in *.
  assert (∃ r d', Durable.Write (S spin) now c (durable w) = Ret (r, d') ∧ frame (durable w) d' ∧
    (∃ q', Ring.ring_repr (Durable.log d') q') ∧
    Durable.uploadedHandles d' = Durable.uploadedHandles (durable w) ∧
    (Durable.handles d' = Durable.handles (durable w) ∨
     r = None ∧ Durable.handles d' = Durable.register c (Durable.handles (durable w))))
    as (r & d' & E & Hf & Hr' & Hup' & Hh').
  { destruct (Durable.isHandleExpired now (CId c) (durable w)) eqn:Ee.
    - unfold Durable.Write. rewrite Ee. eexists _, _. split_and!; [done|done|by exists q|done|by left].
    - destruct (WritePath.Write_live spin now c (durable w) q Hr Ee) as (rb & Hrb & _ & ->).
      destruct (WritePath.accept _ _ _ _).1; eexists _, _;
        (split_and!; [done|done|by eexists|done|]); [by left|by right]. }
  rewrite E. cbn [mbind outcome_bind].
  assert (∃ ok reply, (match (r, d') with
      | (Some err, d) => Ret (MkDownloadReply "error"
          (match err with ErrInvalidHandle => 400 | ErrBufferFull => 400 | _ => 500 end)
          ("failed to write content: " +:+ error_text err), Coordinator.set_log d (coordinator w))
      | (None, d) => Ret (MkDownloadReply "success" 0 "", Coordinator.set_log d (coordinator w))
      end) = Ret (reply, Coordinator.set_log d' (coordinator w)) ∧
      ok = bool_decide (dp_Status reply = "success") ∧ (r = None → ok = true))
    as (ok & reply & -> & -> & Hok).
  { destruct r as [err|]; eexists _, _; (split_and!; [done|done|done]). }
  cbn [mbind outcome_bind fst snd]. eexists. split; [done|].
  match goal with |- world_ok ?x ∧ _ => set (w' := x) end.
  set (f := record_answered c (bool_decide (dp_Status reply = "success")) lost).
  assert (∀ h', h' ≠ h → clients w' !! h' = clients w !! h') as Hother.
  { intros h' Hne. cbn. by rewrite lookup_alter_ne. }
  assert (clients w' !! h = Some (f st)) as Hself.
  { cbn. by rewrite lookup_alter_eq, Hst. }
  assert (∀ h', is_Some (clients w' !! h') ↔ is_Some (clients w !! h')) as Hdom.
  { intros h'. destruct (decide (h' = h)) as [->|Hne]; [|by rewrite Hother].
    rewrite Hself, Hst. by split; eexists. }
  assert (∀ h', h' ≠ h → Durable.handles d' !! h' = Durable.handles (durable w) !! h') as Hhother.
  { intros h' Hne. destruct Hh' as [->|[_ ->]]; [done|]. unfold Durable.register.
    destruct (Eof c); [by rewrite lookup_insert_ne|]. repeat case_match; try done;
      by rewrite lookup_insert_ne. }
  assert (keeps w w') as Hk.
  { intros h' data ((st' & Hst' & Hclosed) & Hnone & Hrest).
    assert (h' ≠ h) as Hne by (intros ->; congruence). split; [|split; [|exact Hrest]].
    - exists st'. by rewrite Hother.
    - unfold durable. cbn. by rewrite Hhother. }
  split; [|done]. eapply world_ok_coordinator; [exact Hw|exact Hk| | |done..]; cycle 1.
  { apply (uploader_ok_mono w); [done| |done|apply Hw]. intros h' Hb. unfold durable. cbn.
    destruct Hh' as [-> | [_ ->]]; [done|]. unfold Durable.register.
    destruct (decide (CId c = h')) as [<-|Hne'].
    - rewrite Hb. destruct (Eof c); [by rewrite lookup_insert_eq|done].
    - repeat case_match; try done; by rewrite lookup_insert_ne. }
  split; unfold w', durable;
    cbn [coordinator set_coordinator set_clients Coordinator.durableLog Coordinator.set_log].
  - done.
  - by rewrite (frame_nextHandle _ _ Hf).
  - intros h' Hs%Hdom. rewrite (frame_nextHandle _ _ Hf). by apply Hcl.
  - intros h1 h2 H1'%Hdom H2'%Hdom. by apply Hu.
  - intros h' b Hb. destruct (decide (h' = h)) as [->|Hne].
    + exists (f st). split; [done|]. intros ->. destruct Hh' as [Eh|[Er Eh]].
      * rewrite Eh in Hb. destruct (Hh h true Hb) as (st0 & E0 & Hclosed).
        rewrite Hst in E0. injection E0 as <-. rewrite Hclosed in Hopen by done. done.
      * unfold f, record_answered. rewrite (Hok Er). cbn [closed]. rewrite Eh in Hb.
        unfold Durable.register in Hb. destruct (Eof c); [by rewrite orb_true_r|].
        destruct (Durable.handles (durable w) !! CId c) as [[]|] eqn:E1.
        -- destruct (Hh _ true E1) as (st0 & E0 & Hclosed). change (CId c) with h in E0.
           rewrite Hst in E0. injection E0 as <-. by rewrite Hclosed.
        -- change (CId c) with h in Hb. by rewrite lookup_insert_eq in Hb.
        -- change (CId c) with h in Hb. by rewrite lookup_insert_eq in Hb.
    + rewrite Hhother in Hb by done. destruct (Hh h' b Hb) as (st' & Hst' & Hb').
      exists st'. split; [|done]. etransitivity; [by apply Hother|done].
  - intros h' Hs. rewrite Hup' in Hs. destruct (Hup h' Hs) as [data Hs']. exists data. by apply Hk.
  - done.
Qed.

(** ** The goroutines of the coordinator *)

Lemma drain_ok d q :
  Ring.ring_repr (Durable.log d) q →
  ∃ rb, drain (S spin) d = Ret (q, Durable.set_log rb d) ∧ Ring.ring_repr rb [] ∧
    Ring.Cap rb = Ring.Cap (Durable.log d).
Proof.
  intros Hr. unfold drain. pose proof (Ring.ring_repr_fit _ _ Hr) as Hfit.
  destruct (Ring.Drain_spec spin (Durable.log d) q (Z.to_nat (Ring.Cap (Durable.log d))) Hr)
    as (rb & -> & Hr' & Hc). rewrite drop_ge in Hr' by lia. rewrite take_ge by lia.
  by exists rb.
Qed.

Lemma write_snapshot_dir fl clock cs d :
  write_snapshot fl clock cs d = Durable.set_logDir (Durable.logDir (write_snapshot fl clock cs d)) d.
Proof.
  unfold write_snapshot. destruct cs as [|c cs]; [by destruct d|].
  unfold Durable.syncContentsToFile. by destruct (Durable.mkdir_all _ _) as [dir [e|]].
Qed.

Lemma monitor_drain_ok w : world_ok w → event_ok MonitorDrain w.
Proof.
  intros Hw. unfold event_ok. cbn [handle_event]. fold (durable w).
  destruct (monitor (goroutines w)); [|by exists w].
  destruct (ok_ring _ (ok_coordinator _ Hw)) as [q Hr].
  destruct (drain_ok _ q Hr) as (rb & -> & Hr' & _). cbn [mbind outcome_bind fst snd].
  eexists. split; [done|]. apply durable_step; try done. by exists [].
Qed.

Lemma monitor_write_ok fl clock now w : world_ok w → event_ok (MonitorWrite fl clock now) w.
Proof.
  intros Hw. unfold event_ok. cbn [handle_event]. fold (durable w).
  destruct (monitor (goroutines w)) as [|cs]; [by exists w|]. eexists. split; [done|].
  destruct (ok_ring _ (ok_coordinator _ Hw)) as [q Hr].
  set (d1 := write_snapshot fl clock cs (durable w)).
  pose proof (write_snapshot_dir fl clock cs (durable w)) as E1. fold d1 in E1.
  pose proof (Registry.saveUploadedHandles_frame fl now (Durable.pruneProcessingHandles now d1)) as E2.
  set (d2 := Durable.saveUploadedHandles fl now _) in *. rewrite E1 in E2. unfold Durable.pruneProcessingHandles in E2.
  match goal with |- world_ok ?x ∧ _ => set (w' := x) end.
  assert (durable w' = d2) as Ed by done.
  assert (Durable.handles d2 = Durable.handles (durable w)) as Eh by (by rewrite E2).
  apply durable_step; rewrite ?Ed; try done; try (rewrite E2; by eauto).
  apply (uploader_ok_mono w); [done|by rewrite Ed, Eh|done].
Qed.

Lemma sweep_ok fl now w : world_ok w → event_ok (Sweep fl now) w.
Proof.
  intros Hw. unfold event_ok. cbn [handle_event]. fold (durable w).
  destruct (monitor (goroutines w)) as [|cs]; [|by exists w]. eexists. split; [done|].
  destruct (performLogDeletion_frame fl now (durable w)) as (Hf & Hl & Hh & Hup).
  set (d' := Durable.performLogDeletion fl now (durable w)) in *.
  match goal with |- world_ok ?x ∧ _ => set (w' := x) end.
  assert (durable w' = d') as Ed by done.
  apply durable_step; rewrite ?Ed; try done.
  - rewrite Hl. apply (ok_ring _ (ok_coordinator _ Hw)).
  - intros h Hs. by rewrite <- Hup.
  - apply (uploader_ok_mono w); [done|by rewrite Ed, Hh|done].
Qed.

Lemma upload_drain_ok w : world_ok w → event_ok UploadDrain w.
Proof.
  intros Hw. unfold event_ok. cbn [handle_event]. fold (durable w).
  destruct (uploader (goroutines w)); [|by exists w..]. case_bool_decide; [by exists w|].
  destruct (ok_ring _ (ok_coordinator _ Hw)) as [q Hr].
  destruct (drain_ok _ q Hr) as (rb & -> & Hr' & _). cbn [mbind outcome_bind fst snd].
  eexists. split; [done|]. apply durable_step; try done. by exists [].
Qed.

Lemma upload_write_ok fl clock w : world_ok w → event_ok (UploadWrite fl clock) w.
Proof.
  intros Hw. unfold event_ok. cbn [handle_event]. fold (durable w).
  destruct (uploader (goroutines w)) as [|cs| |]; [by exists w| |by exists w..].
  eexists. split; [done|]. destruct (ok_ring _ (ok_coordinator _ Hw)) as [q Hr].
  pose proof (write_snapshot_dir fl clock cs (durable w)) as E.
  match goal with |- world_ok ?x ∧ _ => set (w' := x) end.
  assert (durable w' = write_snapshot fl clock cs (durable w)) as Ed by done.
  apply durable_step; rewrite ?Ed; try done; rewrite E; [done|by exists q|done..].
Qed.

(** A step that changes nothing but the goroutines and what is under way. *)
Lemma messages_step w w' :
  world_ok w → clients w' = clients w → coordinator w' = coordinator w → storage w' = storage w →
  (uploader_ok w → uploader_ok w') →
  (∀ x, x ∈ claimed (goroutines w') → x ∈ claimed (goroutines w) ∨ claim_right w x) →
  (master_ok dep mapf reducef (stored w') (master w) → master_ok dep mapf reducef (stored w') (master w')) →
  (∀ q, q ∈ tasks w' → q ∈ tasks w ∨ task_right dep (stored w) q) →
  (∀ r, r ∈ submissions w' → r ∈ submissions w ∨ result_right dep mapf reducef (stored w) r) →
  (∀ x, x ∈ collations w' → x ∈ collations w ∨ collation_right w x) →
  world_ok w' ∧ keeps w w'.
Proof.
  intros Hw E1 E2 E3 Hu Hcl Hm Ht Hs Hco. assert (keeps w w') as Hk by (by apply keeps_same).
  split; [|done]. apply (world_ok_step w w'); auto using ok_uploader.
  apply (coordinator_ok_same w); auto using ok_coordinator.
Qed.

Lemma upload_list_ok w : world_ok w → event_ok UploadList w.
Proof.
  intros Hw. unfold event_ok. cbn [handle_event]. fold (durable w).
  destruct (uploader (goroutines w)) as [| | |]; [by exists w..| |by exists w].
  eexists. split; [done|].
  apply messages_step; try done; [|by left..]. intros _. unfold uploader_ok, durable.
  cbn [goroutines uploader set_uploader set_goroutines coordinator storage]. fold (durable w).
  pose proof (Upload.NoDup_completed (durable w)) as Hnd.
  pose proof (Upload.elem_of_completed (durable w)) as Hin.
  destruct (Durable.GetCompletedHandleForRetransmission (durable w)) as [|h hs] eqn:E; [done|].
  rewrite (right_id_L [] (++)). split_and!; [done| |constructor].
  apply Forall_forall. intros h' Hh'. by apply Hin.
Qed.

Lemma upload_next_ok fl at_ cancelled w : world_ok w → event_ok (UploadNext fl at_ cancelled) w.
Proof.
  intros Hw. pose proof (ok_coordinator _ Hw) as Hc. unfold event_ok. cbn [handle_event]. fold (durable w).
  destruct (uploader (goroutines w)) as [| | |[|h todo] uploaded] eqn:Eu; [by exists w..|].
  pose proof (ok_uploader _ Hw) as Hup. unfold uploader_ok in Hup. rewrite Eu in Hup.
  destruct Hup as (Hnd & Hreg & Hfiles). cbn [app] in Hnd, Hreg.
  apply NoDup_cons in Hnd as [Hnin Hnd]. apply Forall_cons in Hreg as [Hh Hreg].
  assert (∀ h, Durable.handles (durable w) !! h = Some true → handle_ok h) as Hok.
  { intros h' Hb. destruct (ok_handles _ Hc h' true Hb) as (st & Hst & _).
    apply (ok_clients _ Hc). by eexists. }
  set (env := uploadPrefix dep).
  destruct (Upload.upload_handle_spec fl (logPath dep) env at_ (λ _, cancelled) (durable w) h (storage w))
    as (dfs' & e & E & Hfr & _). rewrite E. cbn [mbind outcome_bind fst snd].
  eexists. split; [done|]. match goal with |- world_ok ?x ∧ _ => set (w' := x) end.
  assert (Upload.untouched env [h] (storage w) dfs') as Hun.
  { intros q [[H3 H4] _]%Forall_cons. by apply Hfr. }
  assert (∀ h', handle_ok h' → h' ≠ h →
    Coordinator.dfs_content dfs' (content_path dep h') =
      Coordinator.dfs_content (storage w) (content_path dep h') ∧
    Coordinator.dfs_content dfs' (metadata_path dep h') =
      Coordinator.dfs_content (storage w) (metadata_path dep h')) as Hsame.
  { intros h' Hok' Hne. apply (untouched_files env h' [h]); [done|done|by apply Forall_singleton; auto|].
    by intros ->%list_elem_of_singleton. }
  assert (keeps w w') as Hk.
  { intros h' data (Hcl & Hnone & Hcon & Hmeta). split; [done|]. split; [done|].
    destruct Hcl as (st & Hst & _). destruct (ok_clients _ Hc h') as [Hok' _]; [by eexists|].
    destruct (Hsame h' Hok') as [E1 E2]; [intros ->; congruence|].
    unfold w'. cbn [storage set_goroutines set_storage]. by rewrite E1, E2. }
  split; [|done]. apply (world_ok_coordinator w w'); try done.
  - split; try apply Hc. intros h' Hs. destruct (ok_uploaded _ Hc h' Hs) as [data Hst].
    exists data. by apply Hk.
  - unfold uploader_ok. unfold w' at 1. cbn [goroutines uploader set_uploader set_goroutines].
    assert (Forall (has_files env dfs') uploaded) as Hfiles'.
    { apply Forall_forall. intros h' Hin. rewrite Forall_forall in Hfiles. rewrite Forall_forall in Hreg.
      destruct (Hsame h') as [E1 E2]; [apply Hok, Hreg; set_solver|intros ->; set_solver|].
      unfold has_files. unfold content_path, metadata_path in E1, E2. fold env in E1, E2.
      rewrite E1, E2. by apply Hfiles. }
    destruct e as [e|]; [done|]. split_and!.
    + rewrite (assoc_L (++)). apply NoDup_app. split_and!; [done| |apply NoDup_singleton].
      intros h' Hin ->%list_elem_of_singleton. done.
    + rewrite (assoc_L (++)). apply Forall_app. split; [done|by apply Forall_singleton].
    + apply Forall_app. split; [done|]. apply Forall_singleton. by eapply upload_handle_files.
Qed.

Lemma upload_mark_ok fl now w : world_ok w → event_ok (UploadMark fl now) w.
Proof.
  intros Hw. pose proof (ok_coordinator _ Hw) as Hc. unfold event_ok. cbn [handle_event]. fold (durable w).
  destruct (uploader (goroutines w)) as [| | |[|h todo] U] eqn:Eu; [by exists w..| |by exists w].
  pose proof (ok_uploader _ Hw) as Hup. unfold uploader_ok in Hup. rewrite Eu in Hup.
  destruct Hup as (_ & Hreg & Hfiles). cbn [app] in Hreg.
  rewrite Forall_forall in Hreg. rewrite Forall_forall in Hfiles.
  destruct (marked_effects fl now U (durable w)) as (Hf & Hl & Hh & Hup).
  fold (marked fl now U (durable w)). set (d' := marked fl now U (durable w)) in *.
  eexists. split; [done|]. match goal with |- world_ok ?x ∧ _ => set (w' := x) end.
  assert (durable w' = d') as Ed by done.
  assert (keeps w w') as Hk.
  { intros h data (Hcl & Hnone & Hrest). split; [exact Hcl|]. split; [|exact Hrest].
    rewrite Ed, Hh. by case_decide. }
  split; [|done]. apply (world_ok_coordinator w w'); try done.
  destruct Hc as [[q Hr] Hn Hcl Hu Hhs Hupl Ha]. split; rewrite ?Ed; try done.
  - rewrite Hl. by exists q.
  - by rewrite (frame_nextHandle _ _ Hf).
  - by rewrite (frame_nextHandle _ _ Hf).
  - intros h b. rewrite Hh. case_decide; [done|]. apply Hhs.
  - intros h. rewrite Hup. case_decide as Hin.
    + intros _. destruct (Hfiles h Hin) as [[data Hd] Hm]. exists data.
      destruct (Hhs h true (Hreg h Hin)) as (st & Hst & Hclosed).
      split; [exists st; auto|]. split; [|done]. rewrite Ed, Hh. by rewrite decide_True.
    + intros Hs. destruct (Hupl h Hs) as [data Hst]. exists data. by apply Hk.
Qed.

(** ** Dispatch *)

Lemma elem_of_delete_list {A} (l : list A) i x : x ∈ delete i l → x ∈ l.
Proof.
  intros Hx. eapply elem_of_submseteq; [exact Hx|]. apply sublist_submseteq, sublist_delete.
Qed.

Lemma claim_ok now plugin w : world_ok w → event_ok (Claim now plugin) w.
Proof.
  intros Hw. unfold event_ok. cbn [handle_event]. fold (durable w). pose proof (ok_coordinator _ Hw) as Hc.
  destruct (Registry.GetUploadedHandles_facts now (durable w)) as (_ & _ & _ & Hin & _).
  destruct (GetUploadedHandles_frame now (durable w)) as (Hf & Hl & Hh & Hu & _).
  set (r := Durable.GetUploadedHandles now (durable w)) in *. eexists. split; [done|].
  match goal with |- world_ok ?x ∧ _ => set (w' := x) end.
  assert (durable w' = r.2) as Ed by done.
  destruct (coordinator_frame w w' Hc) as [Hc' Hk]; rewrite ?Ed; try done.
  { rewrite Hl. apply Hc. }
  split; [|done]. apply (world_ok_step w w'); try done; try by left.
  - apply (uploader_ok_mono w); [done|by rewrite Ed, Hh|done|apply Hw].
  - intros x. cbn. rewrite elem_of_app. intros [?|Hx]; [by left|right].
    apply list_elem_of_fmap in Hx as (h & -> & [Hup _]%Hin). by apply (ok_uploaded _ Hc).
Qed.

(** Giving a lease back. *)
Lemma release_ok h w : world_ok w → world_ok (release h w) ∧ keeps w (release h w).
Proof.
  intros Hw. apply durable_step; try done. apply (ok_ring _ (ok_coordinator _ Hw)).
Qed.

Lemma start_answered_ok h answered reply w :
  world_ok w →
  world_ok (start_answered h answered reply w) ∧ keeps w (start_answered h answered reply w).
Proof. intros Hw. unfold start_answered. case_match; [done|by apply release_ok]. Qed.

Lemma start_job_ok i net w :
  deployment_ok dep mapf reducef → world_ok w → allowed dep w (StartJob i net) →
  event_ok (StartJob i net) w.
Proof.
  intros Hdep Hw Hfit. unfold allowed in Hfit.
  destruct (claimed (goroutines w) !! i) as [[plugin h]|] eqn:Ei;
    [|exists w; cbn [handle_event]; by rewrite Ei].
  pose proof (ok_claimed _ Hw) as Hcl. rewrite Forall_forall in Hcl.
  destruct (Hcl (plugin, h)) as [data Hst]; [by eapply list_elem_of_lookup_2|]. cbn [snd] in Hst.
  set (w1 := set_goroutines (set_claimed (delete i (claimed (goroutines w))) (goroutines w)) w).
  assert (world_ok w1 ∧ keeps w w1) as [Hw1 Hk1].
  { apply messages_step; try done; try by left. intros x Hx%elem_of_delete_list. by left. }
  assert (∃ w', Ret (release h w1) = Ret w' ∧ world_ok w' ∧ keeps w w') as Hrel.
  { destruct (release_ok h w1 Hw1) as [? ?]. eexists. split_and!; [done|done|]. by etransitivity. }
  destruct (start_ok dep mapf reducef (stored w) (master_dfs net (storage w)) (storage w)
    (probe_worker_at dep net) (call_worker net) (dispatch_cancelled net) plugin h data (master w) Hdep
    Hfit (master_dfs_seen _ _) (ok_master _ Hw) Hst) as (r & m' & E & Hm' & Hsent); [apply Hst..|].
  assert (world_ok (set_master m' w1) ∧ keeps w (set_master m' w1)) as [Hw2 Hk2].
  { assert (world_ok (set_master m' w1) ∧ keeps w1 (set_master m' w1)) as [? ?]
      by (apply messages_step; try done; by left).
    split; [done|]. by etransitivity. }
  unfold event_ok. cbn [handle_event]. rewrite Ei. fold w1. case_bool_decide; [exact Hrel|].
  assert (∀ answered, ∃ w', (r0 ← start_job (master_dfs net (storage w)) (uploadPrefix dep)
        (probe_worker_at dep net) (call_worker net) (dispatch_cancelled net)
        {| sr_Handle := h; sr_Plugin := plugin |} (master w);
      match r0.1 with
      | inl reply => Ret (start_answered h answered reply (set_master r0.2 w1))
      | inr (total, rs) =>
          Ret (set_goroutines (set_rounds (rounds (goroutines w1) ++
                  [MkRound h total rs answered true]) (goroutines w1))
                 (set_tasks (tasks (set_master r0.2 w1) ++
                    filter (λ q, Is_true (arrives net q)) (omap fst rs)) (set_master r0.2 w1)))
      end) = Ret w' ∧ world_ok w' ∧ keeps w w') as Hcall.
  { intros answered. rewrite E. cbn [mbind outcome_bind fst snd]. destruct r as [reply|[total rs]].
    - eexists. split; [done|]. destruct (start_answered_ok h answered reply _ Hw2) as [? Hk3].
      split; [done|]. by etransitivity.
    - eexists. split; [done|]. match goal with |- world_ok ?x ∧ _ => set (w3 := x) end.
      assert (world_ok w3 ∧ keeps (set_master m' w1) w3) as [? ?].
      { apply messages_step; try done; try by left.
        intros q. cbn. rewrite elem_of_app. intros [?|[_ Hq]%list_elem_of_filter]; [by left|right].
        rewrite Forall_forall in Hsent. eapply task_right_mono; [exact Hk2|auto]. }
      split; [done|]. by etransitivity. }
  destruct (start_call net); [exact Hrel|apply Hcall..].
Qed.

Lemma conclude_event_ok i sched w : world_ok w → event_ok (Conclude i sched) w.
Proof.
  intros Hw. unfold event_ok. cbn [handle_event].
  destruct (rounds (goroutines w) !! i) as [rd|] eqn:Ei; [|by exists w].
  set (w1 := set_goroutines (set_rounds (delete i (rounds (goroutines w))) (goroutines w)) w).
  assert (world_ok w1 ∧ keeps w w1) as [Hw1 Hk1] by (apply messages_step; try done; by left).
  destruct (rd_running rd).
  - set (r := conclude_dispatch _ _ _ _ _).
    assert (world_ok (set_master r.2 w1) ∧ keeps w1 (set_master r.2 w1)) as [Hw2 Hk2].
    { apply messages_step; try done; try by left. apply conclude_ok. }
    destruct (start_answered_ok (rd_handle rd) (rd_answered rd) r.1.1 _ Hw2) as [Hw3 Hk3].
    eexists. split_and!; [done|done|]. etransitivity; [exact Hk1|]. by etransitivity.
  - destruct (release_ok (rd_handle rd) w1 Hw1) as [Hw2 Hk2].
    eexists. split_and!; [done|done|]. by etransitivity.
Qed.

(** ** Tasks, results and notices *)

Lemma run_task_ok i run w :
  deployment_ok dep mapf reducef → world_ok w → allowed dep w (RunTask i run) →
  event_ok (RunTask i run) w.
Proof.
  intros Hdep Hw Hs. unfold event_ok. cbn [handle_event allowed] in *.
  destruct (tasks w !! i) as [q|] eqn:Eq; [|by exists w]. specialize (Hs q eq_refl).
  pose proof (ok_tasks _ Hw) as Ht. rewrite Forall_forall in Ht.
  destruct (Ht q) as (h & data & Hst & Hq); [by eapply list_elem_of_lookup_2|].
  destruct (task_submission dep mapf reducef (stored w) (run_faults run) (storage w) run
    (run_writers run) (run_submitted run) q (disks w q.1) h data Hdep Hst Hq Hs)
    as (s & d' & E & Hsub); [apply Hst..|].
  rewrite E. cbn [mbind outcome_bind fst snd]. eexists. split; [done|].
  apply messages_step; try done; try by left.
  - intros q' Hq'%elem_of_delete_list. by left.
  - intros r. cbn. rewrite elem_of_app. intros [?|Hr]; [by left|right].
    destruct s as [s|]; cbn in Hr; [|by apply not_elem_of_nil in Hr].
    apply list_elem_of_singleton in Hr as ->. by apply Hsub.
Qed.

Lemma submit_ok i w : world_ok w → event_ok (Submit i) w.
Proof.
  intros Hw. unfold event_ok. cbn [handle_event].
  destruct (submissions w !! i) as [r|] eqn:Er; [|by exists w]. eexists. split; [done|].
  pose proof (ok_submissions _ Hw) as Hs. rewrite Forall_forall in Hs.
  pose proof (Hs r (list_elem_of_lookup_2 _ _ _ Er)) as Hr.
  destruct (submit_locked_ok dep mapf reducef (stored w)
    (λ h h' data data', stored_unique w h h' data data' (ok_coordinator _ Hw)) r (master w)
    (ok_master _ Hw) Hr) as [Hm Hcomplete].
  set (x := submit_locked r (master w)) in *.
  set (w1 := set_master x.2 (set_submissions (delete i (submissions w)) w)).
  match goal with |- world_ok ?y ∧ _ => set (w' := y) end.
  assert (clients w' = clients w ∧ coordinator w' = coordinator w ∧ storage w' = storage w ∧
    goroutines w' = goroutines w ∧ master w' = x.2 ∧ tasks w' = tasks w ∧
    submissions w' = delete i (submissions w)) as (E1 & E2 & E3 & Eg & Em & Et & Es)
    by (unfold w'; by destruct x.1).
  assert (keeps w w') as Hk by (by apply keeps_same).
  apply messages_step; rewrite ?Eg, ?Em, ?Et, ?Es; try done; try by left.
  - unfold uploader_ok, durable. by rewrite Eg, E2, E3.
  - intros _. eapply master_ok_mono; [exact Hk|exact Hm].
  - intros r' Hr'%elem_of_delete_list. by left.
  - intros y. unfold w'. destruct x.1 as [| |chunks] eqn:Ex; [by left|by left|].
    cbn. rewrite elem_of_app. intros [?|Hy]; [by left|right].
    apply list_elem_of_singleton in Hy as ->. by apply Hcomplete.
Qed.

Lemma collate_ok i fl now w : world_ok w → event_ok (Collate i fl now) w.
Proof.
  intros Hw. unfold event_ok. cbn [handle_event].
  destruct (collations w !! i) as [[s chunks]|] eqn:Er; [|by exists w]. eexists. split; [done|].
  pose proof (ok_collations _ Hw) as Hs. rewrite Forall_forall in Hs.
  destruct (Hs (s, chunks) (list_elem_of_lookup_2 _ _ _ Er)) as (data & Hst & Hcol).
  match goal with |- world_ok ?y ∧ _ => set (w' := y) end.
  assert (keeps w w') as Hk by (by apply keeps_same).
  apply messages_step; try done; try by left.
  - intros Hm. apply (submit_finish_master_ok _ _ _ _ _ _ _ _ _ data); [done|by apply Hk|done].
  - intros x Hx%elem_of_delete_list. by left.
Qed.

Lemma notify_ok i w : world_ok w → event_ok (Notify i) w.
Proof.
  intros Hw. unfold event_ok. cbn [handle_event].
  destruct (notices w !! i) as [n|]; [|by exists w]. eexists. split; [done|].
  apply durable_step; try done. apply (ok_ring _ (ok_coordinator _ Hw)).
Qed.

Lemma restart_ok w : world_ok w → event_ok RestartMaster w.
Proof.
  intros Hw. eexists. split; [done|]. apply messages_step; try done; try by left.
  - intros Hm. cbn [master set_master set_collations set_goroutines].
    apply new_master_ok. apply Hm.
  - by intros x Hx%not_elem_of_nil.
Qed.

(** Every event allowed in a world that satisfies the invariant ends in one that
    does. *)
Lemma events_ok e w :
  deployment_ok dep mapf reducef → world_ok w → allowed dep w e → event_ok e w.
Proof.
  intros Hdep Hw Ha. destruct e.
  - by apply grant_ok.
  - by apply forward_ok.
  - by apply monitor_drain_ok.
  - by apply monitor_write_ok.
  - by apply sweep_ok.
  - by apply upload_drain_ok.
  - by apply upload_write_ok.
  - by apply upload_list_ok.
  - by apply upload_next_ok.
  - by apply upload_mark_ok.
  - by apply claim_ok.
  - by apply start_job_ok.
  - by apply conclude_event_ok.
  - by apply run_task_ok.
  - eexists. split; [done|]. apply messages_step; try done; try by left.
    intros q Hq%elem_of_delete_list. by left.
  - by apply submit_ok.
  - by apply collate_ok.
  - eexists. split; [done|]. apply messages_step; try done; try by left.
    intros r Hr%elem_of_delete_list. by left.
  - by apply notify_ok.
  - eexists. split; [done|]. apply messages_step; try done; by left.
  - by apply restart_ok.
Qed.

(** ** The start *)

(** The coordinator's buffer on an empty log directory. *)
Lemma new_buffer_empty now :
  ∃ d, Durable.recover (S spin) Durable.no_faults
      (Coordinator.durableLog (Coordinator.NewCoordinator now (fileServer dep) (masterEnv dep)
         (Durable.MkDir false ∅))) = Ret d ∧
    Durable.nextHandle d = 0 ∧ Durable.handles d = ∅ ∧ Durable.uploadedHandles d = ∅ ∧
    Ring.ring_repr (Durable.log d) [] ∧ Durable.logDir d = Durable.MkDir true ∅.
Proof.
  destruct (Ring.NewRingBuffer_repr Durable.empty_content 1024) as [Hr _]; [lia|].
  eexists. split; [reflexivity|]. split_and!; [done|done|done|exact Hr|done].
Qed.

Lemma start_world_ok now dfs disks :
  ∃ w, start dep (S spin) now dfs disks = Ret w ∧ world_ok w.
Proof.
  unfold start. destruct (new_buffer_empty now) as (d & -> & Hn & Hh & Hu & Hr & _).
  cbn [mbind outcome_bind]. eexists. split; [done|]. split.
  - split; unfold durable; cbn [coordinator Coordinator.durableLog Coordinator.set_log clients].
    + by exists [].
    + by rewrite Hn.
    + by intros h [].
    + by intros h h' [].
    + intros h b. by rewrite Hh.
    + intros h. rewrite Hu. by intros [].
    + done.
  - done.
  - constructor.
  - by apply new_master_ok.
  - constructor.
  - constructor.
  - constructor.
Qed.

(** What holds in every world reached. *)
Lemma reachable_ok I w :
  deployment_ok dep mapf reducef → reachable dep (S spin) I (allowed dep) w → world_ok w.
Proof.
  intros Hdep. apply reachable_ind'.
  - intros now dfs disks w0 _ E. destruct (start_world_ok now dfs disks) as (w1 & E1 & Hw).
    rewrite E in E1. by apply Ret_inj in E1 as ->.
  - intros w1 e w2 Hw He E. destruct (events_ok e w1 Hdep Hw He) as (w3 & E3 & Hw3 & _).
    rewrite E in E3. by apply Ret_inj in E3 as ->.
Qed.

(** Stored files stay along a run. *)
Lemma keeps_run w w' :
  deployment_ok dep mapf reducef → world_ok w →
  rtc (transition dep (S spin) (allowed dep)) w w' → keeps w w'.
Proof.
  intros Hdep Hw Hs. induction Hs as [w|w1 w2 w3 (e & He & E) _ IH]; [done|].
  destruct (events_ok e w1 Hdep Hw He) as (w4 & E4 & Hw4 & Hk). rewrite E in E4.
  apply Ret_inj in E4 as <-. etransitivity; [exact Hk|]. by apply IH.
Qed.

End invariant.

End NetworkInv.
