(* ===== verification/NetworkSafety.v ===== *)
(** Safety of the whole system: whatever order of steps, failures and losses a run
    has, no handler panics and every result the master answers with is right. *)

From S2P Require Import Prelude GoStrings Ring Json Codec Types Durable.
From S2P Require Import WritePath Registry Recovery Worker MapReduce Master Jobs.
From S2P Require Import Coordinator Upload System Lifecycle Network Frames Chunks Results NetworkInv.
From stdpp Require Import options.

#[local] Arguments String.append !_ _ / : simpl nomatch.

Module NetworkSafety.
Import GoStrings Codec Types Master System Network Chunks Results NetworkInv.

Lemma resultFileName_inj id id' : resultFileName id = resultFileName id' → id = id'.
Proof.
  intros E. unfold resultFileName in E. repeat (apply (inj (String.append _)) in E).
  by apply (fmt_d_sep_inj (Ascii.ascii_of_nat 46)) in E as [E _].
Qed.

Section safety.
Context `{MapOrder} `{SortSlice} `{DFSReader D} (dep : Deployment) (spin : nat).
Context (mapf : string → string → list KeyValue) (reducef : string → list string → string).
Implicit Types (w : World D) (h : Handle).

(** Any run from any DFS. *)
Definition any_dfs (_ : D) : Prop := True.
Definition reached w : Prop := reachable dep (S spin) any_dfs (allowed dep) w.
Definition run : relation (World D) := rtc (transition dep (S spin) (allowed dep)).

(** What the master answers when it has a result. *)
Lemma complete_result w h :
  world_ok dep mapf reducef w → is_Some (clients w !! h) →
  gp_Complete (RPCGetJobResult None (Id h) (master w)) = true →
  ∃ data chunks at_, stored dep w h data ∧ collated dep mapf reducef h data chunks ∧
    gp_ResultJSON (RPCGetJobResult None (Id h) (master w)) =
      Json.print_indent 0 (collated_json h chunks at_) +:+ Json.nl.
Proof.
  intros Hw Hh. pose proof (ok_coordinator _ _ _ _ Hw) as Hc. unfold RPCGetJobResult.
  destruct (resultDir (master w) !! resultFileName (Id h)) as [text|] eqn:E; [|done]. intros _.
  destruct (ok_files _ _ _ _ _ (ok_master _ _ _ _ Hw) _ _ E) as (h' & data & chunks & at_ & Hst & En & Hcol & ->).
  assert (h = h') as <-.
  { pose proof Hst as ((st & Hst' & _) & _).
    assert (is_Some (clients w !! h')) as Hh' by by eexists.
    apply (ok_unique _ _ Hc); [done..|]. by apply resultFileName_inj. }
  by exists data, chunks, at_.
Qed.


(** C8: the system is well-formed and its handlers never fail. In every
    reachable world the invariant holds (the ring represents a queue, ids are
    unique and below the counter, what is registered belongs to clients,
    everything the master and the network hold refers to stored files), and
    whatever the environment does next, the handler returns, without a panic or an
    endless loop, in a world where the invariant holds again. *)
Theorem system_never_goes_wrong (w : World D) :
  deployment_ok dep mapf reducef → reached w →
  world_ok dep mapf reducef w ∧
  ∀ e, allowed dep w e →
    ∃ w', handle_event dep (S spin) e w = Ret w' ∧ world_ok dep mapf reducef w'.
Proof.
  intros Hdep Hr. pose proof (reachable_ok dep spin mapf reducef _ w Hdep Hr) as Hw.
  split; [done|]. intros e He. destruct (events_ok dep spin mapf reducef e w Hdep Hw He)
    as (w' & E & Hw' & _). by exists w'.
Qed.

End safety.

End NetworkSafety.
