(* ===== verification/UploadRetry.v ===== *)
(** Uploads that fail and are tried again: when a failing write has written a
    prefix of its data, the retry leaves exactly the data. *)

From S2P Require Import Prelude GoStrings Ring Json Codec Types Durable.
From S2P Require Import WritePath Registry Recovery Worker Master Coordinator Upload Frames.
From stdpp Require Import options.

#[local] Arguments String.append !_ _ / : simpl nomatch.

Module UploadRetry.
Import GoStrings Codec Types Durable Coordinator Upload Frames.

(** What a DFS client promises about a write that fails: it has written a prefix
    of its data. (A write that succeeds has written all of it.) *)
Class PartialWrites (D : Type) `{DFSClient D} := {
  write_prefix d p bytes : ∃ n,
    default [] (dfs_content (WriteAt ops p bytes d).1 p) =
      take n bytes ++ drop n (default [] (dfs_content d p))
}.

Section retry.
Context `{MapOrder} `{SortSlice} `{PartialWrites D}.
Implicit Types (dfs : D) (d : DurableBuffer).

(** The bytes of the content file of [h]. *)
Definition content_bytes (env : string) dfs (h : Handle) : list byte :=
  default [] (dfs_content dfs (contentPath (remotePath env h))).

(** A log file that cannot be opened is an error; otherwise faults do not show in
    what is decoded. *)
Lemma decode_faults fl h d data :
  decodeDlogContent no_faults h d = Ret (Ok data) →
  decodeDlogContent fl h d = Ret (Ok data) ∨ ∃ e, decodeDlogContent fl h d = Ret (Err e).
Proof.
  unfold decodeDlogContent. destruct (d_files (logDir d) !! logFileName h) as [f|]; [|done].
  destruct (f_open fl (logFileName h)); [right; by eexists|by left].
Qed.

(** Trying a handle leaves its file overwritten by a prefix of its data, which is
    all of it if the upload went through. *)
Lemma upload_handle_prefix fl logPath env at_ cancelled d h dfs dfs' e data :
  decodeDlogContent no_faults h d = Ret (Ok data) →
  upload_handle fl logPath env at_ cancelled d h dfs = Ret (dfs', e) →
  ∃ n, content_bytes env dfs' h = take n data ++ drop n (content_bytes env dfs h).
Proof using All.
  intros Hdec0. unfold upload_handle, content_bytes.
  destruct (cancelled h); [intros [= <- _]; by exists 0%nat|].
  unfold buildHandleMetadataPayload.
  destruct (f_info fl _); [intros [= <- _]; by exists 0%nat|]. cbv zeta.
  set (cp := contentPath (remotePath env h)). set (jp := remotePath env h).
  assert (jp ≠ cp) as Hne.
  { unfold jp, cp. rewrite contentPath_base, remotePath_base. apply not_eq_sym, content_not_json. }
  pose proof (ensure_dirs_content jp dfs) as F1.
  destruct (ensureRemoteDirectoryExists jp dfs) as [dfs1 [err|]]; cbn in F1.
  { intros [= <- _]. exists 0%nat. by rewrite F1. }
  pose proof (proj2 (create_file_content cp cp dfs1)) as F2. rewrite F1 in F2.
  destruct (create_file cp dfs1) as [dfs2 [err|]]; cbn in F2.
  { intros [= <- _]. exists 0%nat. by rewrite F2. }
  destruct (decode_faults fl h d data Hdec0) as [Hdec|[err Hdec]]; rewrite Hdec; cbn [mbind outcome_bind].
  2: { intros [= <- _]. exists 0%nat. by rewrite F2. }
  destruct (write_prefix dfs2 cp data) as [n F3]. rewrite F2 in F3.
  destruct (WriteAt ops cp data dfs2) as [dfs3 [err|]]; cbn in F3.
  { intros [= <- _]. by exists n. }
  pose proof (proj1 (create_file_content jp cp dfs3) Hne) as F4.
  destruct (create_file jp dfs3) as [dfs4 [err|]]; cbn in F4.
  { intros [= <- _]. exists n. by rewrite F4. }
  match goal with |- context [WriteAt ops jp ?b dfs4] => set (payload := b) end.
  pose proof (write_content_other jp cp payload dfs4 Hne) as F5.
  destruct (WriteAt ops jp payload dfs4) as [dfs5 [err|]]; cbn in F5;
    intros [= <- _]; exists n; by rewrite F5, F4.
Qed.

(** Overwriting a prefix of [data] with a prefix of [data] leaves a prefix. *)
Lemma prefix_over_prefix (data : list byte) n m :
  take n data ++ drop n (take m data) = take (Nat.max n m) data.
Proof.
  rewrite <- (take_drop n (take (n `max` m) data)). rewrite take_take. f_equal.
  - f_equal. lia.
  - rewrite !skipn_firstn_comm. destruct (Nat.le_gt_cases n m).
    + by rewrite Nat.max_r.
    + rewrite Nat.max_l by lia. replace (m - n)%nat with 0%nat by lia. by rewrite Nat.sub_diag.
Qed.

(** Overwriting a prefix with all of [data] leaves [data]. *)
Lemma data_over_prefix (data : list byte) m : data ++ drop (length data) (take m data) = data.
Proof.
  rewrite drop_ge by (rewrite length_take; lia). apply (right_id_L [] (++)).
Qed.

End retry.

End UploadRetry.
