(* ===== verification/NetworkData.v ===== *)
(** Where the clients' data is in the whole system, as long as nothing is lost: in
    the log, in the hands of a goroutine that flushes, and in the ring until it is
    uploaded, in the DFS from then on. *)

From S2P Require Import Prelude GoStrings Ring Json Codec Types Durable.
From S2P Require Import WritePath Registry Recovery Worker MapReduce Master Jobs.
From S2P Require Import Coordinator Upload System Lifecycle Network Frames UploadRetry.
From S2P Require Import Chunks Results NetworkInv NetworkSafety.
From stdpp Require Import options.

#[local] Arguments String.append !_ _ / : simpl nomatch.

Module NetworkData.
Import GoStrings Codec Types Master System Network Chunks Results NetworkInv NetworkSafety.
Import Frames UploadRetry.

(** The records in a ring, as a flush takes them out. *)
Definition queue_of (rb : Ring.RingBuffer Content) : list Content :=
  match Ring.Drain 1 rb (Z.to_nat (Ring.Cap rb)) with Ret (cs, _) => cs | _ => [] end.

Lemma queue_of_repr rb q : Ring.ring_repr rb q → queue_of rb = q.
Proof.
  intros Hr. unfold queue_of. pose proof (Ring.ring_repr_fit _ _ Hr).
  destruct (Ring.Drain_spec 0 rb q (Z.to_nat (Ring.Cap rb)) Hr) as (rb' & -> & _).
  apply take_ge. lia.
Qed.

Lemma of_handle_app h l1 l2 :
  WritePath.of_handle h (l1 ++ l2) = WritePath.of_handle h l1 ++ WritePath.of_handle h l2.
Proof. apply filter_app. Qed.

(** ** Log files of the durable buffer *)

Definition log_of (h : Handle) (d : Durable.DurableBuffer) : list byte :=
  Durable.file_content (Durable.logDir d) (logFileName h).

Section logs.
Context `{MapOrder} `{SortSlice}.

Lemma save_log fl now d h : log_of h (Durable.saveUploadedHandles fl now d) = log_of h d.
Proof.
  unfold log_of, Durable.file_content. destruct (Registry.logFileName_not_registry h).
  by rewrite Registry.saveUploadedHandles_files.
Qed.

Lemma prune_log fl now d h : log_of h (Durable.pruneUploadedHandles fl now d) = log_of h d.
Proof.
  unfold log_of, Durable.file_content. destruct (Registry.logFileName_not_registry h).
  by rewrite Registry.pruneUploadedHandles_files.
Qed.

(** Sweeping the directory removes logs of uploaded handles only. *)
Lemma deletion_log fl now d h :
  handle_ok h →
  log_of h (Durable.performLogDeletion fl now d) = log_of h d ∨
  log_of h (Durable.performLogDeletion fl now d) = [] ∧ Registry.uploaded d h.
Proof.
  intros Hh. destruct (Registry.performLogDeletion_eq fl now d) as [(names & _ & ->)|(e & _ & ->)];
    [|by left].
  pose proof (Registry.swept_foldl fl now d names) as Hs. rewrite prune_log.
  set (d1 := foldl _ _ _) in *. unfold log_of, Durable.file_content.
  destruct (Durable.d_files (Durable.logDir d) !! logFileName h) as [f|] eqn:E.
  - destruct (Registry.swept_files _ _ _ Hs _ _ E) as [->|(-> & _ & h' & Hp & Hu)]; [by left|right].
    rewrite parse_logFileName in Hp by done. apply Ok_inj in Hp as <-. done.
  - rewrite (Registry.swept_files_none _ _ _ Hs _ E). by left.
Qed.

Lemma marked_log fl now U d h :
  handle_ok h → Forall handle_ok U → h ∉ U → log_of h (marked fl now U d) = log_of h d.
Proof.
  intros Hh HU Hin. unfold marked. destruct U; [done|]. unfold log_of, Durable.file_content.
  by rewrite Upload.Mark_file.
Qed.

End logs.

(** ** The invariant *)

Section data.
Context `{MapOrder} `{SortSlice} `{DFSReader D} `{!PartialWrites D} (dep : Deployment) (spin : nat).
Context (mapf : string → string → list KeyValue) (reducef : string → list string → string).
Implicit Types (w : World D) (h : Handle).

(** ** Where records are *)

Definition queued w : list Content := queue_of (Durable.log (durable w)).
Definition monitor_held w : list Content :=
  match monitor (goroutines w) with MonitorDrained cs => cs | _ => [] end.
Definition uploader_held w : list Content :=
  match uploader (goroutines w) with UploadDrained cs => cs | _ => [] end.

(** Records that have been taken and are not in a log file yet. *)
Definition pending w : list Content := monitor_held w ++ uploader_held w ++ queued w.
Definition waiting w h : list Content := WritePath.of_handle h (pending w).
Definition total_log w h : list byte := log_of h (durable w) ++ log_bytes (waiting w h).

Definition sent (st : ClientState) : list byte := accepted st ≫= Data.
Definition bytes_of w h : list byte := content_bytes (uploadPrefix dep) (storage w) h.
Definition ended (st : ClientState) : Prop := Exists (λ c, Eof c = true) (accepted st).

(** ** The invariant *)

(** A handle that is registered as received: its records are in the log and, after
    them, pending, it is completed when the end-of-file record is among them, and if
    an upload has been tried, a prefix of the data is in the DFS. *)
Definition received_ok w h (st : ClientState) (complete : bool) : Prop :=
  total_log w h = log_bytes (accepted st) ∧ (complete = true ↔ ended st) ∧
  (∃ m, bytes_of w h = take m (sent st)) ∧ (complete = false → bytes_of w h = []).

(** A handle that is not: either it has no records, or all its data has been
    delivered. *)
Definition unused w h (st : ClientState) : Prop :=
  accepted st = [] ∧ total_log w h = [] ∧
  Coordinator.dfs_content (storage w) (content_path dep h) = None.
Definition delivered w h (st : ClientState) : Prop :=
  Coordinator.dfs_content (storage w) (content_path dep h) = Some (sent st) ∧
  closed st = true ∧ ended st.

Definition client_ok w h (st : ClientState) : Prop :=
  Forall (λ c, CId c = h ∧ record_ok c) (accepted st) ∧
  match Durable.handles (durable w) !! h with
  | Some complete => received_ok w h st complete
  | None => waiting w h = [] ∧ (unused w h st ∨ delivered w h st)
  end.

(** Nothing of the handles being uploaded is pending, and those that are through
    have their data in the DFS. *)
Definition sending_ok w : Prop :=
  match uploader (goroutines w) with
  | Uploading todo uploaded =>
      Forall (λ h, waiting w h = []) (todo ++ uploaded) ∧
      Forall (λ h, ∃ st, clients w !! h = Some st ∧
        Coordinator.dfs_content (storage w) (content_path dep h) = Some (sent st)) uploaded
  | _ => True
  end.

Record data_ok w : Prop := {
  ok_pending : Forall (λ c, record_ok c ∧ is_Some (clients w !! CId c)) (pending w);
  ok_held h : WritePath.of_handle h (monitor_held w) = [] ∨ WritePath.of_handle h (uploader_held w) = [];
  ok_client h st : clients w !! h = Some st → client_ok w h st;
  ok_fresh h : handle_ok h → clients w !! h = None →
    total_log w h = [] ∧ Coordinator.dfs_content (storage w) (content_path dep h) = None;
  ok_sending : sending_ok w
}.

(** What a run may not do if nothing is to be lost: send a record of 4 GiB,
    overflow the ring, write records to the log after their handle has expired or
    fail to write them, drain the ring while the other goroutine still holds
    records of the same handle, or list a handle for upload while records of it
    are pending. *)
Definition lossless w (e : event) : Prop :=
  allowed dep w e ∧
  match e with
  | Forward _ request _ =>
      Z.of_nat (length (dr_Data request)) < 2 ^ 32 ∧
      Z.of_nat (length (queued w)) < Ring.Cap (Durable.log (durable w))
  | MonitorDrain => Forall (λ c, WritePath.of_handle (CId c) (uploader_held w) = []) (queued w)
  | UploadDrain => Forall (λ c, WritePath.of_handle (CId c) (monitor_held w) = []) (queued w)
  | MonitorWrite fl clock _ =>
      fl = Durable.no_faults ∧
      Forall (λ c, ∀ j, Durable.isHandleExpired (clock j) (CId c) (durable w) = false) (monitor_held w)
  | UploadWrite fl clock =>
      fl = Durable.no_faults ∧
      Forall (λ c, ∀ j, Durable.isHandleExpired (clock j) (CId c) (durable w) = false) (uploader_held w)
  | UploadList => Forall (λ c, Durable.handles (durable w) !! CId c ≠ Some true) (pending w)
  | _ => True
  end.

(** ** Frames *)

Lemma of_handle_none h cs : Forall (λ c, CId c ≠ h) cs → WritePath.of_handle h cs = [].
Proof.
  intros Hcs. apply Recovery.of_handle_nil. intros (c & Hin & E)%Exists_exists.
  rewrite Forall_forall in Hcs. by apply (Hcs c).
Qed.

Lemma of_handle_incl h cs c : c ∈ WritePath.of_handle h cs ↔ c ∈ cs ∧ CId c = h.
Proof. unfold WritePath.of_handle. rewrite list_elem_of_filter. tauto. Qed.

Lemma log_bytes_nil cs : log_bytes cs = [] → cs = [].
Proof. intros E. pose proof (log_bytes_length cs). rewrite E in *. destruct cs; cbn in *; [done|lia]. Qed.

Lemma total_nil w h : total_log w h = [] → waiting w h = [] ∧ log_of h (durable w) = [].
Proof. intros [E1 E2%log_bytes_nil]%app_nil. done. Qed.

Lemma total_none w h : waiting w h = [] → total_log w h = log_of h (durable w).
Proof. intros E. unfold total_log. rewrite E. apply (right_id_L [] (++)). Qed.

(** A client is as well off when its records are in the log or pending as before
    and its files have not been touched. *)
Lemma client_ok_same w w' h st :
  Coordinator.dfs_content (storage w') (content_path dep h) =
    Coordinator.dfs_content (storage w) (content_path dep h) →
  Durable.handles (durable w') !! h = Durable.handles (durable w) !! h →
  total_log w' h = total_log w h → (waiting w h = [] → waiting w' h = []) →
  client_ok w h st → client_ok w' h st.
Proof.
  intros Es Eh Et Ewait [Hacc Hh]. split; [done|]. rewrite Eh.
  unfold received_ok, unused, delivered, bytes_of, content_bytes, content_path in *. rewrite Es, Et.
  destruct (Durable.handles (durable w) !! h); [done|]. destruct Hh as [Hq Hcase]. auto.
Qed.

(** Records move between ring, goroutines and log; everything else stays. *)
Lemma data_moved w w' :
  coordinator_ok dep w → data_ok w →
  clients w' = clients w → storage w' = storage w →
  Durable.handles (durable w') = Durable.handles (durable w) →
  (∀ h, handle_ok h → total_log w' h = total_log w h) →
  (∀ h, WritePath.of_handle h (pending w') ⊆ WritePath.of_handle h (pending w)) →
  (∀ h, WritePath.of_handle h (monitor_held w') = [] ∨ WritePath.of_handle h (uploader_held w') = []) →
  (sending_ok w → sending_ok w') → data_ok w'.
Proof.
  intros Hc Hd Ec Es Eh Et Ep Hheld Hsend.
  assert (∀ h, waiting w h = [] → waiting w' h = []) as Hwait.
  { intros h E. specialize (Ep h). fold (waiting w h) (waiting w' h) in Ep. rewrite E in Ep.
    destruct (waiting w' h) as [|c cs]; [done|]. destruct (not_elem_of_nil c). apply Ep, list_elem_of_here. }
  split; rewrite ?Ec, ?Es; [|done|..].
  - apply Forall_forall. intros c Hin. pose proof (ok_pending _ Hd) as Hp. rewrite Forall_forall in Hp.
    apply (Hp c). assert (c ∈ WritePath.of_handle (CId c) (pending w')) as Hin' by (by apply of_handle_incl).
    by apply Ep, of_handle_incl in Hin' as [? _].
  - intros h st Hst. apply (client_ok_same w); [by rewrite Es|by rewrite Eh| |auto|by apply ok_client].
    apply Et. apply (ok_clients _ _ Hc). by eexists.
  - intros h Hh Hn. rewrite Et by done. by apply ok_fresh.
  - apply Hsend, ok_sending, Hd.
Qed.

(** Clients, DFS, registered handles, ring, logs and what the goroutines hold are
    the same. *)
Definition same_data w w' : Prop :=
  clients w' = clients w ∧ storage w' = storage w ∧
  Durable.handles (durable w') = Durable.handles (durable w) ∧
  Durable.log (durable w') = Durable.log (durable w) ∧
  Durable.logDir (durable w') = Durable.logDir (durable w) ∧
  monitor (goroutines w') = monitor (goroutines w) ∧ uploader (goroutines w') = uploader (goroutines w).

Lemma data_ok_same w w' : coordinator_ok dep w → same_data w w' → data_ok w → data_ok w'.
Proof.
  intros Hc (Ec & Es & Eh & El & Ed & Em & Eu) Hd.
  assert (pending w' = pending w) as Ep.
  { unfold pending, queued, monitor_held, uploader_held. by rewrite El, Em, Eu. }
  apply (data_moved w w' Hc Hd); try done.
  - intros h _. unfold total_log, waiting, log_of. by rewrite Ep, Ed.
  - intros h. by rewrite Ep.
  - unfold monitor_held, uploader_held. rewrite Em, Eu. apply Hd.
  - unfold sending_ok, waiting. by rewrite Eu, Ep, Ec, Es.
Qed.

Lemma fresh_not_waiting w h :
  data_ok w → clients w !! h = None → waiting w h = [].
Proof.
  intros Hd Hn. apply Recovery.of_handle_nil. intros (c & Hin & <-)%Exists_exists.
  pose proof (ok_pending _ Hd) as Hq. rewrite Forall_forall in Hq. destruct (Hq c Hin) as [_ [st Hst]].
  congruence.
Qed.

(** ** Events of clients *)

(** A client that stops without having sent anything more. *)
Lemma client_ok_closed w h st : client_ok w h st → client_ok w h (MkClient (accepted st) true).
Proof.
  intros [Hacc Hh]. split; [done|]. destruct (Durable.handles (durable w) !! h) as [b|]; [done|].
  destruct Hh as [Hq [Hun|(Hc & _ & He)]]; (split; [done|]); [by left|by right].
Qed.

(** What is being uploaded belongs to clients that have stopped. *)
Lemma sending_closed w todo uploaded h st :
  world_ok dep mapf reducef w → uploader (goroutines w) = Uploading todo uploaded →
  h ∈ todo ++ uploaded → clients w !! h = Some st → closed st = true.
Proof.
  intros Hw Eu Hin Hst. pose proof (ok_uploader _ _ _ _ Hw) as Hup. unfold uploader_ok in Hup.
  rewrite Eu in Hup. destruct Hup as (_ & Hreg & _). rewrite Forall_forall in Hreg.
  destruct (ok_handles _ _ (ok_coordinator _ _ _ _ Hw) h true (Hreg h Hin)) as (st' & Hst' & Hcl).
  rewrite Hst in Hst'. injection Hst' as <-. by apply Hcl.
Qed.

Lemma sending_same w w' :
  uploader (goroutines w') = uploader (goroutines w) → storage w' = storage w →
  (∀ todo uploaded h, uploader (goroutines w) = Uploading todo uploaded → h ∈ todo ++ uploaded →
     waiting w h = [] → waiting w' h = []) →
  (∀ todo uploaded h, uploader (goroutines w) = Uploading todo uploaded → h ∈ uploaded →
     clients w' !! h = clients w !! h) →
  sending_ok w → sending_ok w'.
Proof.
  intros Eu Es Hwait Hcl. unfold sending_ok. rewrite Eu, Es.
  destruct (uploader (goroutines w)) as [| | |todo uploaded] eqn:E; [done..|].
  intros [H3 H4]. rewrite Forall_forall in H3. rewrite Forall_forall in H4.
  split; apply Forall_forall; intros h Hin; [by eapply Hwait; eauto|].
  by erewrite Hcl; eauto.
Qed.

Lemma grant_data now w w' :
  world_ok dep mapf reducef w → data_ok w → lossless w (GrantHandle now) →
  handle_event dep (S spin) (GrantHandle now) w = Ret w' → data_ok w'.
Proof.
  intros Hw Hd [Hg _] E. pose proof (ok_coordinator _ _ _ _ Hw) as Hc.
  destruct (granted_handle dep now w Hc Hg) as (Hhok & _ & Hfresh & _).
  apply Ret_inj in E. cbn [Coordinator.RPCGenerateDownloadHandle fst snd hp_Handle] in E.
  fold (durable w) in E. set (h := (Durable.GenerateHandle now (durable w)).1) in *.
  assert (storage w' = storage w ∧ Durable.handles (durable w') = Durable.handles (durable w) ∧
    pending w' = pending w ∧ (∀ h, total_log w' h = total_log w h) ∧ goroutines w' = goroutines w)
    as (Es & Eh & Ep & Et & Eg) by (by subst w').
  assert (clients w' = <[h := MkClient [] false]> (clients w)) as Ec by (by subst w').
  assert (∀ h, waiting w' h = waiting w h) as Ew by (intros h'; unfold waiting; by rewrite Ep).
  clear E. split.
  - rewrite Ep. eapply Forall_impl; [exact (ok_pending _ Hd)|]. intros c [? ?]. split; [done|].
    rewrite Ec. apply lookup_insert_is_Some'. by right.
  - unfold monitor_held, uploader_held. rewrite Eg. apply Hd.
  - intros h' st. rewrite Ec. intros [[<- <-]|[Hne Hst]]%lookup_insert_Some.
    + split; [constructor|]. rewrite Eh. destruct (Durable.handles (durable w) !! h) as [b|] eqn:Eb.
      { destruct (ok_handles _ _ Hc h b Eb) as (st & Hst & _). congruence. }
      rewrite Ew. split; [by apply fresh_not_waiting|left].
      destruct (ok_fresh _ Hd h Hhok Hfresh) as [? ?]. unfold unused. by rewrite Et, Es.
    + apply (client_ok_same w); [by rewrite Es|by rewrite Eh|done|by rewrite Ew|]. by apply ok_client.
  - intros h' Hh'. rewrite Ec, lookup_insert_None. intros [Hn _]. rewrite Et, Es. by apply ok_fresh.
  - apply (sending_same w); [by rewrite Eg|done|intros; by rewrite Ew| |apply Hd].
    intros todo uploaded h' Eu Hin. rewrite Ec. apply lookup_insert_ne. intros <-.
    pose proof (ok_sending _ Hd) as Hs. unfold sending_ok in Hs. rewrite Eu in Hs.
    destruct Hs as [_ Hs]. rewrite Forall_forall in Hs. destruct (Hs _ Hin) as (st & ? & _). congruence.
Qed.

(** What a record the coordinator takes does to its client. *)
Lemma client_sends w w' h st st' c :
  coordinator_ok dep w → client_ok w h st → clients w !! h = Some st → closed st = false →
  CId c = h → storage w' = storage w → record_ok c →
  Durable.handles (durable w') = Durable.register c (Durable.handles (durable w)) →
  total_log w' h = total_log w h ++ log_bytes [c] →
  accepted st' = accepted st ++ [c] → client_ok w' h st'.
Proof.
  intros Hc [Hacc Hh] Hst Hopen Eid Es Hrec Eh Et Ea.
  assert (∀ b, Durable.handles (durable w) !! h = Some b → b = false) as Hreg.
  { intros [] Eb; [|done]. destruct (ok_handles _ _ Hc h true Eb) as (st0 & Hst0 & Hcl).
    rewrite Hst in Hst0. injection Hst0 as <-. by rewrite Hcl in Hopen by done. }
  assert (total_log w h = log_bytes (accepted st) ∧ bytes_of w h = [] ∧ ¬ ended st)
    as (Elog & Ebytes & Hend).
  { destruct (Durable.handles (durable w) !! h) as [b|] eqn:Eb.
    - destruct Hh as (Elog & He & _ & Hb). specialize (Hreg b eq_refl). split_and!; [done|by apply Hb|].
      by intros Hb'%He; subst.
    - destruct Hh as [Hq [(Ea0 & El0 & Ec0)|(_ & Hcl & _)]]; [|by rewrite Hcl in Hopen].
      rewrite El0. unfold ended. rewrite Ea0. split_and!; [done| |by intros ?%Exists_nil].
      unfold bytes_of, content_bytes, content_path in *. by rewrite Ec0. }
  assert (received_ok w' h st' (Eof c)) as Hrec'.
  { unfold received_ok, bytes_of in *. rewrite Es, Et, Ea, Elog, log_bytes_app, Ebytes.
    split_and!; [done| |by exists 0%nat|done].
    unfold ended in *. rewrite Ea, Exists_app. split; [right; by constructor|].
    intros [?|[?|[]%Exists_nil]%Exists_cons]; done. }
  split; [rewrite Ea; apply Forall_app; split; [done|by apply Forall_singleton]|].
  rewrite Eh. unfold Durable.register. rewrite Eid.
  destruct (Eof c); [by rewrite lookup_insert_eq|].
  destruct (Durable.handles (durable w) !! h) as [[]|] eqn:Eb; [|by rewrite lookup_insert_eq..].
  by specialize (Hreg true eq_refl).
Qed.

Lemma register_other c hs h : h ≠ CId c → Durable.register c hs !! h = hs !! h.
Proof.
  intros Hne. unfold Durable.register. repeat case_match; try done; by rewrite lookup_insert_ne.
Qed.

Lemma forward_data now request lost w w' :
  world_ok dep mapf reducef w → data_ok w → lossless w (Forward now request lost) →
  handle_event dep (S spin) (Forward now request lost) w = Ret w' → data_ok w'.
Proof.
  intros Hw Hd [(st & Hst & Hopen) [Hlen Hroom]]. pose proof (ok_coordinator _ _ _ _ Hw) as Hc.
  cbn [handle_event]. unfold Coordinator.RPCForwardDownload. fold (content_of request) (durable w).
  set (c := content_of request). set (h := dr_Handle request) in *.
  destruct (ok_ring _ _ Hc) as [q Hr]. assert (queued w = q) as Eq by (by apply queue_of_repr).
  rewrite Eq in Hroom.
  assert (record_ok c) as Hrec by (split; [by apply (ok_clients _ _ Hc h); eexists|done]).
  assert (∀ todo uploaded h', uploader (goroutines w) = Uploading todo uploaded → h' ∈ todo ++ uploaded →
    h' ≠ h) as Hne.
  { intros todo uploaded h' Eu Hin ->. by rewrite (sending_closed w todo uploaded h st Hw Eu Hin Hst) in Hopen. }
  destruct (Durable.isHandleExpired now (CId c) (durable w)) eqn:Ee.
  - unfold Durable.Write. rewrite Ee. cbn [mbind outcome_bind fst snd dp_Status]. intros <-%Ret_inj.
    match goal with |- data_ok ?x => set (w' := x) end.
    assert (clients w' = alter (λ st, MkClient (accepted st) true) h (clients w)) as Ec by done.
    split.
    + eapply Forall_impl; [exact (ok_pending _ Hd)|]. intros c' [? ?]. split; [done|].
      rewrite Ec. by rewrite lookup_alter_is_Some.
    + apply (ok_held _ Hd).
    + intros h' st'. rewrite Ec. intros [(<- & st0 & Hst0 & ->)|[Hne' Hst']]%lookup_alter_Some;
        [apply (client_ok_closed _ h st0)|]; (apply (client_ok_same w); [done..|]); by apply ok_client.
    + intros h' Hh'. rewrite Ec. intros Hn%lookup_alter_None. exact (ok_fresh _ Hd h' Hh' Hn).
    + apply (sending_same w); [done|done|done| |apply Hd]. intros todo uploaded h' Eu Hin. rewrite Ec.
      apply lookup_alter_ne, not_eq_sym, (Hne todo uploaded); [done|]. apply elem_of_app. by right.
  - destruct (WritePath.Write_live spin now c (durable w) q Hr Ee) as (rb & Hrb & _ & ->).
    rewrite WritePath.accept_room in * by done. cbn [mbind outcome_bind fst snd dp_Status] in *.
    intros <-%Ret_inj. match goal with |- data_ok ?x => set (w' := x) end.
    assert (queued w' = queued w ++ [c]) as Eq' by (rewrite Eq; by apply queue_of_repr).
    assert (pending w' = pending w ++ [c]) as Ep.
    { unfold pending. rewrite Eq', !(assoc_L (++)). done. }
    assert (clients w' = alter (record_answered c true lost) h (clients w)) as Ec by done.
    assert (∀ h', is_Some (clients w' !! h') ↔ is_Some (clients w !! h')) as Hdom.
    { intros h'. apply lookup_alter_is_Some. }
    assert (∀ h', h' ≠ h → waiting w' h' = waiting w h') as Ew.
    { intros h' Hne'. unfold waiting. rewrite Ep, of_handle_app, (of_handle_none h' [c]).
      - apply (right_id_L [] (++)).
      - apply Forall_singleton. by apply not_eq_sym. }
    split.
    + rewrite Ep. apply Forall_app. split.
      * eapply Forall_impl; [exact (ok_pending _ Hd)|]. intros c' [? ?]. by rewrite Hdom.
      * apply Forall_singleton. split; [done|]. apply Hdom. by eexists.
    + apply (ok_held _ Hd).
    + intros h' st'. rewrite Ec. intros [(<- & st0 & Hst0 & ->)|[Hne' Hst']]%lookup_alter_Some.
      * rewrite Hst in Hst0. injection Hst0 as <-. apply (client_sends w w' h st _ c); try done.
        { by apply ok_client. }
        unfold total_log, waiting. rewrite Ep, of_handle_app, log_bytes_app, (assoc_L (++)). do 2 f_equal.
        apply WritePath.of_handle_all. by apply Forall_singleton.
      * apply (client_ok_same w); [done|by apply register_other, not_eq_sym| | |by apply ok_client].
        -- unfold total_log. by rewrite Ew by (by apply not_eq_sym).
        -- by rewrite Ew by (by apply not_eq_sym).
    + intros h' Hh'. rewrite Ec. intros Hn%lookup_alter_None. unfold total_log.
      rewrite Ew by (intros ->; congruence). exact (ok_fresh _ Hd h' Hh' Hn).
    + apply (sending_same w); [done|done| | |apply Hd].
      * intros todo uploaded h' Eu Hin. by rewrite Ew by (by eapply Hne).
      * intros todo uploaded h' Eu Hin. rewrite Ec.
        apply lookup_alter_ne, not_eq_sym, (Hne todo uploaded); [done|]. apply elem_of_app. by right.
Qed.

(** ** Flushes *)

Lemma of_handle_apart h q cs :
  Forall (λ c, WritePath.of_handle (CId c) cs = []) q →
  WritePath.of_handle h q = [] ∨ WritePath.of_handle h cs = [].
Proof.
  intros Hq. destruct (WritePath.of_handle h q) as [|c q'] eqn:E; [by left|right].
  assert (c ∈ WritePath.of_handle h q) as Hin by (rewrite E; apply list_elem_of_here).
  apply of_handle_incl in Hin as [Hin <-]. rewrite Forall_forall in Hq. by apply Hq.
Qed.

(** Records change hands. *)
Lemma data_handed w w' :
  coordinator_ok dep w → data_ok w →
  clients w' = clients w → storage w' = storage w →
  Durable.handles (durable w') = Durable.handles (durable w) →
  Durable.logDir (durable w') = Durable.logDir (durable w) →
  (∀ h, waiting w' h = waiting w h) →
  (∀ h, WritePath.of_handle h (monitor_held w') = [] ∨ WritePath.of_handle h (uploader_held w') = []) →
  (sending_ok w → sending_ok w') → data_ok w'.
Proof.
  intros Hc Hd Ec Es Eh Ed Ew Hheld Hsend. apply (data_moved w); try done.
  - intros h _. unfold total_log, log_of. by rewrite Ew, Ed.
  - intros h. fold (waiting w' h) (waiting w h). by rewrite Ew.
Qed.

Lemma monitor_drain_data w w' :
  world_ok dep mapf reducef w → data_ok w → lossless w MonitorDrain →
  handle_event dep (S spin) MonitorDrain w = Ret w' → data_ok w'.
Proof.
  intros Hw Hd [_ Hapart]. pose proof (ok_coordinator _ _ _ _ Hw) as Hc. cbn [handle_event]. fold (durable w).
  destruct (monitor (goroutines w)) eqn:Em; [|by intros <-%Ret_inj].
  destruct (ok_ring _ _ Hc) as [q Hr]. assert (queued w = q) as Eq by (by apply queue_of_repr).
  destruct (drain_ok spin _ q Hr) as (rb & -> & Hr' & _). cbn [mbind outcome_bind fst snd].
  intros <-%Ret_inj. match goal with |- data_ok ?x => set (w' := x) end.
  assert (queued w' = []) as Eq' by (by apply queue_of_repr).
  assert (monitor_held w = []) as Em' by (unfold monitor_held; by rewrite Em).
  assert (∀ h, waiting w' h = waiting w h) as Ew.
  { intros h. unfold waiting, pending. rewrite Eq', Em'. change (monitor_held w') with q.
    change (uploader_held w') with (uploader_held w). rewrite Eq in *.
    rewrite (right_id_L [] (++)). cbn [app]. rewrite !of_handle_app.
    destruct (of_handle_apart h _ _ Hapart) as [-> | ->]; by rewrite ?(right_id_L [] (++)). }
  apply (data_handed w); try done.
  - intros h. change (monitor_held w') with q. rewrite <- Eq. by apply of_handle_apart.
  - apply (sending_same w); [done|done| |done]. intros. by rewrite Ew.
Qed.

Lemma upload_drain_data w w' :
  world_ok dep mapf reducef w → data_ok w → lossless w UploadDrain →
  handle_event dep (S spin) UploadDrain w = Ret w' → data_ok w'.
Proof.
  intros Hw Hd [_ Hapart]. pose proof (ok_coordinator _ _ _ _ Hw) as Hc. cbn [handle_event]. fold (durable w).
  destruct (uploader (goroutines w)) eqn:Eu; [|by intros <-%Ret_inj..].
  case_bool_decide; [by intros <-%Ret_inj|].
  destruct (ok_ring _ _ Hc) as [q Hr]. assert (queued w = q) as Eq by (by apply queue_of_repr).
  destruct (drain_ok spin _ q Hr) as (rb & -> & Hr' & _). cbn [mbind outcome_bind fst snd].
  intros <-%Ret_inj. match goal with |- data_ok ?x => set (w' := x) end.
  assert (queued w' = []) as Eq' by (by apply queue_of_repr).
  apply (data_handed w); try done.
  - intros h. unfold waiting, pending. rewrite Eq', Eq. change (uploader_held w') with q.
    change (monitor_held w') with (monitor_held w). unfold uploader_held. rewrite Eu.
    by rewrite (right_id_L [] (++)).
  - intros h. change (uploader_held w') with q. change (monitor_held w') with (monitor_held w).
    rewrite <- Eq. by apply or_comm, of_handle_apart.
Qed.

(** Without faults, records of live handles are appended to the logs of their
    handles. *)
Lemma snapshot_log clock cs w :
  coordinator_ok dep w → Forall (λ c, record_ok c ∧ is_Some (clients w !! CId c)) cs →
  Forall (λ c, ∀ j, Durable.isHandleExpired (clock j) (CId c) (durable w) = false) cs →
  ∀ h, handle_ok h →
    log_of h (write_snapshot Durable.no_faults clock cs (durable w)) =
      log_of h (durable w) ++ log_bytes (WritePath.of_handle h cs).
Proof.
  intros Hc Hcs Hlive h Hh. unfold write_snapshot. destruct cs as [|c cs'].
  { symmetry. apply (right_id_L [] (++)). }
  set (cs := c :: cs') in *.
  destruct (WritePath.syncContentsToFile_ok clock cs (durable w)) as (d' & -> & _ & Hlog & _).
  { eapply Forall_impl; [exact Hcs|]. intros x [[Hok _] _]. exact Hok. }
  unfold log_of. cbn [fst]. rewrite Hlog by done. rewrite WritePath.live_contents_all; [done|].
  intros j e He. pose proof (list_elem_of_lookup_2 _ _ _ He) as Hin. rewrite Forall_forall in Hcs.
  rewrite Forall_forall in Hlive. destruct (Hcs e Hin) as [_ Hcl].
  destruct (ok_clients _ _ Hc _ Hcl) as [_ ?]. split; [lia|by apply Hlive].
Qed.

(** ... and are no longer pending. *)
Lemma data_written w w' clock m cs q :
  coordinator_ok dep w → data_ok w →
  Forall (λ c, ∀ j, Durable.isHandleExpired (clock j) (CId c) (durable w) = false) cs →
  pending w = m ++ cs ++ q → pending w' = m ++ q →
  (∀ h, WritePath.of_handle h m = [] ∨ WritePath.of_handle h cs = []) →
  clients w' = clients w → storage w' = storage w →
  Durable.handles (durable w') = Durable.handles (durable w) →
  (∀ h, log_of h (durable w') = log_of h (write_snapshot Durable.no_faults clock cs (durable w))) →
  (∀ h, WritePath.of_handle h (monitor_held w') = [] ∨ WritePath.of_handle h (uploader_held w') = []) →
  (sending_ok w → sending_ok w') → data_ok w'.
Proof.
  intros Hc Hd Hlive Ep Ep' Happ Ec Es Eh El Hheld Hsend. pose proof (ok_pending _ Hd) as Hp.
  rewrite Ep in Hp. apply Forall_app in Hp as [_ [Hp _]%Forall_app].
  apply (data_moved w); try done.
  - intros h Hh. unfold total_log, waiting. rewrite El, Ep, Ep', snapshot_log by done.
    rewrite !of_handle_app, !log_bytes_app. destruct (Happ h) as [-> | ->];
      change (log_bytes []) with (@nil byte); cbn [app].
    + symmetry. apply (assoc_L (++)).
    + by rewrite (right_id_L [] (++)).
  - intros h x. rewrite Ep, Ep', !of_handle_app, !elem_of_app. tauto.
Qed.

(** A sending handle has nothing pending, less so when less is pending. *)
Lemma sending_less w w' :
  uploader (goroutines w') = uploader (goroutines w) → storage w' = storage w →
  clients w' = clients w → pending w' ⊆ pending w → sending_ok w → sending_ok w'.
Proof.
  intros Eu Es Ec Hp. apply sending_same; [done|done| |by rewrite Ec].
  intros _ _ h _ _ E. apply Recovery.of_handle_nil. intros (c & Hin%Hp & <-)%Exists_exists.
  assert (c ∈ waiting w (CId c)) as Hc by (by apply of_handle_incl).
  rewrite E in Hc. by apply not_elem_of_nil in Hc.
Qed.

Lemma monitor_write_data fl clock now w w' :
  world_ok dep mapf reducef w → data_ok w → lossless w (MonitorWrite fl clock now) →
  handle_event dep (S spin) (MonitorWrite fl clock now) w = Ret w' → data_ok w'.
Proof.
  intros Hw Hd [_ [-> Hlive]]. pose proof (ok_coordinator _ _ _ _ Hw) as Hc. cbn [handle_event]. fold (durable w).
  unfold monitor_held in Hlive. destruct (monitor (goroutines w)) as [|cs] eqn:Em; [by intros <-%Ret_inj|].
  intros <-%Ret_inj. match goal with |- data_ok ?x => set (w' := x) end.
  pose proof (write_snapshot_dir Durable.no_faults clock cs (durable w)) as E1.
  set (d1 := write_snapshot _ _ _ _) in *.
  set (d2 := Durable.saveUploadedHandles Durable.no_faults now (Durable.pruneProcessingHandles now d1)) in *.
  assert (durable w' = d2) as Ed by done.
  pose proof (Registry.saveUploadedHandles_frame Durable.no_faults now
    (Durable.pruneProcessingHandles now d1)) as E2. fold d2 in E2. rewrite E1 in E2.
  unfold Durable.pruneProcessingHandles in E2.
  assert (pending w' = uploader_held w ++ queued w) as Ep'.
  { unfold pending, queued. rewrite Ed, E2. done. }
  assert (pending w = [] ++ cs ++ uploader_held w ++ queued w) as Ep.
  { unfold pending, monitor_held. by rewrite Em. }
  apply (data_written w w' clock [] cs (uploader_held w ++ queued w)); try done.
  - by left.
  - by rewrite Ed, E2.
  - intros h. rewrite Ed. unfold d2. rewrite save_log. done.
  - by left.
  - apply sending_less; [done..|]. intros x. rewrite Ep, Ep'. cbn [app]. rewrite !elem_of_app. tauto.
Qed.

Lemma upload_write_data fl clock w w' :
  world_ok dep mapf reducef w → data_ok w → lossless w (UploadWrite fl clock) →
  handle_event dep (S spin) (UploadWrite fl clock) w = Ret w' → data_ok w'.
Proof.
  intros Hw Hd [_ [-> Hlive]]. pose proof (ok_coordinator _ _ _ _ Hw) as Hc. cbn [handle_event]. fold (durable w).
  pose proof (ok_held _ Hd) as Hheld. unfold uploader_held in Hlive, Hheld.
  destruct (uploader (goroutines w)) as [|cs| |] eqn:Eu; [by intros <-%Ret_inj| |by intros <-%Ret_inj..].
  intros <-%Ret_inj. match goal with |- data_ok ?x => set (w' := x) end.
  pose proof (write_snapshot_dir Durable.no_faults clock cs (durable w)) as E1.
  set (d1 := write_snapshot _ _ _ _) in *. assert (durable w' = d1) as Ed by done.
  apply (data_written w w' clock (monitor_held w) cs (queued w)); try done.
  - unfold pending, uploader_held. by rewrite Eu.
  - unfold pending, queued. rewrite Ed, E1. done.
  - by rewrite Ed, E1.
  - by right.
Qed.

(** Sweeping the log directory removes only logs of data that is in the DFS. *)
Lemma sweep_data fl now w w' :
  world_ok dep mapf reducef w → data_ok w →
  handle_event dep (S spin) (Sweep fl now) w = Ret w' → data_ok w'.
Proof.
  intros Hw Hd. pose proof (ok_coordinator _ _ _ _ Hw) as Hc. cbn [handle_event]. fold (durable w).
  destruct (monitor (goroutines w)); [|by intros <-%Ret_inj]. intros <-%Ret_inj.
  destruct (performLogDeletion_frame fl now (durable w)) as (_ & El & Eh & _).
  pose proof (λ h, deletion_log fl now (durable w) h) as Hlog.
  set (d' := Durable.performLogDeletion fl now (durable w)) in *.
  match goal with |- data_ok ?x => set (w' := x) end. assert (durable w' = d') as Ed by done.
  assert (pending w' = pending w) as Ep by (unfold pending, queued; by rewrite Ed, El).
  assert (∀ h, waiting w' h = waiting w h) as Ew by (intros h; unfold waiting; by rewrite Ep).
  split.
  - rewrite Ep. apply Hd.
  - apply (ok_held _ Hd).
  - intros h st Hst. pose proof (ok_client _ Hd h st Hst) as Hcl.
    destruct (ok_clients _ _ Hc h) as [Hhok _]; [by eexists|].
    destruct (Hlog h Hhok) as [Elog|[Elog Hup]].
    { apply (client_ok_same w); [done|by rewrite Ed, Eh| |by rewrite Ew|done].
      unfold total_log. by rewrite Ed, Elog, Ew. }
    destruct (ok_uploaded _ _ Hc h Hup) as (data & _ & Hnone & Hcon & _).
    destruct Hcl as [Hacc Hh]. split; [done|]. rewrite Ed, Eh, Ew. rewrite Hnone in *.
    destruct Hh as [Hq [(_ & _ & Hno)|Hdel]]; [congruence|]. split; [done|by right].
  - intros h Hh Hn. destruct (ok_fresh _ Hd h Hh Hn) as [[Eq0 El0]%total_nil Ec0]. split; [|done].
    rewrite total_none by (by rewrite Ew). rewrite Ed. destruct (Hlog h Hh) as [->|[-> _]]; done.
  - apply (sending_same w); [done|done|intros; by rewrite Ew|done|apply Hd].
Qed.

(** ** Uploads *)

Lemma upload_list_data w w' :
  world_ok dep mapf reducef w → data_ok w → lossless w UploadList →
  handle_event dep (S spin) UploadList w = Ret w' → data_ok w'.
Proof.
  intros Hw Hd [_ Hsafe]. pose proof (ok_coordinator _ _ _ _ Hw) as Hc. cbn [handle_event]. fold (durable w).
  destruct (uploader (goroutines w)) eqn:Eu; [by intros <-%Ret_inj..| |by intros <-%Ret_inj].
  intros <-%Ret_inj. match goal with |- data_ok ?x => set (w' := x) end.
  assert (uploader_held w' = []) as Eu'.
  { unfold uploader_held, w'. cbn. by destruct (Durable.GetCompletedHandleForRetransmission (durable w)). }
  assert (pending w' = pending w) as Ep.
  { unfold pending. rewrite Eu'. change (queued w') with (queued w).
    change (monitor_held w') with (monitor_held w). unfold uploader_held. by rewrite Eu. }
  apply (data_handed w); try done.
  - intros h. unfold waiting. by rewrite Ep.
  - intros h. rewrite Eu'. by right.
  - intros _. unfold sending_ok, w'. cbn [goroutines uploader set_uploader set_goroutines]. fold w'.
    pose proof (Upload.elem_of_completed (durable w)) as Hin.
    destruct (Durable.GetCompletedHandleForRetransmission (durable w)) as [|h0 hs]; [done|].
    rewrite (right_id_L [] (++)). split; [|constructor]. apply Forall_forall. intros h Hh%Hin.
    unfold waiting. rewrite Ep. apply of_handle_none. eapply Forall_impl; [exact Hsafe|].
    cbn beta. intros c Hne E. by rewrite E in Hne.
Qed.

(** The log of a completed handle of which nothing is pending decodes to what the
    client sent. *)
Lemma decode_sent w h st :
  client_ok w h st → Durable.handles (durable w) !! h = Some true → waiting w h = [] →
  Coordinator.decodeDlogContent Durable.no_faults h (durable w) = Ret (Ok (sent st)).
Proof.
  intros [Hacc Hcl] Eb Ew. rewrite Eb in Hcl. destruct Hcl as (Elog & Hend & _).
  rewrite total_none in Elog by done. pose proof (proj1 Hend eq_refl) as Hend'.
  assert (Forall record_ok (accepted st)) as Hrec by (eapply Forall_impl; [exact Hacc|by intros c []]).
  pose proof (decode_log_bytes _ Hrec) as Hdec.
  pose proof (log_bytes_length (accepted st)) as Hlen. rewrite <- Elog in Hdec, Hlen.
  unfold Coordinator.decodeDlogContent, log_of, Durable.file_content in *.
  destruct (Durable.d_files (Durable.logDir (durable w)) !! logFileName h) as [f|]; [exact Hdec|].
  unfold ended in Hend'. destruct (accepted st); [by apply Exists_nil in Hend'|]. cbn in Hlen. lia.
Qed.

(** One handle is tried: a prefix of its data is in the DFS afterwards, all of it
    if it went through; the files of the others are as before. *)
Lemma upload_next_data fl at_ cancelled w w' :
  world_ok dep mapf reducef w → data_ok w →
  handle_event dep (S spin) (UploadNext fl at_ cancelled) w = Ret w' → data_ok w'.
Proof using All.
  intros Hw Hd. pose proof (ok_coordinator _ _ _ _ Hw) as Hc. cbn [handle_event]. fold (durable w).
  pose proof (ok_uploader _ _ _ _ Hw) as Hup. pose proof (ok_sending _ Hd) as Hsend.
  unfold uploader_ok in Hup. unfold sending_ok in Hsend.
  destruct (uploader (goroutines w)) as [| | |[|h todo] uploaded] eqn:Eu; [by intros <-%Ret_inj..|].
  destruct Hup as (Hnd & Hreg & _). destruct Hsend as [Hwait Hsent]. cbn [app] in *.
  apply NoDup_cons in Hnd as [Hnin Hnd]. apply Forall_cons in Hreg as [Hh Hreg].
  apply Forall_cons in Hwait as [Hwh Hwait].
  destruct (ok_handles _ _ Hc h true Hh) as (st & Hst & _).
  assert (∀ h, is_Some (clients w !! h) → handle_ok h) as Hok by (intros h' Hs; by apply (ok_clients _ _ Hc)).
  assert (handle_ok h) as Hhok by (apply Hok; by eexists).
  pose proof (ok_client _ Hd h st Hst) as Hcl. pose proof (decode_sent w h st Hcl Hh Hwh) as Hdec.
  destruct Hcl as [Hacc Hrcv]. rewrite Hh in Hrcv. destruct Hrcv as (Elog & Hend & (m & Hm) & _).
  set (env := uploadPrefix dep) in *.
  destruct (Upload.upload_handle_spec fl (logPath dep) env at_ (λ _, cancelled) (durable w) h (storage w))
    as (dfs' & e & E & Hfr & Hdone). rewrite E. cbn [mbind outcome_bind fst snd]. intros <-%Ret_inj.
  match goal with |- data_ok ?x => set (w' := x) end.
  destruct (upload_handle_prefix _ _ _ _ _ _ _ _ _ _ _ Hdec E) as [n Hn].
  assert (Upload.untouched env [h] (storage w) dfs') as Hun.
  { intros q [[H3 H4] _]%Forall_cons. by apply Hfr. }
  assert (∀ h', handle_ok h' → h' ≠ h → Coordinator.dfs_content (storage w') (content_path dep h') =
      Coordinator.dfs_content (storage w) (content_path dep h')) as Hsame.
  { intros h' Hok' Hne. apply (untouched_files env h' [h]); [done|done|by apply Forall_singleton|].
    by intros ->%list_elem_of_singleton. }
  assert (pending w' = pending w) as Ep by (unfold pending, uploader_held; by rewrite Eu).
  assert (∀ h, waiting w' h = waiting w h) as Ew by (intros h'; unfold waiting; by rewrite Ep).
  assert (∀ h, total_log w' h = total_log w h) as Et by (intros h'; unfold total_log; by rewrite Ew).
  split.
  - rewrite Ep. apply Hd.
  - intros h'. right. done.
  - intros h' st' Hst'. destruct (decide (h' = h)) as [->|Hne].
    + change (clients w') with (clients w) in Hst'. rewrite Hst in Hst'. injection Hst' as <-.
      split; [done|]. change (durable w') with (durable w). rewrite Hh. split_and!; [by rewrite Et|done| |done].
      unfold bytes_of in *. exists (n `max` m)%nat. change (storage w') with dfs'. fold env in Hm |- *.
      rewrite Hn, Hm. apply prefix_over_prefix.
    + apply (client_ok_same w); [apply Hsame; [apply Hok; by eexists|done]|done|by rewrite Et|by rewrite Ew|].
      by apply ok_client.
  - intros h' Hok' Hn'. rewrite Et, Hsame; [by apply ok_fresh|done|]. intros ->.
    change (clients w') with (clients w) in Hn'. congruence.
  - assert (∀ h', h' ∈ uploaded → ∃ st, clients w' !! h' = Some st ∧
      Coordinator.dfs_content (storage w') (content_path dep h') = Some (sent st)) as Hsent'.
    { intros h' Hin. rewrite Forall_forall in Hsent. destruct (Hsent h' Hin) as (st' & Hst' & Hcon).
      exists st'. split; [done|]. rewrite Hsame; [done|apply Hok; by eexists|].
      intros ->. apply Hnin, elem_of_app. by right. }
    assert (∀ h', h' ∈ todo ++ uploaded ∨ h' = h → waiting w' h' = []) as Hwait'.
    { intros h'. rewrite Ew. rewrite Forall_forall in Hwait. intros [Hin| ->]; [by apply Hwait|done]. }
    unfold sending_ok. unfold w' at 1. cbn [goroutines uploader set_uploader set_goroutines].
    split; apply Forall_forall; intros h' Hin.
    + apply Hwait'. revert Hin. destruct e; rewrite !elem_of_app, ?list_elem_of_singleton; tauto.
    + destruct e as [e|]; [by apply Hsent'|]. apply elem_of_app in Hin as [Hin| ->%list_elem_of_singleton];
        [by apply Hsent'|]. exists st. split; [done|]. destruct (Hdone eq_refl) as (data & Hdec' & Hcon).
      destruct (decode_faults fl h (durable w) (sent st) Hdec) as [Hdec2|[err Hdec2]]; [|congruence].
      rewrite Hdec2 in Hdec'. injection Hdec' as <-. change (storage w') with dfs'.
      unfold content_path, bytes_of, content_bytes in *. fold env in Hm |- *. rewrite Upload.contentPath_base in *.
      rewrite Hcon, Hm. f_equal. apply data_over_prefix.
Qed.

(** What has been uploaded is no longer registered; its log goes. *)
Lemma upload_mark_data fl now w w' :
  world_ok dep mapf reducef w → data_ok w →
  handle_event dep (S spin) (UploadMark fl now) w = Ret w' → data_ok w'.
Proof.
  intros Hw Hd. pose proof (ok_coordinator _ _ _ _ Hw) as Hc. cbn [handle_event]. fold (durable w).
  pose proof (ok_uploader _ _ _ _ Hw) as Hup. pose proof (ok_sending _ Hd) as Hsend.
  unfold uploader_ok in Hup. unfold sending_ok in Hsend.
  destruct (uploader (goroutines w)) as [| | |[|h todo] U] eqn:Eu;
    [by intros <-%Ret_inj..| |by intros <-%Ret_inj].
  intros <-%Ret_inj. destruct Hup as (_ & Hreg & _). destruct Hsend as [Hwait Hsent]. cbn [app] in *.
  fold (marked fl now U (durable w)). destruct (marked_effects fl now U (durable w)) as (_ & Hl & Hh & _).
  pose proof (λ h, marked_log fl now U (durable w) h) as Hlog.
  set (d' := marked fl now U (durable w)) in *.
  match goal with |- data_ok ?x => set (w' := x) end. assert (durable w' = d') as Ed by done.
  rewrite Forall_forall in Hreg. rewrite Forall_forall in Hwait. rewrite Forall_forall in Hsent.
  assert (Forall handle_ok U) as HU.
  { apply Forall_forall. intros h Hin. destruct (Hsent h Hin) as (st & Hst & _).
    apply (ok_clients _ _ Hc). by eexists. }
  assert (pending w' = pending w) as Ep.
  { unfold pending, queued, uploader_held. by rewrite Ed, Hl, Eu. }
  assert (∀ h, waiting w' h = waiting w h) as Ew by (intros h'; unfold waiting; by rewrite Ep).
  assert (∀ h, handle_ok h → h ∉ U → total_log w' h = total_log w h) as Et.
  { intros h Hok Hin. unfold total_log. by rewrite Ew, Ed, Hlog. }
  split.
  - rewrite Ep. apply Hd.
  - intros h. by right.
  - intros h st Hst. pose proof (ok_client _ Hd h st Hst) as Hcl.
    destruct (ok_clients _ _ Hc h) as [Hok _]; [by eexists|].
    destruct (decide (h ∈ U)) as [Hin|Hin]; cycle 1.
    { apply (client_ok_same w); [done| |by apply Et|by rewrite Ew|done]. by rewrite Ed, Hh, decide_False. }
    destruct Hcl as [Hacc Hrcv]. rewrite (Hreg h Hin) in Hrcv. split; [done|].
    rewrite Ed, Hh, decide_True by done. rewrite Ew. split; [by apply Hwait|right].
    destruct (ok_handles _ _ Hc h true (Hreg h Hin)) as (st' & Hst' & Hclosed).
    destruct (Hsent h Hin) as (st'' & Hst'' & Hcon). change (clients w') with (clients w) in Hst.
    rewrite Hst in Hst', Hst''. injection Hst' as <-. injection Hst'' as <-.
    destruct Hrcv as (_ & Hend & _). split_and!; [done|by apply Hclosed|by apply Hend].
  - intros h Hok Hn. destruct (decide (h ∈ U)) as [Hin|Hin].
    { destruct (Hsent h Hin) as (st & Hst & _). change (clients w') with (clients w) in Hn. congruence. }
    rewrite Et by done. exact (ok_fresh _ Hd h Hok Hn).
  - done.
Qed.

(** ** The other events *)

Lemma start_answered_same h answered reply w w' :
  same_data w w' → same_data w (start_answered h answered reply w').
Proof. unfold start_answered. by case_match. Qed.

Lemma events_data e w w' :
  world_ok dep mapf reducef w → data_ok w → lossless w e →
  handle_event dep (S spin) e w = Ret w' → data_ok w'.
Proof using All.
  intros Hw Hd Hl E. pose proof (ok_coordinator _ _ _ _ Hw) as Hc.
  assert (same_data w w' → data_ok w') as Hsame by (intros Hs; by apply (data_ok_same w)).
  destruct e; [by eapply grant_data|by eapply forward_data|by eapply monitor_drain_data
    |by eapply monitor_write_data|by eapply sweep_data|by eapply upload_drain_data
    |by eapply upload_write_data|by eapply upload_list_data|by eapply upload_next_data
    |by eapply upload_mark_data|..]; apply Hsame; clear Hsame Hl; cbn [handle_event] in E.
  - apply Ret_inj in E as <-. by split_and!.
  - destruct (claimed (goroutines w) !! i) as [[plugin h]|]; [|by apply Ret_inj in E as <-].
    case_bool_decide; [apply Ret_inj in E as <-; by split_and!|].
    destruct (start_call net); [apply Ret_inj in E as <-; by split_and!|..];
      (destruct (start_job _ _ _ _ _ _ _) as [[[reply|[total rs]] m']| |]; [| |done..]);
      apply Ret_inj in E as <-; try apply start_answered_same; by split_and!.
  - destruct (rounds (goroutines w) !! i) as [rd|]; [|by apply Ret_inj in E as <-].
    destruct (rd_running rd); apply Ret_inj in E as <-; [|by split_and!]. by apply start_answered_same.
  - destruct (tasks w !! i); [|by apply Ret_inj in E as <-].
    destruct (Worker.process_chunk _ _ _ _ _ _ _ _); [|done..]. apply Ret_inj in E as <-. by split_and!.
  - apply Ret_inj in E as <-. by split_and!.
  - destruct (submissions w !! i) as [s|]; apply Ret_inj in E as <-; [|done].
    destruct (submit_locked s (master w)).1; by split_and!.
  - destruct (collations w !! i) as [[s chunks]|]; apply Ret_inj in E as <-; by split_and!.
  - apply Ret_inj in E as <-. by split_and!.
  - destruct (notices w !! i); apply Ret_inj in E as <-; by split_and!.
  - apply Ret_inj in E as <-. by split_and!.
  - apply Ret_inj in E as <-. by split_and!.
Qed.

(** Nobody has uploaded anything yet. *)
Definition no_content (dfs : D) : Prop :=
  ∀ h, Coordinator.dfs_content dfs (content_path dep h) = None.

Lemma start_data now dfs disks w :
  no_content dfs → start dep (S spin) now dfs disks = Ret w → data_ok w.
Proof.
  intros Hno E. unfold start in E.
  destruct (new_buffer_empty dep spin now) as (d & Er & _ & _ & _ & Hr & Hdir). rewrite Er in E.
  cbn [mbind outcome_bind] in E. apply Ret_inj in E as <-.
  match goal with |- data_ok ?x => set (w := x) end.
  assert (pending w = []) as Ep by (by apply queue_of_repr).
  assert (∀ h, clients w !! h = None) as Hno' by (intros h; apply lookup_empty). split.
  - rewrite Ep. constructor.
  - by left.
  - intros h st Hst. by rewrite Hno' in Hst.
  - intros h _ _. split; [|apply Hno]. unfold total_log, waiting, log_of. rewrite Ep.
    unfold w, durable. cbn. by rewrite Hdir.
  - done.
Qed.

Lemma lossless_allowed w e : lossless w e → allowed dep w e.
Proof. by intros []. Qed.

(** The worlds reached without losing anything. *)
Definition reached_lossless w : Prop := reachable dep (S spin) no_content lossless w.

Lemma reachable_data w :
  deployment_ok dep mapf reducef → reached_lossless w →
  world_ok dep mapf reducef w ∧ data_ok w.
Proof using All.
  intros Hdep. apply (reachable_ind' dep (S spin) no_content lossless
    (λ w, world_ok dep mapf reducef w ∧ data_ok w)).
  - intros now dfs disks w0 Hno E. split; [|by eapply start_data].
    destruct (start_world_ok dep spin mapf reducef now dfs disks) as (w1 & E1 & Hw).
    rewrite E in E1. by apply Ret_inj in E1 as ->.
  - intros w1 e w2 [Hw Hd] He E. split; [|by eapply events_data].
    destruct (events_ok dep spin mapf reducef e w1 Hdep Hw (lossless_allowed _ _ He))
      as (w3 & E3 & Hw3 & _). rewrite E in E3. by apply Ret_inj in E3 as ->.
Qed.

(** What is stored is what its client sent, up to the end. *)
Lemma stored_sent w h data :
  data_ok w → stored dep w h data →
  ∃ st, clients w !! h = Some st ∧ sent st = data ∧ ended st.
Proof.
  intros Hd ((st & Hst & _) & Hnone & Hcon & _). exists st. split; [done|].
  destruct (ok_client _ Hd h st Hst) as [_ Hcl]. rewrite Hnone in Hcl.
  destruct Hcl as [_ [(_ & _ & Hno)|(Hc & _ & He)]]; [congruence|].
  rewrite Hc in Hcon. by injection Hcon.
Qed.

(** ** Properties *)

(** C7: nothing is lost on the way. In a run that does not overflow the ring, let
    a handle expire before its records are written, fail to write the log, drain
    the ring while another goroutine still holds records of the same handle, or
    list a handle for upload before its last records are written, whatever else
    happens (flushes and uploads interleaved with clients, uploads that fail
    half-way and are tried again, sweeps of the log directory, lost replies), the
    records the coordinator has taken from a client are at any time in one place,
    each once and in the order they were sent: in the log file and, after it, in
    the hands of a flush and in the ring, while the handle is registered as
    received, and otherwise in the DFS, complete up to the end-of-file record. *)
Theorem nothing_lost (w : World D) (h : Handle) (st : ClientState) :
  deployment_ok dep mapf reducef → reached_lossless w → clients w !! h = Some st →
  ∃ q, Ring.ring_repr (Durable.log (durable w)) q ∧
    let waiting := WritePath.of_handle h (monitor_held w ++ uploader_held w ++ q) in
    match Durable.handles (durable w) !! h with
    | Some _ =>
        Durable.file_content (Durable.logDir (durable w)) (logFileName h) ++ log_bytes waiting =
          log_bytes (accepted st)
    | None =>
        waiting = [] ∧
        (accepted st = [] ∨
         Coordinator.dfs_content (storage w) (content_path dep h) = Some (accepted st ≫= Data) ∧
         Exists (λ c, Eof c = true) (accepted st))
    end.
Proof using All.
  cbv zeta. intros Hdep Hr Hst. destruct (reachable_data w Hdep Hr) as [Hw Hd].
  destruct (ok_ring _ _ (ok_coordinator _ _ _ _ Hw)) as [q Hring]. exists q. split; [done|].
  rewrite <- (queue_of_repr _ _ Hring). fold (queued w) (pending w).
  destruct (ok_client _ Hd h st Hst) as [_ Hcl].
  destruct (Durable.handles (durable w) !! h); [apply Hcl|].
  destruct Hcl as [Hq [(Ha & _)|(Hc & _ & He)]]; (split; [done|]); [by left|by right].
Qed.


End data.

End NetworkData.
