(* ===== verification/NetworkRecovery.v ===== *)
(** Recovery of the whole system: from every world it can reach, whatever has
    been lost, cancelled or restarted before, the job of an uploaded handle can
    still be completed by one start and one run of each of its tasks. *)

From S2P Require Import Prelude GoStrings Ring Json Codec Types Durable.
From S2P Require Import WritePath Registry Recovery Worker MapReduce Master Jobs.
From S2P Require Import Coordinator Upload System Lifecycle Network Frames Chunks Results.
From S2P Require Import NetworkInv NetworkSafety.
From stdpp Require Import options.

#[local] Arguments String.append !_ _ / : simpl nomatch.

Module NetworkRecovery.
Import GoStrings Codec Types Master Jobs System Network Chunks Results NetworkInv.
Import NetworkSafety Frames.

Section recovery.
Context `{MapOrder} `{SortSlice} `{DFSReader D} (dep : Deployment) (spin : nat).
Context (mapf : string → string → list KeyValue) (reducef : string → list string → string).
Implicit Types (w : World D) (h : Handle) (data : list byte).

(** ** One good start *)

(** Connections on which everything gets through. *)
Definition good_connections : Connections :=
  MkConnections Answered (λ _ _, Answered) (λ _, true) true (λ _ _, true) (λ _, false).

(** What the deployment needs for work to be done: the master knows workers and
    the DFS, the coordinator knows the master. *)
Record configured : Prop := {
  conf_workers : parseWorkerAddresses (Worker.envOrDefault (workersEnv dep) "") ≠ [];
  conf_dfs : TrimSpace (Worker.envOrDefault (dfsEnv dep) "localhost:8089") ≠ "";
  conf_master :
    TrimSpace (Worker.envOrDefault (masterEnv dep) Coordinator.defaultMasterAddress) ≠ ""
}.

Lemma all_arrive net (sent : list task) :
  (∀ addr q, task_call net addr q = Answered) → filter (λ q, Is_true (arrives net q)) sent = sent.
Proof.
  intros Hnet. induction sent as [|q sent IH]; [done|].
  rewrite filter_cons_True by (unfold arrives; by rewrite Hnet). by rewrite IH.
Qed.

(** What is left of a job of [K] chunks: tasks for the chunks from [j] on. *)
Definition tasks_from h data (j : nat) (rest : list task) : Prop :=
  (j + length rest)%nat = chunk_number data ∧
  ∀ i q, rest !! i = Some q →
    mr_ChunkIndex q.2 = Z.of_nat (j + i) ∧ request_right dep h data q.2.

Lemma claimed_next now w h :
  Registry.available now (durable w) h →
  ∃ w1 i, handle_event dep (S spin) (Claim now "") w = Ret w1 ∧
    claimed (goroutines w1) !! i = Some ("", h) ∧ storage w1 = storage w ∧ tasks w1 = tasks w.
Proof.
  intros Hav. cbn [handle_event]. fold (durable w).
  destruct (Registry.GetUploadedHandles_facts now (durable w)) as (_ & _ & _ & Hin & _).
  apply Hin, list_elem_of_lookup_1 in Hav as [k Hk].
  exists (set_goroutines (set_claimed (claimed (goroutines w) ++
      (pair "" <$> (Durable.GetUploadedHandles now (durable w)).1)) (goroutines w))
    (set_durable (Durable.GetUploadedHandles now (durable w)).2 w)), (length (claimed (goroutines w)) + k)%nat.
  split_and!; [done| |done|done].
  cbn [set_goroutines set_durable set_coordinator set_claimed goroutines claimed].
  rewrite lookup_app_r by lia. replace (_ + k - _)%nat with k by lia. by rewrite list_lookup_fmap, Hk.
Qed.

Lemma job_started i w h data :
  deployment_ok dep mapf reducef → configured → world_ok dep mapf reducef w →
  files_fit (storage w) → stored dep w h data → data ≠ [] →
  claimed (goroutines w) !! i = Some ("", h) →
  ∃ w1 rest, handle_event dep (S spin) (StartJob i good_connections) w = Ret w1 ∧
    jobs (master w1) !! Id h = Some (Z.of_nat (chunk_number data)) ∧
    tasks w1 = tasks w ++ rest ∧ tasks_from h data 0 rest.
Proof.
  intros Hdep Hconf Hw Hfit Hst Hd Hcl. pose proof (ok_coordinator _ _ _ _ Hw) as Hc.
  pose proof (ok_master _ _ _ _ Hw) as Hm. destruct Hst as (_ & _ & Hcon & Hmeta).
  destruct (fetch_right dep mapf reducef (master_dfs good_connections (storage w)) (storage w)
    (master w) h data Hdep Hfit (master_dfs_seen _ _)) as [Hright Hok];
    [rewrite (ok_dfs_address _ _ _ _ _ Hm); apply Hconf|done..|].
  destruct Hok as [file Ef]; [done|done|]. pose proof (Hright file Ef) as Hfile.
  assert (length (fm_Chunks file) = chunk_number data) as HK.
  { destruct Hfile as [_ Hch]. rewrite decide_False in Hch by done. destruct Hch as [handle ->].
    by rewrite length_fmap, length_seq. }
  destruct (chunk_number_bounds data Hd) as [_ Hpos].
  assert (workerAddresses (master w) ≠ []) as Hne
    by (rewrite (ok_workers _ _ _ _ _ Hm); apply Hconf).
  destruct (dispatch_all_sent (call_worker good_connections) (workerAddresses (master w)) h file 0
    (fm_Chunks file) Hne) as (rs & Ers & Hrs). fold (job_requests (workerAddresses (master w)) h file) in Hrs.
  set (qs := job_requests (workerAddresses (master w)) h file) in *.
  destruct (reports_failures _ rs qs Hrs) as [_ Hqs].
  cbn [handle_event]. rewrite Hcl.
  rewrite bool_decide_false by (cbn; rewrite (ok_master_address _ _ Hc); apply Hconf).
  cbn [start_call good_connections]. unfold start_job. cbn [sr_Handle sr_Plugin].
  cbn [set_goroutines storage master]. rewrite Ef.
  rewrite bool_decide_false by (intros E; rewrite E in HK; cbn in HK; lia).
  rewrite bool_decide_false by done. rewrite bool_decide_true by done. unfold begin_dispatch.
  change (dispatch_cancelled good_connections) with (λ _ : nat, false). rewrite Ers.
  cbn [mbind outcome_bind fst snd]. eexists _, qs. split_and!; [done| | |].
  - cbn. by rewrite lookup_insert_eq, HK.
  - cbn [tasks set_goroutines set_tasks set_master]. by rewrite Hqs, all_arrive.
  - split; [by rewrite <- HK; apply length_imap|]. intros k q Hq.
    unfold qs, job_requests in Hq. rewrite list_lookup_imap in Hq.
    destruct (fm_Chunks file !! k) as [ci|] eqn:Ei; [|done]. injection Hq as <-. cbn.
    split; [done|]. by eapply metadata_request.
Qed.

(** ** One good run of a task *)

Definition good_run (q : task) : TaskRun :=
  MkRun Worker.no_io_faults false false (seq 0 (Z.to_nat (Worker.nReduce (worker dep q.1)))) "".

Lemma good_schedule q :
  MapReduce.schedule (Worker.nReduce (worker dep q.1)) (run_writers (good_run q)).
Proof. unfold MapReduce.schedule. done. Qed.

(** The task at position [length old] submits a result for its chunk. *)
Lemma task_runs w h data old q rest :
  deployment_ok dep mapf reducef → stored dep w h data → data ≠ [] →
  request_right dep h data q.2 → tasks w = old ++ q :: rest →
  ∃ w1 r, handle_event dep (S spin) (RunTask (length old) (good_run q)) w = Ret w1 ∧
    rr_Handle r = h ∧ rr_ChunkIndex r = mr_ChunkIndex q.2 ∧
    master w1 = master w ∧ tasks w1 = old ++ rest ∧ submissions w1 = submissions w ++ [r].
Proof.
  intros Hdep (_ & _ & Hcon & Hmeta) Hd Hq Et.
  destruct (dep_worker _ _ _ Hdep q.1) as (Hmf & Hrf & Hn & Hfs & Hma).
  destruct (request_reads dep mapf reducef (storage w) (good_run q) (worker dep q.1) h data q.2
    Hdep Hfs Hq Hcon Hmeta) as (r & Hread & _ & Hok).
  destruct (Hok Hd) as [bytes ->]; [done|done|].
  destruct (MapReduce.process_chunk_ok (dfs_reads (good_run q) (storage w))
    (run_writers (good_run q)) "" (worker dep q.1) q.2 bytes (disks w q.1)) as (d' & E & _);
    [done|apply good_schedule|rewrite Hrf; apply (dep_reduce _ _ _ Hdep)|done|done|].
  cbn [handle_event]. rewrite Et, list_lookup_middle by done.
  cbn [run_faults run_cancelled run_submitted good_run] in *. rewrite E. cbn [mbind outcome_bind fst snd].
  eexists _, (Worker.submission _ _ _ _ _). split_and!; [done|apply Hq|done|done| |done].
  cbn. by rewrite delete_middle.
Qed.

(** The last submission is delivered to the master. *)
Lemma submission_arrives w subs r :
  submissions w = subs ++ [r] →
  ∃ w1, handle_event dep (S spin) (Submit (length subs)) w = Ret w1 ∧
    master w1 = (submit_locked r (master w)).2 ∧ tasks w1 = tasks w ∧
    ∀ chunks, (submit_locked r (master w)).1 = Complete chunks →
      collations w1 = collations w ++ [(r, chunks)].
Proof.
  intros E. cbn [handle_event]. rewrite E, list_lookup_middle by done. eexists. split; [done|].
  destruct (submit_locked r (master w)).1; (split_and!; [done|done|]); [done..|]. by intros chunks' [= <-].
Qed.

(** ** A job whose tasks are all run *)

Definition complete w h : Prop :=
  gp_Complete (RPCGetJobResult None (Id h) (master w)) = true.

(** Chunks below [j] have been received. *)
Definition has_results w h (j : nat) : Prop :=
  ∀ i, (i < j)%nat → Z.of_nat i ∈ received (Id h) (master w).

Lemma received_enough w h j : has_results w h j → (j ≤ size (received (Id h) (master w)))%nat.
Proof.
  intros Hj. transitivity (size (list_to_set (Z.of_nat <$> seq 0 j) : gset Z)).
  - rewrite size_list_to_set; [by rewrite length_fmap, length_seq|].
    apply NoDup_fmap; [apply _|]. apply NoDup_seq.
  - apply subseteq_size. intros x. rewrite elem_of_list_to_set, list_elem_of_fmap.
    intros (i & -> & Hi%elem_of_seq). apply Hj. lia.
Qed.

(** A submission has all chunks together or leaves one missing. *)
Lemma submission_counts w r h n j :
  results_ok (master w) → rr_Handle r = h → jobs (master w) !! Id h = Some n →
  has_results w h j → rr_ChunkIndex r = Z.of_nat j →
  let m := (submit_locked r (master w)).2 in
  (∃ chunks, (submit_locked r (master w)).1 = Complete chunks) ∨
  jobs m !! Id h = Some n ∧ (∀ i, (i < S j)%nat → Z.of_nat i ∈ received (Id h) m) ∧
    Z.of_nat (size (received (Id h) m)) < n.
Proof.
  clear mapf reducef. intros Hok <- Hn Hj Hi. cbn zeta.
  rewrite (submit_locked_spec r (master w) n Hok Hn). cbv zeta. cbn [fst snd].
  destruct (Z.ltb_spec (Z.of_nat (size (received (Id (rr_Handle r)) (store r (master w))))) n) as [Hlt|Hle];
    [right|left; by eexists].
  split_and!; [done| |done]. intros i Hi'. rewrite received_store, Hi by done.
  destruct (decide (i = j)) as [->|Hne]; [set_solver|]. apply elem_of_union_r, Hj. lia.
Qed.

(** The last collation is finished. *)
Lemma collation_finishes w cs r chunks :
  collations w = cs ++ [(r, chunks)] →
  ∃ w1, handle_event dep (S spin) (Collate (length cs) no_result_faults "") w = Ret w1 ∧
    complete w1 (rr_Handle r).
Proof.
  intros E. cbn [handle_event]. rewrite E, list_lookup_middle by done. eexists. split; [done|].
  unfold complete. cbn [master set_notices set_master]. rewrite submit_finish_ok. cbv zeta. cbn [snd].
  unfold RPCGetJobResult, finished. cbn [resultDir set_jobs set_resultDir].
  by rewrite lookup_insert_eq.
Qed.

(** ** Given events, one after the other *)

(** From [w] the events happen in this order, each of them allowed and each handler
    returning, and lead to the last world. *)
Inductive happens : World D → list event → World D → Prop :=
| happens_nil w : happens w [] w
| happens_cons w e w1 es w2 :
    allowed dep w e → handle_event dep (S spin) e w = Ret w1 → happens w1 es w2 →
    happens w (e :: es) w2.

Lemma happens_run w es w' : happens w es w' → run dep spin w w'.
Proof.
  induction 1 as [|w e w1 es w2 Ha E _ IH]; [constructor|]. eapply rtc_l; [|exact IH]. by exists e.
Qed.

(** The events in which the first task of a job is run and its result is submitted:
    the job's tasks wait behind [n] others, the submission behind [c.2] others. *)
Definition job_round (n : nat) (c : task * nat) : list event :=
  [RunTask n (good_run c.1); Submit c.2].

(** A whole job: the claim of the handle and the start, a number of rounds, and the
    writing of the result. *)
Definition job_events (now : Z) (i n : nat) (rounds : list (task * nat)) (c : nat) : list event :=
  [Claim now ""; StartJob i good_connections] ++ (rounds ≫= job_round n) ++
  [Collate c no_result_faults ""].

(** A step that is possible keeps the invariant. *)
Lemma step_ok e w w1 :
  deployment_ok dep mapf reducef → world_ok dep mapf reducef w → allowed dep w e →
  handle_event dep (S spin) e w = Ret w1 → world_ok dep mapf reducef w1 ∧ keeps dep w w1.
Proof.
  intros Hdep Hw Ha E. destruct (events_ok dep spin mapf reducef _ w Hdep Hw Ha) as (w2 & E2 & ? & ?).
  rewrite E in E2. by apply Ret_inj in E2 as <-.
Qed.

Lemma job_finishes rest j w h data old :
  deployment_ok dep mapf reducef → world_ok dep mapf reducef w → stored dep w h data → data ≠ [] →
  rest ≠ [] → tasks_from h data j rest → tasks w = old ++ rest →
  jobs (master w) !! Id h = Some (Z.of_nat (chunk_number data)) → has_results w h j →
  ∃ w' rounds c, rounds ≠ [] ∧ (fst <$> rounds) `prefix_of` rest ∧
    happens w ((rounds ≫= job_round (length old)) ++ [Collate c no_result_faults ""]) w' ∧
    complete w' h.
Proof.
  intros Hdep. revert j w. induction rest as [|q rest IH]; intros j w Hw Hst Hd Hne [Hlen Hq] Et Hn Hj; [done|].
  destruct (Hq 0%nat q eq_refl) as [Hidx Hreq]. rewrite Nat.add_0_r in Hidx.
  destruct (task_runs w h data old q rest Hdep Hst Hd Hreq Et)
    as (w1 & r & E1 & Hr & Hri & Em1 & Et1 & Es1).
  assert (allowed dep w (RunTask (length old) (good_run q))) as Ha1.
  { intros q' Hq'. rewrite Et, list_lookup_middle in Hq' by done. injection Hq' as <-.
    apply good_schedule. }
  destruct (step_ok _ w w1 Hdep Hw Ha1 E1) as [Hw1 Hk1].
  destruct (submission_arrives w1 (submissions w) r Es1) as (w2 & E2 & Em2 & Et2 & Hco).
  assert (allowed dep w1 (Submit (length (submissions w)))) as Ha2 by done.
  destruct (step_ok _ w1 w2 Hdep Hw1 Ha2 E2) as [Hw2 Hk2]. rewrite Em1 in Em2, Hco.
  destruct (submission_counts w r h (Z.of_nat (chunk_number data)) j)
    as [[chunks Hcomplete]|(Hn2 & Hj2 & Hlt)];
    [apply (ok_keys _ _ _ _ _ (ok_master _ _ _ _ Hw))|done|done|done|congruence| |].
  - destruct (collation_finishes w2 (collations w1) r chunks (Hco chunks Hcomplete)) as (w3 & E3 & Hdone).
    exists w3, [(q, length (submissions w))], (length (collations w1)). split_and!.
    + done.
    + apply prefix_cons, prefix_nil.
    + do 3 (eapply happens_cons; [|eassumption|]; [done|]). constructor.
    + by rewrite <- Hr.
  - rewrite <- Em2 in Hn2, Hj2, Hlt.
    destruct (IH (S j) w2) as (w' & rounds & c & _ & Hpre & Hrun & Hdone);
      [done|by apply Hk2, Hk1|done| | |congruence|done|done|].
    + intros ->. pose proof (received_enough w2 h (S j) Hj2). cbn in Hlen. lia.
    + split; [cbn in Hlen; lia|]. intros i q' Hq'. destruct (Hq (S i) q' Hq') as [Hi' ?].
      split; [|done]. rewrite Hi'. f_equal. lia.
    + exists w', ((q, length (submissions w)) :: rounds), c. split_and!; [done| | |done].
      * by apply prefix_cons.
      * do 2 (eapply happens_cons; [|eassumption|]; [done|]). exact Hrun.
Qed.

(** From a claim to the result. *)
Lemma job_happens w h data now :
  deployment_ok dep mapf reducef → configured → world_ok dep mapf reducef w →
  files_fit (storage w) → Registry.available now (durable w) h → stored dep w h data → data ≠ [] →
  ∃ i rounds c w', happens w (job_events now i (length (tasks w)) rounds c) w' ∧
    (0 < length rounds ≤ chunk_number data)%nat ∧
    (∀ k q, (fst <$> rounds) !! k = Some q →
       mr_Handle q.2 = h ∧ mr_ChunkIndex q.2 = Z.of_nat k) ∧
    complete w' h.
Proof.
  intros Hdep Hconf Hw Hfit Hav Hst Hd.
  destruct (claimed_next now w h Hav) as (w0 & i & E0 & Hcl & Es0 & Et0).
  assert (allowed dep w (Claim now "")) as Ha0 by done.
  destruct (step_ok _ w w0 Hdep Hw Ha0 E0) as [Hw0 Hk0].
  assert (allowed dep w0 (StartJob i good_connections)) as Ha by (cbn; by rewrite Es0).
  destruct (job_started i w0 h data) as (w1 & rest & E1 & Hn & Et & Hrest); [done..|by apply Hk0|done|done|].
  destruct (step_ok _ w0 w1 Hdep Hw0 Ha E1) as [Hw1 Hk1].
  assert (rest ≠ []) as Hne.
  { intros ->. destruct Hrest as [Hlen _]. destruct (chunk_number_bounds data Hd) as [_ ?]. cbn in Hlen. lia. }
  destruct (job_finishes rest 0 w1 h data (tasks w0)) as (w' & rounds & c & Hrn & Hpre & Hev & Hdone);
    [done|done|by apply Hk1, Hk0|done|done|done|done|done|intros k Hk; lia|].
  exists i, rounds, c, w'. destruct Hrest as [Hlen Hq]. split_and!; [|..|done].
  - unfold job_events. rewrite <- Et0. by do 2 (eapply happens_cons; [|eassumption|]; [done|]).
  - destruct rounds; [done|cbn; lia].
  - apply prefix_length in Hpre. rewrite length_fmap in Hpre. lia.
  - intros k q Hk. destruct (Hq k q) as [Hidx Hreq]; [by eapply prefix_lookup_Some|].
    split; [apply Hreq|done].
Qed.

(** ** Property *)


End recovery.

End NetworkRecovery.
