(* ===== verification/NetworkProgress.v ===== *)
(** Uploads catch up: as long as nothing is lost, what a client has sent up to its
    end-of-file record can always be brought into the DFS, whatever the goroutines
    of the coordinator are in the middle of. *)

From S2P Require Import Prelude GoStrings Ring Json Codec Types Durable.
From S2P Require Import WritePath Registry Recovery Worker MapReduce Master Jobs.
From S2P Require Import Coordinator Upload System Lifecycle Network Frames UploadRetry.
From S2P Require Import Chunks Results NetworkInv NetworkSafety NetworkData.
From stdpp Require Import options.

#[local] Arguments String.append !_ _ / : simpl nomatch.

Module NetworkProgress.
Import GoStrings Codec Types Master System Network Chunks Results NetworkInv NetworkSafety.
Import Frames UploadRetry NetworkData.

(** ** A DFS that works *)

(** No call fails, except that what exists already may be reported. *)
Definition harmless (err : option string) : Prop :=
  match err with Some e => Contains (ToLower e) "exist" = true | None => True end.

Record dfs_works (D : Type) `{Coordinator.DFSClient D} : Prop := {
  mkdir_works d p : harmless (Coordinator.MkDir Coordinator.ops p d).2;
  create_works d p : harmless (Coordinator.CreateFile Coordinator.ops p d).2;
  write_works d p bytes : (Coordinator.WriteAt Coordinator.ops p bytes d).2 = None
}.

Section working.
Context `{MapOrder} `{SortSlice} `{Coordinator.DFSClient D}.
Implicit Types (dfs : D).
Import Coordinator.

Lemma make_dirs_works current parts dfs :
  dfs_works D → (make_dirs current parts dfs).2 = None.
Proof.
  intros Hup. revert current dfs. induction parts as [|part parts IH]; intros current dfs; cbn; [done|].
  case_bool_decide; [apply IH|]. pose proof (mkdir_works D Hup dfs (current +:+ "/" +:+ part)) as Hm.
  destruct (MkDir ops _ dfs) as [dfs1 [e|]]; cbn in Hm; [rewrite Hm|]; apply IH.
Qed.

Lemma create_file_works p dfs : dfs_works D → (create_file p dfs).2 = None.
Proof.
  intros Hup. unfold create_file. pose proof (create_works D Hup dfs p) as Hc.
  destruct (CreateFile ops p dfs) as [dfs1 [e|]]; cbn in Hc; [by rewrite Hc|done].
Qed.

(** Then a handle whose log can be decoded is uploaded. *)
Lemma upload_handle_works logPath env at_ d h dfs data :
  dfs_works D → decodeDlogContent Durable.no_faults h d = Ret (Ok data) →
  ∃ dfs', upload_handle Durable.no_faults logPath env at_ (λ _, false) d h dfs = Ret (dfs', None).
Proof.
  intros Hup Hdec. unfold upload_handle, buildHandleMetadataPayload. cbn [Durable.f_info Durable.no_faults].
  unfold ensureRemoteDirectoryExists.
  set (r1 := if _ : bool then _ else _). assert (r1.2 = None) as E1.
  { unfold r1. case_match; [done|by apply make_dirs_works]. }
  destruct r1 as [dfs1 e1]. cbn in E1. subst e1.
  pose proof (create_file_works (contentPath (remotePath env h)) dfs1 Hup) as E2.
  destruct (create_file _ dfs1) as [dfs2 e2]. cbn in E2. subst e2.
  rewrite Hdec. cbn [mbind outcome_bind].
  pose proof (write_works D Hup dfs2 (contentPath (remotePath env h)) data) as E3.
  destruct (WriteAt ops _ data dfs2) as [dfs3 e3]. cbn in E3. subst e3.
  pose proof (create_file_works (remotePath env h) dfs3 Hup) as E4.
  destruct (create_file _ dfs3) as [dfs4 e4]. cbn in E4. subst e4.
  match goal with |- context [WriteAt ops _ ?b dfs4] =>
    pose proof (write_works D Hup dfs4 (remotePath env h) b) as E5;
    destruct (WriteAt ops (remotePath env h) b dfs4) as [dfs5 e5] end.
  cbn in E5. subst e5. by eexists.
Qed.

End working.

(** ** Steps that only bring data forward *)

Section progress.
Context `{MapOrder} `{SortSlice} `{DFSReader D} `{!PartialWrites D} (dep : Deployment) (spin : nat).
Context (mapf : string → string → list KeyValue) (reducef : string → list string → string).
Implicit Types (w : World D) (h : Handle).
Context (now : Z) (Hdep : deployment_ok dep mapf reducef).

Definition lossless_run : relation (World D) := rtc (transition dep (S spin) (lossless dep)).

(** From [w] to [w'] without a loss: clients and configuration are the same, no
    more is pending, and the only thing that happens to a registered handle is that
    it is uploaded. *)
Record settles w w' : Prop := {
  settle_run : lossless_run w w';
  settle_clients : clients w' = clients w;
  settle_frame : frame (durable w) (durable w');
  settle_address : Coordinator.fsServerAddress (coordinator w') = Coordinator.fsServerAddress (coordinator w);
  settle_pending : pending w' ⊆ pending w;
  settle_handles h : Durable.handles (durable w') !! h = Durable.handles (durable w) !! h ∨
    Durable.handles (durable w') !! h = None ∧ Durable.uploadedHandles (durable w') !! h = Some now;
  settle_uploaded h : Durable.uploadedHandles (durable w) !! h = Some now →
    Durable.uploadedHandles (durable w') !! h = Some now
}.

#[export] Instance settles_preorder : PreOrder settles.
Proof.
  split.
  - intros w. split; [done|done|done|done|done|by left|done].
  - intros w1 w2 w3 [R1 C1 F1 A1 P1 H1' U1] [R2 C2 F2 A2 P2 H2' U2]. split.
    + by etransitivity.
    + by rewrite C2.
    + by etransitivity.
    + by rewrite A2.
    + by etransitivity.
    + intros h. destruct (H2' h) as [-> |]; [|by right]. destruct (H1' h) as [-> | [E1 E2]]; [by left|].
      right. auto.
    + auto.
Qed.

Lemma settles_reached w w' : reached_lossless dep spin w → settles w w' → reached_lossless dep spin w'.
Proof.
  intros (n & dfs & ds & w0 & HI & E & Hs) Hw. exists n, dfs, ds, w0. split_and!; [done|done|].
  etransitivity; [exact Hs|apply Hw].
Qed.

(** One event; [frame_and_handles] is what it leaves alone. *)
Lemma settles_step e w w' :
  lossless dep w e → handle_event dep (S spin) e w = Ret w' →
  clients w' = clients w → frame (durable w) (durable w') →
  Coordinator.fsServerAddress (coordinator w') = Coordinator.fsServerAddress (coordinator w) →
  pending w' ⊆ pending w → Durable.handles (durable w') = Durable.handles (durable w) →
  Durable.uploadedHandles (durable w') = Durable.uploadedHandles (durable w) → settles w w'.
Proof.
  intros He E Ec Ef Ea Ep Eh Eu. split; try done.
  - eapply rtc_l; [by exists e|done].
  - intros h. left. by rewrite Eh.
  - intros h. by rewrite Eu.
Qed.

(** Nothing that is pending is expired. *)
Definition unexpired w : Prop :=
  Forall (λ c, Durable.isHandleExpired now (CId c) (durable w) = false) (pending w).

Lemma expired_frame d d' h :
  frame d d' → Durable.isHandleExpired now h d' = Durable.isHandleExpired now h d.
Proof. by intros ->. Qed.

Lemma unexpired_settles w w' : unexpired w → settles w w' → unexpired w'.
Proof.
  intros Hu Hs. unfold unexpired in *. rewrite Forall_forall in Hu. apply Forall_forall.
  intros c Hc%(settle_pending _ _ Hs). rewrite (expired_frame (durable w)); [auto|apply Hs].
Qed.

Definition now_clock (_ : nat) : Z := now.

Lemma unexpired_held w cs :
  unexpired w → cs ⊆ pending w →
  Forall (λ c, ∀ j : nat, Durable.isHandleExpired (now_clock j) (CId c) (durable w) = false) cs.
Proof.
  intros Hu Hcs. unfold unexpired in Hu. rewrite Forall_forall in Hu. apply Forall_forall.
  intros c Hc j. by apply Hu, Hcs.
Qed.

(** The monitor writes what it holds. *)
Lemma monitor_writes w :
  unexpired w →
  ∃ w', settles w w' ∧ monitor (goroutines w') = MonitorIdle ∧
    uploader (goroutines w') = uploader (goroutines w) ∧ queued w' = queued w.
Proof.
  intros Hu. destruct (monitor (goroutines w)) as [|cs] eqn:Em; [by exists w|].
  set (e := MonitorWrite Durable.no_faults now_clock now).
  assert (monitor_held w = cs) as Eheld by (unfold monitor_held; by rewrite Em).
  assert (lossless dep w e) as He.
  { split; [done|]. split; [done|]. apply unexpired_held; [done|]. intros x. unfold pending. rewrite !elem_of_app. tauto. }
  pose proof (write_snapshot_dir Durable.no_faults now_clock cs (durable w)) as E1.
  set (d1 := write_snapshot _ _ _ _) in *.
  set (d2 := Durable.saveUploadedHandles Durable.no_faults now (Durable.pruneProcessingHandles now d1)).
  pose proof (Registry.saveUploadedHandles_frame Durable.no_faults now
    (Durable.pruneProcessingHandles now d1)) as E2. fold d2 in E2. rewrite E1 in E2.
  unfold Durable.pruneProcessingHandles in E2.
  set (w' := set_goroutines (set_monitor MonitorIdle (goroutines w)) (set_durable d2 w)).
  assert (durable w' = d2) as Ed by done.
  exists w'. split_and!; [|done|done|unfold queued; by rewrite Ed, E2].
  apply (settles_step e); try done; rewrite ?Ed; try by rewrite E2.
  - unfold e. cbn [handle_event]. by rewrite Em.
  - unfold pending, queued. rewrite Ed, E2, Eheld. intros x. cbn. rewrite !elem_of_app. tauto.
Qed.

(** An upload writes what it holds. *)
Lemma uploader_writes w :
  unexpired w →
  ∃ w', settles w w' ∧ monitor (goroutines w') = monitor (goroutines w) ∧
    uploader (goroutines w') =
      (match uploader (goroutines w) with UploadDrained _ => UploadFlushed | p => p end) ∧
    queued w' = queued w.
Proof.
  intros Hu. destruct (uploader (goroutines w)) as [|cs| |] eqn:Eu; [by exists w| |by exists w..].
  set (e := UploadWrite Durable.no_faults now_clock).
  assert (uploader_held w = cs) as Eheld by (unfold uploader_held; by rewrite Eu).
  assert (lossless dep w e) as He.
  { split; [done|]. split; [done|]. apply unexpired_held; [done|].
    intros x. unfold pending. rewrite !elem_of_app. tauto. }
  pose proof (write_snapshot_dir Durable.no_faults now_clock cs (durable w)) as E1.
  set (d1 := write_snapshot _ _ _ _) in *.
  set (w' := set_goroutines (set_uploader UploadFlushed (goroutines w)) (set_durable d1 w)).
  assert (durable w' = d1) as Ed by done.
  exists w'. split_and!; [|done|done|unfold queued; by rewrite Ed, E1].
  apply (settles_step e); try done; rewrite ?Ed; try by rewrite E1.
  - unfold e. cbn [handle_event]. by rewrite Eu.
  - unfold pending, queued. rewrite Ed, E1, Eheld. intros x. cbn. rewrite !elem_of_app. tauto.
Qed.

(** When no upload holds records, the monitor can write all that is pending. *)
Lemma monitor_flushes w :
  reached_lossless dep spin w → unexpired w → monitor (goroutines w) = MonitorIdle →
  uploader_held w = [] →
  ∃ w', settles w w' ∧ monitor (goroutines w') = MonitorIdle ∧
    uploader (goroutines w') = uploader (goroutines w) ∧ pending w' = [].
Proof using All.
  intros Hr Hu Em Eh. destruct (reachable_data dep spin mapf reducef w Hdep Hr) as [Hw _].
  destruct (ok_ring _ _ (ok_coordinator _ _ _ _ Hw)) as [q Hq].
  destruct (drain_ok spin _ q Hq) as (rb & Ed & Hrb & _).
  set (w1 := set_goroutines (set_monitor (MonitorDrained q) (goroutines w))
    (set_durable (Durable.set_log rb (durable w)) w)).
  assert (queued w = q) as Eq by (by apply queue_of_repr).
  assert (queued w1 = []) as Eq1 by (by apply queue_of_repr).
  assert (monitor_held w = []) as Em' by (unfold monitor_held; by rewrite Em).
  assert (settles w w1) as Hs1.
  { apply (settles_step MonitorDrain); try done.
    - split; [done|]. rewrite Eh. apply Forall_forall. done.
    - cbn [handle_event]. fold (durable w). by rewrite Em, Ed.
    - intros x. unfold pending. rewrite Eq1, Em', Eq. change (monitor_held w1) with q.
      change (uploader_held w1) with (uploader_held w). rewrite Eh. by rewrite !(right_id_L [] (++)). }
  destruct (monitor_writes w1) as (w2 & Hs2 & Em2 & Eu2 & Eq2); [by eapply unexpired_settles|].
  exists w2. split_and!; [by etransitivity|done|done|].
  unfold pending. rewrite Eq2, Eq1. unfold monitor_held, uploader_held. rewrite Em2, Eu2.
  change (uploader (goroutines w1)) with (uploader (goroutines w)).
  unfold uploader_held in Eh. by rewrite Eh.
Qed.

(** The handles being uploaded are uploaded one by one. *)
Lemma uploads_go_through todo uploaded w :
  dfs_works D → reached_lossless dep spin w → uploader (goroutines w) = Uploading todo uploaded →
  ∃ w', settles w w' ∧ monitor (goroutines w') = monitor (goroutines w) ∧ pending w' = pending w ∧
    uploader (goroutines w') = Uploading [] (uploaded ++ todo).
Proof using All.
  intros Hup. revert uploaded w. induction todo as [|h todo IH]; intros uploaded w Hr Eu.
  { exists w. rewrite (right_id_L [] (++)). done. }
  destruct (reachable_data dep spin mapf reducef w Hdep Hr) as [Hw Hd].
  pose proof (ok_uploader _ _ _ _ Hw) as Hu. pose proof (ok_sending _ _ Hd) as Hs.
  unfold uploader_ok in Hu. unfold sending_ok in Hs. rewrite Eu in Hu, Hs.
  destruct Hu as (_ & [Hh _]%Forall_cons & _). destruct Hs as [[Hwait _]%Forall_cons _].
  destruct (ok_handles _ _ (ok_coordinator _ _ _ _ Hw) h true Hh) as (st & Hst & _).
  pose proof (decode_sent dep w h st (ok_client _ _ Hd h st Hst) Hh Hwait) as Hdec.
  destruct (upload_handle_works (logPath dep) (uploadPrefix dep) "" (durable w) h (storage w) _ Hup Hdec)
    as (dfs' & E).
  set (w1 := set_goroutines (set_uploader (Uploading todo (uploaded ++ [h])) (goroutines w))
    (set_storage dfs' w)).
  assert (pending w1 = pending w) as Ep by (unfold pending, uploader_held; by rewrite Eu).
  assert (settles w w1) as Hs1.
  { apply (settles_step (UploadNext Durable.no_faults "" false)); try done.
    - cbn [handle_event]. fold (durable w). by rewrite Eu, E.
    - by rewrite Ep. }
  destruct (IH (uploaded ++ [h]) w1) as (w2 & Hs2 & Em2 & Ep2 & Eu2); [by eapply settles_reached|done|].
  exists w2. split_and!; [by etransitivity|done|by rewrite Ep2|]. by rewrite Eu2, <- (assoc_L (++)).
Qed.

(** ... and then registered. *)
Lemma upload_ends todo uploaded w :
  dfs_works D → reached_lossless dep spin w → uploader (goroutines w) = Uploading todo uploaded →
  ∃ w', settles w w' ∧ monitor (goroutines w') = monitor (goroutines w) ∧ pending w' = pending w ∧
    uploader (goroutines w') = UploadIdle ∧
    Forall (λ h, Durable.handles (durable w') !! h = None) (uploaded ++ todo).
Proof using All.
  intros Hup Hr Eu. destruct (uploads_go_through todo uploaded w Hup Hr Eu) as (w1 & Hs1 & Em1 & Ep1 & Eu1).
  set (U := uploaded ++ todo) in *.
  destruct (marked_effects Durable.no_faults now U (durable w1)) as (Hf & Hl & Hh & Hupl).
  set (d' := marked Durable.no_faults now U (durable w1)) in *.
  set (w2 := set_goroutines (set_uploader UploadIdle (goroutines w1)) (set_durable d' w1)).
  assert (durable w2 = d') as Ed by done.
  assert (pending w2 = pending w1) as Ep.
  { unfold pending, queued, uploader_held. by rewrite Ed, Hl, Eu1. }
  exists w2. split_and!; [|done|by rewrite Ep|done|].
  - etransitivity; [exact Hs1|]. split; try done; rewrite ?Ed; try done.
    + eapply rtc_l; [|done]. exists (UploadMark Durable.no_faults now). split; [done|].
      cbn [handle_event]. fold (durable w1). rewrite Eu1. by fold (marked Durable.no_faults now U (durable w1)).
    + by rewrite Ep.
    + intros h. rewrite Hh, Hupl. case_decide; [by right|by left].
    + intros h Hn. rewrite Hupl. by case_decide.
  - apply Forall_forall. intros h Hin. by rewrite Ed, Hh, decide_True.
Qed.

(** With nothing pending, the list of completed handles is safe. *)
Lemma upload_listed w :
  dfs_works D → reached_lossless dep spin w → uploader (goroutines w) = UploadFlushed → pending w = [] →
  ∃ w', settles w w' ∧ monitor (goroutines w') = monitor (goroutines w) ∧ pending w' = [] ∧
    uploader (goroutines w') = UploadIdle ∧
    ∀ h, Durable.handles (durable w) !! h = Some true → Durable.handles (durable w') !! h = None.
Proof using All.
  intros Hup Hr Eu Ep. pose proof (Upload.elem_of_completed (durable w)) as Hin.
  set (w1 := set_goroutines (set_uploader
    (match Durable.GetCompletedHandleForRetransmission (durable w) with
     | [] => UploadIdle
     | hs => Uploading hs []
     end) (goroutines w)) w).
  assert (pending w1 = []) as Ep1.
  { rewrite <- Ep. unfold pending, uploader_held. rewrite Eu. unfold w1. cbn.
    by destruct (Durable.GetCompletedHandleForRetransmission (durable w)). }
  assert (settles w w1) as Hs1.
  { apply (settles_step UploadList); try done.
    - split; [done|]. rewrite Ep. constructor.
    - cbn [handle_event]. fold (durable w). by rewrite Eu.
    - by rewrite Ep1, Ep. }
  destruct (Durable.GetCompletedHandleForRetransmission (durable w)) as [|h0 hs0] eqn:Ehs.
  { exists w1. split_and!; [done|done|done|done|]. intros h Hh%Hin. by apply not_elem_of_nil in Hh. }
  destruct (upload_ends (h0 :: hs0) [] w1 Hup) as (w2 & Hs2 & Em2 & Ep2 & Eu2 & Hnone);
    [by eapply settles_reached|done|].
  exists w2. split_and!; [by etransitivity|done|by rewrite Ep2|done|].
  intros h Hh%Hin. rewrite Forall_forall in Hnone. by apply Hnone.
Qed.

(** Whatever the goroutines are in the middle of can be brought to an end. *)
Lemma settles_down w :
  dfs_works D → reached_lossless dep spin w → unexpired w →
  ∃ w', settles w w' ∧ monitor (goroutines w') = MonitorIdle ∧
    uploader (goroutines w') = UploadIdle ∧ pending w' = [].
Proof using All.
  intros Hup Hr Hu. destruct (monitor_writes w Hu) as (w1 & Hs1 & Em1 & _ & _).
  destruct (uploader_writes w1) as (w2 & Hs2 & Em2 & Eu2 & _); [by eapply unexpired_settles|].
  assert (settles w w2) as Hs by (by etransitivity).
  assert (uploader_held w2 = []) as Eheld.
  { unfold uploader_held. rewrite Eu2. by destruct (uploader (goroutines w1)). }
  destruct (monitor_flushes w2) as (w3 & Hs3 & Em3 & Eu3 & Ep3);
    [by eapply settles_reached|by eapply unexpired_settles|by rewrite Em2|done|].
  assert (settles w w3) as Hs' by (by etransitivity).
  assert (reached_lossless dep spin w3) as Hr3 by (by eapply settles_reached).
  destruct (uploader (goroutines w3)) as [|cs| |todo uploaded] eqn:Eu.
  - by exists w3.
  - rewrite Eu2 in Eu3. by destruct (uploader (goroutines w1)).
  - destruct (upload_listed w3 Hup Hr3 Eu Ep3) as (w4 & Hs4 & Em4 & Ep4 & Eu4 & _).
    exists w4. split_and!; [by etransitivity|by rewrite Em4|done|done].
  - destruct (upload_ends todo uploaded w3 Hup Hr3 Eu) as (w4 & Hs4 & Em4 & Ep4 & Eu4 & _).
    exists w4. split_and!; [by etransitivity|by rewrite Em4|done|by rewrite Ep4].
Qed.

(** From there, one upload takes all completed handles. *)
Lemma upload_takes_all w :
  dfs_works D → reached_lossless dep spin w → unexpired w →
  TrimSpace (Coordinator.fsServerAddress (coordinator w)) ≠ "" →
  monitor (goroutines w) = MonitorIdle → uploader (goroutines w) = UploadIdle → pending w = [] →
  ∃ w', settles w w' ∧
    ∀ h, Durable.handles (durable w) !! h = Some true → Durable.handles (durable w') !! h = None.
Proof using All.
  intros Hup Hr Hu Ha Em Eu Ep. destruct (reachable_data dep spin mapf reducef w Hdep Hr) as [Hw _].
  destruct (ok_ring _ _ (ok_coordinator _ _ _ _ Hw)) as [q Hq].
  assert (q = []) as ->.
  { assert (queued w = q) as Eq by (by apply queue_of_repr). unfold pending in Ep.
    rewrite Eq in Ep. by apply app_nil in Ep as [_ [_ ->]%app_nil]. }
  destruct (drain_ok spin _ [] Hq) as (rb & Ed & Hrb & _).
  set (w1 := set_goroutines (set_uploader (UploadDrained []) (goroutines w))
    (set_durable (Durable.set_log rb (durable w)) w)).
  assert (queued w1 = []) as Eq1 by (by apply queue_of_repr).
  assert (pending w1 = []) as Ep1 by (unfold pending, monitor_held; rewrite Eq1; cbn; by rewrite Em).
  assert (settles w w1) as Hs1.
  { apply (settles_step UploadDrain); try done.
    - split; [done|]. unfold pending in Ep. apply app_nil in Ep as [_ [_ ->]%app_nil]. constructor.
    - cbn [handle_event]. fold (durable w). by rewrite Eu, bool_decide_false, Ed.
    - by rewrite Ep1, Ep. }
  destruct (uploader_writes w1) as (w2 & Hs2 & Em2 & Eu2 & _); [by eapply unexpired_settles|].
  assert (settles w w2) as Hs by (by etransitivity).
  destruct (upload_listed w2 Hup) as (w3 & Hs3 & _ & _ & _ & Hall); [by eapply settles_reached|done| |].
  { pose proof (settle_pending _ _ Hs) as Hp. rewrite Ep in Hp.
    destruct (pending w2) as [|c cs]; [done|]. destruct (not_elem_of_nil c). apply Hp, list_elem_of_here. }
  exists w3. split; [by etransitivity|]. intros h Hh.
  destruct (settle_handles _ _ Hs h) as [E|[E _]]; [apply Hall; by rewrite E|].
  destruct (settle_handles _ _ Hs3 h) as [E'|[E' _]]; [by rewrite E'|done].
Qed.

End progress.

(** ** Property *)

(** C4: uploads catch up. In every world reached without losing data, whatever the
    monitor, an upload and the clients are in the middle of and however many uploads
    have failed before: when a client has sent its end-of-file record, no pending
    record is expired and the DFS works from now on, there is a continuation of the
    run without a loss and without any further action of a client, after which the
    file of the handle in the DFS is exactly the data the client sent and the handle
    has been handed over: it is registered as uploaded, if it was not before, and no
    longer as received. Data that was accepted is never stuck. *)
Theorem uploads_catch_up `{MapOrder} `{SortSlice} `{DFSReader D} `{!PartialWrites D} (dep : Deployment)
    (spin : nat) (mapf : string → string → list KeyValue) (reducef : string → list string → string)
    (now : Z) (w : World D) (h : Handle) (st : ClientState) :
  deployment_ok dep mapf reducef → reached_lossless dep spin w → dfs_works D →
  TrimSpace (Coordinator.fsServerAddress (coordinator w)) ≠ "" →
  clients w !! h = Some st → Exists (λ c, Eof c = true) (accepted st) →
  Forall (λ c, Durable.isHandleExpired now (CId c) (durable w) = false) (pending w) →
  ∃ w', rtc (transition dep (S spin) (lossless dep)) w w' ∧ clients w' = clients w ∧
    Coordinator.dfs_content (storage w') (content_path dep h) = Some (accepted st ≫= Data) ∧
    Durable.handles (durable w') !! h = None ∧
    (is_Some (Durable.handles (durable w) !! h) →
     Durable.uploadedHandles (durable w') !! h = Some now).
Proof.
  intros Hdep Hr Hup Ha Hst He Hu.
  destruct (settles_down dep spin mapf reducef now Hdep w Hup Hr Hu) as (w1 & Hs1 & Em1 & Eu1 & Ep1).
  assert (reached_lossless dep spin w1) as Hr1 by (by eapply settles_reached).
  destruct (upload_takes_all dep spin mapf reducef now Hdep w1 Hup Hr1) as (w2 & Hs2 & Hall);
    [by eapply unexpired_settles| |done|done|done|].
  { by rewrite (settle_address _ _ _ _ _ Hs1). }
  assert (settles dep spin now w w2) as Hs by (by etransitivity).
  assert (reached_lossless dep spin w2) as Hr2 by (by eapply settles_reached).
  assert (clients w1 !! h = Some st) as Hst1 by (by rewrite (settle_clients _ _ _ _ _ Hs1)).
  assert (clients w2 !! h = Some st) as Hst2 by (by rewrite (settle_clients _ _ _ _ _ Hs)).
  destruct (reachable_data dep spin mapf reducef w1 Hdep Hr1) as [_ Hd1].
  destruct (reachable_data dep spin mapf reducef w2 Hdep Hr2) as [_ Hd2].
  assert (Durable.handles (durable w2) !! h = None) as Hnone.
  { destruct (ok_client _ _ Hd1 h st Hst1) as [_ Hcl].
    destruct (Durable.handles (durable w1) !! h) as [b|] eqn:Eb.
    - destruct Hcl as (_ & Hiff & _). apply Hall. rewrite Eb. f_equal. by apply Hiff.
    - destruct (settle_handles _ _ _ _ _ Hs2 h) as [E|[E _]]; [by rewrite E|done]. }
  exists w2. split; [apply Hs|]. split; [apply Hs|]. split_and!; [|done|].
  - destruct (ok_client _ _ Hd2 h st Hst2) as [_ Hcl]. rewrite Hnone in Hcl.
    destruct Hcl as [_ [(E & _)|(E & _)]]; [|done]. rewrite E in He. by apply Exists_nil in He.
  - intros [b Hb]. destruct (settle_handles _ _ _ _ _ Hs h) as [E|[_ E]]; [|done].
    rewrite Hb in E. congruence.
Qed.

End NetworkProgress.
