(* ===== verification/NetworkAtomic.v ===== *)
(** The handlers and goroutines as one step each: what [Durable], [Coordinator] and
    [Master] define as one function is a run of the whole system when nothing comes
    in between. *)

From S2P Require Import Prelude GoStrings Ring Json Codec Types Durable.
From S2P Require Import WritePath Registry Recovery Worker MapReduce Master Jobs.
From S2P Require Import Coordinator Upload System Lifecycle Network Frames.
From stdpp Require Import options.

#[local] Arguments String.append !_ _ / : simpl nomatch.

Module NetworkAtomic.
Import GoStrings Codec Types Master System Network.

Section atomic.
Context `{MapOrder} `{SortSlice} `{DFSReader D} (dep : Deployment) (spin : nat).
Implicit Types (w : World D) (fl : Durable.Faults) (h : Handle).

Local Abbreviation durable w := (Coordinator.durableLog (coordinator w)).
Local Abbreviation run es w := (run_events dep spin es w).

Lemma run_events_app es es' w : run (es ++ es') w = (w1 ← run es w; run es' w1).
Proof.
  revert w. induction es as [|e es IH]; intros w; [done|]. cbn [app run_events].
  destruct (handle_event dep spin e w); [apply IH|done..].
Qed.

(** ** Flushes *)

Lemma flush_in_steps fl clock d d' e :
  Durable.Flush spin fl clock d = Ret (d', e) →
  ∃ cs d1, drain spin d = Ret (cs, d1) ∧ write_snapshot fl clock cs d1 = d'.
Proof.
  unfold Durable.Flush, Durable.syncLogToFile, drain.
  destruct (Ring.Drain _ _ _) as [[cs rb]| |]; [|done..]. cbn [mbind outcome_bind fst snd].
  intros E. exists cs, (Durable.set_log rb d). split; [done|].
  destruct cs; [by injection E|]. unfold write_snapshot. injection E as E. by rewrite E.
Qed.

Lemma drained_written d1 d2 p1 p2 w :
  monitor (goroutines w) = MonitorIdle →
  set_goroutines (set_monitor MonitorIdle (set_monitor p1 (goroutines w)))
    (set_durable d2 (set_goroutines p2 (set_durable d1 w))) = set_durable d2 w.
Proof. destruct w as [c [m u cl r] ? ? ? ? ? ? ? ?]. cbn. by intros ->. Qed.

(** The cleanup of the monitor. *)
Lemma cleanup_in_steps fl clock now w d' :
  monitor (goroutines w) = MonitorIdle →
  Durable.cleanup spin fl clock now (durable w) = Ret d' →
  run [MonitorDrain; MonitorWrite fl clock now] w = Ret (set_durable d' w).
Proof.
  intros Em. unfold Durable.cleanup.
  destruct (Durable.syncLogToFile _ _ _ _) as [[d1 e]| |] eqn:Ef; [|done..].
  cbn [mbind outcome_bind fst]. intros [= <-].
  destruct (flush_in_steps fl clock (durable w) d1 e Ef) as (cs & d0 & Ed & Ew).
  cbn [run_events handle_event]. rewrite Em, Ed. cbn. rewrite Ew. f_equal.
  by apply drained_written.
Qed.

(** ** Uploads *)

Definition upload_events fl (clock : nat → Z) (now : Z) (uploadedAt : string)
    (cancelled : Handle → bool) (hs : list Handle) : list event :=
  [UploadDrain; UploadWrite fl clock; UploadList] ++
  ((λ h, UploadNext fl uploadedAt (cancelled h)) <$> hs) ++ [UploadMark fl now].

Lemma uploading_in_steps fl at_ cancelled hs err dfs' U err' uploaded w :
  uploader (goroutines w) = Uploading hs uploaded →
  Coordinator.upload_all fl (logPath dep) (uploadPrefix dep) at_ cancelled (durable w) hs err (storage w) =
    Ret (U, err', dfs') →
  run ((λ h, UploadNext fl at_ (cancelled h)) <$> hs) w =
    Ret (set_goroutines (set_uploader (Uploading [] (uploaded ++ U)) (goroutines w)) (set_storage dfs' w)).
Proof.
  revert err U uploaded w. induction hs as [|h hs IH]; intros err U uploaded w Eu; cbn [Coordinator.upload_all].
  { intros [= <- _ <-]. rewrite (right_id_L [] (++)). cbn.
    destruct w as [c [m u cl r] ? ? ? ? ? ? ? ?]. cbn in *. by rewrite Eu. }
  rewrite fmap_cons. cbn [run_events handle_event]. rewrite Eu.
  change (Coordinator.upload_handle fl (logPath dep) (uploadPrefix dep) at_ (λ _, cancelled h) (durable w) h
    (storage w)) with (Coordinator.upload_handle fl (logPath dep) (uploadPrefix dep) at_ cancelled
    (durable w) h (storage w)).
  destruct (Coordinator.upload_handle _ _ _ _ _ _ _ _) as [[dfs1 [e|]]| |]; [| |done..];
    cbn [mbind outcome_bind fst snd]; intros E.
  - by erewrite IH; [|done|exact E].
  - destruct (Coordinator.upload_all _ _ _ _ _ _ _ _ dfs1) as [[[U1 err1] dfs2]| |] eqn:E1; [|done..].
    cbn [mbind outcome_bind fst snd] in E. injection E as <- <- <-.
    erewrite IH; [|done|exact E1]. by rewrite <- (assoc_L (++)).
Qed.

(** The flush of an upload and the list of completed handles. *)
Lemma listed_in_steps fl clock w d1 e :
  uploader (goroutines w) = UploadIdle →
  TrimSpace (Coordinator.fsServerAddress (coordinator w)) ≠ "" →
  Durable.Flush spin fl clock (durable w) = Ret (d1, e) →
  run [UploadDrain; UploadWrite fl clock; UploadList] w =
    Ret (set_goroutines (set_uploader
           (match Durable.GetCompletedHandleForRetransmission d1 with
            | [] => UploadIdle
            | hs => Uploading hs []
            end) (goroutines w)) (set_durable d1 w)).
Proof.
  intros Eu Ha Ef. destruct (flush_in_steps fl clock (durable w) d1 e Ef) as (cs & d0 & Ed & Ew).
  cbn [run_events handle_event]. rewrite Eu, bool_decide_false, Ed by done. cbn. by rewrite Ew.
Qed.

(** [uploadFileToStorage]. *)
Lemma upload_in_steps fl clock now at_ cancelled w c' err dfs' :
  uploader (goroutines w) = UploadIdle →
  Coordinator.uploadFileToStorage spin fl clock now (logPath dep) (uploadPrefix dep) at_ cancelled
    (coordinator w) (storage w) = Ret (c', err, dfs') →
  ∃ hs, run (upload_events fl clock now at_ cancelled hs) w = Ret (set_storage dfs' (set_coordinator c' w)).
Proof.
  intros Eu. unfold Coordinator.uploadFileToStorage, upload_events. case_bool_decide as Ha.
  { intros [= <- _ <-]. exists []. cbn [fmap list_fmap app run_events handle_event].
    do 4 (rewrite Eu; rewrite ?bool_decide_true by done; cbn [mbind outcome_bind]).
    by destruct w. }
  destruct (Durable.Flush _ _ _ _) as [[d1 e]| |] eqn:Ef; [|done..]. cbn [mbind outcome_bind fst].
  pose proof (listed_in_steps fl clock w d1 e Eu Ha Ef) as Elist. intros E.
  exists (Durable.GetCompletedHandleForRetransmission d1). rewrite run_events_app, Elist.
  cbn [mbind outcome_bind]. destruct (Durable.GetCompletedHandleForRetransmission d1) as [|h0 hs0].
  { injection E as <- _ <-. destruct w as [c [m u cl r] ? ? ? ? ? ? ? ?]. cbn in *. by rewrite Eu. }
  set (hs := h0 :: hs0) in *.
  destruct (Coordinator.upload_all _ _ _ _ _ _ _ _ _) as [[[U err1] dfs1]| |] eqn:Eall; [|done..].
  cbn [mbind outcome_bind fst snd] in E. injection E as <- _ <-. rewrite run_events_app.
  erewrite uploading_in_steps; [|done|exact Eall]. cbn [mbind outcome_bind run_events handle_event app].
  destruct w as [c [m u cl r] ? ? ? ? ? ? ? ?]. cbn in *. rewrite Eu. by destruct U.
Qed.

(** ** Dispatch *)

(** The answers of the master to the start requests of one dispatch, with the
    tasks that reach the workers; [sched] is the order of the reports. *)
Definition call_master (net : Handle → Connections) (sched : Handle → list nat) (dfs : D)
    (request : StartMapReduceRequest) (s : outcome (Master * list task)) :
    res StartMapReduceReply * outcome (Master * list task) :=
  let h := sr_Handle request in
  match start_call (net h) with
  | CallLost => (Err (ErrMsg "connection refused"), s)
  | called =>
      match
        s ← s;
        r ← RPCStartMapReduce (master_dfs (net h) dfs) (uploadPrefix dep)
              (probe_worker_at dep (net h)) (call_worker (net h)) (dispatch_cancelled (net h))
              (sched h) request s.1;
        Ret (r.1.1, (r.2, s.2 ++ filter (λ q, Is_true (arrives (net h) q)) r.1.2))
      with
      | Ret (reply, s) =>
          (match called with Answered => Ok reply | _ => Err (ErrMsg "unexpected EOF") end, Ret s)
      | Panic => (Err (ErrMsg "unexpected EOF"), Panic)
      | OutOfFuel => (Err (ErrMsg "unexpected EOF"), OutOfFuel)
      end
  end.

Definition start_events (net : Handle → Connections) (sched : Handle → list nat) (hs : list Handle) :
    list event :=
  hs ≫= λ h, [StartJob 0 (net h); Conclude 0 (sched h)].

Definition dispatch_events (now : Z) (plugin : string) (net : Handle → Connections)
    (sched : Handle → list nat) (hs : list Handle) : list event :=
  Claim now plugin :: start_events net sched hs.

Lemma conclude_sent sched h total rs m :
  (conclude_dispatch sched h total rs m).1.2 = omap fst rs.
Proof. unfold conclude_dispatch. by repeat case_match. Qed.

(** One handle: the start and the end of the master's work on it. *)
Lemma start_in_steps net sched plugin h hs c err s w c1 err1 m1 ts1 :
  claimed (goroutines w) = (plugin, h) :: hs → rounds (goroutines w) = [] →
  s = Ret (master w, tasks w) → c = coordinator w →
  Coordinator.start_handle (call_master net sched (storage w)) plugin (c, err, s) h =
    (c1, err1, Ret (m1, ts1)) →
  run [StartJob 0 (net h); Conclude 0 (sched h)] w =
    Ret (set_tasks ts1 (set_master m1 (set_coordinator c1
           (set_goroutines (set_claimed hs (goroutines w)) w)))).
Proof.
  intros Ecl Er -> ->. destruct w as [co [mo up cl rs0] st ma di ts su cs no cli]. cbn in Ecl, Er. subst cl rs0.
  unfold Coordinator.start_handle, Coordinator.runMapReduceForHandle, call_master.
  cbn [run_events handle_event goroutines claimed lookup list_lookup delete list_delete sr_Handle coordinator
    storage master tasks set_goroutines set_claimed rounds].
  case_bool_decide as Ha; [by intros [= <- _ <- <-]|].
  destruct (start_call (net h)); [by intros [= <- _ <- <-]|..].
  all: cbn [mbind outcome_bind fst snd]; unfold RPCStartMapReduce;
    destruct (start_job _ _ _ _ _ _ _) as [[[reply|[total rs]] m']| |]; [| |done..];
    cbn [mbind outcome_bind fst snd app]; cbn; unfold start_answered; cbn [andb].
  all: try (pose proof (conclude_sent (sched h) h total rs m') as Esent;
    destruct (conclude_dispatch (sched h) h total rs m') as [[reply sent] m2];
    cbn [fst snd] in Esent |- *; subst sent).
  all: repeat case_bool_decide; cbn [negb]; intros [= <- _ <- <-]; cbn; by rewrite ?(right_id_L [] (++)).
Qed.

Lemma call_returns net sched dfs request s x :
  (call_master net sched dfs request s).2 = Ret x → ∃ y, s = Ret y.
Proof.
  unfold call_master. destruct (start_call _); [by eexists|..];
    (destruct s as [y| |]; [by exists y|done..]).
Qed.

Lemma start_handle_returns net sched dfs plugin c err s h c' err' x :
  Coordinator.start_handle (call_master net sched dfs) plugin (c, err, s) h = (c', err', Ret x) →
  ∃ y, s = Ret y.
Proof.
  unfold Coordinator.start_handle, Coordinator.runMapReduceForHandle.
  case_bool_decide; [intros [= _ _ ->]; by eexists|].
  pose proof (call_returns net sched dfs (MkStart h plugin) s) as Hcall.
  destruct (call_master _ _ _ _ _) as [[reply|e] s']; [case_bool_decide|];
    intros [= _ _ ->]; by eapply Hcall.
Qed.

Lemma starts_return net sched dfs plugin hs c err s c' err' x :
  foldl (Coordinator.start_handle (call_master net sched dfs) plugin) (c, err, s) hs = (c', err', Ret x) →
  ∃ y, s = Ret y.
Proof.
  revert c err s. induction hs as [|h hs IH]; intros c err s; cbn [foldl].
  { intros [= _ _ ->]. by eexists. }
  destruct (Coordinator.start_handle _ _ _ _) as [[c1 err1] s1] eqn:E. intros [y ->]%IH.
  by eapply start_handle_returns.
Qed.

Lemma starts_in_steps net sched plugin hs err w c1 err1 m1 ts1 :
  claimed (goroutines w) = pair plugin <$> hs → rounds (goroutines w) = [] →
  foldl (Coordinator.start_handle (call_master net sched (storage w)) plugin)
    (coordinator w, err, Ret (master w, tasks w)) hs = (c1, err1, Ret (m1, ts1)) →
  run (start_events net sched hs) w =
    Ret (set_tasks ts1 (set_master m1 (set_coordinator c1
           (set_goroutines (set_claimed [] (goroutines w)) w)))).
Proof.
  revert err w. induction hs as [|h hs IH]; intros err w Ecl Er; cbn [foldl].
  { intros [= <- _ <- <-]. destruct w as [co [mo up cl rs] ? ? ? ? ? ? ? ?]. cbn in *. by rewrite Ecl. }
  destruct (Coordinator.start_handle _ _ _ h) as [[c2 err2] s2] eqn:E. intros Ef.
  destruct (starts_return _ _ _ _ _ _ _ _ _ _ _ Ef) as [[m2 ts2] ->].
  rewrite fmap_cons in Ecl.
  change (start_events net sched (h :: hs)) with
    ([StartJob 0 (net h); Conclude 0 (sched h)] ++ start_events net sched hs).
  rewrite run_events_app.
  erewrite start_in_steps; [|exact Ecl|done|done|done|exact E]. cbn [mbind outcome_bind].
  by erewrite IH; [|done|done|exact Ef].
Qed.

(** [startMapReduce]. *)
Lemma dispatch_in_steps now plugin net sched w c' err m' ts' :
  claimed (goroutines w) = [] → rounds (goroutines w) = [] →
  Coordinator.startMapReduce (call_master net sched (storage w)) now plugin (coordinator w)
    (Ret (master w, tasks w)) = (c', err, Ret (m', ts')) →
  ∃ hs, run (dispatch_events now plugin net sched hs) w =
    Ret (set_tasks ts' (set_master m' (set_coordinator c' w))).
Proof.
  intros Ecl Er E. exists (Durable.GetUploadedHandles now (durable w)).1.
  unfold Coordinator.startMapReduce in E. unfold dispatch_events. cbn [run_events handle_event].
  cbn [mbind outcome_bind]. erewrite starts_in_steps; [|by cbn; rewrite Ecl|done|exact E].
  destruct w as [co [mo up cl rs] ? ? ? ? ? ? ? ?]. cbn in *. by subst.
Qed.

(** ** Results *)

(** [RPCSubmitMapReduceResult]. *)
Lemma submit_in_steps (rf : ResultFaults) now i s w :
  submissions w !! i = Some s →
  let r := RPCSubmitMapReduceResult rf now s (master w) in
  run [Submit i; Collate (length (collations w)) rf now] w =
    Ret (set_notices (notices w ++ option_list r.1.2)
           (set_master r.2 (set_submissions (delete i (submissions w)) w))).
Proof.
  intros Es. cbn [run_events handle_event]. rewrite Es. unfold RPCSubmitMapReduceResult.
  destruct (submit_locked s (master w)) as [[|k n|chunks] m]; cbn [fst snd mbind outcome_bind].
  1-2: cbn [collations set_collations set_master set_submissions];
    rewrite lookup_ge_None_2 by lia; by destruct w; cbn; rewrite (right_id_L [] (++)).
  cbn [collations set_collations set_master set_submissions]. rewrite list_lookup_middle by done.
  rewrite delete_middle, (right_id_L [] (++)). by destruct w.
Qed.

(** ** A whole round *)


End atomic.

End NetworkAtomic.
