(* ===== verification/NetworkExample.v ===== *)
(** The whole system on a concrete deployment, with the DFS in memory: the
    records of a client, an upload, a start, its tasks and results. It shows that
    the hypotheses of the theorems about the system can hold. *)

From S2P Require Import Prelude GoStrings Ring Json Codec Types Durable.
From S2P Require Import WritePath Registry Recovery Worker MapReduce Master Jobs.
From S2P Require Import Coordinator Upload System Lifecycle Network Frames Chunks Results.
From S2P Require Import NetworkInv NetworkSafety UploadRetry NetworkData NetworkRecovery NetworkProgress.
From S2P Require Import NetworkAtomic.
From Stdlib Require Import Ascii.
From stdpp Require Import options.

#[local] Arguments String.append !_ _ / : simpl nomatch.

Module NetworkExample.
Import GoStrings Codec Types Master System Network Chunks Results NetworkInv NetworkSafety.
Import UploadRetry NetworkData NetworkRecovery NetworkProgress NetworkAtomic.

#[local] Existing Instance canonical_order.
#[local] Existing Instance merge_sort_slice.
#[local] Existing Instance Upload.memory_dfs.
#[local] Existing Instance memory_reader.

Abbreviation Dfs := (gmap string (list byte)).

(** The DFS in memory does all of a write. *)
#[refine] Instance memory_writes : PartialWrites Dfs := {}.
Proof.
  intros d p bytes. exists (length bytes). rewrite take_ge by done. cbn.
  by rewrite lookup_insert_eq.
Defined.

(** ** Two workers that count words *)

Definition dep : Deployment :=
  MkDeployment "" "w1:1,w2:1" "" "coordinator:1" "dfs:1" "" (λ f, f)
    (λ addr, Worker.NewWorker addr "" "" "" "2").

Lemma dep_ok : deployment_ok dep Worker.defaultMap Worker.defaultReduce.
Proof.
  split.
  - by exists "/mapreduce", ["/mapreduce/download_logs"].
  - intros h. unfold content_path. rewrite Upload.contentPath_base.
    apply TrimSpace_fixed; [done|]. rewrite string_rev_append. done.
  - intros h. unfold metadata_path. rewrite Upload.remotePath_base.
    apply TrimSpace_fixed; [done|]. rewrite string_rev_append. done.
  - intros addr. by split_and!.
  - apply MapReduce.count_order_insensitive.
Qed.

Lemma dep_configured : configured dep.
Proof. split; by vm_compute. Qed.

(** ** A run *)

Definition dummy : World Dfs :=
  MkWorld (Coordinator.NewCoordinator 0 "" "" (Durable.MkDir false ∅))
    (MkGoroutines MonitorIdle UploadIdle [] []) ∅ (NewMaster "" "" "" ∅)
    (λ _, Worker.MkDisk ∅ ∅) [] [] [] [] ∅.
Definition world_of (o : outcome (World Dfs)) : World Dfs :=
  match o with Ret w => w | _ => dummy end.
Definition returns (o : outcome (World Dfs)) : bool :=
  match o with Ret _ => true | _ => false end.

Lemma world_of_returns o : returns o = true → o = Ret (world_of o).
Proof. by destruct o. Qed.

Definition next (w : World Dfs) (e : event) : World Dfs := world_of (handle_event dep 1 e w).

(** A client sends the text of two words in two records, the second while the
    monitor holds the first; its file is uploaded, its job claimed and started, and
    the tasks finish in the other order. *)
Definition h : Handle := MkHandle 1 10.
Definition text1 : list byte := ["h"%char; "i"%char; " "%char].
Definition text2 : list byte := ["y"%char; "o"%char].
Definition record1 : Content := MkContent h false text1.
Definition record2 : Content := MkContent h true text2.

Definition w0 : World Dfs := world_of (start dep 1 5 ∅ (λ _, Worker.MkDisk ∅ ∅)).
Definition w1 : World Dfs := next w0 (GrantHandle 10).
Definition w2 : World Dfs := next w1 (Forward 20 (MkDownload h text1 false) false).
Definition w2' : World Dfs := next w2 MonitorDrain.
Definition w3 : World Dfs := next w2' (Forward 25 (MkDownload h text2 true) true).
Definition w3a : World Dfs := next w3 (MonitorWrite Durable.no_faults (λ _, 30) 30).
Definition w3b : World Dfs := next w3a UploadDrain.
Definition w4 : World Dfs := next w3b (UploadWrite Durable.no_faults (λ _, 30)).
Definition upload : list event :=
  [UploadList; UploadNext Durable.no_faults "now" false; UploadMark Durable.no_faults 30].
Definition start_it : list event := [Claim 40 ""; StartJob 0 good_connections].
Definition w5 : World Dfs := foldl next (foldl next w4 upload) start_it.
Definition task_run : TaskRun := MkRun Worker.no_io_faults false false [1; 0]%nat "t".
Definition finish : list event :=
  [Conclude 0 [2; 1; 0]%nat; Submit 0; Submit 0; Submit 0; Collate 0 no_result_faults "t"].
Definition w6 : World Dfs :=
  next (next (next w5 (RunTask 2 task_run)) (RunTask 1 task_run)) (RunTask 0 task_run).
Definition w8 : World Dfs := foldl next w6 finish.

(** Another continuation: a task is lost and the master restarts. *)
Definition w5' : World Dfs := next (next w5 (LoseTask 0)) RestartMaster.

(** *** The run is one of those the theorems are about *)

Lemma fits (dfs : Dfs) :
  bool_decide (map_Forall (λ _ bytes,
    chunk_count 2 (Z.of_nat (length bytes)) * 2 <= max_i64) dfs) = true → files_fit dfs.
Proof. intros E%bool_decide_eq_true p bytes Hp. exact (E p bytes Hp). Qed.

Lemma step w e :
  reached_lossless dep 0 w → lossless dep w e → returns (handle_event dep 1 e w) = true →
  reached_lossless dep 0 (next w e).
Proof. intros Hw He E. eapply reachable_step; [exact Hw|exact He|by apply world_of_returns]. Qed.

Fixpoint all_lossless (w : World Dfs) (es : list event) : Prop :=
  match es with
  | [] => True
  | e :: es => lossless dep w e ∧ returns (handle_event dep 1 e w) = true ∧ all_lossless (next w e) es
  end.

Lemma steps es w : reached_lossless dep 0 w → all_lossless w es → reached_lossless dep 0 (foldl next w es).
Proof.
  revert w. induction es as [|e es IH]; intros w Hw; [done|]. intros (He & E & Hes).
  apply IH; [by apply step|done].
Qed.

Lemma w2_reached : reached_lossless dep 0 w2.
Proof.
  apply step; [apply step| |by vm_compute].
  - exists 5, ∅, (λ _, Worker.MkDisk ∅ ∅), w0. split_and!; [|by apply world_of_returns|done].
    intros h'. apply lookup_empty.
  - split; [|done]. split; by vm_compute.
  - by vm_compute.
  - split; [|by vm_compute]. by exists (MkClient [] false).
Qed.

Lemma w3_reached : reached_lossless dep 0 w3.
Proof.
  apply step; [apply step; [apply w2_reached| |by vm_compute]| |by vm_compute].
  - split; [done|]. vm_compute. by constructor.
  - split; [|by vm_compute]. by exists (MkClient [record1] false).
Qed.

Lemma held_records :
  monitor_held w3 = [record1] ∧ queued w3a = [record2] ∧ monitor_held w3a = [] ∧
  uploader_held w3b = [record2] ∧ pending w4 = [].
Proof. by vm_compute. Qed.

Lemma w4_reached : reached_lossless dep 0 w4.
Proof.
  destruct held_records as (E1 & E2 & E3 & E4 & _).
  apply step; [apply step; [apply step; [apply w3_reached| |by vm_compute]| |by vm_compute]| |by vm_compute].
  - split; [done|]. split; [done|]. rewrite E1. constructor; [|done]. intros j. by vm_compute.
  - split; [done|]. rewrite E2, E3. by constructor.
  - split; [done|]. split; [done|]. rewrite E4. constructor; [|done]. intros j. by vm_compute.
Qed.

Lemma w5_reached : reached_lossless dep 0 w5.
Proof.
  refine (steps start_it (foldl next w4 upload) (steps upload w4 w4_reached _) _).
  - split; [|split; [by vm_compute|split; [done|split; [by vm_compute|split; [done|by vm_compute]]]]].
    split; [done|]. destruct held_records as (_ & _ & _ & _ & ->). by constructor.
  - split; [done|split; [by vm_compute|split; [|by vm_compute]]]. split; [|done]. apply fits. by vm_compute.
Qed.

Lemma run_allowed w i : lossless dep w (RunTask i task_run).
Proof. split; [|done]. intros q _. apply MapReduce.example_schedule. Qed.

Lemma w6_reached : reached_lossless dep 0 w6.
Proof. do 3 (apply step; [|apply run_allowed|by vm_compute]). apply w5_reached. Qed.

Lemma w8_reached : reached_lossless dep 0 w8.
Proof.
  apply (steps finish w6 w6_reached).
  split; [|by repeat (split; [by vm_compute|])]. split; [|done].
  intros rd E. vm_compute in E. injection E as <-. apply (bool_decide_eq_true_1 _). by vm_compute.
Qed.

Lemma lossless_reached w : reached_lossless dep 0 w → reached dep 0 w.
Proof. apply reachable_mono; [done|]. apply lossless_allowed. Qed.

Lemma w5'_reached : reached dep 0 w5'.
Proof. apply lossless_reached. do 2 (apply step; [|done|by vm_compute]). apply w5_reached. Qed.

(** ** Races

    The two interleavings that the theorems about lost data exclude. *)

Lemma step_allowed w e :
  reached dep 0 w → allowed dep w e → returns (handle_event dep 1 e w) = true → reached dep 0 (next w e).
Proof. intros Hw He E. eapply reachable_step; [exact Hw|exact He|by apply world_of_returns]. Qed.

Fixpoint run_from (w : World Dfs) (es : list event) : World Dfs :=
  match es with [] => w | e :: es => run_from (next w e) es end.

(** Events the environment is always allowed, that return. *)
Definition upload_event (e : event) : bool :=
  match e with
  | MonitorDrain | MonitorWrite _ _ _ | UploadDrain | UploadWrite _ _ | UploadList
  | UploadNext _ _ _ | UploadMark _ _ => true
  | _ => false
  end.

Fixpoint returning (w : World Dfs) (es : list event) : bool :=
  match es with
  | [] => true
  | e :: es => upload_event e && returns (handle_event dep 1 e w) && returning (next w e) es
  end.

Lemma steps_allowed es w : reached dep 0 w → returning w es = true → reached dep 0 (run_from w es).
Proof.
  revert w. induction es as [|e es IH]; intros w Hw; cbn; [done|].
  intros [[He E]%andb_true_iff Hes]%andb_true_iff. apply IH; [|done].
  apply step_allowed; [done|by destruct e|done].
Qed.

(** The last record arrives after the flush of an upload and before the upload
    lists the completed handles. *)
Definition late_record : World Dfs :=
  next (run_from w2 [UploadDrain; UploadWrite Durable.no_faults (λ _, 20)])
    (Forward 25 (MkDownload h text2 true) false).
Definition overtaken : World Dfs :=
  run_from late_record [UploadList; UploadNext Durable.no_faults "now" false; UploadMark Durable.no_faults 30].

Lemma uploaded_stays (w w' : World Dfs) t data :
  reached dep 0 w → Durable.uploadedHandles (durable w) !! h = Some t →
  Coordinator.dfs_content (storage w) (content_path dep h) = Some data → run dep 0 w w' →
  Coordinator.dfs_content (storage w') (content_path dep h) = Some data.
Proof.
  intros Hr Hu Hd Hrun.
  pose proof (reachable_ok dep 0 Worker.defaultMap Worker.defaultReduce any_dfs w dep_ok Hr) as Hw.
  destruct (ok_uploaded _ _ (ok_coordinator _ _ _ _ Hw) h) as [data' Hst]; [by eexists|].
  pose proof Hst as (_ & _ & Hcon & _). rewrite Hd in Hcon. injection Hcon as <-.
  by apply (keeps_run dep 0 Worker.defaultMap Worker.defaultReduce w w' dep_ok Hw Hrun).
Qed.

Lemma overtaken_observed :
  clients overtaken !! h = Some (MkClient [record1; record2] true) ∧
  Durable.uploadedHandles (durable overtaken) !! h = Some 30 ∧
  Coordinator.dfs_content (storage overtaken) (content_path dep h) = Some text1.
Proof. split_and!; by vm_compute. Qed.

Lemma overtaken_reached : reached dep 0 overtaken.
Proof.
  apply steps_allowed; [|by vm_compute]. apply step_allowed; [| |by vm_compute].
  - apply steps_allowed; [|by vm_compute]. apply lossless_reached, w2_reached.
  - by exists (MkClient [record1] false).
Qed.

(** An upload can overtake the records of its handle: the client's last record is
    taken with "success" after the upload has flushed, the handle is then listed as
    completed, and the file is uploaded without that record and marked as uploaded.
    Whatever happens later, the file in the DFS stays as it is. *)
Theorem upload_overtakes_records :
  ∃ w, reached dep 0 w ∧
    clients w !! h = Some (MkClient [record1; record2] true) ∧
    Durable.uploadedHandles (durable w) !! h = Some 30 ∧
    ∀ w', run dep 0 w w' → Coordinator.dfs_content (storage w') (content_path dep h) = Some text1.
Proof.
  destruct overtaken_observed as (E1 & E2 & E3). exists overtaken.
  split; [apply overtaken_reached|split; [exact E1|split; [exact E2|]]]. intros w' Hrun.
  exact (uploaded_stays overtaken w' 30 text1 overtaken_reached E2 E3 Hrun).
Qed.

(** The monitor holds the first record while the upload flushes the second. *)
Definition reordered : World Dfs :=
  run_from w3 [UploadDrain; UploadWrite Durable.no_faults (λ _, 30);
    MonitorWrite Durable.no_faults (λ _, 30) 30; UploadList;
    UploadNext Durable.no_faults "now" false; UploadMark Durable.no_faults 30].

(** Flushes at the same time can reorder the records of a handle: the file in the
    DFS has them in another order than the client sent them. *)
Theorem flushes_reorder_records :
  ∃ w, reached dep 0 w ∧
    clients w !! h = Some (MkClient [record1; record2] true) ∧
    Coordinator.dfs_content (storage w) (content_path dep h) = Some (text2 ++ text1).
Proof.
  exists reordered. split; [|split; by vm_compute]. apply steps_allowed; [|by vm_compute].
  apply lossless_reached, w3_reached.
Qed.

(** ** Witnesses *)



Lemma system_never_goes_wrong_witness :
  reached dep 0 w5' ∧
  ∀ e, allowed dep w5' e → ∃ w', handle_event dep 1 e w5' = Ret w'.
Proof.
  split; [apply w5'_reached|]. intros e He.
  destruct (system_never_goes_wrong dep 0 Worker.defaultMap Worker.defaultReduce w5' dep_ok
    w5'_reached) as [_ Hall].
  destruct (Hall e He) as (w' & E & _). exists w'. exact E.
Defined.

Lemma nothing_lost_witness :
  reached_lossless dep 0 w3 ∧
  ∃ q, Ring.ring_repr (Durable.log (durable w3)) q ∧
    Durable.file_content (Durable.logDir (durable w3)) (logFileName h) ++
      log_bytes (WritePath.of_handle h (monitor_held w3 ++ uploader_held w3 ++ q)) =
    log_bytes [record1; record2].
Proof.
  split; [apply w3_reached|].
  apply (nothing_lost dep 0 Worker.defaultMap Worker.defaultReduce w3 h
    (MkClient [record1; record2] true) dep_ok w3_reached).
  by vm_compute.
Defined.

Lemma memory_works : dfs_works Dfs.
Proof.
  split; [done| |done]. intros m p. cbn. by destruct (m !! p).
Qed.

Lemma w3_pending : pending w3 = [record1; record2].
Proof. by vm_compute. Qed.

Lemma uploads_catch_up_witness :
  reached_lossless dep 0 w3 ∧ Durable.handles (durable w3) !! h = Some true ∧
  ∃ w', rtc (transition dep 1 (lossless dep)) w3 w' ∧
    Coordinator.dfs_content (storage w') (content_path dep h) = Some (text1 ++ text2) ∧
    Durable.uploadedHandles (durable w') !! h = Some 30.
Proof.
  assert (Durable.handles (durable w3) !! h = Some true) as Hh by by vm_compute.
  split; [apply w3_reached|split; [exact Hh|]].
  destruct (uploads_catch_up dep 0 Worker.defaultMap Worker.defaultReduce 30 w3 h
    (MkClient [record1; record2] true) dep_ok w3_reached memory_works)
    as (w' & Hrun & _ & Hcon & _ & Hup).
  - by vm_compute.
  - by vm_compute.
  - apply Exists_cons. right. apply Exists_cons. by left.
  - rewrite w3_pending. constructor; [by vm_compute|]. constructor; [by vm_compute|]. constructor.
  - exists w'. split; [exact Hrun|split; [exact Hcon|]]. apply Hup. by eexists.
Defined.


(** A trigger in the world where the monitor has written the first record. *)
Definition good_net (_ : Handle) : Connections := good_connections.
Definition order (_ : Handle) : list nat := [2; 1; 0]%nat.
Definition all_at (_ : nat) : Z := 30.
Definition never (_ : Handle) : bool := false.
Definition triggered : World Dfs :=
  run_from w3a (upload_events Durable.no_faults all_at 30 "now" never [h]).
Abbreviation trigger :=
  (Coordinator.RPCTriggerProcessing 1 Durable.no_faults all_at 30 (logPath dep) (uploadPrefix dep) "now"
    never (λ request s, call_master dep good_net order (storage triggered) request s) 40 ""
    (coordinator w3a) (storage w3a) (Ret (master w3a, tasks w3a))).

Definition returned {A B C T} (o : outcome (A * B * Dfs * outcome (C * list T))) (dfs : Dfs) (n : nat) : bool :=
  match o with
  | Ret (_, dfs', Ret (_, ts)) => bool_decide (dfs' = dfs) && bool_decide (length ts = n)
  | _ => false
  end.

Lemma returned_sound {A B C T} (o : outcome (A * B * Dfs * outcome (C * list T))) dfs n :
  returned o dfs n = true → ∃ a b c ts, o = Ret (a, b, dfs, Ret (c, ts)) ∧ length ts = n.
Proof.
  destruct o as [[[[a b] dfs'] [[c ts]| |]]| |]; [|done..]. cbn.
  intros [->%bool_decide_eq_true E%bool_decide_eq_true]%andb_true_iff. by exists a, b, c, ts.
Qed.

Lemma trigger_returns :
  ∃ reply c m ts, trigger = Ret (reply, c, storage triggered, Ret (m, ts)) ∧ length ts = 3%nat.
Proof. apply returned_sound. by vm_compute. Qed.


End NetworkExample.
