(* ===== verification/Entry.v ===== *)
(** The entry point [main.go]: flags and environment to one of the three services.
    Flags arrive parsed, [None] standing for one that is not given; the environment
    is a map. *)

From S2P Require Import Prelude GoStrings Codec Types Durable Worker Master Coordinator Plugins Service.
From stdpp Require Import options.

Module Entry.
Import GoStrings Codec Types Durable.

Definition getenv (env : gmap string string) (key : string) : string := default "" (env !! key).
Definition envOrDefault (env : gmap string string) (envKey fallback : string) : string :=
  let value := getenv env envKey in
  if bool_decide (TrimSpace value = "") then fallback else value.

Definition dfs_key : string := "MAPREDUCE_DFS_SERVER_ADDRESS".
Definition master_key : string := "MAPREDUCE_MASTER_SERVER_ADDRESS".
Definition plugin_key : string := "MAPREDUCE_PLUGIN_PATH".

Record Flags := MkFlags {
  f_role : option string; f_addr : option string; f_dfs : option string;
  f_master : option string; f_plugin : option string }.

Definition role (f : Flags) : string := default "coordinator" (f_role f).
Definition addr (f : Flags) : string := default "localhost:1234" (f_addr f).
Definition dfsAddr (env : gmap string string) (f : Flags) : string :=
  default (envOrDefault env dfs_key "localhost:8089") (f_dfs f).
Definition masterAddr (env : gmap string string) (f : Flags) : string :=
  default (envOrDefault env master_key "localhost:1235") (f_master f).
Definition pluginPath (env : gmap string string) (f : Flags) : string :=
  default (envOrDefault env plugin_key "") (f_plugin f).

(** The environment after the calls of [Setenv]. *)
Definition exported (env : gmap string string) (f : Flags) : gmap string string :=
  let env' := <[master_key := masterAddr env f]> (<[dfs_key := dfsAddr env f]> env) in
  if bool_decide (TrimSpace (pluginPath env f) = "") then env'
  else <[plugin_key := pluginPath env f]> env'.

(** The constructors, each with what it reads from the environment. *)
Definition new_coordinator (now : Z) (dir : Dir) (env : gmap string string) (dfs : string) :
    Coordinator.Coordinator :=
  Coordinator.NewCoordinator now dfs (getenv env master_key) dir.
Definition new_master (dir : gmap string string) (env : gmap string string) : Master.Master :=
  Master.NewMaster (getenv env "MAPREDUCE_WORKER_ADDRESSES") (getenv env dfs_key)
    (getenv env "MAPREDUCE_COORDINATOR_ADDRESS") dir.
Definition new_worker (env : gmap string string) (address : string) : Worker.Worker :=
  Worker.NewWorker address (getenv env master_key) (getenv env dfs_key)
    (getenv env "MAPREDUCE_PLUGIN_NAME") (getenv env "MAPREDUCE_N_REDUCE").

Inductive process :=
| CoordinatorProcess (c : Coordinator.Coordinator)
| MasterProcess (m : Master.Master)
| WorkerProcess (w : Worker.Worker).

(** What [main] reaches: the end with a message, or a process that serves. *)
Inductive reached := Fatal (msg : string) | Serving (p : process) (s : Service.Service).

(** [Start] of the service, and the process it leaves. *)
Definition start (name : string)
    (go : (string → res nat) → Service.Service → option go_error * Service.Service)
    (bind : string → res nat) (address : string) (p : process) : reached :=
  match go bind (Service.NewService address) with
  | (Some _, _) => Fatal ("Failed to start " +:+ name)
  | (None, s) => Serving p s
  end.

Definition main (now : Z) (logs : Dir) (results : gmap string string)
    (open : string → res (string → option Plugins.symbol)) (bind : string → res nat)
    (setenv_fails : string → bool) (env : gmap string string) (f : Flags) : reached :=
  let path := pluginPath env f in
  if setenv_fails dfs_key then Fatal ("Failed to set " +:+ dfs_key)
  else if setenv_fails master_key then Fatal ("Failed to set " +:+ master_key)
  else if negb (bool_decide (TrimSpace path = "")) && setenv_fails plugin_key then
    Fatal ("Failed to set " +:+ plugin_key)
  else
    let env' := exported env f in
    let r := ToLower (TrimSpace (role f)) in
    if bool_decide (r = "coordinator") then
      start "coordinator" Service.coordinator_Start bind (addr f)
        (CoordinatorProcess (new_coordinator now logs env' (dfsAddr env f)))
    else if bool_decide (r = "master") then
      start "master" Service.master_Start bind (addr f) (MasterProcess (new_master results env'))
    else if bool_decide (r = "worker") then
      let w := new_worker env' (addr f) in
      match Plugins.loadMapReducePlugin (getenv env' "MAPREDUCE_PLUGIN_DIR")
              (getenv env' plugin_key) open w with
      | Err e => start "worker" (Service.worker_Start (Some e)) bind (addr f) (WorkerProcess w)
      | Ok (w, _) => start "worker" (Service.worker_Start None) bind (addr f) (WorkerProcess w)
      end
    else Fatal ("Invalid role " +:+ Master.quoted (role f) +:+ ". Use coordinator, master, or worker").

(** ** The services find each other *)

Lemma exported_dfs env f : getenv (exported env f) dfs_key = dfsAddr env f.
Proof. unfold getenv, exported. case_bool_decide; by simplify_map_eq. Qed.
Lemma exported_master env f : getenv (exported env f) master_key = masterAddr env f.
Proof. unfold getenv, exported. case_bool_decide; by simplify_map_eq. Qed.
Lemma exported_coordinator env f :
  getenv (exported env f) "MAPREDUCE_COORDINATOR_ADDRESS" =
    getenv env "MAPREDUCE_COORDINATOR_ADDRESS".
Proof. unfold getenv, exported. case_bool_decide; by simplify_map_eq. Qed.

(** The DFS and the master a process talks to. *)
Definition dfs_of (p : process) : string :=
  match p with
  | CoordinatorProcess c => Coordinator.fsServerAddress c
  | MasterProcess m => Master.fsServerAddress m
  | WorkerProcess w => Worker.fsServerAddr w
  end.
Definition master_of (p : process) : option string :=
  match p with
  | CoordinatorProcess c => Some (Coordinator.masterAddress c)
  | MasterProcess _ => None
  | WorkerProcess w => Some (Worker.masterAddress w)
  end.

Lemma start_serving name go bind address p q s :
  start name go bind address p = Serving q s → q = p.
Proof.
  unfold start. destruct (go bind (Service.NewService address)) as [[e|] s']; [done|].
  by intros [= -> _].
Qed.

Lemma loaded_addresses dirEnv path open w w' p' :
  Plugins.loadMapReducePlugin dirEnv path open w = Ok (w', p') →
  Worker.fsServerAddr w' = Worker.fsServerAddr w ∧ Worker.masterAddress w' = Worker.masterAddress w.
Proof. unfold Plugins.loadMapReducePlugin. repeat case_match; by intros [= <- _]. Qed.

Lemma env_given value fallback : TrimSpace value ≠ "" → Worker.envOrDefault value fallback = value.
Proof. intros Hv. unfold Worker.envOrDefault. by case_bool_decide as E; [rewrite E in Hv|]. Qed.

(** Processes that are started with the same addresses work together. Whatever
    role a process is started in, if the addresses of the DFS and of the master that
    the flags and the environment give are not blank, it uses exactly those. The
    master learns the coordinator's address from the environment alone: without
    that variable no finished job is ever reported, and handles are only released
    when their lease runs out. *)
Theorem roles_agree (now : Z) (logs : Dir) (results : gmap string string)
    (open : string → res (string → option Plugins.symbol)) (bind : string → res nat)
    (setenv_fails : string → bool) (env : gmap string string) (f : Flags) (p : process)
    (s : Service.Service) :
  main now logs results open bind setenv_fails env f = Serving p s →
  TrimSpace (dfsAddr env f) ≠ "" → TrimSpace (masterAddr env f) ≠ "" →
  dfs_of p = dfsAddr env f ∧
  (∀ a, master_of p = Some a → a = masterAddr env f) ∧
  (∀ m h file, p = MasterProcess m →
     TrimSpace (getenv env "MAPREDUCE_COORDINATOR_ADDRESS") = "" →
     Master.notifyCoordinator h file m = None).
Proof.
  intros Hmain Hd Hm. revert Hmain. unfold main.
  destruct (setenv_fails dfs_key); [done|]. destruct (setenv_fails master_key); [done|].
  destruct (_ && _); [done|]. cbv zeta.
  case_bool_decide; [|case_bool_decide; [|case_bool_decide; [|done]]].
  - intros ->%start_serving. split_and!; [done| |done]. intros a [= <-]. cbn.
    rewrite exported_master. by apply env_given.
  - intros ->%start_serving. split_and!; [|done|].
    + cbn. rewrite exported_dfs. by apply env_given.
    + intros m h file [= <-] Hc. unfold Master.notifyCoordinator. cbn.
      rewrite exported_coordinator.
      assert (TrimSpace (Worker.envOrDefault (getenv env "MAPREDUCE_COORDINATOR_ADDRESS") "") = "") as E.
      { unfold Worker.envOrDefault. by destruct (bool_decide (_ = "")). }
      by rewrite (bool_decide_eq_true_2 _ E).
  - assert (∀ w, Worker.fsServerAddr w = Worker.fsServerAddr (new_worker (exported env f) (addr f)) →
      Worker.masterAddress w = Worker.masterAddress (new_worker (exported env f) (addr f)) →
      dfs_of (WorkerProcess w) = dfsAddr env f ∧
      (∀ a, master_of (WorkerProcess w) = Some a → a = masterAddr env f)) as Hw.
    { intros w Ed Em. cbn. rewrite Ed, Em. cbn. rewrite exported_dfs, exported_master. split.
      - by apply env_given.
      - intros a [= <-]. by apply env_given. }
    destruct (Plugins.loadMapReducePlugin _ _ _ _) as [[w' p']|e] eqn:El.
    + apply loaded_addresses in El as [Ed Em]. intros ->%start_serving.
      destruct (Hw w' Ed Em). by split_and!.
    + done.
Qed.

Definition example_env : gmap string string := {[master_key := "m:1"]}.
Definition example_flags : Flags := MkFlags (Some " Master ") None (Some "dfs:9") None None.

Lemma example_serves :
  match main 0 (MkDir true ∅) ∅ (λ _, Err (ErrMsg "no plugin")) (λ _, Ok 3%nat) (λ _, false)
          example_env example_flags with
  | Serving (MasterProcess m) _ => Master.fsServerAddress m
  | _ => ""
  end = "dfs:9".
Proof. vm_compute. reflexivity. Qed.

Lemma roles_agree_witness :
  ∃ m s, main 0 (MkDir true ∅) ∅ (λ _, Err (ErrMsg "no plugin")) (λ _, Ok 3%nat) (λ _, false)
           example_env example_flags = Serving (MasterProcess m) s ∧
    Master.fsServerAddress m = "dfs:9" ∧
    Master.notifyCoordinator (MkHandle 1 50) "result" m = None.
Proof.
  pose proof example_serves as E. destruct (main _ _ _ _ _ _ _ _) as [msg|[c|m|w] s] eqn:Em;
    [discriminate|discriminate| |discriminate].
  exists m, s. split; [done|].
  destruct (roles_agree 0 (MkDir true ∅) ∅ (λ _, Err (ErrMsg "no plugin")) (λ _, Ok 3%nat)
    (λ _, false) example_env example_flags (MasterProcess m) s Em) as (Hd & _ & Hc).
  - by vm_compute.
  - by vm_compute.
  - split; [exact Hd|]. by apply Hc.
Defined.

End Entry.
