(* ===== verification/Simulation.v ===== *)
(** The simulation engine of [dashboard/api/main.go]. It computes with [float64];
    its operations are the interface [Float64], and the theorems hold for every
    arithmetic that has the few properties they name. The pseudo-random numbers
    are a sequence, read through a counter. *)

From S2P Require Import Prelude GoStrings.
From stdpp Require Import list.
From stdpp Require Import options.

#[local] Open Scope Z_scope.

Module Simulation.

(** ** Arithmetic *)

(** [dec m e] is the constant [m / 10 ^ e]; [to_int] the conversion [int(f)]. *)
Class Float64 := {
  float : Type;
  dec : Z → nat → float;
  of_int : Z → float;
  to_int : float → Z;
  add : float → float → float;
  sub : float → float → float;
  mul : float → float → float;
  div : float → float → float;
  ltb : float → float → bool;
  eqb : float → float → bool;
  floor : float → float;
  ceil : float → float;
  round : float → float;
  max : float → float → float;
  min : float → float → float
}.

Section engine.
Context `{Float64}.

Definition zero : float := dec 0 0.
Definition leb0 (x : float) : bool := ltb x zero || eqb x zero.

(** ** Data *)

Record PluginProfile := MkProfile {
  Name : string; Description : string; MapComplexity : float; ReduceComplexity : float; CrashRate : float;
  MemoryFactor : float }.

Definition profile (name description : string) (m r c f : float) : string * PluginProfile :=
  (name, MkProfile name description m r c f).
Definition pluginProfiles : gmap string PluginProfile := list_to_map [
  profile "wc" "Word Count – simple tokenisation and aggregation"
    (dec 10 1) (dec 10 1) zero (dec 10 1);
  profile "indexer" "Inverted Index – heavier reduce with document tracking"
    (dec 15 1) (dec 25 1) zero (dec 18 1);
  profile "mtiming" "Map Timing – measures map-phase parallelism"
    (dec 12 1) (dec 5 1) zero (dec 10 1);
  profile "rtiming" "Reduce Timing – measures reduce-phase parallelism"
    (dec 5 1) (dec 14 1) zero (dec 10 1);
  profile "jobcount" "Job Count – lightweight counter plugin"
    (dec 3 1) (dec 3 1) zero (dec 5 1);
  profile "crash" "Crash – randomly crashes workers to test fault tolerance"
    (dec 10 1) (dec 10 1) (dec 3 1) (dec 10 1);
  profile "nocrash" "No-Crash – identical to wc but labelled for crash-test baseline"
    (dec 10 1) (dec 10 1) zero (dec 10 1);
  profile "early_exit" "Early Exit – validates that workers exit only after completion"
    (dec 10 1) (dec 10 1) zero (dec 10 1);
  profile "bigram" "Bigram – consecutive two-word pair frequency analysis"
    (dec 13 1) (dec 12 1) zero (dec 14 1);
  profile "charfreq" "Char Frequency – character-level frequency distribution"
    (dec 8 1) (dec 6 1) zero (dec 12 1);
  profile "emailextract" "Email Extract – regex-based e-mail address extraction and counting"
    (dec 14 1) (dec 8 1) zero (dec 11 1);
  profile "linestats" "Line Stats – distributed line, word, and character counting (wc -lwm)"
    (dec 6 1) (dec 4 1) zero (dec 8 1);
  profile "sentiment" "Sentiment – keyword-based positive/negative/neutral classification"
    (dec 15 1) (dec 10 1) zero (dec 16 1);
  profile "topwords" "Top Words – word frequency with top-N ranking in reduce"
    (dec 10 1) (dec 18 1) zero (dec 15 1);
  profile "urlextractor" "URL Extractor – regex-based URL extraction and counting"
    (dec 14 1) (dec 8 1) zero (dec 11 1)].

(** The zero value of a profile. *)
Definition no_profile : PluginProfile := MkProfile "" "" zero zero zero zero.

Record SimulationRequest := MkRequest {
  Plugin : string; InputSizeMB : float; NumWorkers : Z; NumChunks : Z;
  NetworkLatencyMs : float; Iterations : Z; Files : list string; Mode : string }.

Record PhaseMetrics := MkPhase { DurationMs : float; Throughput : float }.
Record LatencyDistribution := MkLatency {
  P50 : float; P75 : float; P90 : float; P95 : float; P99 : float;
  Min : float; Max : float; Avg : float }.
Record WorkerMetrics := MkMetrics {
  WorkerID : Z; TasksCompleted : Z; TotalTimeMs : float; Utilization : float; Crashes : Z }.
Record TimeSeriesPoint := MkPoint {
  TimestampMs : float; PValue : float; Label : string }.
Record SimulationResult := MkSim {
  r_Plugin : string; r_Config : SimulationRequest; r_TotalDurationMs : float;
  r_MapPhase : PhaseMetrics; r_ShufflePhase : PhaseMetrics; r_ReducePhase : PhaseMetrics;
  r_Throughput : float; r_Latency : LatencyDistribution; r_Workers : list WorkerMetrics;
  r_ThroughputOverTime : list TimeSeriesPoint; r_LatencyOverTime : list TimeSeriesPoint;
  r_CpuOverTime : list TimeSeriesPoint; r_TotalCrashes : Z; r_RecoveryTimeMs : float;
  r_Timestamp : string; r_Mode : string }.

(** ** Statistics *)

Definition sum (l : list float) : float := foldl add zero l.

(** [sorted[int(math.Floor(idx))]] may be out of range. *)
Definition percentile (sorted : list float) (p : float) : outcome float :=
  match sorted with
  | [] => Ret zero
  | _ =>
      let idx := mul p (of_int (Z.of_nat (length sorted) - 1)) in
      let lower := to_int (floor idx) in
      let upper := to_int (ceil idx) in
      if (lower =? upper) || (Z.of_nat (length sorted) <=? upper) then index sorted lower
      else
        let frac := sub idx (of_int lower) in
        a ← index sorted lower;
        b ← index sorted upper;
        Ret (add (mul a (sub (of_int 1) frac)) (mul b frac))
  end.

Definition computeLatencyDistribution (sorted : list float) : outcome LatencyDistribution :=
  match sorted with
  | [] => Ret (MkLatency zero zero zero zero zero zero zero zero)
  | first :: _ =>
      p50 ← percentile sorted (dec 50 2);
      p75 ← percentile sorted (dec 75 2);
      p90 ← percentile sorted (dec 90 2);
      p95 ← percentile sorted (dec 95 2);
      p99 ← percentile sorted (dec 99 2);
      Ret (MkLatency p50 p75 p90 p95 p99 first (default zero (last sorted))
             (div (sum sorted) (of_int (Z.of_nat (length sorted)))))
  end.

Definition safeDiv (a b : float) : float := if eqb b zero then zero else div a b.

(** ** Random numbers: [rand k] is the [k]-th draw; the counter is threaded. *)

Definition draw (rand : nat → float) (k : nat) : float * nat := (rand k, S k).

(** ** Time series: points [i] to [50]. *)

Definition series_time (i : Z) (totalMs : float) : float :=
  let t := mul (div (of_int i) (of_int 50)) totalMs in
  div (round (mul t (of_int 100))) (of_int 100).
Definition round2 (x : float) : float := div (round (mul x (of_int 100))) (of_int 100).

Fixpoint series (n : nat) (i : Z) (value : Z → nat → float * nat) (totalMs : float) (k : nat) :
    list TimeSeriesPoint * nat :=
  match n with
  | O => ([], k)
  | S n =>
      let v := value i k in
      let rest := series n (i + 1) value totalMs v.2 in
      (MkPoint (series_time i totalMs) (round2 v.1) "" :: rest.1, rest.2)
  end.

Definition generateThroughputTimeSeries (rand : nat → float) (totalMs inputMB : float) (k : nat) :
    list TimeSeriesPoint * nat :=
  let avgThroughput := div inputMB (div totalMs (of_int 1000)) in
  series 51 0 (λ i k,
    let progress := div (of_int i) (of_int 50) in
    let r :=
      if ltb progress (dec 1 1) then (mul (div progress (dec 1 1)) (dec 8 1), k)
      else if ltb progress (dec 85 2) then
        let d := draw rand k in (add (dec 8 1) (mul d.1 (dec 4 1)), d.2)
      else (mul (sub (of_int 1) (div (sub progress (dec 85 2)) (dec 15 2))) (dec 8 1), k) in
    (mul avgThroughput r.1, r.2)) totalMs k.

Definition generateLatencyTimeSeries (rand : nat → float) (totalMs : float) (latencies : list float)
    (p : PluginProfile) (k : nat) : list TimeSeriesPoint * nat :=
  let avgLatency := match latencies with
                    | [] => zero
                    | _ => div (sum latencies) (of_int (Z.of_nat (length latencies)))
                    end in
  series 51 0 (λ i k,
    let d := draw rand k in
    let jitter := add (dec 10 1) (mul (sub d.1 (dec 5 1)) (dec 4 1)) in
    let value := mul avgLatency jitter in
    if ltb zero (CrashRate p) then
      let d' := draw rand d.2 in
      (if ltb d'.1 (mul (CrashRate p) (dec 5 1)) then mul value (dec 25 1) else value, d'.2)
    else (value, d.2)) totalMs k.

Definition generateCpuTimeSeries (rand : nat → float) (totalMs : float) (numWorkers : Z) (k : nat) :
    list TimeSeriesPoint * nat :=
  let baseCPU := min (mul (of_int numWorkers) (of_int 25)) (of_int 95) in
  series 51 0 (λ i k,
    let progress := div (of_int i) (of_int 50) in
    let r :=
      if ltb progress (dec 5 2) then (mul (div progress (dec 5 2)) (dec 6 1), k)
      else if ltb progress (dec 9 1) then
        let d := draw rand k in (add (dec 6 1) (mul d.1 (dec 4 1)), d.2)
      else (max (mul (sub (of_int 1) (div (sub progress (dec 9 1)) (dec 1 1))) (dec 6 1)) (dec 5 2), k) in
    (mul baseCPU r.1, r.2)) totalMs k.

(** ** The engine *)

(** The first lines of [simulate]: defaults for what the request leaves out. *)
Definition with_defaults (req : SimulationRequest) : SimulationRequest :=
  let size := if leb0 (InputSizeMB req) then of_int 10 else InputSizeMB req in
  let workers := if NumWorkers req <=? 0 then 3 else NumWorkers req in
  let chunks := if NumChunks req <=? 0
                then to_int (max (mul (of_int workers) (of_int 2)) (ceil (div size (of_int 8))))
                else NumChunks req in
  let latency := if leb0 (NetworkLatencyMs req) then of_int 2 else NetworkLatencyMs req in
  let iterations := if Iterations req <=? 0 then 1 else Iterations req in
  MkRequest (Plugin req) size workers chunks latency iterations (Files req) (Mode req).

(** One time per chunk. *)
Fixpoint map_times (rand : nat → float) (processingTime latency : float) (n k : nat) :
    list float * nat :=
  match n with
  | O => ([], k)
  | S n =>
      let networkTime := mul latency (add (of_int 1) (mul (rand k) (dec 5 1))) in
      let jitter := add (dec 10 1) (mul (sub (rand (S k)) (dec 5 1)) (dec 2 1)) in
      let rest := map_times rand processingTime latency n (S (S k)) in
      (mul (add processingTime networkTime) jitter :: rest.1, rest.2)
  end.

(** The first worker with the least load. *)
Definition load_at (loads : list float) (w : nat) : float := default zero (loads !! w).
Definition least (loads : list float) (numWorkers : nat) : nat :=
  foldl (λ minW w, if ltb (load_at loads w) (load_at loads minW) then w else minW) 0%nat
    (seq 1 (numWorkers - 1)).

Definition add_load (t : float) (w : nat) (loads : list float) : list float :=
  alter (λ l, add l t) w loads.
Definition task_done (w : nat) (ws : list WorkerMetrics) : list WorkerMetrics :=
  alter (λ m, MkMetrics (WorkerID m) (TasksCompleted m + 1) (TotalTimeMs m) (Utilization m)
                (Crashes m)) w ws.
Definition crashed (w : nat) (ws : list WorkerMetrics) : list WorkerMetrics :=
  alter (λ m, MkMetrics (WorkerID m) (TasksCompleted m) (TotalTimeMs m) (Utilization m)
                (Crashes m + 1)) w ws.

Definition assign (rand : nat → float) (p : PluginProfile) (times : list float) (numWorkers : nat)
    (s : list WorkerMetrics * list float * nat) (idx : nat) :
    list WorkerMetrics * list float * nat :=
  let '(ws, loads, k) := s in
  let minW := least loads numWorkers in
  let t := load_at times idx in
  let loads := add_load t minW loads in
  let ws := task_done minW ws in
  if ltb zero (CrashRate p) then
    if ltb (rand k) (CrashRate p) then
      let recoveryTime := add (of_int 500) (mul (rand (S k)) (of_int 2000)) in
      (crashed minW ws, add_load t minW (add_load recoveryTime minW loads), S (S k))
    else (ws, loads, S k)
  else (ws, loads, k).

Definition fresh_metrics (numWorkers : nat) : list WorkerMetrics :=
  (λ i, MkMetrics (Z.of_nat i + 1) 0 zero zero 0) <$> seq 0 numWorkers.

Definition longest (loads : list float) : float :=
  foldl (λ d load, if ltb d load then load else d) zero loads.

(** The reduce phase: the loads and the latencies, in order. *)
Fixpoint reduce_tasks (rand : nat → float) (processingTime latency : float) (numWorkers n : nat)
    (loads : list float) (k : nat) : list float * list float * nat :=
  match n with
  | O => (loads, [], k)
  | S n =>
      let minW := least loads numWorkers in
      let jitter := add (dec 10 1) (mul (sub (rand k) (dec 5 1)) (dec 15 2)) in
      let t := mul processingTime jitter in
      let r := reduce_tasks rand processingTime latency numWorkers n
                 (add_load latency minW (add_load t minW loads)) (S k) in
      (r.1.1, t :: r.1.2, r.2)
  end.

Definition utilization (total : float) (w : WorkerMetrics) (loads reduceLoads : list float)
    (i : nat) : WorkerMetrics :=
  let t := add (load_at loads i) (load_at reduceLoads i) in
  MkMetrics (WorkerID w) (TasksCompleted w) t
    (if ltb zero total then min (div t total) (of_int 1) else Utilization w) (Crashes w).

Context `{SortSlice}.

Definition descending (times : list float) (a b : nat) : Prop :=
  ltb (load_at times a) (load_at times b) = false.
#[local] Instance descending_dec times a b : Decision (descending times a b).
Proof. unfold descending. apply _. Defined.
Definition ascending (a b : float) : Prop := ltb b a = false.
#[local] Instance ascending_dec a b : Decision (ascending a b).
Proof. unfold ascending. apply _. Defined.

(** The end of [simulate], from the loads of the two phases on; [now] is the
    formatted time. *)
Definition report (rand : nat → float) (now : string) (p : PluginProfile) (req : SimulationRequest)
    (intermediate shuffleDuration : float) (ws : list WorkerMetrics) (loads reduceLoads : list float)
    (allChunkLatencies : list float) (k : nat) : outcome SimulationResult :=
  let size := InputSizeMB req in
  let mapDuration := longest loads in
  let reduceDuration := longest reduceLoads in
  let total := add (add mapDuration shuffleDuration) reduceDuration in
  let ws := imap (λ i w, utilization total w loads reduceLoads i) ws in
  let latencies := sort_slice ascending allChunkLatencies in
  latency ← computeLatencyDistribution latencies;
  let totalCrashes := foldl (λ n w, n + Crashes w) 0 ws in
  let recovery := foldl (λ t w, add t (mul (of_int (Crashes w)) (of_int 1500))) zero ws in
  let ts1 := generateThroughputTimeSeries rand total size k in
  let ts2 := generateLatencyTimeSeries rand total latencies p ts1.2 in
  let ts3 := generateCpuTimeSeries rand total (NumWorkers req) ts2.2 in
  Ret (MkSim (Plugin req) req total
         (MkPhase mapDuration (div size (div mapDuration (of_int 1000))))
         (MkPhase shuffleDuration (div intermediate (div shuffleDuration (of_int 1000))))
         (MkPhase reduceDuration (div intermediate (div reduceDuration (of_int 1000))))
         (div size (div total (of_int 1000))) latency ws ts1.1 ts2.1 ts3.1 totalCrashes recovery
         now "simulation").

Definition profile_of (plugin : string) : PluginProfile :=
  match pluginProfiles !! plugin with
  | Some p => p
  | None => default no_profile (pluginProfiles !! "wc")
  end.

Definition simulate (rand : nat → float) (now : string) (req : SimulationRequest) :
    outcome SimulationResult :=
  let p := profile_of (Plugin req) in
  let req := with_defaults req in
  if NumChunks req <? 0 then Panic else
  let size := InputSizeMB req in
  let chunks := Z.to_nat (NumChunks req) in
  let workers := Z.to_nat (NumWorkers req) in
  let chunkSizeMB := div size (of_int (NumChunks req)) in
  let mapRate := div (dec 1200 1) (MapComplexity p) in
  let shuffleRate := dec 800 1 in
  let reduceRate := div (dec 900 1) (ReduceComplexity p) in
  let expansion := add (dec 10 1) (mul (sub (MemoryFactor p) (dec 10 1)) (dec 3 1)) in
  let intermediate := mul size expansion in
  let m := map_times rand (mul (div chunkSizeMB mapRate) (of_int 1000)) (NetworkLatencyMs req)
             chunks 0 in
  let order := sort_slice (descending m.1) (seq 0 chunks) in
  let a := foldl (assign rand p m.1 workers) (fresh_metrics workers, replicate workers zero, m.2)
             order in
  let shuffleDuration := mul (div intermediate shuffleRate) (of_int 1000) in
  let shuffleDuration := mul shuffleDuration (add (of_int 1) (mul (rand a.2) (dec 15 2))) in
  let shuffleDuration :=
    add shuffleDuration (mul (NetworkLatencyMs req) (of_int (NumWorkers req))) in
  let nReduceTasks := to_int (max (of_int (NumWorkers req)) (div (of_int (NumChunks req)) (of_int 2))) in
  let reduceChunk := div intermediate (of_int nReduceTasks) in
  let r := reduce_tasks rand (mul (div reduceChunk reduceRate) (of_int 1000)) (NetworkLatencyMs req)
             workers (Z.to_nat nReduceTasks) (replicate workers zero) (S a.2) in
  report rand now p req intermediate shuffleDuration a.1.1 a.1.2 r.1.1 (m.1 ++ r.1.2) r.2.

(** ** The tasks are conserved *)

Definition tasks (ws : list WorkerMetrics) : Z := foldr (λ w n, TasksCompleted w + n) 0 ws.
Definition crashes (ws : list WorkerMetrics) : Z := foldr (λ w n, Crashes w + n) 0 ws.

Lemma least_lt loads n : (0 < n)%nat → (least loads n < n)%nat.
Proof.
  intros Hn. unfold least.
  assert (∀ l m, (m < n)%nat → Forall (λ w, (w < n)%nat) l →
    (foldl (λ minW w, if ltb (load_at loads w) (load_at loads minW) then w else minW) m l < n)%nat)
    as Hgo.
  { intros l. induction l as [|w l IH]; intros m Hm Hl; [done|]. apply Forall_cons in Hl as [Hw Hl].
    cbn. apply IH; [|done]. by destruct (ltb _ _). }
  apply Hgo; [done|]. apply Forall_forall. intros w Hw%elem_of_seq. lia.
Qed.

Lemma task_done_tasks w ws : (w < length ws)%nat → tasks (task_done w ws) = tasks ws + 1.
Proof.
  unfold task_done, tasks. revert w. induction ws as [|m ws IH]; intros [|w] Hw; cbn in Hw; [lia|lia|..].
  - cbn. lia.
  - cbn [alter list_alter foldr TasksCompleted]. rewrite IH by lia. lia.
Qed.
Lemma task_done_crashes w ws : crashes (task_done w ws) = crashes ws.
Proof.
  unfold task_done, crashes. revert w. induction ws as [|m ws IH]; intros [|w]; [done..|].
  cbn [alter list_alter foldr]. by rewrite IH.
Qed.
Lemma crashed_tasks w ws : tasks (crashed w ws) = tasks ws.
Proof.
  unfold crashed, tasks. revert w. induction ws as [|m ws IH]; intros [|w]; [done..|].
  cbn [alter list_alter foldr]. by rewrite IH.
Qed.
Lemma crashed_crashes w ws : (w < length ws)%nat → crashes (crashed w ws) = crashes ws + 1.
Proof.
  unfold crashed, crashes. revert w. induction ws as [|m ws IH]; intros [|w] Hw; cbn in Hw; [lia|lia|..].
  - cbn. lia.
  - cbn [alter list_alter foldr Crashes]. rewrite IH by lia. lia.
Qed.

Lemma alter_ids f (w : nat) (ws : list WorkerMetrics) :
  (∀ m, WorkerID (f m) = WorkerID m) → WorkerID <$> alter f w ws = WorkerID <$> ws.
Proof.
  intros Hf. revert w. induction ws as [|m ws IH]; intros [|w]; [done..| |]; rewrite fmap_cons; cbn.
  - by rewrite Hf.
  - by rewrite IH.
Qed.

Lemma assign_all rand p times n order ws loads k :
  (0 < n)%nat → length ws = n →
  let r := foldl (assign rand p times n) (ws, loads, k) order in
  tasks r.1.1 = tasks ws + Z.of_nat (length order) ∧
  crashes ws <= crashes r.1.1 <= crashes ws + Z.of_nat (length order) ∧
  (ltb zero (CrashRate p) = false → crashes r.1.1 = crashes ws) ∧
  WorkerID <$> r.1.1 = WorkerID <$> ws.
Proof.
  intros Hn. revert ws loads k. induction order as [|idx order IH]; intros ws loads k Hws; cbn [foldl].
  { cbn [fst snd length]. split_and!; [lia|lia|lia|done|done]. }
  set (a := assign _ _ _ _ _ _).
  assert (tasks a.1.1 = tasks ws + 1 ∧ crashes ws <= crashes a.1.1 <= crashes ws + 1 ∧
    (ltb zero (CrashRate p) = false → crashes a.1.1 = crashes ws) ∧
    WorkerID <$> a.1.1 = WorkerID <$> ws) as (Ht & Hc & Hz & Hids).
  { pose proof (least_lt loads n Hn) as Hl. unfold a, assign.
    assert (WorkerID <$> task_done (least loads n) ws = WorkerID <$> ws) as Hid by (by apply alter_ids).
    destruct (ltb zero (CrashRate p)); [destruct (ltb (rand k) (CrashRate p))|]; cbn [fst snd];
      rewrite ?crashed_tasks, ?task_done_tasks, ?crashed_crashes, ?task_done_crashes
        by (rewrite ?length_alter; unfold task_done; rewrite ?length_alter; lia);
      split_and!; try lia; try done.
    rewrite <- Hid. by apply alter_ids. }
  destruct a as [[ws' loads'] k']. cbn [fst] in *.
  assert (length ws' = n) as Hws'.
  { rewrite <- Hws, <- (length_fmap WorkerID ws'), Hids. apply length_fmap. }
  destruct (IH ws' loads' k' Hws') as (Ht' & Hc' & Hz' & Hids'). cbn [length].
  split_and!; [lia|lia|lia| |congruence].
  intros E. rewrite Hz' by done. by apply Hz.
Qed.

Lemma fresh_sums n : tasks (fresh_metrics n) = 0 ∧ crashes (fresh_metrics n) = 0.
Proof. unfold fresh_metrics, tasks, crashes. by induction (seq 0 n). Qed.

Lemma series_length n i value total k : length (series n i value total k).1 = n.
Proof. revert i k. induction n as [|n IH]; intros i k; cbn; [done|]. by rewrite IH. Qed.

Lemma foldl_crashes ws n : foldl (λ n w, n + Crashes w) n ws = n + crashes ws.
Proof.
  unfold crashes. revert n. induction ws as [|w ws IH]; intros n; cbn [foldl foldr]; [lia|].
  rewrite IH. lia.
Qed.

Lemma utilization_keeps total loads reduceLoads ws :
  let ws' := imap (λ i w, utilization total w loads reduceLoads i) ws in
  tasks ws' = tasks ws ∧ crashes ws' = crashes ws ∧ WorkerID <$> ws' = WorkerID <$> ws.
Proof.
  cbv zeta. assert (∀ k, let ws' := imap (λ i w, utilization total w loads reduceLoads (k + i)%nat) ws in
    tasks ws' = tasks ws ∧ crashes ws' = crashes ws ∧ WorkerID <$> ws' = WorkerID <$> ws) as Hk.
  { induction ws as [|w ws IH]; intros k; [done|]. cbv zeta. rewrite imap_cons.
    assert (imap ((λ i w, utilization total w loads reduceLoads (k + i)%nat) ∘ S) ws =
      imap (λ i w, utilization total w loads reduceLoads (S k + i)%nat) ws) as ->.
    { apply imap_ext. intros i x _. cbn. by rewrite Nat.add_succ_r. }
    destruct (IH (S k)) as (Ht & Hc & Hi). cbn [tasks crashes foldr] in *.
    unfold tasks, crashes in *. cbn [foldr]. rewrite Ht, Hc, !fmap_cons, Hi. done. }
  apply (Hk 0%nat).
Qed.

Lemma report_spec rand now p req intermediate shuffle ws loads reduceLoads latencies k r :
  report rand now p req intermediate shuffle ws loads reduceLoads latencies k = Ret r →
  tasks (r_Workers r) = tasks ws ∧ crashes (r_Workers r) = crashes ws ∧
  WorkerID <$> r_Workers r = WorkerID <$> ws ∧ r_TotalCrashes r = crashes ws ∧
  length (r_ThroughputOverTime r) = 51%nat ∧ length (r_LatencyOverTime r) = 51%nat ∧
  length (r_CpuOverTime r) = 51%nat.
Proof.
  unfold report. destruct (computeLatencyDistribution _) as [latency| |]; [|done..].
  cbn [mbind outcome_bind]. intros <-%Ret_inj.
  cbn [r_Workers r_TotalCrashes r_ThroughputOverTime r_LatencyOverTime r_CpuOverTime].
  destruct (utilization_keeps (add (add (longest loads) shuffle) (longest reduceLoads)) loads
    reduceLoads ws) as (Ht & Hc & Hi). rewrite foldl_crashes, Ht, Hc, Hi.
  unfold generateThroughputTimeSeries, generateLatencyTimeSeries, generateCpuTimeSeries.
  rewrite !series_length. done.
Qed.

(** C38: what a simulation reports is consistent, whatever the arithmetic and the
    random numbers: it lists the workers [1] to [n], the tasks they completed add up
    to the number of chunks, a crash belongs to a chunk and happens only to a plugin
    with a crash rate, the total of crashes is their sum, and every curve has its 51
    points. *)
Theorem simulate_consistent (rand : nat → float) (now : string) (req : SimulationRequest)
    (r : SimulationResult) :
  simulate rand now req = Ret r →
  let cfg := with_defaults req in
  WorkerID <$> r_Workers r = (λ i, Z.of_nat i + 1) <$> seq 0 (Z.to_nat (NumWorkers cfg)) ∧
  tasks (r_Workers r) = NumChunks cfg ∧
  0 <= r_TotalCrashes r <= NumChunks cfg ∧ r_TotalCrashes r = crashes (r_Workers r) ∧
  (ltb zero (CrashRate (profile_of (Plugin req))) = false → r_TotalCrashes r = 0) ∧
  length (r_ThroughputOverTime r) = 51%nat ∧ length (r_LatencyOverTime r) = 51%nat ∧
  length (r_CpuOverTime r) = 51%nat.
Proof.
  cbv zeta. unfold simulate. set (cfg := with_defaults req).
  destruct (Z.ltb_spec (NumChunks cfg) 0) as [|Hc]; [done|].
  set (n := Z.to_nat (NumWorkers cfg)). set (m := map_times _ _ _ _ _).
  set (order := sort_slice _ _).
  assert (0 < NumWorkers cfg) as Hw.
  { unfold cfg, with_defaults. cbn [NumWorkers]. destruct (Z.leb_spec (NumWorkers req) 0); lia. }
  destruct (fresh_sums n) as [Ht0 Hc0].
  destruct (assign_all rand (profile_of (Plugin req)) m.1 n order (fresh_metrics n)
    (replicate n zero) m.2) as (Ht & Hcr & Hz & Hids);
    [lia|unfold fresh_metrics; by rewrite length_fmap, length_seq|].
  assert (length order = Z.to_nat (NumChunks cfg)) as Hlen.
  { unfold order. by rewrite sort_slice_perm, length_seq. }
  intros (Et & Ec & Ei & Er & Hlens)%report_spec.
  rewrite Et, Ec, Ei, Er, Ht, Hids. split_and!; try apply Hlens; try lia; try done.
  - unfold fresh_metrics. by rewrite <- list_fmap_compose.
  - intros E0. rewrite Hz by done. lia.
Qed.

End engine.

(** ** Witness: fixed-point arithmetic with three decimals *)

Definition fixed_point : Float64 := {|
  float := Z;
  dec := λ m e, m * 1000 / 10 ^ Z.of_nat e;
  of_int := λ z, z * 1000;
  to_int := λ f, Z.quot f 1000;
  add := Z.add;
  sub := Z.sub;
  mul := λ a b, a * b / 1000;
  div := λ a b, if b =? 0 then 0 else a * 1000 / b;
  ltb := Z.ltb;
  eqb := Z.eqb;
  floor := λ f, f / 1000 * 1000;
  ceil := λ f, - (- f / 1000) * 1000;
  round := λ f, (f + 500) / 1000 * 1000;
  max := Z.max;
  min := Z.min
|}.

Definition example_request : SimulationRequest (H := fixed_point) :=
  MkRequest (H := fixed_point) "crash" 20000 2 5 1000 1 [] "simulation".
Definition example_rand (k : nat) : float (Float64 := fixed_point) := Z.of_nat k * 370 mod 1000.

Lemma example_simulation :
  match simulate (H := fixed_point) (H0 := merge_sort_slice) example_rand "now" example_request with
  | Ret r => r_TotalCrashes (H := fixed_point) r
  | _ => -1
  end = 2.
Proof. vm_compute. reflexivity. Qed.

Lemma simulate_consistent_witness :
  ∃ r, simulate (H := fixed_point) (H0 := merge_sort_slice) example_rand "now" example_request = Ret r ∧
    tasks (H := fixed_point) (r_Workers (H := fixed_point) r) = 5 ∧
    0 <= r_TotalCrashes (H := fixed_point) r <= 5.
Proof.
  pose proof example_simulation as E.
  destruct (simulate _ _ _) as [r| |] eqn:Er; [|done..]. exists r. split; [done|].
  destruct (simulate_consistent (H := fixed_point) (H0 := merge_sort_slice) example_rand "now"
    example_request r Er) as (_ & Ht & Hc & _).
  split; [exact Ht|exact Hc].
Defined.

End Simulation.
