(* ===== verification/Dashboard.v ===== *)
(** The HTTP service of [dashboard/api/main.go]: its handlers, and the way it runs
    a real job through the coordinator and the master. Requests arrive decoded,
    environment variables, connections, clock readings and the file system are
    arguments, and a response is a status code with a body. *)

From S2P Require Import Prelude GoStrings Ring Json Codec Types Durable Worker Master.
From S2P Require Import Coordinator Uploader Plugins Simulation.
From Stdlib Require Import Ascii.
From stdpp Require Import options.

#[local] Arguments String.append !_ _ / : simpl nomatch.

Module Dashboard.
Import GoStrings Codec Types Simulation.

(** ** Files *)

(** A directory entry: its name, whether it is a directory, and its size when
    [Info] succeeds. *)
Record DirEntry := MkEntry { e_name : string; e_isDir : bool; e_size : option Z }.

Definition discoverInputFiles (dir : string) (entries : res (list DirEntry)) : res (list string) :=
  match entries with
  | Err e => Err e
  | Ok entries =>
      Ok ((λ e, Uploader.path_join dir (e_name e)) <$>
            filter (λ e, Is_true (negb (e_isDir e) && HasPrefix (e_name e) "pg-" &&
                                  HasSuffix (e_name e) ".txt")) entries)
  end.

(** [os.Stat] succeeds on [exists_]. *)
Definition resolve_one (exists_ : string → bool) (dirs : list string) (name : string) :
    option string :=
  head (filter (λ c, Is_true (exists_ c))
          ((λ dir, Uploader.path_join dir (Plugins.path_base name)) <$> dirs)).
Definition resolveFileNames (exists_ : string → bool) (names dirs : list string) : list string :=
  omap (resolve_one exists_ dirs) names.

Record FileInfo := MkFileInfo { fi_Name : string; fi_Size : Z; fi_Source : string }.

Definition listDirFiles (entries : res (list DirEntry)) (source : string) (out : list FileInfo) :
    list FileInfo :=
  match entries with
  | Err _ => out
  | Ok entries =>
      foldl (λ out e,
               if e_isDir e then out
               else match e_size e with
                    | None => out
                    | Some size => out ++ [MkFileInfo (e_name e) size source]
                    end) out entries
  end.

(** ** Sending files to the coordinator *)

Section upload.
Context {W : Type} (client : Uploader.Client W).

(** The loop over the reads of one file: every answer counts as success. *)
Fixpoint send_reads (path : string) (handle : Handle) (rs : list Uploader.read_result) (total : Z)
    (w : W) : outcome (option go_error * Z * W) :=
  match rs with
  | [] => OutOfFuel
  | r :: rs =>
      let eof := match Uploader.rd_err r with Some Uploader.EOF => true | _ => false end in
      let n := Z.of_nat (length (Uploader.rd_data r)) in
      let stop := match Uploader.rd_err r with Some _ => true | None => false end in
      if (0 <? n) || eof then
        a ← Uploader.CallForwardDownload client (MkDownload handle (Uploader.rd_data r) eof) w;
        match a with
        | (Err e, w) =>
            Ret (Some (ErrWrap ("forward download for " +:+ Plugins.path_base path) e), total, w)
        | (Ok _, w) =>
            if stop then Ret (None, i64 (total + n), w)
            else send_reads path handle rs (i64 (total + n)) w
        end
      else if stop then Ret (None, total, w)
      else send_reads path handle rs total w
  end.

(** The loop over the files; [dial i] and [open i] say what connecting and opening
    meet at the [i]-th turn. *)
Fixpoint upload_from (dial : nat → option go_error) (open : nat → res (list Uploader.read_result))
    (i : nat) (files : list string) (handles : list Handle) (total : Z) (w : W) :
    outcome (res (list Handle * Z) * W) :=
  match files with
  | [] => Ret (Ok (handles, total), w)
  | path :: files =>
      match dial i with
      | Some e => Ret (Err (ErrWrap "dial coordinator" e), w)
      | None =>
          a ← Uploader.CallGenerateDownloadHandle client w;
          match a with
          | (Err e, w) => Ret (Err (ErrWrap ("generate handle for " +:+ Plugins.path_base path) e), w)
          | (Ok reply, w) =>
              if negb (bool_decide (hp_ErrorCode reply = 0)) then
                Ret (Err (ErrMsg ("generate handle error: " +:+ hp_ErrorMessage reply)), w)
              else
                match open i with
                | Err e => Ret (Err (ErrWrap ("open " +:+ path) e), w)
                | Ok rs =>
                    r ← send_reads path (hp_Handle reply) rs total w;
                    match r with
                    | (Some e, _, w) => Ret (Err e, w)
                    | (None, total, w) =>
                        upload_from dial open (S i) files (handles ++ [hp_Handle reply]) total w
                    end
                end
          end
      end
  end.
Definition uploadFilesToCoordinator (dial : nat → option go_error)
    (open : nat → res (list Uploader.read_result)) (files : list string) (w : W) :
    outcome (res (list Handle * Z) * W) :=
  upload_from dial open 0 files [] 0 w.

End upload.

(** ** Results *)

Record collatedChunk := MkCollatedChunk {
  k_ChunkIndex : Z; k_WorkerAddr : string; k_OutputFile : string; k_OutputData : string;
  k_GeneratedAt : string }.
Record collatedResult := MkCollated {
  k_Handle : Z; k_ChunkCount : Z; k_CombinedOutput : string; k_LastUpdatedAt : string;
  k_Chunks : list collatedChunk }.

(** [json.Unmarshal] into fields of the types used here: null leaves a field alone,
    any other value of a wrong type is an error. Every key is met at most once in
    the documents the master writes. *)
Definition decode_string (old : string) (j : Json.json) : option string :=
  match j with Json.JStr s => Some s | Json.JNull => Some old | _ => None end.
Definition decode_int (old : Z) (j : Json.json) : option Z :=
  match j with Json.JNum lit => Atoi lit | Json.JNull => Some old | _ => None end.
Definition decode_uint64 (old : Z) (j : Json.json) : option Z :=
  match j with
  | Json.JNum lit =>
      match span_digits lit with
      | (d, EmptyString) => v ← digits_value d; if bool_decide (v < 2 ^ 64) then Some v else None
      | _ => None
      end
  | Json.JNull => Some old
  | _ => None
  end.

Definition chunk_field (acc : option collatedChunk) (f : string * Json.json) : option collatedChunk :=
  c ← acc;
  let key := ToLower f.1 in
  if bool_decide (key = "chunk_index") then
    v ← decode_int (k_ChunkIndex c) f.2;
    Some (MkCollatedChunk v (k_WorkerAddr c) (k_OutputFile c) (k_OutputData c) (k_GeneratedAt c))
  else if bool_decide (key = "worker_addr") then
    v ← decode_string (k_WorkerAddr c) f.2;
    Some (MkCollatedChunk (k_ChunkIndex c) v (k_OutputFile c) (k_OutputData c) (k_GeneratedAt c))
  else if bool_decide (key = "output_file") then
    v ← decode_string (k_OutputFile c) f.2;
    Some (MkCollatedChunk (k_ChunkIndex c) (k_WorkerAddr c) v (k_OutputData c) (k_GeneratedAt c))
  else if bool_decide (key = "output_data") then
    v ← decode_string (k_OutputData c) f.2;
    Some (MkCollatedChunk (k_ChunkIndex c) (k_WorkerAddr c) (k_OutputFile c) v (k_GeneratedAt c))
  else if bool_decide (key = "generated_at") then
    v ← decode_string (k_GeneratedAt c) f.2;
    Some (MkCollatedChunk (k_ChunkIndex c) (k_WorkerAddr c) (k_OutputFile c) (k_OutputData c) v)
  else Some c.
Definition decode_chunk (j : Json.json) : option collatedChunk :=
  let zero := MkCollatedChunk 0 "" "" "" "" in
  match j with
  | Json.JObj fields => foldl chunk_field (Some zero) fields
  | Json.JNull => Some zero
  | _ => None
  end.

Definition collated_field (acc : option collatedResult) (f : string * Json.json) :
    option collatedResult :=
  r ← acc;
  let key := ToLower f.1 in
  if bool_decide (key = "handle") then
    v ← decode_uint64 (k_Handle r) f.2;
    Some (MkCollated v (k_ChunkCount r) (k_CombinedOutput r) (k_LastUpdatedAt r) (k_Chunks r))
  else if bool_decide (key = "chunk_count") then
    v ← decode_int (k_ChunkCount r) f.2;
    Some (MkCollated (k_Handle r) v (k_CombinedOutput r) (k_LastUpdatedAt r) (k_Chunks r))
  else if bool_decide (key = "combined_output") then
    v ← decode_string (k_CombinedOutput r) f.2;
    Some (MkCollated (k_Handle r) (k_ChunkCount r) v (k_LastUpdatedAt r) (k_Chunks r))
  else if bool_decide (key = "last_updated_at") then
    v ← decode_string (k_LastUpdatedAt r) f.2;
    Some (MkCollated (k_Handle r) (k_ChunkCount r) (k_CombinedOutput r) v (k_Chunks r))
  else if bool_decide (key = "chunks") then
    v ← match f.2 with
        | Json.JArr l => mapM decode_chunk l
        | Json.JNull => Some []
        | _ => None
        end;
    Some (MkCollated (k_Handle r) (k_ChunkCount r) (k_CombinedOutput r) (k_LastUpdatedAt r) v)
  else Some r.
Definition unmarshal_collated (text : string) : option collatedResult :=
  j ← Json.parse_json text;
  let zero := MkCollated 0 0 "" "" [] in
  match j with
  | Json.JObj fields => foldl collated_field (Some zero) fields
  | Json.JNull => Some zero
  | _ => None
  end.

Section poll.
Context `{MapOrder}.

(** The inner loop of [pollForResults]: one call for each pending handle. *)
Definition poll_one (reply : Z → res GetJobResultReply)
    (acc : list collatedResult * gmap Z bool) (e : Z * bool) : list collatedResult * gmap Z bool :=
  match reply e.1 with
  | Err _ => acc
  | Ok r =>
      if gp_Complete r then
        (match unmarshal_collated (gp_ResultJSON r) with
         | Some cr => acc.1 ++ [cr]
         | None => acc.1
         end, delete e.1 acc.2)
      else acc
  end.

(** The outer loop; turn [k] looks at the clock at [clock k] and gets the answers
    [reply k]. *)
Fixpoint poll_loop (fuel : nat) (deadline : Z) (clock : nat → Z)
    (reply : nat → Z → res GetJobResultReply) (k : nat) (pending : gmap Z bool)
    (results : list collatedResult) : outcome (list collatedResult * option go_error) :=
  match fuel with
  | O => OutOfFuel
  | S fuel =>
      if bool_decide (pending = ∅) then Ret (results, None)
      else if deadline <? clock k then
        Ret (results, Some (ErrMsg ("timed out waiting for " +:+
               fmt_d (Z.of_nat (size pending)) +:+ " handles")))
      else
        let r := foldl (poll_one (reply k)) (results, pending) (map_entries pending) in
        poll_loop fuel deadline clock reply (S k) r.2 r.1
  end.

Definition pollForResults (fuel : nat) (start timeout : Z) (clock : nat → Z)
    (reply : nat → Z → res GetJobResultReply) (handles : list Handle) :
    outcome (list collatedResult * option go_error) :=
  poll_loop fuel (start + timeout) clock reply 0
    (foldl (λ pending h, <[Id h := true]> pending) ∅ handles) [].

End poll.

(** ** The report of a real job *)

Section report.
Context `{Float64} `{MapOrder} `{SortSlice}.

(** [t.Sub(u).Milliseconds()], for instants in nanoseconds. *)
Definition millis (t u : Z) : Z :=
  Z.quot (Z.max (- 2 ^ 63) (Z.min (2 ^ 63 - 1) (t - u))) 1000000.

(** The loop over the chunks of the results: metrics by worker address, and the
    latencies. [parse] reads a time stamp. *)
Definition count_chunk (parse : string → option Z) (dispatchDone : Z)
    (acc : gmap string WorkerMetrics * list float) (ch : collatedChunk) :
    gmap string WorkerMetrics * list float :=
  let wm := match acc.1 !! k_WorkerAddr ch with
            | Some wm => wm
            | None => MkMetrics (Z.of_nat (size acc.1) + 1) 0 zero zero 0
            end in
  let wm := MkMetrics (WorkerID wm) (TasksCompleted wm + 1) (TotalTimeMs wm) (Utilization wm)
              (Crashes wm) in
  (<[k_WorkerAddr ch := wm]> acc.1,
   match parse (k_GeneratedAt ch) with
   | Some t => let lat := of_int (millis t dispatchDone) in
               acc.2 ++ [if ltb lat zero then zero else lat]
   | None => acc.2
   end).

Definition by_id (a b : WorkerMetrics) : Prop := WorkerID a <= WorkerID b.
#[local] Instance by_id_dec a b : Decision (by_id a b).
Proof. unfold by_id. apply _. Defined.
#[local] Existing Instance ascending_dec.

Definition buildRealResult (rand : nat → float) (now : string) (parse : string → option Z)
    (req : SimulationRequest) (totalBytes : Z) (results : list collatedResult)
    (startTime uploadDone dispatchDone endTime : Z) : outcome SimulationResult :=
  let totalMs := of_int (millis endTime startTime) in
  let uploadMs := of_int (millis uploadDone startTime) in
  let dispatchMs := of_int (millis dispatchDone uploadDone) in
  let processMs := of_int (millis endTime dispatchDone) in
  let inputMB := div (of_int totalBytes) (of_int (1024 * 1024)) in
  let acc := foldl (count_chunk parse dispatchDone) (∅, []) (results ≫= k_Chunks) in
  let nLat := of_int (Z.of_nat (length acc.2)) in
  let workers := (λ e : string * WorkerMetrics,
      let wm := e.2 in
      if ltb zero totalMs then
        let t := div (mul processMs (of_int (TasksCompleted wm))) (max (of_int 1) nLat) in
        MkMetrics (WorkerID wm) (TasksCompleted wm) t (min (div t processMs) (of_int 1)) (Crashes wm)
      else wm) <$> map_entries acc.1 in
  let workers := sort_slice by_id workers in
  let chunkLatencies := sort_slice ascending acc.2 in
  latency ← computeLatencyDistribution chunkLatencies;
  let p := default no_profile (pluginProfiles !! Plugin req) in
  let ts1 := generateThroughputTimeSeries rand totalMs inputMB 0 in
  let ts2 := generateLatencyTimeSeries rand totalMs chunkLatencies p ts1.2 in
  let ts3 := generateCpuTimeSeries rand totalMs (Z.of_nat (length workers)) ts2.2 in
  let mapPhase := if ltb zero processMs then mul processMs (dec 6 1) else add uploadMs dispatchMs in
  let reducePhase := sub processMs mapPhase in
  Ret (MkSim (Plugin req)
         (MkRequest (Plugin req) (round2 inputMB) (Z.of_nat (length workers))
            (Z.of_nat (length chunkLatencies)) (NetworkLatencyMs req) (Iterations req) (Files req) "")
         totalMs
         (MkPhase mapPhase (safeDiv inputMB (div mapPhase (of_int 1000))))
         (MkPhase dispatchMs (safeDiv inputMB (div dispatchMs (of_int 1000))))
         (MkPhase reducePhase (safeDiv inputMB (div reducePhase (of_int 1000))))
         (safeDiv inputMB (div totalMs (of_int 1000))) latency workers ts1.1 ts2.1 ts3.1 0 zero
         now "cluster").

(** What a real job depends on: the files it finds, the sending of them, the
    trigger, the polling and the clock at the four points where it is read. *)
Record JobEnv := MkEnv {
  v_readDir : string → res (list DirEntry);
  v_exists : string → bool;
  v_uploadDir : string;
  v_upload : list string → outcome (res (list Handle * Z));
  v_trigger : string → res TriggerProcessingReply;
  v_poll : list Handle → outcome (list collatedResult * option go_error);
  v_start : Z; v_uploadDone : Z; v_dispatchDone : Z; v_end : Z;
  v_rand : nat → float; v_now : string; v_parse : string → option Z
}.

Definition input_files (env : JobEnv) (inputDir : string) (req : SimulationRequest) :
    res (list string) :=
  match Files req with
  | [] => match discoverInputFiles inputDir (v_readDir env inputDir) with
          | Err e => Err (ErrWrap ("no input files in " +:+ inputDir) e)
          | Ok [] => Err (ErrMsg ("no input files in " +:+ inputDir +:+ ": <nil>"))
          | Ok files => Ok files
          end
  | names => match resolveFileNames (v_exists env) names [inputDir; v_uploadDir env] with
             | [] => Err (ErrMsg "no matching files found for the supplied file list")
             | files => Ok files
             end
  end.

Definition runRealJob (env : JobEnv) (inputDir : string) (req : SimulationRequest) :
    outcome (res SimulationResult) :=
  match input_files env inputDir req with
  | Err e => Ret (Err e)
  | Ok files =>
      u ← v_upload env files;
      match u with
      | Err e => Ret (Err (ErrWrap "upload" e))
      | Ok (handles, totalBytes) =>
          match v_trigger env (Plugin req) with
          | Err e => Ret (Err (ErrWrap "trigger" e))
          | Ok t =>
              if bool_decide (tp_Status t = "error") then
                Ret (Err (ErrMsg ("trigger: " +:+ tp_ErrorMessage t)))
              else
                r ← v_poll env handles;
                match r with
                | (_, Some e) => Ret (Err (ErrWrap "poll" e))
                | (results, None) =>
                    Ok <$> buildRealResult (v_rand env) (v_now env) (v_parse env) req totalBytes
                             results (v_start env) (v_uploadDone env) (v_dispatchDone env) (v_end env)
                end
          end
      end
  end.

(** ** Handlers *)

Record ServiceStatus := MkStatus { st_Name : string; st_Address : string; st_Online : bool }.
Record ClusterStatus := MkCluster {
  cl_Coordinator : ServiceStatus; cl_Master : ServiceStatus; cl_Workers : list ServiceStatus;
  cl_ConnectedAt : string }.

Inductive body :=
| ErrorBody (msg : string)
| PluginsBody (ps : list PluginProfile)
| ResultBody (r : SimulationResult)
| CompareBody (rs : list SimulationResult)
| StatusBody (s : ClusterStatus)
| TriggerBody (status message : string)
| UploadBody (files : list FileInfo)
| FilesBody (files : list FileInfo)
| NoBody.
Record Response := MkResponse { code : Z; payload : body }.

Definition envOr (value fallback : string) : string :=
  if negb (bool_decide (value = "")) then value else fallback.

Definition name_le (a b : PluginProfile) : Prop := String.le (Name a) (Name b).
#[local] Instance name_le_dec a b : Decision (name_le a b).
Proof. unfold name_le. apply _. Defined.
Definition handlePlugins : Response :=
  MkResponse 200 (PluginsBody (sort_slice name_le (snd <$> map_entries pluginProfiles))).

(** [req] is [None] when the body does not decode. *)
Definition handleSimulate (coordAddr masterAddr inputDirEnv : string) (ping : string → bool)
    (env : JobEnv) (req : option SimulationRequest) : outcome Response :=
  match req with
  | None => Ret (MkResponse 400 (ErrorBody "invalid request body"))
  | Some req =>
      let inputDir := envOr inputDirEnv "./inputs" in
      let wantCluster := bool_decide (Mode req = "cluster") in
      let wantSim := bool_decide (Mode req = "simulation") in
      let clusterAvailable := negb (bool_decide (coordAddr = "")) &&
                              negb (bool_decide (masterAddr = "")) && ping coordAddr in
      if wantSim || (negb wantCluster && negb clusterAvailable) then
        match pluginProfiles !! Plugin req with
        | None => Ret (MkResponse 400 (ErrorBody ("unknown plugin: " +:+ Plugin req)))
        | Some _ =>
            r ← simulate (v_rand env) (v_now env) req; Ret (MkResponse 200 (ResultBody r))
        end
      else if wantCluster && negb clusterAvailable then
        Ret (MkResponse 503 (ErrorBody "cluster is not reachable"))
      else
        r ← runRealJob env inputDir req;
        match r with
        | Ok r => Ret (MkResponse 200 (ResultBody r))
        | Err e =>
            if wantCluster then Ret (MkResponse 500 (ErrorBody (Master.error_text e)))
            else
              r ← simulate (v_rand env) (v_now env) req; Ret (MkResponse 200 (ResultBody r))
        end
  end.

Definition faster (a b : SimulationResult) : Prop :=
  ltb (r_TotalDurationMs b) (r_TotalDurationMs a) = false.
#[local] Instance faster_dec a b : Decision (faster a b).
Proof. unfold faster. apply _. Defined.

(** One result per plugin, in turn; [env i] is what the [i]-th job meets. *)
Fixpoint compare_all (env : nat → JobEnv) (inputDir : string) (useCluster : bool)
    (template : string → SimulationRequest) (i : nat) (plugins : list string) :
    outcome (list SimulationResult) :=
  match plugins with
  | [] => Ret []
  | plugin :: plugins =>
      let e := env i in
      let sim := simulate (v_rand e) (v_now e) (template plugin) in
      r ← (if useCluster then
             r ← runRealJob e inputDir (template plugin);
             match r with Ok r => Ret r | Err _ => sim end
           else sim);
      rs ← compare_all env inputDir useCluster template (S i) plugins;
      Ret (r :: rs)
  end.

Record CompareRequest := MkCompare {
  cq_Plugins : list string; cq_InputSizeMB : float; cq_NumWorkers : Z; cq_NumChunks : Z;
  cq_NetworkLatencyMs : float }.
Definition compare_request (req : CompareRequest) (plugin : string) : SimulationRequest :=
  MkRequest plugin (cq_InputSizeMB req) (cq_NumWorkers req) (cq_NumChunks req)
    (cq_NetworkLatencyMs req) 1 [] "".

Definition handleCompare (coordAddr masterAddr inputDirEnv : string) (ping : string → bool)
    (env : nat → JobEnv) (req : option CompareRequest) : outcome Response :=
  match req with
  | None => Ret (MkResponse 400 (ErrorBody "invalid request body"))
  | Some req =>
      match cq_Plugins req with
      | [] => Ret (MkResponse 400 (ErrorBody "at least one plugin required"))
      | plugins =>
          let useCluster := negb (bool_decide (coordAddr = "")) &&
                            negb (bool_decide (masterAddr = "")) && ping coordAddr in
          rs ← compare_all env (envOr inputDirEnv "./inputs") useCluster (compare_request req) 0
                 plugins;
          Ret (MkResponse 200 (CompareBody (sort_slice faster rs)))
      end
  end.

(** The events of a stream: the results, then the final event. *)
Fixpoint stream (rand : nat → nat → float) (now : nat → string) (req : SimulationRequest)
    (i n : nat) : outcome (list SimulationResult) :=
  match n with
  | O => Ret []
  | S n => r ← simulate (rand i) (now i) req; rs ← stream rand now req (S i) n; Ret (r :: rs)
  end.
Definition handleSimulateStream (rand : nat → nat → float) (now : nat → string) (flusher : bool)
    (req : option SimulationRequest) : outcome (Response + list SimulationResult) :=
  match req with
  | None => Ret (inl (MkResponse 400 (ErrorBody "invalid request body")))
  | Some req =>
      if negb flusher then Ret (inl (MkResponse 500 (ErrorBody "streaming not supported")))
      else
        let iterations := if Iterations req <=? 0 then 10 else Iterations req in
        inr <$> stream rand now req 0 (Z.to_nat iterations)
  end.

Definition handleStatus (coordAddr masterAddr workerAddrs now : string) (ping : string → bool) :
    Response :=
  let online addr := negb (bool_decide (addr = "")) && ping addr in
  let addrs := filter (λ a, a ≠ "") (TrimSpace <$> Split workerAddrs ",") in
  MkResponse 200 (StatusBody (MkCluster
    (MkStatus "coordinator" coordAddr (online coordAddr))
    (MkStatus "master" masterAddr (online masterAddr))
    ((λ a, MkStatus "worker" a (ping a)) <$> addrs) now)).

Definition handleTrigger (coordAddr : string) (ping : string → bool) : Response :=
  if bool_decide (coordAddr = "") then
    MkResponse 503 (ErrorBody "coordinator address not configured")
  else if negb (ping coordAddr) then
    MkResponse 503 (ErrorBody ("coordinator is not reachable at " +:+ coordAddr))
  else
    MkResponse 200 (TriggerBody "ok"
      ("Coordinator is online at " +:+ coordAddr +:+ ". Use the uploader CLI to submit files.")).

(** An uploaded part: its file name, its content unless it cannot be opened, and how
    much of it is copied. *)
Record Part := MkPart { pt_Filename : string; pt_content : option (list byte); pt_copied : nat }.

Definition save_part (dir : string) (create_fails : string → bool)
    (acc : list FileInfo * gmap string (list byte)) (part : Part) :
    list FileInfo * gmap string (list byte) :=
  match pt_content part with
  | None => acc
  | Some data =>
      let name := Plugins.path_base (pt_Filename part) in
      if bool_decide (name = "") || bool_decide (name = ".") || bool_decide (name = "..") then acc
      else
        let dstPath := Uploader.path_join dir name in
        if create_fails dstPath then acc
        else
          let written := take (pt_copied part) data in
          (acc.1 ++ [MkFileInfo name (Z.of_nat (length written)) "upload"],
           <[dstPath := written]> acc.2)
  end.

(** [parts] is the error of parsing the form, or the parts. *)
Definition handleUpload (uploadDirEnv : string) (mkdir : option string) (create_fails : string → bool)
    (parts : string + list Part) (fs : gmap string (list byte)) :
    Response * gmap string (list byte) :=
  match parts with
  | inl err => (MkResponse 400 (ErrorBody ("failed to parse multipart form: " +:+ err)), fs)
  | inr parts =>
      match mkdir with
      | Some err => (MkResponse 500 (ErrorBody ("cannot create upload directory: " +:+ err)), fs)
      | None =>
          let r := foldl (save_part (envOr uploadDirEnv "./uploads") create_fails) ([], fs) parts in
          (MkResponse 200 (UploadBody r.1), r.2)
      end
  end.

Definition handleFiles (readDir : string → res (list DirEntry)) (inputDirEnv uploadDirEnv : string) :
    Response :=
  let files := listDirFiles (readDir (envOr inputDirEnv "./inputs")) "input" [] in
  let files := listDirFiles (readDir (envOr uploadDirEnv "./uploads")) "upload" files in
  MkResponse 200 (FilesBody files).

(** [corsMiddleware]: a preflight request is answered without the handler. *)
Definition corsMiddleware (method : string) (next : Response) : Response :=
  if bool_decide (method = "OPTIONS") then MkResponse 204 NoBody else next.

End report.

End Dashboard.
