(* ===== verification/DashboardLaws.v ===== *)
(** What the HTTP service of [dashboard/api/main.go] guarantees, and what it does
    not: polling ends, the result files of the master are never understood,
    uploads are reported as complete whatever the coordinator answered, file names
    are confined to the two folders but for one, and a request's mode decides
    between simulation and cluster. *)

From S2P Require Import Prelude GoStrings Ring Json Codec Types Durable Worker Master.
From S2P Require Import Jobs Coordinator Uploader Plugins Simulation Dashboard.
From Stdlib Require Import Ascii.
From stdpp Require Import options.

#[local] Arguments String.append !_ _ / : simpl nomatch.

Module DashboardLaws.
Import GoStrings Codec Types Simulation Dashboard.

#[local] Arguments unmarshal_collated : simpl never.

(** ** One turn of the polling loop *)

Section poll.
Context `{MapOrder}.

Definition completes (reply : Z → res GetJobResultReply) (id : Z) : bool :=
  match reply id with Ok r => gp_Complete r | Err _ => false end.
Definition decoded (reply : Z → res GetJobResultReply) (e : Z * bool) : option collatedResult :=
  match reply e.1 with
  | Ok r => if gp_Complete r then unmarshal_collated (gp_ResultJSON r) else None
  | Err _ => None
  end.

Lemma poll_one_eq reply R P e :
  poll_one reply (R, P) e =
    (R ++ option_list (decoded reply e), if completes reply e.1 then delete e.1 P else P).
Proof.
  unfold poll_one, decoded, completes. destruct (reply e.1) as [r|]; cbn.
  - destruct (gp_Complete r); cbn; [|by rewrite (right_id_L [] (++))].
    destruct (unmarshal_collated (gp_ResultJSON r)); cbn; [done|by rewrite (right_id_L [] (++))].
  - by rewrite (right_id_L [] (++)).
Qed.

Lemma turn_eq reply l R P :
  (foldl (poll_one reply) (R, P) l).1 = R ++ omap (decoded reply) l ∧
  ∀ id, is_Some ((foldl (poll_one reply) (R, P) l).2 !! id) ↔
    is_Some (P !! id) ∧ ¬ (id ∈ l.*1 ∧ completes reply id = true).
Proof.
  revert R P. induction l as [|e l IH]; intros R P; cbn [foldl].
  - cbn. rewrite (right_id_L [] (++)). split; [done|]. set_solver.
  - rewrite poll_one_eq. destruct (IH (R ++ option_list (decoded reply e))
      (if completes reply e.1 then delete e.1 P else P)) as [E Hd].
    rewrite E, <- (assoc_L (++)). split; [by cbn; destruct (decoded reply e)|].
    intros id. rewrite Hd, fmap_cons, elem_of_cons.
    destruct (completes reply e.1) eqn:Ec.
    + rewrite lookup_delete_is_Some. split.
      * intros [[Hne Hs] Hn]. split; [done|]. intros [[->|Hin] Hc]; [done|]. by apply Hn.
      * intros [Hs Hn]. split; [split; [|done]|]; [intros <-; apply Hn; auto|].
        intros [Hin Hc]. apply Hn. auto.
    + split; (intros [Hs Hn]; split; [done|]); intros Hx; apply Hn.
      * destruct Hx as [[->|Hin] Hc]; [by rewrite Ec in Hc|done].
      * destruct Hx as [Hin Hc]. auto.
Qed.

Definition turn (reply : Z → res GetJobResultReply) (P : gmap Z bool) (R : list collatedResult) :=
  foldl (poll_one reply) (R, P) (map_entries P).

Lemma turn_spec reply P R :
  (∃ new, (turn reply P R).1 = R ++ new ∧
     ∀ cr, cr ∈ new ↔ ∃ id r, id ∈ dom P ∧ reply id = Ok r ∧ gp_Complete r = true ∧
       unmarshal_collated (gp_ResultJSON r) = Some cr) ∧
  ∀ id, id ∈ dom (turn reply P R).2 ↔ id ∈ dom P ∧ completes reply id = false.
Proof.
  destruct (turn_eq reply (map_entries P) R P) as [E Hd]. split.
  - exists (omap (decoded reply) (map_entries P)). split; [exact E|]. intros cr.
    rewrite list_elem_of_omap. split.
    + intros ([id b] & Hin & Hdec). rewrite map_entries_perm, elem_of_map_to_list in Hin.
      unfold decoded in Hdec. cbn in Hdec. destruct (reply id) as [r|] eqn:Er; [|done].
      destruct (gp_Complete r) eqn:Ec; [|done]. exists id, r. rewrite elem_of_dom. eauto.
    + intros (id & r & [b Hb]%elem_of_dom & Er & Ec & Hu). exists (id, b).
      rewrite map_entries_perm, elem_of_map_to_list. split; [done|].
      unfold decoded. cbn. by rewrite Er, Ec.
  - intros id. rewrite !elem_of_dom. unfold turn. rewrite Hd.
    split; intros [Hs Hn]; (split; [done|]).
    + destruct (completes reply id) eqn:Ec; [|done]. destruct Hn. split; [|done].
      destruct Hs as [b Hb]. apply list_elem_of_fmap. exists (id, b). split; [done|].
      by rewrite map_entries_perm, elem_of_map_to_list.
    + intros [_ Hc]. congruence.
Qed.

(** ** Termination *)

Definition timed_out (n : Z) : go_error :=
  ErrMsg ("timed out waiting for " +:+ fmt_d n +:+ " handles").

(** [cr] is the decoded first complete answer for one of [ids], before turn [K]. *)
Definition collected (reply : nat → Z → res GetJobResultReply) (ids : gset Z) (k K : nat)
    (cr : collatedResult) : Prop :=
  ∃ id j r, id ∈ ids ∧ (j < K)%nat ∧
    (∀ i, (i < j)%nat → completes (reply (k + i)%nat) id = false) ∧
    reply (k + j)%nat id = Ok r ∧ gp_Complete r = true ∧
    unmarshal_collated (gp_ResultJSON r) = Some cr.

Lemma collected_step reply (P P' : gmap Z bool) k K cr :
  (∀ id, id ∈ dom P' ↔ id ∈ dom P ∧ completes (reply k) id = false) →
  (∃ id r, id ∈ dom P ∧ reply k id = Ok r ∧ gp_Complete r = true ∧
     unmarshal_collated (gp_ResultJSON r) = Some cr) ∨ collected reply (dom P') (S k) K cr ↔
  collected reply (dom P) k (S K) cr.
Proof.
  intros Hdom. split.
  - intros [(id & r & Hid & Er & Ec & Hu)|(id & j & r & Hid & Hj & Hb & Er & Ec & Hu)].
    + exists id, 0%nat, r. rewrite Nat.add_0_r. split_and!; auto; lia.
    + apply Hdom in Hid as [Hid Hk]. exists id, (S j), r. rewrite Nat.add_succ_r.
      split_and!; auto; [lia|]. intros [|i] Hi; [by rewrite Nat.add_0_r|].
      rewrite Nat.add_succ_r. apply Hb. lia.
  - intros (id & [|j] & r & Hid & Hj & Hb & Er & Ec & Hu).
    + left. rewrite Nat.add_0_r in Er. eauto 10.
    + right. exists id, j, r. rewrite Nat.add_succ_r in Er. split_and!; auto; [|lia|].
      * apply Hdom. split; [done|]. rewrite <- (Nat.add_0_r k). apply Hb. lia.
      * intros i Hi. specialize (Hb (S i)). rewrite Nat.add_succ_r in Hb. apply Hb. lia.
Qed.

(** What the loop has reached after [K] more turns from turn [k]. *)
Definition reached (deadline : Z) (clock : nat → Z) (reply : nat → Z → res GetJobResultReply)
    (k K : nat) (P P' : gmap Z bool) (new : list collatedResult) : Prop :=
  (P' = ∅ ∨ deadline < clock (k + K)%nat) ∧
  (∀ id, id ∈ dom P' ↔ id ∈ dom P ∧ ∀ j, (j < K)%nat → completes (reply (k + j)%nat) id = false) ∧
  (∀ cr, cr ∈ new ↔ collected reply (dom P) k K cr).

Definition ending (P : gmap Z bool) : option go_error :=
  if decide (P = ∅) then None else Some (timed_out (Z.of_nat (size P))).

Lemma reached_here deadline clock reply k P :
  P = ∅ ∨ deadline < clock k → reached deadline clock reply k 0 P P [].
Proof.
  intros Hend. split_and!; [by rewrite Nat.add_0_r| |].
  - intros id. split; [intros; split; [done|lia]|tauto].
  - intros cr. split; [intros []%elem_of_nil|intros (? & ? & ? & ? & ? & _); lia].
Qed.

Lemma reached_step deadline clock reply k K P P' R new :
  let t := turn (reply k) P R in
  reached deadline clock reply (S k) K t.2 P' new →
  ∃ new', R ++ new' = t.1 ++ new ∧ reached deadline clock reply k (S K) P P' new'.
Proof.
  intros t (Hend & Hdom & Hnew). destruct (turn_spec (reply k) P R) as [(new1 & E1 & Hnew1) Hdom1].
  exists (new1 ++ new). unfold t. rewrite E1, <- (assoc_L (++)). split; [done|]. split_and!.
  - by rewrite Nat.add_succ_r.
  - intros id. rewrite Hdom. unfold t. rewrite Hdom1. split.
    + intros [[Hid Hk] Hlater]. split; [done|]. intros [|j] Hj; [by rewrite Nat.add_0_r|].
      rewrite Nat.add_succ_r. apply Hlater. lia.
    + intros [Hid Hall]. split; [split; [done|]|].
      * rewrite <- (Nat.add_0_r k). apply Hall. lia.
      * intros j Hj. specialize (Hall (S j)). rewrite Nat.add_succ_r in Hall. apply Hall. lia.
  - intros cr. rewrite elem_of_app, Hnew1, Hnew. by apply collected_step.
Qed.

Lemma poll_loop_spec deadline clock reply n : ∀ k P R fuel,
  deadline < clock (k + n)%nat → (n < fuel)%nat →
  ∃ K P' new,
    poll_loop fuel deadline clock reply k P R = Ret (R ++ new, ending P') ∧
    (K ≤ n)%nat ∧ reached deadline clock reply k K P P' new.
Proof.
  induction n as [|n IH]; intros k P R [|fuel] Hclock Hfuel; try lia; cbn [poll_loop].
  all: destruct (decide (P = ∅)) as [HP|HP];
    [exists 0%nat, P, []; rewrite bool_decide_eq_true_2, (right_id_L [] (++)) by done;
     unfold ending; rewrite decide_True by done;
     split; [done|split; [lia|apply reached_here; auto]]|
     rewrite bool_decide_eq_false_2 by done].
  all: destruct (deadline <? clock k) eqn:Et;
    [apply Z.ltb_lt in Et; exists 0%nat, P, []; rewrite (right_id_L [] (++));
     unfold ending; rewrite decide_False by done;
     split; [done|split; [lia|apply reached_here; auto]]|apply Z.ltb_ge in Et].
  { rewrite Nat.add_0_r in Hclock. lia. }
  cbv zeta. change (foldl _ _ _) with (turn (reply k) P R).
  destruct (IH (S k) (turn (reply k) P R).2 (turn (reply k) P R).1 fuel) as
    (K & P' & new & E & HK & Hr); [by rewrite Nat.add_succ_r in Hclock|lia|].
  apply reached_step in Hr as (new' & E' & Hr). exists (S K), P', new'.
  rewrite E, E'. split; [done|]. split; [lia|exact Hr].
Qed.

Lemma pending_ids (handles : list Handle) (P : gmap Z bool) :
  dom (foldl (λ pending h, <[Id h := true]> pending) P handles) = dom P ∪ list_to_set (Id <$> handles).
Proof.
  revert P. induction handles as [|h handles IH]; intros P; cbn; [set_solver|].
  rewrite IH, dom_insert_L. set_solver.
Qed.

(** C22: polling ends, and what it returns. Once the clock has passed the deadline
    at some turn [n], [pollForResults] returns within [n] turns, whatever the
    master answers: at the first turn [K] where nothing is pending or the deadline
    has passed. It reports an error exactly when some handle has not been
    answered as complete at any of those turns; and the results are the answers
    that could be decoded, of each handle the first complete one. *)
Theorem pollForResults_terminates (fuel n : nat) (start timeout : Z) (clock : nat → Z)
    (reply : nat → Z → res GetJobResultReply) (handles : list Handle) :
  start + timeout < clock n → (n < fuel)%nat →
  ∃ K results err,
    pollForResults fuel start timeout clock reply handles = Ret (results, err) ∧ (K ≤ n)%nat ∧
    (err = None ↔ ∀ h, h ∈ handles → ∃ j, (j < K)%nat ∧ completes (reply j) (Id h) = true) ∧
    (err ≠ None → start + timeout < clock K) ∧
    (∀ cr, cr ∈ results ↔ collected reply (list_to_set (Id <$> handles)) 0 K cr).
Proof.
  intros Hn Hf. unfold pollForResults.
  destruct (poll_loop_spec (start + timeout) clock reply n 0
    (foldl (λ pending h, <[Id h := true]> pending) ∅ handles) [] fuel)
    as (K & P' & new & E & HK & Hend & Hdom & Hnew); [done..|]. unfold ending in E.
  rewrite pending_ids, dom_empty_L, (left_id_L ∅ (∪)) in Hdom, Hnew.
  eexists K, _, _. split; [exact E|]. split; [done|]. split; [|split; [|exact Hnew]].
  - assert (P' = ∅ ↔ ∀ h, h ∈ handles → ∃ j, (j < K)%nat ∧ completes (reply j) (Id h) = true) as <-;
      [|by case_decide].
    rewrite <- dom_empty_iff_L. split.
    + intros HE h Hh. destruct (decide (Exists (λ j, completes (reply j) (Id h) = true) (seq 0 K)))
        as [(j & Hj & Hc)%Exists_exists|Hno].
      { apply elem_of_seq in Hj. exists j. split; [lia|done]. }
      assert (Id h ∈ dom P') as Hin; [|by rewrite HE in Hin]. apply Hdom. split.
      { apply elem_of_list_to_set, list_elem_of_fmap. eauto. }
      intros j Hj. destruct (completes _ _) eqn:Ec; [|done]. destruct Hno.
      apply Exists_exists. exists j. split; [apply elem_of_seq; lia|done].
    + intros Hall. apply elem_of_equiv_empty_L. intros id [Hid Hno]%Hdom.
      apply elem_of_list_to_set, list_elem_of_fmap in Hid as (h & -> & Hh).
      destruct (Hall h Hh) as (j & Hj & Hc). by rewrite (Hno j Hj : completes (reply j) _ = _) in Hc.
  - intros Herr. destruct Hend as [HE|]; [|done]. by rewrite decide_True in Herr.
Qed.

End poll.

(** ** The result files of the master *)

Section misread.
Context `{MapOrder} `{SortSlice} `{Float64}.

Definition collated_text (text : string) : Prop :=
  ∃ h chunks now, text = Json.print_indent 0 (Master.collated_json h chunks now) +:+ Json.nl.

Lemma collated_json_ok h chunks now : Json.json_ok (Master.collated_json h chunks now) = true.
Proof.
  unfold Master.collated_json, Master.handle_json. cbn [Json.json_ok forallb snd].
  rewrite !Json.JInt_ok. cbn [andb]. rewrite andb_true_r. apply forallb_forall.
  intros j (c & <- & _)%in_map_iff. unfold Master.chunk_json. cbn [Json.json_ok forallb snd].
  by rewrite Json.JInt_ok.
Qed.

(** The [handle] of a result file is an object, the dashboard wants a number. *)
Lemma unmarshal_collated_text text : collated_text text → unmarshal_collated text = None.
Proof.
  intros (h & chunks & now & ->). unfold unmarshal_collated.
  rewrite Json.parse_print_indent by apply collated_json_ok.
  unfold Master.collated_json. cbn [Json.norm mbind option_bind fmap list_fmap foldl].
  assert (∀ acc, collated_field (Some acc) (Json.to_valid ("handle", Master.handle_json h).1,
    Json.norm ("handle", Master.handle_json h).2) = None) as -> by reflexivity.
  reflexivity.
Qed.

(** The states of a master that began with an empty result directory. *)
Inductive master_reached : Master.Master → Prop :=
| master_started w d c : master_reached (Master.NewMaster w d c ∅)
| master_submit fl now r m :
    master_reached m → master_reached (Master.RPCSubmitMapReduceResult fl now r m).2
| master_start dfs prefixEnv probe call cancelled sched r m out m' :
    master_reached m →
    Master.RPCStartMapReduce dfs prefixEnv probe call cancelled sched r m = Ret (out, m') →
    master_reached m'.

Lemma begin_dispatch_dir call cancelled targets h file m r m' :
  Master.begin_dispatch call cancelled targets h file m = Ret (r, m') →
  Master.resultDir m' = Master.resultDir m.
Proof.
  unfold Master.begin_dispatch. destruct (Master.dispatch_all _ _ _ _ _ _ _) as [rs| |]; [|done..].
  by intros [= _ <-].
Qed.

Lemma start_job_dir dfs prefixEnv probe call cancelled q m r m' :
  Master.start_job dfs prefixEnv probe call cancelled q m = Ret (r, m') →
  Master.resultDir m' = Master.resultDir m.
Proof.
  unfold Master.start_job, Master.getWorkersForPlugin.
  repeat case_match; try (by intros [= _ <-]); try (intros ->%begin_dispatch_dir; done).
Qed.

Lemma RPCStartMapReduce_dir dfs prefixEnv probe call cancelled sched r m out m' :
  Master.RPCStartMapReduce dfs prefixEnv probe call cancelled sched r m = Ret (out, m') →
  Master.resultDir m' = Master.resultDir m.
Proof.
  unfold Master.RPCStartMapReduce.
  destruct (Master.start_job _ _ _ _ _ _ _) as [[x m1]| |] eqn:E; [|done..].
  apply start_job_dir in E as <-. cbn [mbind outcome_bind fst snd]. intros E%Ret_inj. revert E.
  unfold Master.finish_start, Master.conclude_dispatch. repeat case_match; by intros [= _ <-].
Qed.

Lemma result_files_collated m :
  master_reached m → map_Forall (λ _ text, collated_text text) (Master.resultDir m).
Proof.
  induction 1 as [w d c|fl now r m _ IH|??????? m out m' _ IH E].
  - apply map_Forall_empty.
  - unfold Master.RPCSubmitMapReduceResult, Master.submit_locked, Master.submit_finish.
    repeat case_match; simplify_eq; cbn -[Json.print_indent]; try done;
      try by apply map_Forall_delete.
    apply map_Forall_insert_2; [by eexists _, _, _|by apply map_Forall_delete].
  - by rewrite (RPCStartMapReduce_dir _ _ _ _ _ _ _ _ _ _ E).
Qed.

(** What polling a master gives. *)
Definition from_master (reply : nat → Z → res GetJobResultReply) : Prop :=
  ∀ k id r, reply k id = Ok r →
    ∃ readErr m, master_reached m ∧ r = Master.RPCGetJobResult readErr id m.

Lemma master_answer_unread readErr id m :
  master_reached m → gp_Complete (Master.RPCGetJobResult readErr id m) = true →
  unmarshal_collated (gp_ResultJSON (Master.RPCGetJobResult readErr id m)) = None.
Proof.
  intros Hm. unfold Master.RPCGetJobResult. destruct readErr; [done|].
  destruct (Master.resultDir m !! _) as [text|] eqn:E; [|done]. intros _.
  apply unmarshal_collated_text, (result_files_collated m Hm _ _ E).
Qed.

Lemma poll_one_unread reply k acc e :
  from_master reply → (poll_one (reply k) acc e).1 = acc.1.
Proof.
  intros Hm. unfold poll_one. destruct (reply k e.1) as [r|] eqn:Er; [|done].
  destruct (gp_Complete r) eqn:Ec; [|done]. destruct (Hm _ _ _ Er) as (readErr & m & Hr & ->).
  by rewrite master_answer_unread.
Qed.

Lemma turn_unread reply k l acc :
  from_master reply → (foldl (poll_one (reply k)) acc l).1 = acc.1.
Proof.
  intros Hm. revert acc. induction l as [|e l IH]; intros acc; [done|]. cbn [foldl].
  by rewrite IH, poll_one_unread.
Qed.

Lemma poll_loop_unread fuel deadline clock reply k P R results err :
  from_master reply → poll_loop fuel deadline clock reply k P R = Ret (results, err) → results = R.
Proof.
  intros Hm. revert k P R. induction fuel as [|fuel IH]; intros k P R; [done|]. cbn [poll_loop].
  case_bool_decide; [by intros [= <- _]|]. destruct (_ <? _); [by intros [= <- _]|].
  intros E%IH. by rewrite turn_unread in E.
Qed.

Lemma sort_slice_nil {A} (le : relation A) `{∀ x y, Decision (le x y)} : sort_slice le [] = [].
Proof. apply Permutation_nil_r. apply sort_slice_perm. Qed.
Lemma map_entries_empty {V} : map_entries (∅ : gmap string V) = [].
Proof. apply Permutation_nil_r. by rewrite map_entries_perm, map_to_list_empty. Qed.

(** A job whose polling asks a master. *)
Definition polls_master (env : JobEnv) : Prop :=
  ∀ handles, ∃ fuel start timeout clock reply,
    from_master reply ∧
    v_poll env handles = pollForResults fuel start timeout clock reply handles.

(** C23: the dashboard never sees a result of the cluster. Whatever the master has
    collated, and whenever it is asked, its result files carry the handle as an
    object with an id and a time stamp, while the dashboard decodes a number
    there: every document is dropped without a word. So a job run on the cluster
    that succeeds is reported with no workers, no chunks and no latencies, though
    its output is complete on the master. *)
Theorem cluster_job_reports_nothing (env : JobEnv) (inputDir : string) (req : SimulationRequest)
    (r : SimulationResult) :
  polls_master env → runRealJob env inputDir req = Ret (Ok r) →
  (∀ handles results err, v_poll env handles = Ret (results, err) → results = []) ∧
  r_Workers r = [] ∧ NumWorkers (r_Config r) = 0 ∧ NumChunks (r_Config r) = 0 ∧
  r_Latency r = MkLatency zero zero zero zero zero zero zero zero ∧ r_Mode r = "cluster".
Proof.
  intros Hp Hr.
  assert (∀ handles results err, v_poll env handles = Ret (results, err) → results = []) as Hnone.
  { intros handles results err E. destruct (Hp handles) as (fuel & start & timeout & clock & reply & Hm & Ep).
    rewrite Ep in E. eapply poll_loop_unread; [exact Hm|exact E]. }
  split; [done|]. revert Hr. unfold runRealJob.
  destruct (input_files _ _ _) as [files|]; [|done].
  destruct (v_upload env files) as [[[handles total]|]| |]; [|done..]. cbn [mbind outcome_bind].
  destruct (v_trigger env _) as [t|]; [|done]. case_bool_decide; [done|].
  destruct (v_poll env handles) as [[results [err|]]| |] eqn:E; [done| |done..].
  apply Hnone in E as ->. cbn [mbind outcome_bind]. unfold buildRealResult.
  cbn [foldl fst snd mbind list_bind]. rewrite map_entries_empty. cbn [fmap list_fmap].
  rewrite !sort_slice_nil. cbn [computeLatencyDistribution mbind outcome_bind].
  intros <-%Ret_inj%Ok_inj. split_and!; reflexivity.
Qed.

End misread.

(** ** Sending files *)

Section sending.
Context (client : Uploader.Client (nat * list DownloadRequest)) (grant : nat → Handle).

(** A coordinator that grants handle after handle and receives every record; what
    it answers to a record is left open. *)
Class Receiving := {
  grants g log :
    Uploader.CallGenerateDownloadHandle client (g, log) =
      Ret (Ok (MkHandleReply "success" 0 "" (grant g)), (S g, log));
  receives q g log : ∃ reply,
    Uploader.CallForwardDownload client q (g, log) = Ret (Ok reply, (g, log ++ [q]))
}.
Context `{!Receiving}.

(** The records of a file, as this client makes them. *)
Fixpoint delivered (handle : Handle) (rs : list Uploader.read_result) : list DownloadRequest :=
  match rs with
  | [] => []
  | r :: rs =>
      match Uploader.rd_err r, Uploader.rd_data r with
      | Some Uploader.EOF, d => [MkDownload handle d true]
      | Some (Uploader.ReadErr _), [] => []
      | Some (Uploader.ReadErr _), d => [MkDownload handle d false]
      | None, [] => delivered handle rs
      | None, d => MkDownload handle d false :: delivered handle rs
      end
  end.
Definition volume (qs : list DownloadRequest) : Z := Z.of_nat (length (qs ≫= dr_Data)).

Lemma volume_cons q qs : volume (q :: qs) = Z.of_nat (length (dr_Data q)) + volume qs.
Proof. unfold volume. cbn [mbind list_bind]. rewrite length_app. lia. Qed.

Lemma volume_one q : volume [q] = Z.of_nat (length (dr_Data q)).
Proof. unfold volume. cbn. by rewrite (right_id_L [] (++)). Qed.

Lemma delivered_records handle chunk bytes rs :
  Uploader.reads_to chunk bytes Uploader.EOF rs → delivered handle rs = Uploader.records handle rs.
Proof.
  remember Uploader.EOF as e eqn:Ee. induction 1 as [d Hd| |d bytes e rs Hd _ IH]; [done..|].
  cbn. rewrite IH by done. by destruct d.
Qed.

Lemma delivered_unfinished handle chunk bytes err rs :
  Uploader.reads_to chunk bytes (Uploader.ReadErr err) rs →
  Forall (λ q, dr_Eof q = false) (delivered handle rs).
Proof.
  remember (Uploader.ReadErr err) as e eqn:Ee.
  induction 1 as [|[|b d] err' Hd|[|b d] bytes e rs Hd _ IH]; try done; cbn; auto.
Qed.

Lemma i64_idem a : i64 (i64 a) = i64 a.
Proof. apply i64_small, i64_range. Qed.

Lemma send_reads_delivers path handle chunk bytes e rs total g log :
  Uploader.reads_to chunk bytes e rs →
  send_reads client path handle rs (i64 total) (g, log) =
    Ret (None, i64 (total + volume (delivered handle rs)), (g, log ++ delivered handle rs)).
Proof using All.
  intros Hr. revert total log.
  induction Hr as [d Hd|d err Hd|d bytes e rs Hd _ IH]; intros total log; destruct d as [|b d];
    cbn -[i64 volume]; rewrite ?Z.add_0_r, ?(right_id_L [] (++)).
  1,2: match goal with |- context [Uploader.CallForwardDownload client ?q _] =>
      destruct (receives q g log) as [reply ->] end; cbn -[i64 volume];
    by rewrite ?volume_one, ?i64_idem, ?i64_add_l.
  - done.
  - destruct (receives (MkDownload handle (b :: d) false) g log) as [reply ->]. cbn -[i64 volume].
    by rewrite volume_one, i64_add_l.
  - apply IH.
  - destruct (receives (MkDownload handle (b :: d) false) g log) as [reply ->]. cbn -[i64 volume].
    by rewrite i64_add_l, IH, volume_cons, <- (assoc_L (++)), Z.add_assoc.
Qed.

Lemma upload_from_delivers dial open reads (files : list string) chunk : ∀ i handles total log,
  (∀ j, (i <= j < i + length files)%nat → dial j = None ∧ open j = Ok (reads j) ∧
     ∃ bytes e, Uploader.reads_to chunk bytes e (reads j)) →
  let sent := (λ j, delivered (grant j) (reads j)) <$> seq i (length files) in
  upload_from client dial open i files handles (i64 total) (i, log) =
    Ret (Ok (handles ++ (grant <$> seq i (length files)), i64 (total + volume (concat sent))),
         ((i + length files)%nat, log ++ concat sent)).
Proof using All.
  induction files as [|path files IH]; intros i handles total log Hf; cbn zeta.
  - cbn -[i64]. by rewrite Nat.add_0_r, Z.add_0_r, !(right_id_L [] (++)).
  - destruct (Hf i) as (Hd & Ho & bytes & e & Hr); [cbn; lia|].
    cbn [upload_from]. rewrite Hd, grants. cbn [mbind outcome_bind hp_ErrorCode].
    rewrite bool_decide_eq_true_2 by done. cbn [negb]. rewrite Ho. cbn [hp_Handle].
    rewrite (send_reads_delivers _ _ _ _ _ _ _ _ _ Hr). cbn [mbind outcome_bind].
    rewrite IH by (intros j Hj; apply Hf; cbn; lia). cbn [length seq fmap list_fmap concat].
    rewrite <- !(assoc_L (++)). cbn [app]. do 2 f_equal; [do 2 f_equal|].
    + f_equal. unfold volume. rewrite bind_app, length_app. lia.
    + f_equal. lia.
Qed.

(** C39: the dashboard's upload does not look at what it is told. Whatever the
    coordinator answers to the records - a refusal included - the upload of files
    that can be opened returns success, with one handle per file in order and the
    number of bytes it read. For a file read to its end the records are those the
    command-line uploader sends. For a file whose reading fails, success is
    returned as well, and no record ends it: the coordinator never takes the
    handle for processing. *)
Theorem dashboard_upload_unchecked (chunk : Z) (dial : nat → option go_error)
    (open : nat → res (list Uploader.read_result)) (reads : nat → list Uploader.read_result)
    (files : list string) :
  (∀ j, (j < length files)%nat → dial j = None ∧ open j = Ok (reads j) ∧
     ∃ bytes e, Uploader.reads_to chunk bytes e (reads j)) →
  let sent := (λ j, delivered (grant j) (reads j)) <$> seq 0 (length files) in
  uploadFilesToCoordinator client dial open files (0%nat, []) =
    Ret (Ok (grant <$> seq 0 (length files), i64 (volume (concat sent))),
         (length files, concat sent)) ∧
  ∀ j bytes e, Uploader.reads_to chunk bytes e (reads j) →
    match e with
    | Uploader.EOF => delivered (grant j) (reads j) = Uploader.records (grant j) (reads j)
    | Uploader.ReadErr _ => Forall (λ q, dr_Eof q = false) (delivered (grant j) (reads j))
    end.
Proof using All.
  intros Hf sent. split.
  - unfold uploadFilesToCoordinator. change 0 with (i64 0) at 1.
    apply (upload_from_delivers dial open reads files chunk 0 [] 0 []).
    intros j Hj. apply Hf. lia.
  - intros j bytes [|err] Hr; [by eapply delivered_records|by eapply delivered_unfinished].
Qed.

End sending.

(** ** File names *)

Definition plain (s : string) : Prop :=
  string_forall (λ c, negb (bool_decide (c = "/"%char))) s = true.

Lemma Split_plain s w : w ∈ Split s "/" → plain w.
Proof.
  revert w. induction s as [|c s IH]; intros w; cbn [Split].
  - intros ->%list_elem_of_singleton. done.
  - case_bool_decide as Hc; [intros [->|Hw]%elem_of_cons; [done|by apply IH]|].
    assert (plain (String c "")) as Hone.
    { unfold plain. cbn. by rewrite bool_decide_eq_false_2. }
    destruct (Split s "/") as [|w' ws]; [by intros ->%list_elem_of_singleton|].
    intros [->|Hw]%elem_of_cons; [|apply IH; by right].
    assert (plain w') as Hw' by (apply IH; by left). unfold plain in *. cbn in *.
    rewrite Hw', andb_true_r. by rewrite andb_true_r in Hone.
Qed.

Lemma Split_nonnil s : Split s "/" ≠ [].
Proof. destruct s as [|c s]; cbn; [done|]. case_bool_decide; [done|]. by destruct (Split s _). Qed.

Lemma Split_app a b : Split (a +:+ String "/" b) "/" = Split a "/" ++ Split b "/".
Proof.
  induction a as [|c a IH]; cbn -[Split]; [by cbn|]. cbn [Split]. rewrite IH.
  case_bool_decide; [done|]. pose proof (Split_nonnil a). by destruct (Split a "/").
Qed.

Lemma Split_one s : plain s → Split s "/" = [s].
Proof.
  unfold plain. induction s as [|c s IH]; cbn; [done|]. intros [Hc Hs]%andb_prop.
  rewrite IH by done. by case_bool_decide.
Qed.

Lemma path_base_plain p : Plugins.path_base p = "/" ∨ plain (Plugins.path_base p).
Proof.
  unfold Plugins.path_base. case_bool_decide; [by right|]. case_bool_decide; [by left|]. right.
  destruct (last _) as [w|] eqn:E; [|done]. eapply Split_plain, last_Some_elem_of, E.
Qed.

Lemma Split_last a c w :
  c ≠ "/"%char → last (Split (a +:+ String c "") "/") = Some w → w ≠ "".
Proof.
  intros Hc. revert w. induction a as [|d a IH]; intros w; cbn [String.append Split].
  - rewrite bool_decide_eq_false_2 by done. by intros [= <-].
  - pose proof (Split_nonnil (a +:+ String c "")) as Hn.
    destruct (Split (a +:+ String c "") "/") as [|w1 ws]; [done|].
    case_bool_decide; [apply IH|]. destruct ws as [|w2 ws]; [by intros [= <-]|apply IH].
Qed.

Lemma TrimLeft_head s cut : TrimLeft s cut = "" ∨ ∃ c t, TrimLeft s cut = String c t ∧ c ∉ cut.
Proof.
  induction s as [|c s IH]; cbn; [by left|]. case_bool_decide; [done|]. right. eauto.
Qed.

Lemma path_base_nonempty p : Plugins.path_base p ≠ "".
Proof.
  unfold Plugins.path_base. case_bool_decide; [done|]. case_bool_decide as Hq; [done|].
  destruct (last _) as [w|] eqn:E.
  - cbn. destruct (TrimLeft_head (string_rev p) ["/"%char]) as [E0|(c & t & E0 & Hc)].
    + unfold TrimRight in Hq. by rewrite E0 in Hq.
    + unfold TrimRight in E. rewrite E0, string_rev_cons in E. eapply Split_last; [|exact E].
      set_solver.
  - apply last_None in E. by apply Split_nonnil in E.
Qed.

(** The elements of a clean path, and an entry of a folder. *)
Definition components (p : string) : list string :=
  rev (foldl (Coordinator.clean_step (HasPrefix p "/")) [] (Split p "/")).
Definition entry (dir name : string) : string :=
  (if HasPrefix dir "/" then "/" else "") +:+ Join (components dir ++ [name]) "/".

Lemma Join_snoc_nonempty l name : name ≠ "" → Join (l ++ [name]) "/" ≠ "".
Proof.
  intros Hn. induction l as [|w l IH]; [done|]. cbn.
  destruct (l ++ [name]) eqn:E; [by destruct l|]. rewrite <- E in *. by destruct w.
Qed.

Lemma path_join_entry dir name :
  dir ≠ "" → plain name → name ≠ "" → name ≠ "." → name ≠ ".." →
  Uploader.path_join dir name = entry dir name.
Proof.
  intros Hdir Hp H0 H1 H2. unfold Uploader.path_join. rewrite bool_decide_eq_false_2 by done.
  unfold Coordinator.path_clean.
  assert (HasPrefix (dir +:+ "/" +:+ name) "/" = HasPrefix dir "/") as ->.
  { destruct dir as [|c dir]; [done|]. unfold HasPrefix. cbn. case_match; [by destruct dir|done]. }
  change (dir +:+ "/" +:+ name) with (dir +:+ String "/" name).
  rewrite Split_app, (Split_one name), foldl_snoc by done. cbv zeta.
  assert (∀ r st, Coordinator.clean_step r st name = name :: st) as ->.
  { intros r st. unfold Coordinator.clean_step. by rewrite !bool_decide_eq_false_2. }
  cbn [rev]. fold (components dir). fold (entry dir name).
  rewrite bool_decide_eq_false_2; [done|]. unfold entry.
  pose proof (Join_snoc_nonempty (components dir) name H0). by destruct (HasPrefix dir "/").
Qed.

(** The path of a name in a folder: an entry of the folder, or a name that
    [filepath.Join] resolves. *)
Definition confined (dir name p : string) : Prop :=
  let base := Plugins.path_base name in
  p = Uploader.path_join dir base ∧
  (base = "." ∨ base = ".." ∨ base = "/" ∨ plain base ∧ p = entry dir base).

Lemma join_confined dir name :
  dir ≠ "" → confined dir name (Uploader.path_join dir (Plugins.path_base name)).
Proof.
  intros Hdir. pose proof (path_base_nonempty name). split; [done|].
  destruct (decide (Plugins.path_base name = ".")); [by left|].
  destruct (decide (Plugins.path_base name = "..")); [by right; left|].
  do 2 right. destruct (path_base_plain name) as [|Hp]; [by left|]. right.
  split; [done|]. by apply path_join_entry.
Qed.

Lemma resolve_one_spec exists_ dirs name p :
  resolve_one exists_ dirs name = Some p →
  exists_ p = true ∧ ∃ dir, dir ∈ dirs ∧ p = Uploader.path_join dir (Plugins.path_base name).
Proof.
  unfold resolve_one. intros E%head_Some_elem_of.
  apply list_elem_of_filter in E as [Hp (dir & -> & Hd)%list_elem_of_fmap].
  split; [by apply Is_true_true|]. eauto.
Qed.

Lemma save_part_changes dir create_fails parts acc p :
  dir ≠ "" →
  (foldl (save_part dir create_fails) acc parts).2 !! p ≠ acc.2 !! p →
  ∃ part, part ∈ parts ∧ Plugins.path_base (pt_Filename part) ≠ "." ∧
    Plugins.path_base (pt_Filename part) ≠ ".." ∧ confined dir (pt_Filename part) p.
Proof.
  intros Hdir. revert acc. induction parts as [|part parts IH]; intros acc; [done|]. cbn [foldl].
  destruct (decide ((save_part dir create_fails acc part).2 !! p = acc.2 !! p)) as [E|Hne].
  - rewrite <- E. intros (part' & Hin & Hrest)%IH. exists part'. split; [by right|done].
  - intros _. exists part. split; [by left|]. revert Hne. unfold save_part.
    destruct (pt_content part) as [data|]; [|done].
    case_bool_decide; [done|]. case_bool_decide; [done|]. case_bool_decide; [done|].
    cbn [orb]. destruct (create_fails _); [done|]. cbn [snd]. intros Hne.
    destruct (decide (p = Uploader.path_join dir (Plugins.path_base (pt_Filename part)))) as [->|Hp].
    + split_and!; [done..|]. by apply join_confined.
    + by rewrite lookup_insert_ne in Hne.
Qed.

Section names.
Context `{MapOrder} `{SortSlice} `{Float64}.

(** C40: file names are stripped to their last element. An upload only creates or
    changes entries of the upload folder, whatever the names in the form - the one
    exception is a name made of slashes, which stands for the folder itself. The
    names in a request for a job are looked up in the two folders and stripped as
    well; but there the names [..] and [.] are not refused, so a request can name
    the parent of the input folder. *)
Theorem file_names_confined :
  (∀ uploadDirEnv mkdir create_fails parts fs (p : string),
     (handleUpload uploadDirEnv mkdir create_fails parts fs).2 !! p ≠ fs !! p →
     ∃ name, confined (envOr uploadDirEnv "./uploads") name p ∧
       Plugins.path_base name ≠ "." ∧ Plugins.path_base name ≠ "..") ∧
  (∀ exists_ names dirs p, Forall (.≠ "") dirs → p ∈ resolveFileNames exists_ names dirs →
     exists_ p = true ∧ ∃ dir name, dir ∈ dirs ∧ name ∈ names ∧ confined dir name p) ∧
  (∀ exists_, exists_ "." = true →
     resolveFileNames exists_ ["pg/.."] ["./inputs"; "./uploads"] = ["."]).
Proof.
  split_and!.
  - intros uploadDirEnv mkdir create_fails parts fs p. unfold handleUpload.
    destruct parts as [err|parts]; [done|]. destruct mkdir as [err|]; [done|]. cbn [snd].
    intros (part & _ & H1' & H2' & Hc)%save_part_changes; [by exists (pt_Filename part)|].
    unfold envOr. case_bool_decide; [done|by cbn].
  - intros exists_ names dirs p Hdirs (name & Hname & E)%list_elem_of_omap.
    apply resolve_one_spec in E as (He & dir & Hd & ->). split; [done|]. exists dir, name.
    rewrite Forall_forall in Hdirs. split_and!; [done..|]. by apply join_confined, Hdirs.
  - intros exists_ He. unfold resolveFileNames. cbn [omap list_omap].
    assert (resolve_one exists_ ["./inputs"; "./uploads"] "pg/.." = Some ".") as ->; [|done].
    unfold resolve_one. cbn [fmap list_fmap].
    assert (Uploader.path_join "./inputs" (Plugins.path_base "pg/..") = ".") as -> by (by vm_compute).
    rewrite filter_cons_True by (by rewrite He). done.
Qed.

End names.

(** ** Requests *)

Section requests.
Context `{Float64} `{MapOrder} `{SortSlice}.

Lemma report_labels rand now p req intermediate shuffle ws loads reduceLoads latencies k r :
  report rand now p req intermediate shuffle ws loads reduceLoads latencies k = Ret r →
  r_Plugin r = Plugin req ∧ r_Mode r = "simulation".
Proof.
  unfold report. destruct (computeLatencyDistribution _) as [latency| |]; [|done..].
  cbn [mbind outcome_bind]. intros <-%Ret_inj. by split.
Qed.

Lemma simulate_labels rand now req r :
  simulate rand now req = Ret r → r_Plugin r = Plugin req ∧ r_Mode r = "simulation".
Proof.
  unfold simulate. destruct (_ <? 0); [done|]. intros [-> ->]%report_labels. by split.
Qed.

Lemma runRealJob_labels env inputDir req r :
  runRealJob env inputDir req = Ret (Ok r) → r_Plugin r = Plugin req ∧ r_Mode r = "cluster".
Proof.
  unfold runRealJob. destruct (input_files _ _ _) as [files|]; [|done].
  destruct (v_upload env files) as [[[handles total]|]| |]; [|done..]. cbn [mbind outcome_bind].
  destruct (v_trigger env _) as [t|]; [|done]. case_bool_decide; [done|].
  destruct (v_poll env handles) as [[results [err|]]| |]; [done| |done..]. cbn [mbind outcome_bind].
  unfold buildRealResult. destruct (computeLatencyDistribution _) as [latency| |]; [|done..].
  cbn [mbind outcome_bind]. intros <-%Ret_inj%Ok_inj. by split.
Qed.

Definition reachable (coordAddr masterAddr : string) (ping : string → bool) : bool :=
  negb (bool_decide (coordAddr = "")) && negb (bool_decide (masterAddr = "")) && ping coordAddr.

Lemma simulated_response rand now req resp :
  (r ← simulate rand now req; Ret (MkResponse 200 (ResultBody r))) = Ret resp →
  ∃ r, resp = MkResponse 200 (ResultBody r) ∧ r_Plugin r = Plugin req ∧ r_Mode r = "simulation".
Proof.
  destruct (simulate rand now req) as [r| |] eqn:E; [|done..]. cbn [mbind outcome_bind].
  intros <-%Ret_inj. exists r. split; [done|]. by eapply simulate_labels.
Qed.

(** What a request for a run is answered. A result is marked with the way it
    was obtained, and that is the cluster exactly when simulation was not asked
    for, both addresses are set, the coordinator answers and the job succeeds: its
    result is then the job's. A request for the cluster is never answered by a
    simulation: it fails with 503 when the cluster is not there and with 500 and
    the job's error when the job fails. Only a request that is simulated from the
    start can be refused with 400; one that falls back to simulation after a failed
    job is simulated even when its plugin is unknown. *)
Theorem handleSimulate_modes (coordAddr masterAddr inputDirEnv : string) (ping : string → bool)
    (env : JobEnv) (req : SimulationRequest) (resp : Response) :
  handleSimulate coordAddr masterAddr inputDirEnv ping env (Some req) = Ret resp →
  let available := reachable coordAddr masterAddr ping in
  let job := runRealJob env (envOr inputDirEnv "./inputs") req in
  match payload resp with
  | ResultBody r =>
      code resp = 200 ∧ r_Plugin r = Plugin req ∧
      (r_Mode r = "cluster" ∧ Mode req ≠ "simulation" ∧ available = true ∧ job = Ret (Ok r) ∨
       r_Mode r = "simulation" ∧ Mode req ≠ "cluster" ∧
         (Mode req = "simulation" ∨ available = false ∨ ∃ e, job = Ret (Err e)))
  | ErrorBody msg =>
      code resp = 400 ∧ pluginProfiles !! Plugin req = None ∧ Mode req ≠ "cluster" ∧
        (Mode req = "simulation" ∨ available = false) ∨
      code resp = 503 ∧ Mode req = "cluster" ∧ available = false ∨
      code resp = 500 ∧ Mode req = "cluster" ∧ available = true ∧
        ∃ e, job = Ret (Err e) ∧ msg = Master.error_text e
  | _ => False
  end.
Proof.
  cbv zeta. unfold handleSimulate. fold (reachable coordAddr masterAddr ping).
  set (job := runRealJob _ _ _). set (available := reachable _ _ _).
  destruct (decide (Mode req = "simulation")) as [Hs|Hs].
  { assert (Mode req ≠ "cluster") as Hc by congruence.
    rewrite (bool_decide_eq_true_2 (Mode req = "simulation")) by done. cbn [orb].
    destruct (pluginProfiles !! Plugin req) eqn:Ep.
    - intros (r & -> & Hp & Hm)%simulated_response. cbn. auto 10.
    - intros <-%Ret_inj. cbn. auto 10. }
  rewrite (bool_decide_eq_false_2 (Mode req = "simulation")) by done. cbn [orb].
  destruct (decide (Mode req = "cluster")) as [Hc|Hc].
  - rewrite (bool_decide_eq_true_2 (Mode req = "cluster")) by done. cbn [negb andb].
    destruct available; cbn [negb]; [|intros <-%Ret_inj; cbn; auto 10].
    destruct job as [[r|e]| |] eqn:Ej; [| |done..]; cbn [mbind outcome_bind].
    + apply runRealJob_labels in Ej as [Hp Hm]. intros <-%Ret_inj. cbn. auto 10.
    + intros <-%Ret_inj. cbn. eauto 10.
  - rewrite (bool_decide_eq_false_2 (Mode req = "cluster")) by done. cbn [negb andb].
    destruct available; cbn [negb].
    + destruct job as [[r|e]| |] eqn:Ej; [| |done..]; cbn [mbind outcome_bind].
      * apply runRealJob_labels in Ej as [Hp Hm]. intros <-%Ret_inj. cbn. auto 10.
      * intros (r & -> & Hp & Hm)%simulated_response. cbn. eauto 10.
    + destruct (pluginProfiles !! Plugin req) eqn:Ep.
      * intros (r & -> & Hp & Hm)%simulated_response. cbn. auto 10.
      * intros <-%Ret_inj. cbn. auto 10.
Qed.

Lemma compare_all_plugins env inputDir useCluster template i plugins rs :
  (∀ plugin, Plugin (template plugin) = plugin) →
  compare_all env inputDir useCluster template i plugins = Ret rs → r_Plugin <$> rs = plugins.
Proof.
  intros Ht. revert i rs. induction plugins as [|plugin plugins IH]; intros i rs; cbn [compare_all].
  { by intros <-%Ret_inj. }
  match goal with |- (mbind _ ?x) = _ → _ => destruct x as [r| |] eqn:Er end; [|done..].
  cbn [mbind outcome_bind]. destruct (compare_all _ _ _ _ _ _) as [rs'| |] eqn:Ers; [|done..].
  cbn [mbind outcome_bind]. intros <-%Ret_inj. cbn. rewrite (IH _ _ Ers). f_equal.
  rewrite <- (Ht plugin). destruct useCluster; [|by eapply simulate_labels].
  destruct (runRealJob _ _ _) as [[r'|e]| |] eqn:Ej; [| |done..]; cbn [mbind outcome_bind] in Er.
  - apply Ret_inj in Er as <-. by eapply runRealJob_labels.
  - by eapply simulate_labels.
Qed.

Lemma stream_length rand now req i n rs : stream rand now req i n = Ret rs → length rs = n.
Proof.
  revert i rs. induction n as [|n IH]; intros i rs; cbn [stream]; [by intros <-%Ret_inj|].
  destruct (simulate _ _ _) as [r| |]; [|done..]. cbn [mbind outcome_bind].
  destruct (stream _ _ _ _ _) as [rs'| |] eqn:E; [|done..]. cbn [mbind outcome_bind].
  intros <-%Ret_inj. cbn. by rewrite (IH _ _ E).
Qed.

(** A comparison answers with one result for every plugin of the request,
    repetitions included, whatever becomes of the cluster jobs, and nothing else;
    the results are in ascending order of their durations when comparing durations
    is a total preorder. A stream has one event for every iteration, ten when the
    request does not say. *)
Theorem comparisons_are_complete :
  (∀ coordAddr masterAddr inputDirEnv ping (env : nat → JobEnv) req resp,
     handleCompare coordAddr masterAddr inputDirEnv ping env (Some req) = Ret resp →
     cq_Plugins req ≠ [] →
     ∃ rs, resp = MkResponse 200 (CompareBody rs) ∧ r_Plugin <$> rs ≡ₚ cq_Plugins req ∧
       (Total faster → Transitive faster → StronglySorted faster rs)) ∧
  (∀ rand now req rs,
     handleSimulateStream rand now true (Some req) = Ret (inr rs) →
     Z.of_nat (length rs) = if Iterations req <=? 0 then 10 else Iterations req).
Proof.
  split.
  - intros coordAddr masterAddr inputDirEnv ping env req resp. unfold handleCompare.
    destruct (cq_Plugins req) as [|plugin plugins] eqn:Ep; [done|]. cbv zeta.
    destruct (compare_all _ _ _ _ _ _) as [rs| |] eqn:Ers; [|done..]. cbn [mbind outcome_bind].
    intros <-%Ret_inj _. eexists. split; [done|]. split.
    + rewrite sort_slice_perm. by rewrite (compare_all_plugins _ _ _ (compare_request req) _ _ _ (λ _, eq_refl) Ers).
    + intros Ht Htr. by apply sort_slice_sorted.
  - intros rand now req rs. unfold handleSimulateStream. cbn [negb]. cbv zeta.
    destruct (stream _ _ _ _ _) as [rs'| |] eqn:E; [|done..]. cbn. intros [= <-].
    apply stream_length in E as ->. destruct (Z.leb_spec (Iterations req) 0); lia.
Qed.

End requests.

(** ** Witnesses *)

#[local] Existing Instance canonical_order.
#[local] Existing Instance merge_sort_slice.
#[local] Existing Instance fixed_point.

(** A DFS whose only content file has one chunk. *)
Definition example_small_dfs : Master.DFS :=
  Master.MkDFS (λ path, if bool_decide (path = Jobs.example_path) then Ok (Some (Master.MkInfo 3 1))
                        else Err (ErrMsg "not found")) (λ _ i, Ok (100 + i)) 4.

(** A master that has collated a job of one chunk. *)
Definition collated_master : Master.Master :=
  (Master.RPCSubmitMapReduceResult Master.no_result_faults "now" (Jobs.example_result 0 "a 1")
     (match Master.RPCStartMapReduce example_small_dfs "" (λ _, None)
              (λ _ q, Ok (Worker.RPCMapReduce q)) (λ _, false) [0%nat] Jobs.example_request
              (Master.NewMaster "w1:1, w2:1" "" "c:1" ∅) with
      | Ret (_, m) => m
      | _ => Jobs.example_master
      end)).2.

Definition example_replies (k : nat) (id : Z) : res GetJobResultReply :=
  match k with
  | O => Err (ErrMsg "connection refused")
  | _ => Ok (Master.RPCGetJobResult None id collated_master)
  end.
Definition example_clock (k : nat) : Z := Z.of_nat k * 1000000000.

Lemma collated_master_reached : master_reached collated_master.
Proof.
  apply master_submit. destruct (Master.RPCStartMapReduce _ _ _ _ _ _ _ _) as [[[reply sent] m]| |] eqn:E.
  - eapply master_start; [|exact E]. apply master_started.
  - vm_compute in E. discriminate.
  - vm_compute in E. discriminate.
Qed.

Lemma example_from_master : from_master example_replies.
Proof.
  intros [|k] id r; [done|]. intros <-%Ok_inj. exists None, collated_master.
  split; [apply collated_master_reached|done].
Qed.

(** The master answers the second time; the answer is complete. *)
Lemma example_poll :
  pollForResults 10 0 120000000000 example_clock example_replies [Jobs.example_handle] = Ret ([], None).
Proof. vm_compute. reflexivity. Qed.

Lemma pollForResults_terminates_witness :
  ∃ K results err,
    pollForResults 200 0 120000000000 example_clock example_replies [Jobs.example_handle] =
      Ret (results, err) ∧ (K ≤ 121)%nat ∧ (err ≠ None → 120000000000 < example_clock K).
Proof.
  destruct (pollForResults_terminates 200 121 0 120000000000 example_clock example_replies
    [Jobs.example_handle]) as (K & results & err & E & HK & _ & Herr & _).
  - reflexivity.
  - lia.
  - exists K, results, err. split; [exact E|]. split; [exact HK|exact Herr].
Defined.

Definition example_env : JobEnv :=
  MkEnv (λ _, Err (ErrMsg "not used")) (λ _, true) "./uploads"
    (λ _, Ret (Ok ([Jobs.example_handle], 6))) (λ _, Ok (MkTriggerReply "ok" "" 1))
    (pollForResults 10 0 120000000000 example_clock example_replies)
    0 500000000 700000000 2000000000 example_rand "now" (λ _, Some 1500000000).
Definition example_job : SimulationRequest := MkRequest "wc" 0 0 0 0 1 ["a.txt"] "cluster".

Lemma example_job_runs :
  match runRealJob example_env "./inputs" example_job with
  | Ret (Ok r) => length (r_CpuOverTime r)
  | _ => 0%nat
  end = 51%nat.
Proof. vm_compute. reflexivity. Qed.

Lemma cluster_job_reports_nothing_witness :
  ∃ r, runRealJob example_env "./inputs" example_job = Ret (Ok r) ∧ r_Workers r = [].
Proof.
  pose proof example_job_runs as E.
  destruct (runRealJob _ _ _) as [[r|]| |] eqn:Er; [|done..]. exists r. split; [done|].
  refine (proj1 (proj2 (cluster_job_reports_nothing example_env "./inputs" example_job r _ Er))).
  intros handles. exists 10%nat, 0, 120000000000, example_clock, example_replies.
  split; [apply example_from_master|done].
Defined.

(** A coordinator that refuses every record. *)
Definition refusing_client : Uploader.Client (nat * list DownloadRequest) :=
  Uploader.MkClient
    (λ w, Ret (Ok (MkHandleReply "success" 0 "" (MkHandle (Z.of_nat w.1) 50)), (S w.1, w.2)))
    (λ q w, Ret (Ok (MkDownloadReply "error" 500 "buffer full"), (w.1, w.2 ++ [q]))).
#[local] Instance refusing_receives :
  Receiving refusing_client (λ g, MkHandle (Z.of_nat g) 50).
Proof. split; [done|]. intros q g log. by eexists. Qed.

(** The first file is read to its end, the second fails. *)
Definition example_files (j : nat) : list Uploader.read_result :=
  match j with
  | O => [Uploader.MkRead ["a"; "b"]%char None; Uploader.MkRead ["c"]%char (Some Uploader.EOF)]
  | _ => [Uploader.MkRead ["d"]%char None; Uploader.MkRead [] (Some (Uploader.ReadErr (ErrMsg "io")))]
  end.

Lemma dashboard_upload_unchecked_witness :
  ∃ total sent,
    uploadFilesToCoordinator refusing_client (λ _, None) (λ j, Ok (example_files j)) ["x"; "y"]
      (0%nat, []) = Ret (Ok ([MkHandle 0 50; MkHandle 1 50], total), (2%nat, sent)) ∧
    total = 4 ∧ dr_Eof <$> sent = [false; true; false].
Proof.
  destruct (dashboard_upload_unchecked refusing_client (λ g, MkHandle (Z.of_nat g) 50) 2
    (λ _, None) (λ j, Ok (example_files j)) example_files ["x"; "y"]) as [E _].
  - intros j Hj. split; [done|]. split; [done|]. destruct j as [|j].
    + exists ["a"; "b"; "c"]%char, Uploader.EOF.
      apply (Uploader.reads_more 2 ["a"; "b"]%char ["c"]%char); [done|].
      apply (Uploader.reads_end 2 ["c"]%char); cbn; lia.
    + exists ["d"]%char, (Uploader.ReadErr (ErrMsg "io")).
      apply (Uploader.reads_more 2 ["d"]%char []); [cbn; lia|]. apply Uploader.reads_fail; cbn; lia.
  - eexists _, _. split; [exact E|]. split; vm_compute; reflexivity.
Defined.

Lemma example_response :
  match handleSimulate "c:1" "m:1" "" (λ _, true) example_env (Some example_job) with
  | Ret resp => code resp
  | _ => 0
  end = 200.
Proof. vm_compute. reflexivity. Qed.

Lemma handleSimulate_modes_witness :
  ∃ resp, handleSimulate "c:1" "m:1" "" (λ _, true) example_env (Some example_job) = Ret resp ∧
    match payload resp with
    | ResultBody r => r_Mode r = "cluster" ∨ r_Mode r = "simulation"
    | ErrorBody msg => code resp ≠ 200
    | _ => False
    end.
Proof.
  pose proof example_response as E.
  destruct (handleSimulate _ _ _ _ _ _) as [resp| |] eqn:Er; [|done..]. exists resp. split; [done|].
  pose proof (handleSimulate_modes "c:1" "m:1" "" (λ _, true) example_env example_job resp Er) as Hm.
  clear E Er. destruct (payload resp) as [msg| |r| | | | | |].
  - by destruct Hm as [[-> _]|[[-> _]|[-> _]]].
  - exact Hm.
  - destruct Hm as (_ & _ & [[Hm _]|[Hm _]]); [by left|by right].
  - exact Hm.
  - exact Hm.
  - exact Hm.
  - exact Hm.
  - exact Hm.
  - exact Hm.
Defined.

End DashboardLaws.
